(* ===== verification/_CoqProject ===== *)
-Q . S2P
Prelude.v
Protobuf.v
Domain.v
Es.v
Control.v
Ledger.v
LedgerSM.v
LedgerProps.v
LedgerTheorems.v
Crypto.v
Numeric.v
RaftLog.v
Disk.v
DiskProps.v
Segment.v
SegmentProps.v
SegmentOps.v
SegmentCrash.v
SegmentLog.v
SegmentLogProps.v
SegmentLogOps.v
SegmentLogCut.v
SegmentLogInit.v
SegmentRun.v
SegmentMeta.v
SegmentTheorems.v
RaftCore.v
RaftHandlers.v
RaftCluster.v
RaftReplication.v
RaftSpec.v
RaftSafety.v
RaftSteps.v
RaftRefine.v
RaftReceive.v
RaftDurable.v
RaftService.v
RaftTheorems.v
RaftDurableTheorems.v
RaftServiceTheorems.v
Pipeline.v
CommandLoop.v
CommandProps.v
CommandTheorems.v
AsyncLoad.v
AsyncProgress.v
AsyncTheorems.v
LogSync.v
LogSyncProps.v
LogSyncTheorems.v
Queue.v
RocksSM.v
RocksProps.v
RocksTheorems.v
Strings.v
ClusterInfo.v
ClusterTheorems.v
Snapshot.v
SnapshotProps.v
SnapshotTheorems.v
SQLite.v
SQLiteProps.v
SQLiteReplay.v
SQLiteTheorems.v
NetAdmin.v
ApplyLoop.v
ApplyProps.v
ApplyInv.v
ApplyTheorems.v
NetAdminTheorems.v
Receiver.v
ReceiverTheorems.v
System.v
SystemTheorems.v
