(* ===== verification/Prelude.v ===== *)
(** * MySuperLedger: a verification development

    MySuperLedger is a replicated double-entry ledger.  A gRPC request becomes a
    command; the leader's command process loop turns the command into events by
    the ledger state machine, encrypts both into a Raft log entry and hands it to
    the Raft core; the reply loop answers the client when the entry is committed.
    On every node an event apply loop reads the committed entries back and
    applies the events to a state machine backed by RocksDB, which recovers from
    it after a crash and is handed over when the node becomes leader.  Accounts
    can be moved between clusters by split commands.

    Sources are under src/src; paths below are relative to it.

    ** Parts

    Shared code
    - Prelude.v: the error monad [result] (assertions are active in the release
      build, so an assertion, an [exit], an uncaught exception and undefined
      behaviour are results [Fail]), [uint64_t] arithmetic, sums over maps.
    - Protobuf.v: a generated message class, as the class [Proto].
    - Strings.v, Numeric.v: strings; [std::to_string], [std::stoull],
      [std::stoll], [std::stoi].
    - Crypto.v: infra/util/CryptoUtil over the class [OpenSSL].

    The ledger
    - Domain.v: app_ledger/should_be_generated/domain: amounts, accounts,
      metadata, journal entries at their 64-bit width.
    - Es.v: infra/es: metadata of commands and events.
    - Control.v: app_util/control: routes, control state, split.
    - Ledger.v: commands, events, codecs, request call data.
    - LedgerSM.v: app_ledger/v2/AppStateMachine: [processCommand],
      [applyEvent].
    - LedgerProps.v: the chart-of-accounts invariant, the verdict on a journal
      entry, the trial balance, totality.  LedgerTheorems.v: the theorems.
    - RocksSM.v, RocksProps.v, RocksTheorems.v: the RocksDB-backed state machine
      over the class [RocksDB]; recovery after a crash, the hand-over.

    Raft
    - RaftLog.v: infra/raft/storage/Log.h as the class [Log], its specification
      as the class [LogSpec] over [LogView], and InMemoryLog.h.
    - Disk.v, DiskProps.v: the log directory as a map from file names to
      contents; infra/util/FileUtil; what of the mapped writes a crash may lose.
    - Segment.v, SegmentLog.v: infra/raft/storage/Segment and SegmentLog, every
      operation from the directory at start-up to truncation, with the order of
      its writes, msyncs and renames.  SegmentProps.v, SegmentOps.v,
      SegmentLogProps.v, SegmentLogOps.v, SegmentLogCut.v, SegmentLogInit.v:
      what files and object say of the entries, operation by operation.
      SegmentCrash.v, SegmentRun.v: crashes and runs.  SegmentMeta.v: what a crash
      leaves of term and vote.  SegmentTheorems.v: the theorems.
    - RaftCore.v: infra/raft/v2/RaftCore: one definition per handler, over any
      [Log].
    - RaftCluster.v: nodes in a network that loses, copies and reorders messages
      and nodes that restart; the election invariant.  RaftHandlers.v: what each
      handler does to term, vote and role.  RaftReplication.v: what a handler
      does to the log.  RaftTheorems.v: the theorems of elections and of single
      handlers.
    - RaftSpec.v: Raft as an abstract state machine over terms, roles, logs,
      commit indices and the messages ever sent.  RaftSafety.v: its invariant,
      over ghost logs of the leaders of every term; RaftSteps.v: every step keeps
      it.  RaftRefine.v, RaftReceive.v: every handler is a sequence of its steps.
      RaftDurable.v: the cluster whose restarts find what was stored, a crash in
      the middle of an append included, and its simulation.
      RaftDurableTheorems.v: the theorems of replication.
    - RaftService.v: infra/raft/v2/RaftService: how a request of a peer goes
      through the completion queue and the main loop by raw pointers, over a
      heap; the client's calls.  RaftServiceTheorems.v: memory safety and order.

    The pipeline
    - Pipeline.v: infra/raft/RaftLogStore and
      infra/es/store/ReadonlyRaftCommandEventStore.
    - CommandLoop.v: infra/raft/RaftReplyLoop, infra/es/store/
      RaftCommandEventStore and the command process loop.
    - CommandProps.v, CommandTheorems.v: their lemmas and theorems.
    - AsyncLoad.v: the threads of ReadonlyRaftCommandEventStore that load and
      decrypt entries for the event apply loop, and their invariant.
      AsyncProgress.v, AsyncTheorems.v: progress and theorems.
    - ApplyLoop.v: app_util/EventApplyLoop over the class [ApplyMachine];
      ApplyProps.v: the accounts and metadata after the first committed entries
      as reference, the condition [log_ok] on the log;
      ApplyInv.v: the loop against it, with its hand-overs, recoveries and
      restarts.  ApplyTheorems.v: the theorems.
    - LogSync.v: app_util/sync and infra/raft/StreamingService: copying the log
      of another cluster up to a split command, with the Raft core that receives
      it; LogSyncProps.v: its invariant; LogSyncTheorems.v: the theorems.
    - Snapshot.v: infra/es/store/SnapshotUtil and the binary streams of
      infra/util/FileUtil; SnapshotProps.v, SnapshotTheorems.v: their lemmas and
      theorems.
    - SQLite.v: the standalone mode: infra/es/store/SQLiteStoreDao,
      SQLiteCommandEventStore and its reader over the class [SQLite], replay and
      recovery of app_util/CommandProcessLoop.h.  SQLiteProps.v: what the tables
      hold after any steps; SQLiteReplay.v: what a replay finds;
      SQLiteTheorems.v: the theorems, with a SQLite in memory.
    - ClusterInfo.v, ClusterTheorems.v: infra/util/ClusterInfo and
      app_util/AppInfo.
    - NetAdmin.v, NetAdminTheorems.v: app_util/NetAdminServer over the class
      [NetAdminServiceProvider], with the provider of the ledger.
    - Receiver.v: app_ledger/should_be_generated/app/RequestReceiver.cpp and the
      objects of calldatas: the life of a request over a heap, through the
      completion queue, the command queue, the process loop and the reply loop;
      ReceiverTheorems.v: its theorem.
    - System.v: one run of the cluster with the apply loops that load from its
      nodes and the reply loop that reads them; SystemTheorems.v: the theorems
      about all of it, with a run of three nodes from two commands to two replicas.
    - Queue.v: infra/mpscqueue/MpscDoubleBufferQueue, with its invariant and
      theorems.

    Interaction goes through classes: the Raft core is proved against [LogSpec],
    which [InMemoryLog] implements; the ledger against [LedgerProtos], of which
    LedgerTheorems.v has an instance; the RocksDB-backed machine against
    [RocksDB], of which RocksTheorems.v has an instance.

    ** What is shown

    - Raft: the cluster refines the abstract machine; what two nodes have
      committed at an index is the same entry at any two points of a run; every
      later leader has it; no node ever loses it; logs match.  At most one leader
      per term; terms and votes are stable; clients are answered exactly for
      committed entries.
    - The system: replicas never diverge, whatever nodes and points of a run they
      load from; what a client is told has succeeded is part of the accounts and
      metadata of every replica that has reached its entry.
    - Requests: each request that arrives is answered exactly once, its object is
      never used after it is freed and never leaks, through shutdown.
    - Ledger: a run of verified commands returns, or stops at an account of an
      unnamed type or at a split that makes cluster 0 new, and nowhere else; the
      answer to a journal entry is the one of an independent specification; the
      trial balance is conserved modulo 2^64; an entry is recorded once; what a
      replica decodes of an event does there what it did on the leader, but for
      the second journal entry, which aborts it; commands, events and control
      state survive encoding.
    - Pipeline: what replicas decode of the leader's entries is what is persisted
      of its commands and events; ids are the indices Raft expects; the queue is first-in first-out in every interleaving.
    - RocksDB: recovery gives the accounts and metadata at the recovered index for
      any flush schedule; control state and recorded ids are not recovered.
    - Event apply loop: in every interleaving of the threads of its store it is
      handed the committed bundles in order, and never gets stuck; through turns,
      hand-overs and restarts each committed command takes effect exactly once on
      accounts and metadata; nothing but the refusal of an event by the ledger
      stops the loop, and it catches up with what is loaded unless it is so
      stopped.
    - Log sync: a copy never fails a step, never goes past the split command of
      its plan and reaches it; the handover makes the core a follower that begins
      right behind it.
    - Raft service: no step of the server uses a freed object, none leaks, and
      requests are handled in the order they arrive.
    - Standalone mode: the file holds a prefix of the accepted entries whatever
      fails, and a restart replays exactly those behind its snapshot, for commands
      of one event whose payloads have no null character.
    - Around the core: a crash while a snapshot is taken leaves the old or the new
      snapshot; a
      configuration is read back as written; requests of the administrator
      exclude each other and are answered once.
    - Storage: the segmented log is the abstract sequence of entries through
      every run of operations and restarts, in whatever order the directory is
      listed; a crash during an append loses no old entry and keeps a prefix of
      the new ones; term and vote survive the end of the process, and after a
      failure of the machine are those of some earlier point; the HMAC passes
      exactly what a known key signed.
    - Defects the model exposes are theorems too: the lost id of an encoded
      journal entry, an entry larger than a segment, requests that stop the server, a wake-up
      lost at shutdown, a split that is not handed over, two ways in which a second
      target for the log sync goes wrong, requests of the administrator that stop
      the node, a snapshot after which standalone mode cannot store, crashes
      that leave a log directory no start accepts.

    ** Assumptions

    - Crashes.  A process may be killed at any point: what it has written to files,
      mapped or not, is there for the next one.  A machine may fail at any point:
      of what has not been synced any part may be lost, and since the code syncs
      files but never a directory, any of the renames and new names, too
      (Disk.v, [crash_image] and [process_image]; Snapshot.v, [crashes_to] and
      [killed_to]).  The runs of RaftCluster.v and RaftDurable.v restart killed
      processes: a node finds the term and the vote it had stored.  After a
      failure of the machine it may not, by [term_and_vote_crash].
    - The log of the apply loop.  Its theorems, and those of the system, are about
      committed logs such as leaders make ([log_ok]: the keys decrypt the entries,
      the id of a command is the index of its entry, events are well formed;
      [made_log_ok] shows it of what [make_request] makes), and databases of nodes
      that had never run.  Nothing is asked of what the events do: an event the
      ledger refuses stops the loop.
    - Libraries.  Protobuf, OpenSSL, RocksDB and SQLite are classes with what they
      document, each with an instance for the examples.  SQLite gives the rows of a
      query without ORDER BY in any order.

    ** Bounds and fuel

    Values the code keeps in [uint64_t] and does arithmetic on (amounts,
    balances, ids, epochs) are integers modulo 2^64.  Raft indices and terms are
    unbounded: a log of 2^64 entries is out of reach.  Loops recurse on the list
    they run over; the loops [while (true)] of InMemoryLog, [ready_scan] and
    Segment carry as fuel the number of iterations the code allows itself, so
    running out of it is leaving the loop, and their specifications state the
    result outright.

    ** Not modelled

    - The safety of replication is proved for runs without the administrator's
      truncation of a log prefix (RaftCore_truncatePrefix is modelled, and the
      election theorems cover it): the node relation of RaftRefine.v is for logs
      from index 1.
    - The construction and start-up of App: wiring and its benchmark.  Between
      nodes the network of RaftCluster.v stands for the transport.
    - PerfConfig, monitoring and the maintenance tools: numbers read from a
      configuration, counters, executables of their own.
    - Metrics, traces and log output: no effect on the state. *)
From stdpp Require Export sorting strings.
From stdpp Require Export base tactics numbers list gmap.
From stdpp Require Import fin_maps.

(** ** Code that can stop

    The release build keeps [assert] active (CMakeLists.txt drops -DNDEBUG),
    so an assertion is part of the behaviour: it aborts the process.  The other
    ways a function fails to return are [exit(1)], an exception nobody catches
    ([std::map::at]) and undefined behaviour (an out-of-range vector access). *)
Inductive fault :=
  | AssertFailure
  | ExitFailure
  | OutOfRange
  | Thrown
  | UndefinedBehaviour.

Inductive result (A : Type) :=
  | Ret (a : A)
  | Fail (e : fault).
Arguments Ret {A} a.
Arguments Fail {A} e.

#[export] Instance fault_eq_dec : EqDecision fault.
Proof. solve_decision. Defined.

#[export] Instance result_mret : MRet result := @Ret.
#[export] Instance result_mbind : MBind result := λ A B f m,
  match m with Ret a => f a | Fail e => Fail e end.
#[export] Instance result_fmap : FMap result := λ A B f m,
  match m with Ret a => Ret (f a) | Fail e => Fail e end.

(** [assert(b)] *)
Definition cassert (b : bool) : result unit :=
  if b then Ret tt else Fail AssertFailure.

(** A range-based [for] loop over a vector, with an accumulator. *)
Fixpoint foldM {A B : Type} (f : B → A → result B) (b : B) (l : list A) : result B :=
  match l with
  | [] => Ret b
  | a :: l => b' ← f b a; foldM f b' l
  end.

(** The completed computations: [ok m] is [true] when [m] returns. *)
Definition ok {A} (m : result A) : bool :=
  match m with Ret _ => true | Fail _ => false end.

Lemma bind_Ret {A B} (m : result A) (f : A → result B) b :
  m ≫= f = Ret b ↔ ∃ a, m = Ret a ∧ f a = Ret b.
Proof.
  destruct m as [a|e]; simpl; split.
  - eauto.
  - intros (a' & [= <-] & H); exact H.
  - intros [=].
  - intros (? & [=] & _).
Qed.

Lemma cassert_Ret b u : cassert b = Ret u ↔ b = true.
Proof. destruct b, u; simpl; split; congruence. Qed.

Lemma cassert_bind {B} b (k : unit → result B) r :
  cassert b ≫= k = Ret r ↔ b = true ∧ k tt = Ret r.
Proof.
  destruct b; simpl; split; try tauto; try congruence.
  intros [? ?]; congruence.
Qed.

Lemma foldM_app {A B} (f : B → A → result B) b l1 l2 :
  foldM f b (l1 ++ l2) = foldM f b l1 ≫= λ b', foldM f b' l2.
Proof.
  revert b; induction l1 as [|a l1 IH]; intros b; simpl; [done|].
  destruct (f b a) as [b'|e]; simpl; [apply IH|done].
Qed.

(** Invariants of a loop. *)
Lemma foldM_ind {A B} (P : B → Prop) (f : B → A → result B) l b b' :
  (∀ b a b', P b → a ∈ l → f b a = Ret b' → P b') →
  P b → foldM f b l = Ret b' → P b'.
Proof.
  revert b; induction l as [|a l IH]; simpl; intros b Hstep Hb.
  - intros [= <-]; exact Hb.
  - intros (b1 & Hf & Hl)%bind_Ret.
    eapply (IH b1); [|eapply Hstep; [exact Hb| |exact Hf]|exact Hl].
    + intros x y z Hx Hy; eapply Hstep; [exact Hx|set_solver].
    + set_solver.
Qed.

(** A loop returns when every iteration returns and keeps the invariant. *)
Lemma foldM_total {A B} (P : B → Prop) (f : B → A → result B) l b :
  (∀ b a, P b → a ∈ l → ∃ b', f b a = Ret b' ∧ P b') →
  P b → ∃ b', foldM f b l = Ret b' ∧ P b'.
Proof.
  revert b; induction l as [|a l IH]; simpl; intros b Hstep Hb; [eauto|].
  destruct (Hstep b a Hb) as (b1 & -> & Hb1); [set_solver|]; simpl.
  apply IH; [|exact Hb1]. intros x y Hx Hy; apply Hstep; [exact Hx|set_solver].
Qed.

(** Decompose hypotheses [m = Ret _] of the monad. *)
Ltac inv_ret :=
  repeat match goal with
  | H : Ret _ = Ret _ |- _ => injection H; clear H; intros; subst
  | H : Fail _ = Ret _ |- _ => discriminate H
  | H : Ret _ = Fail _ |- _ => discriminate H
  | H : mret _ = Ret _ |- _ => unfold mret, result_mret in H
  | H : cassert _ = Ret _ |- _ => apply cassert_Ret in H
  | H : cassert _ ≫= _ = Ret _ |- _ =>
      apply cassert_bind in H; destruct H as [? H]; cbv beta in H
  | H : _ ≫= _ = Ret _ |- _ =>
      apply bind_Ret in H; destruct H as (? & ? & H); cbv beta in H
  end.

(** Case analysis on the condition a computation branches on. *)
Ltac split_if H :=
  match type of H with
  | (if ?b then _ else _) = _ => let E := fresh "E" in destruct b eqn:E
  | (if ?b then _ else _) ≫= _ = _ => let E := fresh "E" in destruct b eqn:E
  end.

(** ** 64-bit unsigned integers

    A [uint64_t] is a [Z] in the range [0, 2^64); conversions to it and its
    arithmetic wrap around. *)
Definition two64 : Z := 2 ^ 64.

Definition u64 (z : Z) : Z := z `mod` two64.

Definition in_u64 (z : Z) : Prop := (0 ≤ z < two64)%Z.

Declare Scope u64_scope.
Delimit Scope u64_scope with u64.
Notation "a +ᵤ b" := (u64 (a + b)) (at level 50, left associativity) : u64_scope.
Notation "a -ᵤ b" := (u64 (a - b)) (at level 50, left associativity) : u64_scope.
Open Scope u64_scope.

Lemma u64_range z : in_u64 (u64 z).
Proof. unfold in_u64, u64, two64. apply Z.mod_pos_bound. lia. Qed.

Lemma u64_small z : in_u64 z → u64 z = z.
Proof. unfold in_u64, u64. apply Z.mod_small. Qed.

Lemma u64_idemp z : u64 (u64 z) = u64 z.
Proof. apply u64_small, u64_range. Qed.

(** Equality modulo 2^64, the equivalence under which 64-bit sums are exact. *)
Definition eq64 (a b : Z) : Prop := u64 a = u64 b.
Infix "≡₆₄" := eq64 (at level 70) : u64_scope.

#[export] Instance eq64_equiv : Equivalence eq64.
Proof. split; unfold eq64; repeat intro; congruence. Qed.

#[export] Instance eq64_add : Proper (eq64 ==> eq64 ==> eq64) Z.add.
Proof.
  intros a b Hab c d Hcd; unfold eq64, u64 in *.
  rewrite (Z.add_mod a c), (Z.add_mod b d), Hab, Hcd by (unfold two64; lia); done.
Qed.

#[export] Instance eq64_sub : Proper (eq64 ==> eq64 ==> eq64) Z.sub.
Proof.
  intros a b Hab c d Hcd; unfold eq64, u64 in *.
  rewrite (Zminus_mod a c), (Zminus_mod b d), Hab, Hcd; done.
Qed.

#[export] Instance eq64_mul : Proper (eq64 ==> eq64 ==> eq64) Z.mul.
Proof.
  intros a b Hab c d Hcd; unfold eq64, u64 in *.
  rewrite (Zmult_mod a c), (Zmult_mod b d), Hab, Hcd; done.
Qed.

#[export] Instance eq64_opp : Proper (eq64 ==> eq64) Z.opp.
Proof. intros a b Hab. rewrite <- !Z.sub_0_l. rewrite Hab. reflexivity. Qed.

Lemma eq64_u64 z : u64 z ≡₆₄ z.
Proof. apply u64_idemp. Qed.

Lemma eq64_range a b : in_u64 a → in_u64 b → a ≡₆₄ b → a = b.
Proof. unfold eq64; intros Ha Hb; rewrite !u64_small; done. Qed.

(** [uint32_t] *)
Definition u32 (z : Z) : Z := z `mod` 2 ^ 32.

(** [int64_t], in two's complement. *)
Definition i64 (z : Z) : Z :=
  let r := u64 z in if (r <? 2 ^ 63)%Z then r else (r - two64)%Z.

Definition in_i64 (z : Z) : Prop := (- 2 ^ 63 ≤ z < 2 ^ 63)%Z.

(** Converting to [uint64_t] and back keeps an [int64_t]. *)
Lemma i64_u64 z : in_i64 z → i64 (u64 z) = z.
Proof.
  unfold in_i64, i64. rewrite u64_idemp. intros Hz. unfold u64, two64.
  destruct (Z.ltb_spec (z `mod` 2 ^ 64) (2 ^ 63)) as [H|H];
    Z.to_euclidean_division_equations; lia.
Qed.

Create HintDb ledger.
#[export] Hint Resolve u64_range u64_small eq64_u64 : ledger.

(** ** Sums over finite maps *)
Section map_sum.
Context {K A : Type} `{Countable K}.
Implicit Types (m : gmap K A) (f : K → A → Z).

Definition map_sum f m : Z := map_fold (λ k a acc, f k a + acc)%Z 0%Z m.

Lemma map_sum_empty f : map_sum f ∅ = 0%Z.
Proof. apply map_fold_empty. Qed.

Lemma map_sum_insert_None f m k a :
  m !! k = None → map_sum f (<[k := a]> m) = (f k a + map_sum f m)%Z.
Proof.
  intros Hk. unfold map_sum.
  rewrite map_fold_insert_L; [done| |exact Hk].
  intros; lia.
Qed.

Lemma map_sum_insert_Some f m k a b :
  m !! k = Some b → map_sum f (<[k := a]> m) = (map_sum f m + f k a - f k b)%Z.
Proof.
  intros Hk. rewrite <- (insert_delete_eq m k a).
  rewrite map_sum_insert_None by apply lookup_delete_eq.
  rewrite <- (insert_id m k b Hk) at 2. rewrite <- (insert_delete_eq m k b).
  rewrite map_sum_insert_None by apply lookup_delete_eq. lia.
Qed.
End map_sum.

Lemma map_Forall_iff {K A} `{Countable K} (P Q : K → A → Prop) (m : gmap K A) :
  (∀ k a, P k a ↔ Q k a) → map_Forall P m ↔ map_Forall Q m.
Proof. intros HPQ. split; intros Hm k a Hk; apply HPQ, Hm, Hk. Qed.

(** A test over all entries of a map, in any order. *)
Lemma existsb_map_to_list {K A} `{Countable K} (f : K * A → bool) (m : gmap K A) :
  existsb f (map_to_list m) = false ↔ map_Forall (λ k a, f (k, a) = false) m.
Proof.
  rewrite map_Forall_to_list. induction (map_to_list m) as [|[k a] l IH]; simpl.
  - split; [constructor|done].
  - rewrite orb_false_iff, IH, Forall_cons. done.
Qed.

Lemma forallb_map_to_list {K A} `{Countable K} (f : K * A → bool) (m : gmap K A) :
  forallb f (map_to_list m) = true ↔ map_Forall (λ k a, f (k, a) = true) m.
Proof.
  rewrite map_Forall_to_list. induction (map_to_list m) as [|[k a] l IH]; simpl.
  - split; [constructor|done].
  - rewrite andb_true_iff, IH, Forall_cons. done.
Qed.

(** ** Sorting in descending order, filters *)
Definition descending (x y : Z) : Prop := (y ≤ x)%Z.
#[export] Instance descending_dec : RelDecision descending.
Proof. intros a b. unfold descending. apply _. Defined.
#[export] Instance descending_trans : Transitive descending.
Proof. intros x y z. unfold descending. lia. Qed.
#[export] Instance descending_total : Total descending.
Proof. intros x y. unfold descending. lia. Qed.

Lemma filter_keeps_all {A} (P : A → Prop) `{∀ x, Decision (P x)} (xs : list A) :
  (∀ x, x ∈ xs → P x) → filter P xs = xs.
Proof.
  induction xs as [|x xs IH]; intros Hall; [done|].
  rewrite filter_cons_True by (apply Hall; by left). f_equal. apply IH. intros y Hy. apply Hall. by right.
Qed.

Lemma filter_drops_all {A} (P : A → Prop) `{∀ x, Decision (P x)} (xs : list A) :
  Forall (λ x, ~ P x) xs → filter P xs = [].
Proof. induction 1; [done|]. by rewrite filter_cons_False. Qed.
