(* ===== verification/Protobuf.v ===== *)
(** * Protocol buffer messages

    The message classes are generated by [protoc]; the code under src/ only
    calls their accessors and their two serialisation functions.  A message is
    represented by the record of the values its accessors return, and the
    serialisation functions are the operations of the class [Proto], whose only
    law is the documented round trip of the wire format. *)
From Stdlib Require Import Ascii String.
From S2P Require Import Prelude.

(** [ParseFromString] returns the [bool] of the C++ function and the message
    it filled; most callers ignore the [bool].  The empty string is the
    encoding of a message whose fields all have their default values. *)
Class Proto (M : Type) := {
  default_instance : M;
  SerializeAsString : M → string;
  ParseFromString : string → bool * M;
  ParseFromString_SerializeAsString m :
    ParseFromString (SerializeAsString m) = (true, m);
  ParseFromString_empty : ParseFromString EmptyString = (true, default_instance);
}.

Lemma SerializeAsString_empty `{Proto M} (m : M) :
  SerializeAsString m = EmptyString → m = default_instance.
Proof.
  intros He. pose proof (ParseFromString_SerializeAsString m) as Hm.
  rewrite He, ParseFromString_empty in Hm. congruence.
Qed.

(** ** Instances of [Proto]

    They show that the law of [Proto] can be met: numbers in binary with a full
    stop behind them, strings and lists with their length in front, records field
    by field. *)
Class Packed (A : Type) := {
  pack : A → string;
  unpack : string → option (A * string);
  unpack_pack a rest : unpack (pack a +:+ rest) = Some (a, rest);
}.
#[global] Hint Mode Packed ! : typeclass_instances.

Fixpoint pack_positive (p : positive) : string :=
  match p with
  | xH => "."
  | xO p => String "0"%char (pack_positive p)
  | xI p => String "1"%char (pack_positive p)
  end.

Fixpoint unpack_positive (s : string) : option (positive * string) :=
  match s with
  | EmptyString => None
  | String c s =>
      if Ascii.eqb c "."%char then Some (xH, s)
      else '(p, rest) ← unpack_positive s; Some (if Ascii.eqb c "0"%char then xO p else xI p, rest)
  end.

Lemma unpack_pack_positive p rest : unpack_positive (pack_positive p +:+ rest) = Some (p, rest).
Proof. induction p as [p IH|p IH|]; simpl; [by rewrite IH..|done]. Qed.

Lemma append_cons x a b : String x a +:+ b = String x (a +:+ b).
Proof. done. Qed.

Lemma append_assoc a b c : (a +:+ b) +:+ c = a +:+ (b +:+ c).
Proof. induction a as [|x a IH]; [done|]. by rewrite !append_cons, IH. Qed.

(** Numbers, booleans and enumerations, through [Countable]. *)
#[export] Instance countable_packed `{Countable A} : Packed A | 100.
Proof.
  refine {| pack a := pack_positive (encode a);
    unpack s := '(p, rest) ← unpack_positive s; a ← decode p; Some (a, rest) |}.
  intros a rest. rewrite unpack_pack_positive. simpl. by rewrite decode_encode.
Defined.

Fixpoint split_string (n : nat) (s : string) : option (string * string) :=
  match n, s with
  | O, _ => Some (EmptyString, s)
  | S n, String c s => '(a, rest) ← split_string n s; Some (String c a, rest)
  | S _, EmptyString => None
  end.

Lemma split_string_append a rest : split_string (String.length a) (a +:+ rest) = Some (a, rest).
Proof. induction a as [|c a IH]; simpl; [done|by rewrite IH]. Qed.

#[export] Instance string_packed : Packed string.
Proof.
  refine {| pack a := pack (String.length a) +:+ a; unpack s := '(n, rest) ← unpack s; split_string n rest |}.
  intros a rest. rewrite append_assoc, unpack_pack. apply split_string_append.
Defined.

#[export] Instance pair_packed `{Packed A, Packed B} : Packed (A * B).
Proof.
  refine {| pack x := pack x.1 +:+ pack x.2;
    unpack s := '(a, s) ← unpack s; '(b, s) ← unpack s; Some ((a, b), s) |}.
  intros [a b] rest. simpl. rewrite append_assoc, unpack_pack. simpl. by rewrite unpack_pack.
Defined.

Fixpoint unpack_list `{Packed A} (n : nat) (s : string) : option (list A * string) :=
  match n with
  | O => Some ([], s)
  | S n => '(a, s) ← unpack s; '(l, s) ← unpack_list n s; Some (a :: l, s)
  end.

Lemma unpack_list_pack `{Packed A} (l : list A) rest :
  unpack_list (length l) (foldr (λ a s, pack a +:+ s) rest l) = Some (l, rest).
Proof. induction l as [|a l IH]; simpl; [done|]. rewrite unpack_pack. simpl. by rewrite IH. Qed.

Lemma foldr_append `{Packed A} (l : list A) rest :
  foldr (λ a s, pack a +:+ s) EmptyString l +:+ rest = foldr (λ a s, pack a +:+ s) rest l.
Proof. induction l as [|a l IH]; simpl; [done|by rewrite append_assoc, IH]. Qed.

#[export] Instance list_packed `{Packed A} : Packed (list A).
Proof.
  refine {| pack l := pack (length l) +:+ foldr (λ a s, pack a +:+ s) EmptyString l;
    unpack s := '(n, s) ← unpack s; unpack_list n s |}.
  intros l rest. rewrite append_assoc, unpack_pack. simpl. rewrite foldr_append. apply unpack_list_pack.
Defined.

(** A record through its fields, and an optional value as a list. *)
Definition packed_via {M A : Type} `{Packed A} (f : M → A) (g : A → M) (Hfg : ∀ m, g (f m) = m) : Packed M.
Proof.
  refine {| pack m := pack (f m); unpack s := '(a, rest) ← unpack s; Some (g a, rest) |}.
  intros m rest. rewrite unpack_pack. simpl. by rewrite Hfg.
Defined.

#[export] Instance option_packed `{Packed A} : Packed (option A).
Proof.
  apply (packed_via (M := option A) (λ o, match o with Some a => [a] | None => [] end) (λ l : list A, head l)). by intros [].
Defined.

Definition packed_Proto (M : Type) `{Packed M} (dflt : M) : Proto M.
Proof.
  refine {|
    default_instance := dflt;
    SerializeAsString m := String "0"%char (pack m);
    ParseFromString s :=
      match s with
      | EmptyString => (true, dflt)
      | String _ s => match unpack s with Some (m, _) => (true, m) | None => (false, dflt) end
      end
  |}.
  - intros m. assert (Hm := unpack_pack m EmptyString). replace (pack m +:+ EmptyString) with (pack m) in Hm; [by rewrite Hm|].
    clear Hm. induction (pack m) as [|c s IH]; [done|]. by rewrite append_cons, <- IH.
  - done.
Defined.
