(* ===== verification/Domain.v ===== *)
(** * Domain objects of the ledger

    src/src/app_ledger/should_be_generated/domain: account and transaction
    types, [Amount], [Balance], [Account], [AccountMetadata], [JournalLine] and
    [JournalEntry], with their conversions from and to the messages of
    ledger.proto.

    ledger.proto itself is a git submodule.  The records [protos_*] hold the
    values of the accessors the code calls; [u64] at every read is the implicit
    conversion to the [uint64_t] member that receives the value. *)
From S2P Require Import Prelude Protobuf.
Open Scope Z_scope.

(** ** Messages of ledger.proto, by their accessors *)

(** A generated enum of proto3 is open: a message may carry a number the schema
    does not name, here [..Other]. *)
Inductive protos_AccountType :=
  | pUnknownAccountType | pAsset | pLiability | pCapital | pIncome
  | pCostOfGoodsSold | pExpense | pOtherAccountType (n : Z).

Inductive protos_TransactionType :=
  | pUnknownTransactionType | pDebit | pCredit | pOtherTransactionType (n : Z).

Record protos_Amount := mk_protos_Amount {
  pAmount_version : Z; pAmount_value : Z }.
Record protos_Balance := mk_protos_Balance {
  pBalance_version : Z; pBalance_value : Z }.
Record protos_Account := mk_protos_Account {
  pAccount_version : Z; pAccount_type : protos_AccountType;
  pAccount_balance : protos_Balance; pAccount_nominal_code : Z;
  pAccount_name : string; pAccount_desc : string; pAccount_iso4217 : Z }.
Record protos_AccountMetadata := mk_protos_AccountMetadata {
  pAccountMetadata_version : Z; pAccountMetadata_type : protos_AccountType;
  pAccountMetadata_low : Z; pAccountMetadata_high : Z }.
Record protos_JournalLine := mk_protos_JournalLine {
  pJournalLine_version : Z; pJournalLine_nominal_code : Z;
  pJournalLine_type : protos_TransactionType; pJournalLine_amount : protos_Amount;
  pJournalLine_iso4217 : Z; pJournalLine_ref_data : string }.
Record protos_JournalEntry := mk_protos_JournalEntry {
  pJournalEntry_version : Z; pJournalEntry_id : string;
  pJournalEntry_valid_time : Z; pJournalEntry_record_time : Z;
  pJournalEntry_purpose : string;
  pJournalEntry_lines : list protos_JournalLine }.

(** The default instances of proto3: zeros, empty strings, empty lists. *)
Definition protos_Amount_default := mk_protos_Amount 0 0.
Definition protos_Balance_default := mk_protos_Balance 0 0.
Definition protos_Account_default :=
  mk_protos_Account 0 pUnknownAccountType protos_Balance_default 0 EmptyString EmptyString 0.
Definition protos_AccountMetadata_default :=
  mk_protos_AccountMetadata 0 pUnknownAccountType 0 0.
Definition protos_JournalLine_default :=
  mk_protos_JournalLine 0 0 pUnknownTransactionType protos_Amount_default 0 EmptyString.
Definition protos_JournalEntry_default :=
  mk_protos_JournalEntry 0 EmptyString 0 0 EmptyString [].

(** ** AccountType, TransactionType *)
Inductive AccountType :=
  | Unknown | Asset | Liability | Capital | Income | CostOfGoodsSold | Expense.

#[export] Instance AccountType_eq_dec : EqDecision AccountType.
Proof. solve_decision. Defined.

(** The numbers the [enum class] gives its constants. *)
Definition AccountType_to_int (t : AccountType) : Z :=
  match t with
  | Unknown => 0 | Asset => 1 | Liability => 2 | Capital => 3
  | Income => 4 | CostOfGoodsSold => 5 | Expense => 6
  end.

#[export] Instance AccountType_countable : Countable AccountType.
Proof.
  refine (inj_countable AccountType_to_int
    (λ z, if z =? 0 then Some Unknown else if z =? 1 then Some Asset
          else if z =? 2 then Some Liability else if z =? 3 then Some Capital
          else if z =? 4 then Some Income else if z =? 5 then Some CostOfGoodsSold
          else if z =? 6 then Some Expense else None) _).
  by intros [].
Defined.

Definition AccountTypeUtil_typeOf (p : protos_AccountType) : AccountType :=
  match p with
  | pUnknownAccountType => Unknown
  | pAsset => Asset
  | pLiability => Liability
  | pCapital => Capital
  | pIncome => Income
  | pCostOfGoodsSold => CostOfGoodsSold
  | pExpense => Expense
  | pOtherAccountType _ => Unknown
  end.

Definition AccountTypeUtil_toType (t : AccountType) : protos_AccountType :=
  match t with
  | Unknown => pUnknownAccountType
  | Asset => pAsset
  | Liability => pLiability
  | Capital => pCapital
  | Income => pIncome
  | CostOfGoodsSold => pCostOfGoodsSold
  | Expense => pExpense
  end.

Inductive TransactionType := UnknownTransaction | Debit | Credit.

#[export] Instance TransactionType_eq_dec : EqDecision TransactionType.
Proof. solve_decision. Defined.

Definition TransactionTypeUtil_typeOf (p : protos_TransactionType) : TransactionType :=
  match p with
  | pUnknownTransactionType => UnknownTransaction
  | pDebit => Debit
  | pCredit => Credit
  | pOtherTransactionType _ => UnknownTransaction
  end.

Definition TransactionTypeUtil_toType (t : TransactionType) : protos_TransactionType :=
  match t with
  | UnknownTransaction => pUnknownTransactionType
  | Debit => pDebit
  | Credit => pCredit
  end.

(** Every class checks the version of the message it reads:
    [assert(mVersion > 0)] and then a [switch] that knows version 1 only. *)
Definition check_version (mVersion : Z) : result unit :=
  cassert (0 <? mVersion);;
  if mVersion =? 1 then Ret tt else Fail ExitFailure.

(** [encodeTo] has the same [switch] without the assertion. *)
Definition switch_version (mVersion : Z) : result unit :=
  if mVersion =? 1 then Ret tt else Fail ExitFailure.

(** ** Amount *)
Record Amount := mk_Amount { Amount_mVersion : Z; Amount_mValue : Z }.

#[export] Instance Amount_eq_dec : EqDecision Amount.
Proof. solve_decision. Defined.

Definition Amount_default : Amount := mk_Amount 1 0.

Definition Amount_of_proto (p : protos_Amount) : result Amount :=
  let mVersion := u64 (pAmount_version p) in
  check_version mVersion;;
  Ret (mk_Amount mVersion (u64 (pAmount_value p))).

Definition Amount_encodeTo (a : Amount) (p : protos_Amount) : result protos_Amount :=
  switch_version (Amount_mVersion a);;
  Ret (mk_protos_Amount (Amount_mVersion a) (Amount_mValue a)).

Definition Amount_isSame (a b : Amount) : bool :=
  if negb (Amount_mVersion a =? Amount_mVersion b) then false
  else if Amount_mVersion a =? 1 then Amount_mValue a =? Amount_mValue b
  else false.

(** [operator+=] *)
Definition Amount_add (a other : Amount) : result Amount :=
  cassert (Amount_mVersion other =? Amount_mVersion a);;
  Ret (mk_Amount (Amount_mVersion a) (Amount_mValue a +ᵤ Amount_mValue other)).

(** [operator==]; [operator!=] is its negation *)
Definition Amount_eqb (a b : Amount) : bool :=
  (Amount_mVersion a =? Amount_mVersion b) && (Amount_mValue a =? Amount_mValue b).

(** ** Balance *)
Record Balance := mk_Balance { Balance_mVersion : Z; Balance_mValue : Z }.

#[export] Instance Balance_eq_dec : EqDecision Balance.
Proof. solve_decision. Defined.

Definition Balance_of_proto (p : protos_Balance) : result Balance :=
  let mVersion := u64 (pBalance_version p) in
  check_version mVersion;;
  Ret (mk_Balance mVersion (u64 (pBalance_value p))).

Definition Balance_encodeTo (b : Balance) (p : protos_Balance) : result protos_Balance :=
  switch_version (Balance_mVersion b);;
  Ret (mk_protos_Balance (Balance_mVersion b) (Balance_mValue b)).

Definition Balance_isSame (a b : Balance) : bool :=
  if negb (Balance_mVersion a =? Balance_mVersion b) then false
  else if Balance_mVersion a =? 1 then Balance_mValue a =? Balance_mValue b
  else false.

(** [operator+=] and [operator-=] *)
Definition Balance_add (b : Balance) (a : Amount) : Balance :=
  mk_Balance (Balance_mVersion b) (Balance_mValue b +ᵤ Amount_mValue a).

Definition Balance_sub (b : Balance) (a : Amount) : Balance :=
  mk_Balance (Balance_mVersion b) (Balance_mValue b -ᵤ Amount_mValue a).

(** ** Account *)
Record Account := mk_Account {
  Account_mVersion : Z;
  Account_mAccountType : AccountType;
  Account_mNominalCode : Z;
  Account_mName : string;
  Account_mDesc : string;
  Account_mISO4217CurrencyCode : Z;
  Account_mBalance : Balance }.

#[export] Instance Account_eq_dec : EqDecision Account.
Proof. solve_decision. Defined.

Definition Account_initWith (p : protos_Account) : result Account :=
  let mVersion := u64 (pAccount_version p) in
  check_version mVersion;;
  balance ← Balance_of_proto (pAccount_balance p);
  Ret (mk_Account mVersion (AccountTypeUtil_typeOf (pAccount_type p))
         (u64 (pAccount_nominal_code p)) (pAccount_name p) (pAccount_desc p)
         (u64 (pAccount_iso4217 p)) balance).

Definition Account_encodeTo (a : Account) (p : protos_Account) : result protos_Account :=
  switch_version (Account_mVersion a);;
  balance ← Balance_encodeTo (Account_mBalance a) (pAccount_balance p);
  Ret (mk_protos_Account (Account_mVersion a)
         (AccountTypeUtil_toType (Account_mAccountType a)) balance
         (Account_mNominalCode a) (Account_mName a) (Account_mDesc a)
         (Account_mISO4217CurrencyCode a)).

Definition Account_isSame (a b : Account) : bool :=
  if negb (Account_mVersion a =? Account_mVersion b) then false
  else if Account_mVersion a =? 1 then
    if negb (bool_decide (Account_mAccountType a = Account_mAccountType b)) then false
    else if negb (Balance_isSame (Account_mBalance a) (Account_mBalance b)) then false
    else if negb (Account_mNominalCode a =? Account_mNominalCode b) then false
    else if negb (bool_decide (Account_mName a = Account_mName b)) then false
    else if negb (bool_decide (Account_mDesc a = Account_mDesc b)) then false
    else if negb (Account_mISO4217CurrencyCode a =? Account_mISO4217CurrencyCode b) then false
    else true
  else false.

Definition Account_set_balance (a : Account) (b : Balance) : Account :=
  mk_Account (Account_mVersion a) (Account_mAccountType a) (Account_mNominalCode a)
    (Account_mName a) (Account_mDesc a) (Account_mISO4217CurrencyCode a) b.

Definition Account_applyCredit (a : Account) (amount : Amount) : result Account :=
  match Account_mAccountType a with
  | Asset | Capital | CostOfGoodsSold | Expense =>
      Ret (Account_set_balance a (Balance_sub (Account_mBalance a) amount))
  | Income | Liability =>
      Ret (Account_set_balance a (Balance_add (Account_mBalance a) amount))
  | Unknown => Fail ExitFailure
  end.

Definition Account_applyDebit (a : Account) (amount : Amount) : result Account :=
  match Account_mAccountType a with
  | Asset | Capital | CostOfGoodsSold | Expense =>
      Ret (Account_set_balance a (Balance_add (Account_mBalance a) amount))
  | Income | Liability =>
      Ret (Account_set_balance a (Balance_sub (Account_mBalance a) amount))
  | Unknown => Fail ExitFailure
  end.

(** ** AccountMetadata *)
Record AccountMetadata := mk_AccountMetadata {
  AccountMetadata_mVersion : Z;
  AccountMetadata_mAccountType : AccountType;
  AccountMetadata_mLowInclusive : Z;
  AccountMetadata_mHighInclusive : Z }.

#[export] Instance AccountMetadata_eq_dec : EqDecision AccountMetadata.
Proof. solve_decision. Defined.

Definition AccountMetadata_initWith (p : protos_AccountMetadata) : result AccountMetadata :=
  let mVersion := u64 (pAccountMetadata_version p) in
  check_version mVersion;;
  Ret (mk_AccountMetadata mVersion (AccountTypeUtil_typeOf (pAccountMetadata_type p))
         (u64 (pAccountMetadata_low p)) (u64 (pAccountMetadata_high p))).

Definition AccountMetadata_encodeTo (m : AccountMetadata) (p : protos_AccountMetadata)
    : result protos_AccountMetadata :=
  switch_version (AccountMetadata_mVersion m);;
  Ret (mk_protos_AccountMetadata (AccountMetadata_mVersion m)
         (AccountTypeUtil_toType (AccountMetadata_mAccountType m))
         (AccountMetadata_mLowInclusive m) (AccountMetadata_mHighInclusive m)).

Definition AccountMetadata_isSame (a b : AccountMetadata) : bool :=
  if negb (AccountMetadata_mVersion a =? AccountMetadata_mVersion b) then false
  else if AccountMetadata_mVersion a =? 1 then
    if negb (bool_decide (AccountMetadata_mAccountType a = AccountMetadata_mAccountType b))
    then false
    else if negb (AccountMetadata_mLowInclusive a =? AccountMetadata_mLowInclusive b)
    then false
    else if negb (AccountMetadata_mHighInclusive a =? AccountMetadata_mHighInclusive b)
    then false
    else true
  else false.

(** ** JournalLine *)
Record JournalLine := mk_JournalLine {
  JournalLine_mVersion : Z;
  JournalLine_mNominalCode : Z;
  JournalLine_mTransactionType : TransactionType;
  JournalLine_mAmount : Amount;
  JournalLine_mISO4217CurrencyCode : Z;
  JournalLine_mRefData : string }.

#[export] Instance JournalLine_eq_dec : EqDecision JournalLine.
Proof. solve_decision. Defined.

Definition JournalLine_initWith (p : protos_JournalLine) : result JournalLine :=
  let mVersion := u64 (pJournalLine_version p) in
  check_version mVersion;;
  amount ← Amount_of_proto (pJournalLine_amount p);
  Ret (mk_JournalLine mVersion (u64 (pJournalLine_nominal_code p))
         (TransactionTypeUtil_typeOf (pJournalLine_type p)) amount
         (u64 (pJournalLine_iso4217 p)) (pJournalLine_ref_data p)).

Definition JournalLine_encodeTo (l : JournalLine) (p : protos_JournalLine)
    : result protos_JournalLine :=
  switch_version (JournalLine_mVersion l);;
  amount ← Amount_encodeTo (JournalLine_mAmount l) (pJournalLine_amount p);
  Ret (mk_protos_JournalLine (JournalLine_mVersion l) (JournalLine_mNominalCode l)
         (TransactionTypeUtil_toType (JournalLine_mTransactionType l)) amount
         (JournalLine_mISO4217CurrencyCode l) (JournalLine_mRefData l)).

Definition JournalLine_isSame (a b : JournalLine) : bool :=
  if negb (JournalLine_mVersion a =? JournalLine_mVersion b) then false
  else if JournalLine_mVersion a =? 1 then
    if negb (JournalLine_mNominalCode a =? JournalLine_mNominalCode b) then false
    else if negb (bool_decide (JournalLine_mTransactionType a = JournalLine_mTransactionType b))
    then false
    else if negb (Amount_isSame (JournalLine_mAmount a) (JournalLine_mAmount b)) then false
    else if negb (JournalLine_mISO4217CurrencyCode a =? JournalLine_mISO4217CurrencyCode b)
    then false
    else if negb (bool_decide (JournalLine_mRefData a = JournalLine_mRefData b)) then false
    else true
  else false.

(** ** JournalEntry *)
Record JournalEntry := mk_JournalEntry {
  JournalEntry_mVersion : Z;
  JournalEntry_mId : string;
  JournalEntry_mValidTime : Z;
  JournalEntry_mRecordTime : Z;
  JournalEntry_mJournalLines : list JournalLine;
  JournalEntry_mPurpose : string }.

#[export] Instance JournalEntry_eq_dec : EqDecision JournalEntry.
Proof. solve_decision. Defined.

(** [JournalEntry()]: the lines and strings are empty; the integers are not
    initialised, and no member function reads them before [initWith]. *)
Definition JournalEntry_default : JournalEntry := mk_JournalEntry 0 EmptyString 0 0 [] EmptyString.

(** [initWith] appends to the lines the object already has. *)
Definition JournalEntry_initWith (self : JournalEntry) (p : protos_JournalEntry)
    : result JournalEntry :=
  let mVersion := u64 (pJournalEntry_version p) in
  check_version mVersion;;
  lines ← foldM (λ ls lp, l ← JournalLine_initWith lp; Ret (ls ++ [l]))
            (JournalEntry_mJournalLines self) (pJournalEntry_lines p);
  Ret (mk_JournalEntry mVersion (pJournalEntry_id p)
         (u64 (pJournalEntry_valid_time p)) (u64 (pJournalEntry_record_time p))
         lines (pJournalEntry_purpose p)).

(** [journalEntry.set_id(journalEntry.id())]: the id written is the one the
    message already holds, not [mId]. *)
Definition JournalEntry_encodeTo (e : JournalEntry) (p : protos_JournalEntry)
    : result protos_JournalEntry :=
  switch_version (JournalEntry_mVersion e);;
  lines ← foldM (λ ls l, lp ← JournalLine_encodeTo l protos_JournalLine_default;
                         Ret (ls ++ [lp]))
            (pJournalEntry_lines p) (JournalEntry_mJournalLines e);
  Ret (mk_protos_JournalEntry (JournalEntry_mVersion e) (pJournalEntry_id p)
         (JournalEntry_mValidTime e) (JournalEntry_mRecordTime e)
         (JournalEntry_mPurpose e) lines).

(** The index loop over the two vectors of equal size. *)
Fixpoint JournalLines_same (l r : list JournalLine) : bool :=
  match l, r with
  | a :: l, b :: r => if negb (JournalLine_isSame a b) then false else JournalLines_same l r
  | _, _ => true
  end.

Definition JournalEntry_isSame (a b : JournalEntry) : bool :=
  if negb (JournalEntry_mVersion a =? JournalEntry_mVersion b) then false
  else if JournalEntry_mVersion a =? 1 then
    if negb (bool_decide (JournalEntry_mId a = JournalEntry_mId b)) then false
    else if negb (JournalEntry_mValidTime a =? JournalEntry_mValidTime b) then false
    else if negb (JournalEntry_mRecordTime a =? JournalEntry_mRecordTime b) then false
    else if negb (bool_decide (JournalEntry_mPurpose a = JournalEntry_mPurpose b)) then false
    else if negb (Nat.eqb (length (JournalEntry_mJournalLines a))
                          (length (JournalEntry_mJournalLines b))) then false
    else JournalLines_same (JournalEntry_mJournalLines a) (JournalEntry_mJournalLines b)
  else false.

(** * Properties *)

(** ** Well-formed objects

    What every object holds once a constructor has accepted a message: version
    1 and members within the range of their machine types. *)
Definition Amount_wf (a : Amount) : Prop :=
  Amount_mVersion a = 1 ∧ in_u64 (Amount_mValue a).
Definition Balance_wf (b : Balance) : Prop :=
  Balance_mVersion b = 1 ∧ in_u64 (Balance_mValue b).
Definition Account_wf (a : Account) : Prop :=
  Account_mVersion a = 1 ∧ in_u64 (Account_mNominalCode a) ∧
  in_u64 (Account_mISO4217CurrencyCode a) ∧ Balance_wf (Account_mBalance a).
Definition AccountMetadata_wf (m : AccountMetadata) : Prop :=
  AccountMetadata_mVersion m = 1 ∧ in_u64 (AccountMetadata_mLowInclusive m) ∧
  in_u64 (AccountMetadata_mHighInclusive m).
Definition JournalLine_wf (l : JournalLine) : Prop :=
  JournalLine_mVersion l = 1 ∧ in_u64 (JournalLine_mNominalCode l) ∧
  in_u64 (JournalLine_mISO4217CurrencyCode l) ∧ Amount_wf (JournalLine_mAmount l).
Definition JournalEntry_wf (e : JournalEntry) : Prop :=
  JournalEntry_mVersion e = 1 ∧ in_u64 (JournalEntry_mValidTime e) ∧
  in_u64 (JournalEntry_mRecordTime e) ∧ Forall JournalLine_wf (JournalEntry_mJournalLines e).

Lemma check_version_Ret v u : check_version v = Ret u ↔ v = 1.
Proof.
  unfold check_version. rewrite cassert_bind. destruct u.
  destruct (Z.eqb_spec v 1); simpl; split; try lia; try congruence.
  - intros ->; done.
  - intros [_ ?]; congruence.
Qed.

Lemma check_version_bind {B} v (k : unit → result B) r :
  check_version v ≫= k = Ret r ↔ v = 1 ∧ k tt = Ret r.
Proof.
  rewrite bind_Ret. split.
  - intros ([] & ?%check_version_Ret & ?); done.
  - intros [-> ?]. exists tt. by rewrite check_version_Ret.
Qed.

Ltac inv_version :=
  repeat match goal with
  | H : check_version _ ≫= _ = Ret _ |- _ =>
      apply check_version_bind in H; destruct H as [? H]; cbv beta in H
  | _ => progress inv_ret
  end.

Lemma Amount_of_proto_wf p a : Amount_of_proto p = Ret a → Amount_wf a.
Proof. unfold Amount_of_proto; intros; inv_version; split; simpl; auto with ledger. Qed.

Lemma Balance_of_proto_wf p b : Balance_of_proto p = Ret b → Balance_wf b.
Proof. unfold Balance_of_proto; intros; inv_version; split; simpl; auto with ledger. Qed.

Lemma Account_initWith_wf p a : Account_initWith p = Ret a → Account_wf a.
Proof.
  unfold Account_initWith; intros; inv_version; unfold Account_wf; simpl.
  eauto using u64_range, Balance_of_proto_wf.
Qed.

Lemma AccountMetadata_initWith_wf p m :
  AccountMetadata_initWith p = Ret m → AccountMetadata_wf m.
Proof.
  unfold AccountMetadata_initWith; intros; inv_version; unfold AccountMetadata_wf; simpl.
  eauto using u64_range.
Qed.

Lemma JournalLine_initWith_wf p l : JournalLine_initWith p = Ret l → JournalLine_wf l.
Proof.
  unfold JournalLine_initWith; intros; inv_version; unfold JournalLine_wf; simpl.
  eauto using u64_range, Amount_of_proto_wf.
Qed.

Lemma JournalEntry_initWith_wf self p e :
  Forall JournalLine_wf (JournalEntry_mJournalLines self) →
  JournalEntry_initWith self p = Ret e → JournalEntry_wf e.
Proof.
  unfold JournalEntry_initWith; intros; inv_version; unfold JournalEntry_wf; simpl.
  split_and!; auto with ledger.
  eapply (foldM_ind (Forall JournalLine_wf)); [|eassumption..].
  cbv beta; intros ls lp ls' Hls _ Hl. inv_ret.
  apply Forall_app; eauto using JournalLine_initWith_wf.
Qed.

#[export] Hint Resolve Amount_of_proto_wf Balance_of_proto_wf Account_initWith_wf
  AccountMetadata_initWith_wf JournalLine_initWith_wf JournalEntry_initWith_wf : ledger.

(** ** Round trips between objects and messages *)
Lemma AccountType_roundtrip t : AccountTypeUtil_typeOf (AccountTypeUtil_toType t) = t.
Proof. by destruct t. Qed.

Lemma TransactionType_roundtrip t :
  TransactionTypeUtil_typeOf (TransactionTypeUtil_toType t) = t.
Proof. by destruct t. Qed.

Lemma Amount_roundtrip a p :
  Amount_wf a → ∃ p', Amount_encodeTo a p = Ret p' ∧ Amount_of_proto p' = Ret a.
Proof.
  destruct a as [v x]; intros [Hv Hx]; simpl in *; subst.
  eexists; split; [reflexivity|]. unfold Amount_of_proto; simpl.
  by rewrite (u64_small x).
Qed.

Lemma Balance_roundtrip b p :
  Balance_wf b → ∃ p', Balance_encodeTo b p = Ret p' ∧ Balance_of_proto p' = Ret b.
Proof.
  destruct b as [v x]; intros [Hv Hx]; simpl in *; subst.
  eexists; split; [reflexivity|]. unfold Balance_of_proto; simpl.
  by rewrite (u64_small x).
Qed.

(** An account written to a message and read back is the same account. *)
Lemma Account_roundtrip a p :
  Account_wf a → ∃ p', Account_encodeTo a p = Ret p' ∧ Account_initWith p' = Ret a.
Proof.
  destruct a as [v t n nm d c b]; intros (Hv & Hn & Hc & Hb); simpl in *; subst.
  destruct (Balance_roundtrip b (pAccount_balance p) Hb) as (pb & He & Hd).
  unfold Account_encodeTo; simpl. rewrite He; simpl.
  eexists; split; [reflexivity|]. unfold Account_initWith; simpl. rewrite Hd; simpl.
  by rewrite AccountType_roundtrip, (u64_small n), (u64_small c).
Qed.

Lemma AccountMetadata_roundtrip m p :
  AccountMetadata_wf m →
  ∃ p', AccountMetadata_encodeTo m p = Ret p' ∧ AccountMetadata_initWith p' = Ret m.
Proof.
  destruct m as [v t lo hi]; intros (Hv & Hl & Hh); simpl in *; subst.
  eexists; split; [reflexivity|]. unfold AccountMetadata_initWith; simpl.
  by rewrite AccountType_roundtrip, (u64_small lo), (u64_small hi).
Qed.

Lemma JournalLine_roundtrip l p :
  JournalLine_wf l →
  ∃ p', JournalLine_encodeTo l p = Ret p' ∧ JournalLine_initWith p' = Ret l.
Proof.
  destruct l as [v n t a c r]; intros (Hv & Hn & Hc & Ha); simpl in *; subst.
  destruct (Amount_roundtrip a (pJournalLine_amount p) Ha) as (pa & He & Hd).
  unfold JournalLine_encodeTo; simpl. rewrite He; simpl.
  eexists; split; [reflexivity|]. unfold JournalLine_initWith; simpl. rewrite Hd; simpl.
  by rewrite TransactionType_roundtrip, (u64_small n), (u64_small c).
Qed.

Lemma JournalLines_roundtrip ls ps0 ls0 :
  Forall JournalLine_wf ls →
  ∃ ps, foldM (λ ps l, lp ← JournalLine_encodeTo l protos_JournalLine_default;
                       Ret (ps ++ [lp])) ps0 ls = Ret (ps0 ++ ps) ∧
        foldM (λ ls lp, l ← JournalLine_initWith lp; Ret (ls ++ [l])) ls0 ps
        = Ret (ls0 ++ ls).
Proof.
  intros Hls; revert ps0 ls0; induction Hls as [|l ls Hl _ IH]; intros ps0 ls0.
  - exists []; simpl. by rewrite !app_nil_r.
  - destruct (JournalLine_roundtrip l protos_JournalLine_default Hl) as (lp & He & Hd).
    destruct (IH (ps0 ++ [lp]) (ls0 ++ [l])) as (ps & H1 & H2).
    exists (lp :: ps); simpl. rewrite He, Hd; simpl. rewrite H1, H2.
    by rewrite <- !app_assoc.
Qed.

(** What a journal entry becomes when it is written to a message [p] and read
    back into a fresh object: everything survives but the id, which is the id
    [p] had. *)
Lemma JournalEntry_roundtrip e p :
  JournalEntry_wf e → pJournalEntry_lines p = [] →
  ∃ p', JournalEntry_encodeTo e p = Ret p' ∧
        JournalEntry_initWith JournalEntry_default p' =
          Ret (mk_JournalEntry (JournalEntry_mVersion e) (pJournalEntry_id p)
                 (JournalEntry_mValidTime e) (JournalEntry_mRecordTime e)
                 (JournalEntry_mJournalLines e) (JournalEntry_mPurpose e)).
Proof.
  destruct e as [v i vt rt ls pu]; intros (Hv & Hvt & Hrt & Hls) Hp; simpl in *; subst.
  destruct (JournalLines_roundtrip ls [] [] Hls) as (ps & H1 & H2).
  unfold JournalEntry_encodeTo; simpl. rewrite Hp, H1; simpl.
  eexists; split; [reflexivity|]. unfold JournalEntry_initWith; simpl. rewrite H2; simpl.
  by rewrite (u64_small vt), (u64_small rt).
Qed.

(** ** [isSame] decides equality of well-formed objects *)
Lemma Balance_isSame_spec a b :
  Balance_wf a → Balance_wf b → Balance_isSame a b = true ↔ a = b.
Proof.
  destruct a as [va xa], b as [vb xb]; intros [Ha _] [Hb _]; simpl in *; subst.
  unfold Balance_isSame; simpl. rewrite Z.eqb_eq. split; [by intros ->|congruence].
Qed.

Lemma Account_isSame_spec a b :
  Account_wf a → Account_wf b → Account_isSame a b = true ↔ a = b.
Proof.
  intros (Ha & _ & _ & Hba) (Hb & _ & _ & Hbb).
  pose proof (Balance_isSame_spec _ _ Hba Hbb) as Hbal.
  destruct a as [va ta na nma da ca ba], b as [vb tb nb nmb db cb bb].
  simpl in *; subst. unfold Account_isSame; simpl.
  destruct (Balance_isSame ba bb); simpl;
    repeat case_bool_decide; simpl;
    repeat match goal with |- context [?x =? ?y] => destruct (Z.eqb_spec x y); simpl end;
    split; intros; subst; try discriminate; try tauto; try congruence.
  - f_equal; by apply Hbal.
  - exfalso; cut (false = true); [done|]. apply Hbal; congruence.
Qed.

(** ** Debits and credits

    The side of the balance sheet on which an account type is recorded, as
    the code has it: debits raise assets, capital, cost of goods sold and
    expenses; credits raise income and liabilities. *)
Definition normal_sign (t : AccountType) : Z :=
  match t with
  | Asset | Capital | CostOfGoodsSold | Expense => 1
  | Income | Liability => -1
  | Unknown => 0
  end.

Definition signed_balance (a : Account) : Z :=
  normal_sign (Account_mAccountType a) * Balance_mValue (Account_mBalance a).

Lemma Account_applyDebit_signed a m a' :
  Account_applyDebit a m = Ret a' → signed_balance a' ≡₆₄ signed_balance a + Amount_mValue m.
Proof.
  unfold Account_applyDebit, signed_balance, Balance_add, Balance_sub.
  destruct (Account_mAccountType a) eqn:E; intros [=]; subst; simpl; rewrite E; simpl normal_sign;
    rewrite eq64_u64; unfold eq64; f_equal; lia.
Qed.

Lemma Account_applyCredit_signed a m a' :
  Account_applyCredit a m = Ret a' → signed_balance a' ≡₆₄ signed_balance a - Amount_mValue m.
Proof.
  unfold Account_applyCredit, signed_balance, Balance_add, Balance_sub.
  destruct (Account_mAccountType a) eqn:E; intros [=]; subst; simpl; rewrite E; simpl normal_sign;
    rewrite eq64_u64; unfold eq64; f_equal; lia.
Qed.

(** Both change nothing but the balance. *)
Lemma Account_apply_frame a m a' :
  Account_applyDebit a m = Ret a' ∨ Account_applyCredit a m = Ret a' →
  ∃ b, a' = Account_set_balance a b ∧ (Account_wf a → Account_wf a').
Proof.
  unfold Account_applyDebit, Account_applyCredit.
  intros [H|H]; destruct (Account_mAccountType a); inversion H; subst; eexists;
    (split; [reflexivity|]); intros (?&?&?&?&?); unfold Account_wf, Balance_wf; simpl;
    auto with ledger.
Qed.

Lemma Account_apply_total a m :
  Account_mAccountType a ≠ Unknown →
  (∃ a', Account_applyDebit a m = Ret a') ∧ (∃ a', Account_applyCredit a m = Ret a').
Proof.
  unfold Account_applyDebit, Account_applyCredit.
  destruct (Account_mAccountType a); intros; try done; eauto.
Qed.
