(* ===== verification/Es.v ===== *)
(** * The event-sourcing interface

    src/src/infra/es: the metadata every command and event carries
    ([MetaData], [CommandMetaData], [EventMetaData]), the messages of
    store.proto it is written to, the [ProcessHint] a state machine answers
    with, and the codes of src/src/infra/util/HttpCode.h.

    Ids and timestamps are [uint64_t], types are [int64_t].  A member without
    an initialiser holds whatever its storage held: the constructors take that
    earlier content as their argument [junk]. *)
From S2P Require Import Prelude Protobuf.
Open Scope Z_scope.

Definition HttpCode_OK := 200.
Definition HttpCode_CREATED := 201.
Definition HttpCode_MOVED_PERMANENTLY := 301.
Definition HttpCode_BAD_REQUEST := 400.
Definition HttpCode_SERVICE_UNAVAILABLE := 503.

Record ProcessHint := mk_ProcessHint { hint_mCode : Z; hint_mMessage : string }.

(** ** store.proto *)
Record CommandEntry := mk_CommandEntry {
  ce_type : Z; ce_id : Z; ce_createdTimeInNanos : Z; ce_entry : string;
  ce_creatorId : Z; ce_groupId : Z; ce_groupVersion : Z; ce_trackingContext : string }.

Record EventEntry := mk_EventEntry {
  ee_type : Z; ee_id : Z; ee_commandId : Z; ee_createdTimeInNanos : Z; ee_entry : string;
  ee_creatorId : Z; ee_groupId : Z; ee_groupVersion : Z; ee_trackingContext : string }.

Definition CommandEntry_default := mk_CommandEntry 0 0 0 EmptyString 0 0 0 EmptyString.
Definition EventEntry_default := mk_EventEntry 0 0 0 0 EmptyString 0 0 0 EmptyString.

(** ** MetaData *)
Record MetaData := mk_MetaData {
  mId : Z;
  mType : Z;
  mCreatedTimeInNanos : Z;
  mProcessTimeInNanos : Z;
  mLeaderReadyTimeInNanos : Z;
  mFinishTimeInNanos : Z;
  mCreatorId : Z;
  mGroupId : Z;
  mGroupVersion : Z;
  mTrackingContext : string }.

Definition MetaData_setId (m : MetaData) (v : Z) : MetaData :=
  mk_MetaData v (mType m) (mCreatedTimeInNanos m) (mProcessTimeInNanos m)
    (mLeaderReadyTimeInNanos m) (mFinishTimeInNanos m) (mCreatorId m) (mGroupId m)
    (mGroupVersion m) (mTrackingContext m).

(** [MetaData()] followed by [setType] and [setCreatedTimeInNanos], as the
    constructors of [Command] and [Event] do. *)
Definition MetaData_new (junk : MetaData) (type created : Z) : MetaData :=
  mk_MetaData (mId junk) type created 0 0 0 (mCreatorId junk) (mGroupId junk)
    (mGroupVersion junk) EmptyString.

Definition MetaData_of_EventEntry (e : EventEntry) : MetaData :=
  mk_MetaData (ee_id e) (i64 (ee_type e)) (ee_createdTimeInNanos e) 0 0 0
    (ee_creatorId e) (ee_groupId e) (ee_groupVersion e) (ee_trackingContext e).

Definition MetaData_of_CommandEntry (c : CommandEntry) : MetaData :=
  mk_MetaData (ce_id c) (i64 (ce_type c)) (ce_createdTimeInNanos c) 0 0 0
    (ce_creatorId c) (ce_groupId c) (ce_groupVersion c) (ce_trackingContext c).

(** A [RequestHandle *] is the identity of the pending request, if any. *)
Record CommandMetaData := mk_CommandMetaData {
  cmd_meta :> MetaData;
  mRequestHandle : option Z }.

Record EventMetaData := mk_EventMetaData {
  ev_meta :> MetaData;
  mCommandId : Z }.

Definition CommandMetaData_of_entry (c : CommandEntry) : CommandMetaData :=
  mk_CommandMetaData (MetaData_of_CommandEntry c) None.

Definition EventMetaData_of_entry (e : EventEntry) : EventMetaData :=
  mk_EventMetaData (MetaData_of_EventEntry e) (ee_commandId e).

Definition CommandMetaData_populateCommandEntry (m : CommandMetaData) (c : CommandEntry)
    : CommandEntry :=
  mk_CommandEntry (u64 (mType m)) (mId m) (mCreatedTimeInNanos m) (ce_entry c)
    (mCreatorId m) (mGroupId m) (mGroupVersion m) (mTrackingContext m).

Definition EventMetaData_populateEventEntry (m : EventMetaData) (e : EventEntry)
    : EventEntry :=
  mk_EventEntry (u64 (mType m)) (mId m) (mCommandId m) (mCreatedTimeInNanos m) (ee_entry e)
    (mCreatorId m) (mGroupId m) (mGroupVersion m) (mTrackingContext m).

(** [Command::setPartialMetaData] and [Event::setPartialMetaData]: type and
    creation time were set by the constructor and stay. *)
Definition setPartialMetaData (self from : MetaData) : MetaData :=
  mk_MetaData (mId from) (mType self) (mCreatedTimeInNanos self) (mProcessTimeInNanos self)
    (mLeaderReadyTimeInNanos self) (mFinishTimeInNanos self) (mCreatorId from)
    (mGroupId from) (mGroupVersion from) (mTrackingContext from).

Definition Command_setPartialMetaData (self from : CommandMetaData) : CommandMetaData :=
  mk_CommandMetaData (setPartialMetaData self from) (mRequestHandle self).

Definition Event_setPartialMetaData (self from : EventMetaData) : EventMetaData :=
  mk_EventMetaData (setPartialMetaData self from) (mCommandId from).

(** [Command(type, createdTimeInNanos)] and [Event(type, createdTimeInNanos)] *)
Definition Command_meta_new (junk : MetaData) (type created : Z) : CommandMetaData :=
  mk_CommandMetaData (MetaData_new junk type created) None.

Definition Event_meta_new (junk : EventMetaData) (type created : Z) : EventMetaData :=
  mk_EventMetaData (MetaData_new junk type created) (mCommandId junk).

(** ** The metadata survive the store

    What is persisted of the metadata: everything but the request handle and
    the three times used for latency metrics. *)
Definition persisted (m : MetaData) : MetaData :=
  mk_MetaData (mId m) (mType m) (mCreatedTimeInNanos m) 0 0 0 (mCreatorId m) (mGroupId m)
    (mGroupVersion m) (mTrackingContext m).

Lemma CommandMetaData_roundtrip (m : CommandMetaData) c :
  in_i64 (mType m) →
  CommandMetaData_of_entry (CommandMetaData_populateCommandEntry m c)
  = mk_CommandMetaData (persisted m) None.
Proof.
  intros Ht. unfold CommandMetaData_of_entry, MetaData_of_CommandEntry; simpl.
  by rewrite i64_u64.
Qed.

Lemma EventMetaData_roundtrip (m : EventMetaData) e :
  in_i64 (mType m) →
  EventMetaData_of_entry (EventMetaData_populateEventEntry m e)
  = mk_EventMetaData (persisted m) (mCommandId m).
Proof.
  intros Ht. unfold EventMetaData_of_entry, MetaData_of_EventEntry; simpl.
  by rewrite i64_u64.
Qed.
