(* ===== verification/Control.v ===== *)
(** * Control state: routes, split commands and split events

    src/src/app_util/control: [Route], [RouteMap], [CtrlState], [SplitCommand]
    and [SplitEvent].  [AppInfo::groupId()], the id of the cluster this process
    belongs to, is the argument [groupId].

    [std::unordered_map] and [std::unordered_set] are [gmap] and [gset]; where
    the code iterates over one, the order is [map_to_list] and [elements], and
    the theorems that involve such an iteration hold for any order. *)
From stdpp Require Import pretty.
From S2P Require Import Prelude Protobuf Es.
Open Scope Z_scope.

(** ** route.proto and scale.proto *)
Record RouteProto := mk_RouteProto {
  rp_type : Z; rp_groups : list Z; rp_groupTotal : Z }.
Record ImpactProto := mk_ImpactProto {
  ip_route : RouteProto; ip_clusterId : Z; ip_newCluster : bool }.
Record SplitState := mk_SplitState {
  ss_routes : list RouteProto; ss_epoch : Z; ss_planId : string;
  ss_clusterId : Z; ss_startIndex : Z }.
Record SplitRequest := mk_SplitRequest {
  sr_epoch : Z; sr_planId : string; sr_impacts : list ImpactProto }.

Definition SplitState_default : SplitState := mk_SplitState [] 0 EmptyString 0 0.

(** ** Route *)
Record Route := mk_Route {
  Route_mGroups : gset Z; Route_mGroupTotal : Z; Route_mType : Z }.

Definition Route_of_proto (p : RouteProto) : Route :=
  mk_Route (foldl (λ s group, {[group]} ∪ s) ∅ (rp_groups p)) (rp_groupTotal p) (rp_type p).

Definition Route_buildProto (r : Route) : RouteProto :=
  mk_RouteProto (Route_mType r) (elements (Route_mGroups r)) (Route_mGroupTotal r).

(** ** RouteMap *)
Abbreviation RouteMap := (gmap Z Route).

Definition RouteMap_parseFromProto (m : RouteMap) (ps : list RouteProto) : RouteMap :=
  foldl (λ m p, <[rp_type p := Route_of_proto p]> m) m ps.

Definition RouteMap_groupTotal (m : RouteMap) (type : Z) : Z :=
  match m !! type with None => 0 | Some r => Route_mGroupTotal r end.

Definition RouteMap_hasGroup (m : RouteMap) (type group : Z) : bool :=
  match m !! type with
  | None => false
  | Some r => bool_decide (group ∈ Route_mGroups r)
  end.

Definition RouteMap_applyRoute (m : RouteMap) (type : Z) (route : Route) : RouteMap :=
  if bool_decide (Route_mGroups route = ∅) then
    match m !! type with Some _ => delete type m | None => m end
  else <[type := route]> m.

Definition RouteMap_buildProto (m : RouteMap) : list RouteProto :=
  map (λ kv, Route_buildProto kv.2) (map_to_list m).

(** ** CtrlState *)
Record CtrlState := mk_CtrlState {
  mRouteMap : RouteMap; mEpoch : Z; mPlanId : string;
  mClusterId : Z; mStartIndex : Z }.

(** [CtrlState()] leaves [mClusterId] and [mStartIndex] uninitialised. *)
Definition CtrlState_new (junkClusterId junkStartIndex : Z) : CtrlState :=
  mk_CtrlState ∅ 0 EmptyString junkClusterId junkStartIndex.

Definition CtrlState_hasState (s : CtrlState) : bool := 0 <? mEpoch s.

Definition CtrlState_setEpoch (s : CtrlState) (v : Z) : CtrlState :=
  mk_CtrlState (mRouteMap s) v (mPlanId s) (mClusterId s) (mStartIndex s).
Definition CtrlState_setPlanId (s : CtrlState) (v : string) : CtrlState :=
  mk_CtrlState (mRouteMap s) (mEpoch s) v (mClusterId s) (mStartIndex s).
Definition CtrlState_setClusterId (s : CtrlState) (v : Z) : CtrlState :=
  mk_CtrlState (mRouteMap s) (mEpoch s) (mPlanId s) v (mStartIndex s).
Definition CtrlState_setStartIndex (s : CtrlState) (v : Z) : CtrlState :=
  mk_CtrlState (mRouteMap s) (mEpoch s) (mPlanId s) (mClusterId s) v.
Definition CtrlState_setRouteMap (s : CtrlState) (v : RouteMap) : CtrlState :=
  mk_CtrlState v (mEpoch s) (mPlanId s) (mClusterId s) (mStartIndex s).

Definition CtrlState_clearRoutes (s : CtrlState) : CtrlState := CtrlState_setRouteMap s ∅.

Definition CtrlState_hasGroup (s : CtrlState) (type group : Z) : bool :=
  RouteMap_hasGroup (mRouteMap s) type group.

(** What a cluster serves, by the comment on [hasState]: the groups of its routes once
    it has been through a split, before that everything. *)
Definition CtrlState_serves (s : CtrlState) (type group : Z) : bool :=
  if CtrlState_hasState s then CtrlState_hasGroup s type group else true.

Definition CtrlState_groupTotal (s : CtrlState) (type : Z) : Z :=
  RouteMap_groupTotal (mRouteMap s) type.

Definition CtrlState_applyRoute (s : CtrlState) (p : RouteProto) : CtrlState :=
  CtrlState_setRouteMap s (RouteMap_applyRoute (mRouteMap s) (rp_type p) (Route_of_proto p)).

Definition CtrlState_buildProto (s : CtrlState) : SplitState :=
  mk_SplitState (RouteMap_buildProto (mRouteMap s)) (mEpoch s) (mPlanId s) (mClusterId s)
    (mStartIndex s).

Section wire.
Context `{Proto SplitState}.

(** [mEpoch] is unsigned, so [mEpoch >= 0] always holds. *)
Definition CtrlState_encodeToString (s : CtrlState) : string :=
  if 0 <=? mEpoch s then SerializeAsString (CtrlState_buildProto s) else EmptyString.

Definition CtrlState_decodeFromString (groupId : Z) (s : CtrlState) (view : string)
    : CtrlState :=
  if bool_decide (view = EmptyString) then s
  else
    let decodeState := (ParseFromString view).2 in
    if ss_clusterId decodeState =? groupId then
      mk_CtrlState (RouteMap_parseFromProto (mRouteMap s) (ss_routes decodeState))
        (ss_epoch decodeState) (ss_planId decodeState) (ss_clusterId decodeState)
        (ss_startIndex decodeState)
    else s.

(** The signals [recoverForEAL] sends; [routed] is the answer to the
    [RouteSignal] it waits for. *)
Inductive CtrlSignal := RouteSignal (epoch clusterId : Z) | StopSyncRoleSignal (index : Z).

Definition CtrlState_recoverForEAL (groupId : Z) (s : CtrlState) (str : string)
    (routed : bool) : CtrlState * list CtrlSignal :=
  let s := CtrlState_decodeFromString groupId s str in
  (s, if CtrlState_hasState s && (0 <? mClusterId s) then
        RouteSignal (mEpoch s) (mClusterId s) ::
        (if routed then [StopSyncRoleSignal (mStartIndex s)] else [])
      else []).
End wire.

(** ** SplitCommand *)
Definition SPILT_COMMAND := 101.
Definition SPILT_EVENT := 101.
Definition CTRL_TYPES := 100.
Definition isCtrlCommand (commandType : Z) : bool := CTRL_TYPES <? commandType.
Definition isCtrlEvent (eventType : Z) : bool := CTRL_TYPES <? eventType.

Definition kVerifiedSuccess : string := "Success".

(** The two [unordered_map]s of [verifyCommand]; [operator[]] gives a missing
    key the value 0, respectively the empty set. *)
Definition total_at (m : gmap Z Z) (type : Z) : Z := default 0 (m !! type).
Definition groups_at (m : gmap Z (gset Z)) (type : Z) : gset Z := default ∅ (m !! type).

(** The inner loop over [route.groups()]. *)
Fixpoint verify_groups (type : Z) (seen : gmap Z (gset Z)) (gs : list Z)
    : gmap Z (gset Z) + string :=
  match gs with
  | [] => inl seen
  | group :: gs =>
      if bool_decide (group ∈ groups_at seen type) then
        inr ("duplicated group :" +:+ pretty group +:+ "with type " +:+ pretty type)%string
      else verify_groups type (<[type := {[group]} ∪ groups_at seen type]> seen) gs
  end.

(** The outer loop over [mRequest.impacts()]. *)
Fixpoint verify_impacts (totals : gmap Z Z) (seen : gmap Z (gset Z))
    (impacts : list ImpactProto) : string :=
  match impacts with
  | [] => kVerifiedSuccess
  | impact :: impacts =>
      let route := ip_route impact in
      let type := rp_type route in
      if (0 <? total_at totals type) && negb (total_at totals type =? rp_groupTotal route) then
        ("group total should be same with " +:+ pretty (total_at totals type))%string
      else
        match verify_groups type seen (rp_groups route) with
        | inr e => e
        | inl seen => verify_impacts (<[type := rp_groupTotal route]> totals) seen impacts
        end
  end.

Definition SplitCommand_verifyCommand (r : SplitRequest) : string :=
  if bool_decide (sr_planId r = EmptyString) then "planId is empty"
  else if sr_epoch r <=? 0 then "epoch should greater than 0"
  else verify_impacts ∅ ∅ (sr_impacts r).

(** The answer and the request of the [SplitEvent] pushed, if any. *)
Definition SplitCommand_process (r : SplitRequest) (state : CtrlState)
    : ProcessHint * option SplitRequest :=
  if CtrlState_hasState state && (sr_epoch r <? mEpoch state) then
    (mk_ProcessHint 400 ("epoch should be greater than " +:+ pretty (mEpoch state))%string, None)
  else if CtrlState_hasState state && (sr_epoch r =? mEpoch state) then
    if bool_decide (sr_planId r = mPlanId state) then (mk_ProcessHint 201 "deduped", None)
    else (mk_ProcessHint 400 ("plan id should be " +:+ mPlanId state)%string, None)
  else (mk_ProcessHint 200 "ok", Some r).

(** ** SplitEvent::apply *)
Definition SplitEvent_apply_impact (groupId commandId : Z) (acc : CtrlState * bool)
    (impact : ImpactProto) : result (CtrlState * bool) :=
  let '(state, impacted) := acc in
  if ip_clusterId impact =? groupId then
    let state := CtrlState_applyRoute state (ip_route impact) in
    let state := CtrlState_setClusterId state (ip_clusterId impact) in
    if ip_newCluster impact then
      cassert (negb (ip_clusterId impact =? 0));;
      Ret (CtrlState_setStartIndex state (commandId +ᵤ 1), true)
    else Ret (state, true)
  else Ret (state, impacted).

Definition SplitEvent_apply (groupId commandId : Z) (r : SplitRequest) (state : CtrlState)
    : result CtrlState :=
  '(state, impacted) ← foldM (SplitEvent_apply_impact groupId commandId)
                         (CtrlState_clearRoutes state, false) (sr_impacts r);
  if (impacted : bool) then
    Ret (CtrlState_setPlanId (CtrlState_setEpoch state (sr_epoch r)) (sr_planId r))
  else Ret state.

(** * Properties *)

(** ** What [verifyCommand] accepts *)

(** The groups a request gives to route type [t], over all its impacts. *)
Definition groups_of (t : Z) (impacts : list ImpactProto) : list Z :=
  impacts ≫= λ i, if rp_type (ip_route i) =? t then rp_groups (ip_route i) else [].

(** Two impacts agree on the total of their type, or the earlier one leaves it
    unset. *)
Definition total_agrees (a b : ImpactProto) : Prop :=
  rp_type (ip_route a) = rp_type (ip_route b) →
  rp_groupTotal (ip_route a) ≤ 0 ∨ rp_groupTotal (ip_route a) = rp_groupTotal (ip_route b).

Lemma groups_at_insert m t t' s :
  groups_at (<[t := s]> m) t' = if t' =? t then s else groups_at m t'.
Proof.
  unfold groups_at. destruct (Z.eqb_spec t' t) as [->|Hne].
  - by rewrite lookup_insert_eq.
  - by rewrite lookup_insert_ne.
Qed.

Lemma total_at_insert m t t' z :
  total_at (<[t := z]> m) t' = if t' =? t then z else total_at m t'.
Proof.
  unfold total_at. destruct (Z.eqb_spec t' t) as [->|Hne].
  - by rewrite lookup_insert_eq.
  - by rewrite lookup_insert_ne.
Qed.

Lemma verify_groups_inl t seen gs seen' :
  verify_groups t seen gs = inl seen' →
  NoDup gs ∧ (∀ g, g ∈ gs → g ∉ groups_at seen t) ∧
  (∀ t', groups_at seen' t' =
         if t' =? t then list_to_set gs ∪ groups_at seen t else groups_at seen t').
Proof.
  revert seen; induction gs as [|g gs IH]; simpl; intros seen.
  - intros [= <-]. split_and!; [constructor|set_solver|].
    intros t'; destruct (Z.eqb_spec t' t) as [->|]; [set_solver|done].
  - case_bool_decide as Hg; [done|]. intros (Hnd & Hdis & Hat)%IH.
    rewrite groups_at_insert, Z.eqb_refl in Hdis.
    split_and!.
    + constructor; [|done]. intros Hin. apply (Hdis g Hin). set_solver.
    + intros g' [->|Hin]%elem_of_cons; [done|]. specialize (Hdis g' Hin). set_solver.
    + intros t'. rewrite Hat, !groups_at_insert, Z.eqb_refl.
      destruct (Z.eqb_spec t' t) as [->|]; [set_solver|done].
Qed.

Lemma verify_groups_complete t seen gs :
  NoDup gs → (∀ g, g ∈ gs → g ∉ groups_at seen t) →
  ∃ seen', verify_groups t seen gs = inl seen'.
Proof.
  revert seen; induction gs as [|g gs IH]; simpl; intros seen Hnd Hdis; [eauto|].
  inversion Hnd; subst. rewrite bool_decide_eq_false_2 by set_solver.
  apply IH; [done|]. intros g' Hin. rewrite groups_at_insert, Z.eqb_refl. set_solver.
Qed.

Definition impacts_ok (totals : gmap Z Z) (seen : gmap Z (gset Z)) (l : list ImpactProto)
    : Prop :=
  (∀ t, NoDup (groups_of t l)) ∧
  (∀ t g, g ∈ groups_of t l → g ∉ groups_at seen t) ∧
  StronglySorted total_agrees l ∧
  Forall (λ i, total_at totals (rp_type (ip_route i)) ≤ 0 ∨
               total_at totals (rp_type (ip_route i)) = rp_groupTotal (ip_route i)) l.

Lemma impacts_ok_cons totals seen seen' i l :
  verify_groups (rp_type (ip_route i)) seen (rp_groups (ip_route i)) = inl seen' →
  total_at totals (rp_type (ip_route i)) ≤ 0 ∨
    total_at totals (rp_type (ip_route i)) = rp_groupTotal (ip_route i) →
  impacts_ok (<[rp_type (ip_route i) := rp_groupTotal (ip_route i)]> totals) seen' l
  ↔ impacts_ok totals seen (i :: l).
Proof.
  intros (Hnd & Hdis & Hat)%verify_groups_inl Hi. unfold impacts_ok. cbn [groups_of mbind list_bind].
  split.
  - intros (H1 & H2 & H3 & H4). rewrite Forall_forall in H4. split_and!.
    + intros t. specialize (H1 t). specialize (H2 t). fold (groups_of t l).
      rewrite Hat in H2. destruct (Z.eqb_spec (rp_type (ip_route i)) t) as [<-|]; [|done].
      rewrite Z.eqb_refl in H2. apply NoDup_app; split_and!; [done| |done].
      intros g Hg Hg'. apply (H2 g Hg'). set_solver.
    + intros t g. fold (groups_of t l). specialize (H2 t g). rewrite Hat in H2.
      destruct (Z.eqb_spec (rp_type (ip_route i)) t) as [<-|].
      * rewrite Z.eqb_refl in H2. set_solver.
      * rewrite (proj2 (Z.eqb_neq _ _)) in H2 by done. set_solver.
    + constructor; [done|]. apply Forall_forall. intros b Hb Ht.
      destruct (H4 b Hb) as [H|H]; rewrite total_at_insert, <- Ht, Z.eqb_refl in H; eauto.
    + constructor; [done|]. apply Forall_forall. intros b Hb.
      specialize (H4 b Hb). rewrite total_at_insert in H4.
      destruct (Z.eqb_spec (rp_type (ip_route b)) (rp_type (ip_route i))) as [E|]; [|done].
      rewrite E. lia.
  - intros (H1 & H2 & H3 & H4). inversion H3 as [|? ? H3l H3i]; inversion H4 as [|? ? _ H4l]; subst.
    rewrite Forall_forall in H3i, H4l. split_and!; [| |done|].
    + intros t. specialize (H1 t). by apply NoDup_app in H1 as (_ & _ & ?).
    + intros t g Hg. rewrite Hat. destruct (Z.eqb_spec t (rp_type (ip_route i))) as [->|Hne].
      * specialize (H1 (rp_type (ip_route i))). rewrite Z.eqb_refl in H1.
        apply NoDup_app in H1 as (_ & H1 & _).
        specialize (H2 (rp_type (ip_route i)) g). rewrite Z.eqb_refl in H2.
        fold (groups_of (rp_type (ip_route i)) l) in H1, H2. set_solver.
      * apply H2. fold (groups_of t l). set_solver.
    + apply Forall_forall. intros b Hb. rewrite total_at_insert.
      destruct (Z.eqb_spec (rp_type (ip_route b)) (rp_type (ip_route i))) as [E|]; [|by apply H4l].
      by apply (H3i b Hb).
Qed.

Lemma impacts_ok_head totals seen i l :
  impacts_ok totals seen (i :: l) →
  (total_at totals (rp_type (ip_route i)) ≤ 0 ∨
   total_at totals (rp_type (ip_route i)) = rp_groupTotal (ip_route i)) ∧
  ∃ seen', verify_groups (rp_type (ip_route i)) seen (rp_groups (ip_route i)) = inl seen'.
Proof.
  intros (H1 & H2 & _ & H4). inversion H4; subst. split; [done|].
  specialize (H1 (rp_type (ip_route i))); specialize (H2 (rp_type (ip_route i))).
  cbn in H1, H2. rewrite Z.eqb_refl in H1, H2. apply NoDup_app in H1 as (H1 & _ & _).
  apply verify_groups_complete; [done|]. set_solver.
Qed.

Lemma verify_impacts_spec totals seen l :
  verify_impacts totals seen l = kVerifiedSuccess ↔ impacts_ok totals seen l.
Proof.
  revert totals seen; induction l as [|i l IH]; intros totals seen.
  { split; [|done]. intros _. unfold impacts_ok; cbn.
    split_and!; [intros; constructor|set_solver|constructor|constructor]. }
  simpl. destruct (_ && _) eqn:Et.
  { apply andb_true_iff in Et as [?%Z.ltb_lt ?%negb_true_iff%Z.eqb_neq].
    split; [discriminate|]. intros [? _]%impacts_ok_head. lia. }
  assert (Hi : total_at totals (rp_type (ip_route i)) ≤ 0 ∨
    total_at totals (rp_type (ip_route i)) = rp_groupTotal (ip_route i)).
  { apply andb_false_iff in Et as [?%Z.ltb_ge|?%negb_false_iff%Z.eqb_eq]; auto. }
  destruct (verify_groups _ _ _) as [seen'|e] eqn:Eg.
  - rewrite IH. by apply impacts_ok_cons.
  - split.
    + intros ->. clear -Eg. exfalso. revert Eg. generalize (rp_groups (ip_route i)).
      intros gs; revert seen; induction gs as [|g gs IH]; simpl; [done|]; intros seen.
      case_bool_decide; [discriminate|apply IH].
    + intros [_ [? ?]]%impacts_ok_head. congruence.
Qed.

(** What passes [verifyCommand], exactly: a named plan with a positive epoch
    that gives no group of a route type twice and agrees on the totals. *)
Lemma SplitCommand_verifyCommand_spec r :
  SplitCommand_verifyCommand r = kVerifiedSuccess ↔
  sr_planId r ≠ EmptyString ∧ 0 < sr_epoch r ∧
  (∀ t, NoDup (groups_of t (sr_impacts r))) ∧ StronglySorted total_agrees (sr_impacts r).
Proof.
  unfold SplitCommand_verifyCommand. case_bool_decide as Hp.
  { split; [discriminate|naive_solver]. }
  destruct (Z.leb_spec (sr_epoch r) 0).
  { split; [discriminate|lia]. }
  rewrite verify_impacts_spec. unfold impacts_ok. split; [naive_solver|].
  intros (_ & _ & H1 & H2). split_and!; [done|set_solver|done|].
  apply Forall_forall. intros i _. left. unfold total_at. by rewrite lookup_empty.
Qed.

(** ** What a split event does *)

(** The route of type [t] a request leaves to cluster [c]: the last one given. *)
Definition last_route (c t : Z) (impacts : list ImpactProto) : option RouteProto :=
  last (map ip_route
    (filter (λ i, (ip_clusterId i =? c) && (rp_type (ip_route i) =? t) = true) impacts)).

Lemma Route_of_proto_groups p g : g ∈ Route_mGroups (Route_of_proto p) ↔ g ∈ rp_groups p.
Proof.
  unfold Route_of_proto; simpl.
  assert (∀ s : gset Z, g ∈ foldl (λ s g, {[g]} ∪ s) s (rp_groups p) ↔ g ∈ s ∨ g ∈ rp_groups p) as H.
  { induction (rp_groups p) as [|g' gs IH]; intros s; simpl; [set_solver|].
    rewrite IH. set_solver. }
  rewrite H. set_solver.
Qed.

Lemma RouteMap_hasGroup_applyRoute m p t g :
  RouteMap_hasGroup (RouteMap_applyRoute m (rp_type p) (Route_of_proto p)) t g =
  if rp_type p =? t then bool_decide (g ∈ rp_groups p) else RouteMap_hasGroup m t g.
Proof.
  unfold RouteMap_applyRoute, RouteMap_hasGroup.
  destruct (Z.eqb_spec (rp_type p) t) as [->|Hne].
  - case_bool_decide as He.
    + rewrite bool_decide_eq_false_2.
      2:{ rewrite <- Route_of_proto_groups, He. set_solver. }
      destruct (m !! t) eqn:Em; [by rewrite lookup_delete_eq|by rewrite Em].
    + rewrite lookup_insert_eq. apply bool_decide_ext, Route_of_proto_groups.
  - case_bool_decide as He.
    + destruct (m !! rp_type p); [by rewrite lookup_delete_ne|done].
    + by rewrite lookup_insert_ne.
Qed.

Lemma last_cons_default {A} (x : A) l : last (x :: l) = Some (default x (last l)).
Proof. rewrite last_cons. by destruct (last l). Qed.

Lemma SplitEvent_fold_hasGroup c cmd impacts st b st' b' t g :
  foldM (SplitEvent_apply_impact c cmd) (st, b) impacts = Ret (st', b') →
  CtrlState_hasGroup st' t g =
  match last_route c t impacts with
  | Some p => bool_decide (g ∈ rp_groups p)
  | None => CtrlState_hasGroup st t g
  end.
Proof.
  revert st b; induction impacts as [|i l IH]; intros st b.
  { intros [= <- <-]. done. }
  cbn [foldM]. intros ([st1 b1] & H1 & H2)%bind_Ret. rewrite (IH _ _ H2).
  unfold last_route. unfold SplitEvent_apply_impact in H1. rewrite filter_cons.
  assert (Hst1 : CtrlState_hasGroup st1 t g =
    if (ip_clusterId i =? c) && (rp_type (ip_route i) =? t)
    then bool_decide (g ∈ rp_groups (ip_route i)) else CtrlState_hasGroup st t g).
  { destruct (Z.eqb_spec (ip_clusterId i) c); simpl; [|by injection H1 as <- <-].
    assert (CtrlState_hasGroup st1 t g =
      CtrlState_hasGroup (CtrlState_applyRoute st (ip_route i)) t g) as ->.
    { destruct (ip_newCluster i); inv_ret; done. }
    apply RouteMap_hasGroup_applyRoute. }
  rewrite Hst1. destruct (_ && _) eqn:E.
  - rewrite decide_True by done. cbn [map]. rewrite last_cons_default.
    by destruct (last (map _ _)).
  - rewrite decide_False by congruence. done.
Qed.

Lemma SplitEvent_apply_hasGroup c cmd r st st' t g :
  SplitEvent_apply c cmd r st = Ret st' →
  CtrlState_hasGroup st' t g =
  match last_route c t (sr_impacts r) with
  | Some p => bool_decide (g ∈ rp_groups p)
  | None => false
  end.
Proof.
  unfold SplitEvent_apply. intros ([st1 b1] & H1 & H2)%bind_Ret.
  apply SplitEvent_fold_hasGroup with (t := t) (g := g) in H1.
  assert (CtrlState_hasGroup st' t g = CtrlState_hasGroup st1 t g) as ->.
  { destruct b1; inv_ret; done. }
  rewrite H1. by destruct (last_route _ _ _).
Qed.

Lemma last_route_Some c t l p :
  last_route c t l = Some p →
  ∃ i, i ∈ l ∧ ip_clusterId i = c ∧ rp_type (ip_route i) = t ∧ ip_route i = p.
Proof.
  unfold last_route. intros (i & -> & Hi)%last_Some_elem_of%list_elem_of_fmap.
  apply list_elem_of_filter in Hi as [[Hc%Z.eqb_eq Ht%Z.eqb_eq]%andb_true_iff Hi]. eauto.
Qed.

(** Two impacts of one request that share a group of a type are one impact. *)
Lemma groups_of_unique t l a b g :
  NoDup (groups_of t l) → a ∈ l → b ∈ l →
  rp_type (ip_route a) = t → rp_type (ip_route b) = t →
  g ∈ rp_groups (ip_route a) → g ∈ rp_groups (ip_route b) → a = b.
Proof.
  assert (Hin : ∀ x l, x ∈ l → rp_type (ip_route x) = t → g ∈ rp_groups (ip_route x) →
    g ∈ groups_of t l).
  { intros x l' Hx Ht Hg. apply list_elem_of_bind. exists x.
    rewrite Ht, Z.eqb_refl. done. }
  induction l as [|i l IH]; [set_solver|]. cbn; fold (groups_of t l).
  intros (Hndi & Hdis & Hnd)%NoDup_app Ha Hb Hta Htb Hga Hgb.
  apply elem_of_cons in Ha as [->|Ha], Hb as [->|Hb]; [done|..].
  - exfalso. apply (Hdis g); [by rewrite Hta, Z.eqb_refl|by eapply Hin].
  - exfalso. apply (Hdis g); [by rewrite Htb, Z.eqb_refl|by eapply Hin].
  - by apply IH.
Qed.

Lemma split_routes_disjoint r c1 c2 cmd1 cmd2 st1 st2 st1' st2' t g :
  SplitCommand_verifyCommand r = kVerifiedSuccess →
  SplitEvent_apply c1 cmd1 r st1 = Ret st1' → SplitEvent_apply c2 cmd2 r st2 = Ret st2' →
  CtrlState_hasGroup st1' t g = true → CtrlState_hasGroup st2' t g = true → c1 = c2.
Proof.
  intros (_ & _ & Hnd & _)%SplitCommand_verifyCommand_spec H1 H2.
  rewrite (SplitEvent_apply_hasGroup _ _ _ _ _ _ _ H1),
    (SplitEvent_apply_hasGroup _ _ _ _ _ _ _ H2).
  destruct (last_route c1 t _) as [p1|] eqn:E1; [|done].
  destruct (last_route c2 t _) as [p2|] eqn:E2; [|done].
  intros Hg1%bool_decide_eq_true Hg2%bool_decide_eq_true.
  apply last_route_Some in E1 as (i1 & Hi1 & <- & Ht1 & <-).
  apply last_route_Some in E2 as (i2 & Hi2 & <- & Ht2 & <-).
  by rewrite (groups_of_unique t _ i1 i2 g (Hnd t) Hi1 Hi2).
Qed.

(** ** Epochs *)

Lemma SplitEvent_fold_frame c cmd impacts st b st' b' :
  foldM (SplitEvent_apply_impact c cmd) (st, b) impacts = Ret (st', b') →
  mEpoch st' = mEpoch st ∧ mPlanId st' = mPlanId st ∧
  b' = b || existsb (λ i, ip_clusterId i =? c) impacts.
Proof.
  revert st b; induction impacts as [|i l IH]; intros st b.
  { intros [= <- <-]. by rewrite orb_false_r. }
  cbn [foldM existsb]. intros ([st1 b1] & H1 & H2)%bind_Ret.
  destruct (IH _ _ H2) as (-> & -> & ->). unfold SplitEvent_apply_impact in H1.
  destruct (Z.eqb_spec (ip_clusterId i) c); [|by injection H1 as <- <-].
  destruct (ip_newCluster i); inv_ret; simpl; by rewrite orb_true_r.
Qed.

Lemma SplitEvent_apply_epoch c cmd r st st' :
  SplitEvent_apply c cmd r st = Ret st' →
  if existsb (λ i, ip_clusterId i =? c) (sr_impacts r)
  then mEpoch st' = sr_epoch r ∧ mPlanId st' = sr_planId r
  else mEpoch st' = mEpoch st ∧ mPlanId st' = mPlanId st.
Proof.
  unfold SplitEvent_apply. intros ([st1 b1] & H1 & H2)%bind_Ret.
  apply SplitEvent_fold_frame in H1 as (He & Hp & ->). simpl in *.
  destruct (existsb _ _); inv_ret; done.
Qed.

(** A cluster without a split behind it that the request does not name. *)
Definition untouched (r : SplitRequest) (c : Z) (s : CtrlState) : Prop :=
  existsb (λ i, ip_clusterId i =? c) (sr_impacts r) = false ∧ CtrlState_hasState s = false.

#[export] Instance untouched_dec r c s : Decision (untouched r c s).
Proof. unfold untouched. apply _. Defined.

Lemma untouched_serves r c cmd st st' t g :
  untouched r c st → SplitEvent_apply c cmd r st = Ret st' → CtrlState_serves st' t g = true.
Proof.
  intros [Hn Hs] Ha%SplitEvent_apply_epoch. rewrite Hn in Ha. destruct Ha as [He _].
  unfold CtrlState_serves, CtrlState_hasState in *. by rewrite He, Hs.
Qed.

Lemma touched_serves r c cmd st st' t g :
  SplitCommand_verifyCommand r = kVerifiedSuccess → ¬ untouched r c st → SplitEvent_apply c cmd r st = Ret st' →
  CtrlState_serves st' t g = true → CtrlState_hasGroup st' t g = true.
Proof.
  intros (_ & Hpos & _)%SplitCommand_verifyCommand_spec Hn Ha%SplitEvent_apply_epoch.
  assert (Hst : CtrlState_hasState st' = true); [|unfold CtrlState_serves; by rewrite Hst].
  unfold CtrlState_hasState in *. destruct (existsb _ _) eqn:E; destruct Ha as [-> _]; [by apply Z.ltb_lt|].
  destruct (0 <? mEpoch st) eqn:Et; [done|]. by destruct Hn.
Qed.

Lemma SplitCommand_process_epoch r s h r' :
  SplitCommand_process r s = (h, Some r') → r' = r ∧ (CtrlState_hasState s = true → mEpoch s < sr_epoch r).
Proof.
  unfold SplitCommand_process.
  destruct (CtrlState_hasState s); simpl; [|intros [= <- <-]; done].
  destruct (Z.ltb_spec (sr_epoch r) (mEpoch s)); [done|].
  destruct (Z.eqb_spec (sr_epoch r) (mEpoch s)); [by case_bool_decide|].
  intros [= <- <-]. split; [done|lia].
Qed.

Lemma split_epoch_monotone r s h r' c cmd s' :
  0 ≤ sr_epoch r → SplitCommand_process r s = (h, Some r') → SplitEvent_apply c cmd r' s = Ret s' →
  mEpoch s ≤ mEpoch s'.
Proof.
  intros H0 [-> Hlt]%SplitCommand_process_epoch Ha%SplitEvent_apply_epoch.
  unfold CtrlState_hasState in Hlt. destruct (Z.ltb_spec 0 (mEpoch s));
  destruct (existsb _ _); destruct Ha as [-> _]; lia.
Qed.

(** Sending a request that already took effect again is answered 201 and
    produces no event. *)
Lemma split_dedup r s c cmd s' :
  0 < sr_epoch r → existsb (λ i, ip_clusterId i =? c) (sr_impacts r) = true →
  SplitEvent_apply c cmd r s = Ret s' →
  SplitCommand_process r s' = (mk_ProcessHint 201 "deduped", None).
Proof.
  intros Hr He Ha%SplitEvent_apply_epoch. rewrite He in Ha. destruct Ha as [Hep Hpl].
  unfold SplitCommand_process, CtrlState_hasState. rewrite Hep, Hpl.
  rewrite (proj2 (Z.ltb_lt _ _)) by done. rewrite Z.ltb_irrefl, Z.eqb_refl.
  by rewrite bool_decide_eq_true_2.
Qed.

(** ** The control state survives a snapshot *)

(** Every route is stored under its own type. *)
Definition RouteMap_wf (m : RouteMap) : Prop :=
  map_Forall (λ t r, Route_mType r = t) m.

Lemma Route_roundtrip r : Route_of_proto (Route_buildProto r) = r.
Proof.
  destruct r as [gs n t]. unfold Route_buildProto, Route_of_proto; simpl. f_equal.
  change (Route_mGroups (Route_of_proto (mk_RouteProto t (elements gs) n)) = gs).
  apply set_eq. intros g. rewrite Route_of_proto_groups. simpl. apply elem_of_elements.
Qed.

Lemma RouteMap_parse_build l m :
  Forall (λ kv, Route_mType kv.2 = kv.1) l →
  RouteMap_parseFromProto m (map (λ kv, Route_buildProto kv.2) l)
  = foldl (λ m kv, <[kv.1 := kv.2]> m) m l.
Proof.
  intros Hl; revert m; induction Hl as [|[k r] l Hk _ IH]; intros m; simpl; [done|].
  rewrite Route_roundtrip. simpl in Hk. by rewrite Hk, IH.
Qed.

Lemma foldl_insert_list_to_map (l : list (Z * Route)) (m : RouteMap) :
  NoDup l.*1 → foldl (λ m kv, <[kv.1 := kv.2]> m) m l = list_to_map l ∪ m.
Proof.
  revert m; induction l as [|[k r] l IH]; intros m Hnd; simpl.
  - by rewrite (left_id_L ∅ (∪)).
  - inversion Hnd; subst. rewrite IH by done.
    rewrite <- insert_union_r by (by apply not_elem_of_list_to_map_1).
    by rewrite insert_union_l.
Qed.

(** Reading back the routes, written in any order, rebuilds the map. *)
Lemma RouteMap_roundtrip m l :
  RouteMap_wf m → l ≡ₚ map_to_list m →
  RouteMap_parseFromProto ∅ (map (λ kv, Route_buildProto kv.2) l) = m.
Proof.
  intros Hwf Hl. rewrite RouteMap_parse_build.
  - assert (NoDup l.*1) by (rewrite Hl; apply NoDup_fst_map_to_list).
    rewrite foldl_insert_list_to_map by done. rewrite (right_id_L ∅ (∪)).
    rewrite (list_to_map_proper _ _ H Hl). apply list_to_map_to_list.
  - apply Forall_forall. intros [k r] Hin. rewrite Hl in Hin.
    apply elem_of_map_to_list in Hin. by apply (Hwf k r).
Qed.

Lemma RouteMap_applyRoute_wf m p :
  RouteMap_wf m → RouteMap_wf (RouteMap_applyRoute m (rp_type p) (Route_of_proto p)).
Proof.
  intros Hm. unfold RouteMap_applyRoute. case_bool_decide.
  - destruct (m !! rp_type p); [by apply map_Forall_delete|done].
  - by apply map_Forall_insert_2.
Qed.

Lemma SplitEvent_apply_wf c cmd r st st' :
  SplitEvent_apply c cmd r st = Ret st' → RouteMap_wf (mRouteMap st').
Proof.
  unfold SplitEvent_apply. intros ([st1 b1] & H1 & H2)%bind_Ret.
  apply (foldM_ind (λ x, RouteMap_wf (mRouteMap x.1))) in H1; simpl in *.
  - destruct b1; inv_ret; done.
  - intros [x b] i [y b'] Hx _. unfold SplitEvent_apply_impact.
    destruct (_ =? c); [|by intros [= <- <-]].
    destruct (ip_newCluster i); intros; inv_ret; by apply RouteMap_applyRoute_wf.
  - apply map_Forall_empty.
Qed.

Lemma CtrlState_roundtrip `{Proto SplitState} s j1 j2 :
  RouteMap_wf (mRouteMap s) → 0 < mEpoch s →
  default_instance = SplitState_default →
  CtrlState_decodeFromString (mClusterId s) (CtrlState_new j1 j2) (CtrlState_encodeToString s) = s.
Proof.
  intros Hwf He Hd. unfold CtrlState_encodeToString, CtrlState_decodeFromString.
  rewrite (proj2 (Z.leb_le _ _)) by lia.
  rewrite bool_decide_eq_false_2.
  2:{ intros Hs%SerializeAsString_empty. apply (f_equal ss_epoch) in Hs. rewrite Hd in Hs. simpl in Hs. lia. }
  rewrite ParseFromString_SerializeAsString. simpl. rewrite Z.eqb_refl.
  unfold RouteMap_buildProto. rewrite (RouteMap_roundtrip (mRouteMap s)) by done. by destruct s.
Qed.
