(* ===== verification/Ledger.v ===== *)
(** * Commands and events of the ledger

    src/src/app_ledger/should_be_generated/domain: the three commands and the
    three events, with the split command and event of the control module as
    further cases of the two class hierarchies; their encoders and decoders
    ([CommandDecoderImpl], [EventDecoderImpl], [CtrlDecoderUtil],
    [CommandEventDecoderImpl]); and the request handlers of
    src/src/app_ledger/should_be_generated/app/calldatas. *)
From stdpp Require Import pretty.
From S2P Require Import Prelude Protobuf Domain Es Control.
Open Scope Z_scope.

Definition ACCOUNT_CREATED_EVENT := 51.
Definition ACCOUNT_METADATA_CONFIGURED_EVENT := 52.
Definition JOURNAL_ENTRY_RECORDED_EVENT := 53.
Definition CREATE_ACCOUNT_COMMAND := 1.
Definition CONFIGURE_ACCOUNT_METADATA_COMMAND := 2.
Definition RECORD_JOURNAL_ENTRY_COMMAND := 3.

(** ** Messages *)
Record ConfigureAccountMetadata_Request := mk_ConfigureRequest {
  cr_metadata : protos_AccountMetadata }.
Record CreateAccount_Request := mk_CreateRequest { ar_account : protos_Account }.
(** [has_journal_entry()] tells whether the sub-message is present. *)
Record RecordJournalEntry_Request := mk_RecordRequest {
  jr_journal_entry : option protos_JournalEntry }.
Record CreatedEvent := mk_CreatedEvent {
  created_version : Z; created_account : protos_Account }.
Record ConfiguredEvent := mk_ConfiguredEvent {
  configured_version : Z; configured_metadata : protos_AccountMetadata }.
Record RecordedEvent := mk_RecordedEvent {
  recorded_version : Z; recorded_entry : protos_JournalEntry }.

(** The generated serialisers of the messages the log holds. *)
Class LedgerProtos := {
  #[global] configure_request_proto :: Proto ConfigureAccountMetadata_Request;
  #[global] create_request_proto :: Proto CreateAccount_Request;
  #[global] record_request_proto :: Proto RecordJournalEntry_Request;
  #[global] split_request_proto :: Proto SplitRequest;
  #[global] created_event_proto :: Proto CreatedEvent;
  #[global] configured_event_proto :: Proto ConfiguredEvent;
  #[global] recorded_event_proto :: Proto RecordedEvent;
}.

(** ** Commands *)
Inductive CommandBody :=
  | ConfigureAccountMetadataCommand (mOrigRequest : ConfigureAccountMetadata_Request)
      (mAccountMetadataOpt : option AccountMetadata)
  | CreateAccountCommand (mOrigRequest : CreateAccount_Request) (mAccountOpt : option Account)
  | RecordJournalEntryCommand (mOrigRequest : RecordJournalEntry_Request)
      (mJournalEntryOpt : option JournalEntry)
  | SplitCommand (mRequest : SplitRequest).

Record Command := mk_Command {
  Command_mMetaData : CommandMetaData; Command_body : CommandBody }.

Definition Command_getType (c : Command) : Z := mType (Command_mMetaData c).
Definition Command_getId (c : Command) : Z := mId (Command_mMetaData c).
Definition Command_setId (c : Command) (v : Z) : Command :=
  mk_Command (mk_CommandMetaData (MetaData_setId (Command_mMetaData c) v)
                (mRequestHandle (Command_mMetaData c)))
    (Command_body c).

Definition Configure_verifyCommand (r : ConfigureAccountMetadata_Request) : string :=
  let metadata := cr_metadata r in
  if pAccountMetadata_high metadata <=? pAccountMetadata_low metadata
  then "low inclusive is larger than high inclusive"
  else kVerifiedSuccess.

Definition CreateAccount_verifyCommand (r : CreateAccount_Request) : string :=
  match pAccount_type (ar_account r) with
  | pUnknownAccountType => "account type should not be unknown"
  | _ => kVerifiedSuccess
  end.

Definition Record_verifyCommand (r : RecordJournalEntry_Request) : string :=
  match jr_journal_entry r with
  | None => "Journal entry is required"
  | Some _ => kVerifiedSuccess
  end.

Definition Command_verifyCommand (c : Command) : string :=
  match Command_body c with
  | ConfigureAccountMetadataCommand r _ => Configure_verifyCommand r
  | CreateAccountCommand r _ => CreateAccount_verifyCommand r
  | RecordJournalEntryCommand r _ => Record_verifyCommand r
  | SplitCommand r => SplitCommand_verifyCommand r
  end.

Definition tryInitAccountMetadata (r : ConfigureAccountMetadata_Request)
    : result (option AccountMetadata) :=
  if bool_decide (kVerifiedSuccess = Configure_verifyCommand r) then
    m ← AccountMetadata_initWith (cr_metadata r); Ret (Some m)
  else Ret None.

Definition tryInitAccount (r : CreateAccount_Request) : result (option Account) :=
  if bool_decide (kVerifiedSuccess = CreateAccount_verifyCommand r) then
    a ← Account_initWith (ar_account r); Ret (Some a)
  else Ret None.

Definition tryInitJournalEntry (r : RecordJournalEntry_Request) : result (option JournalEntry) :=
  if bool_decide (kVerifiedSuccess = Record_verifyCommand r) then
    e ← JournalEntry_initWith JournalEntry_default
          (default protos_JournalEntry_default (jr_journal_entry r));
    Ret (Some e)
  else Ret None.

(** The constructors that take a request. *)
Definition ConfigureAccountMetadataCommand_new junk created r : result Command :=
  opt ← tryInitAccountMetadata r;
  Ret (mk_Command (Command_meta_new junk CONFIGURE_ACCOUNT_METADATA_COMMAND created)
         (ConfigureAccountMetadataCommand r opt)).

Definition CreateAccountCommand_new junk created r : result Command :=
  opt ← tryInitAccount r;
  Ret (mk_Command (Command_meta_new junk CREATE_ACCOUNT_COMMAND created)
         (CreateAccountCommand r opt)).

Definition RecordJournalEntryCommand_new junk created r : result Command :=
  opt ← tryInitJournalEntry r;
  Ret (mk_Command (Command_meta_new junk RECORD_JOURNAL_ENTRY_COMMAND created)
         (RecordJournalEntryCommand r opt)).

Definition SplitCommand_new junk created r : Command :=
  mk_Command (Command_meta_new junk SPILT_COMMAND created) (SplitCommand r).

(** ** Replies to clients *)
Record Reply := mk_Reply {
  reply_to : Z; reply_code : Z; reply_message : string; reply_leader : option Z }.

(** [onPersisted] and [onPersistFailed]: the call of [fillResultAndReply], when
    a request is attached.  The control commands replace the code by 503. *)
Definition Command_onPersisted (c : Command) (message : string) : option Reply :=
  match mRequestHandle (Command_mMetaData c) with
  | None => None
  | Some callData => Some (mk_Reply callData 200 message None)
  end.

Definition Command_onPersistFailed (c : Command) (code : Z) (errorMessage : string)
    (reserved : option Z) : option Reply :=
  match mRequestHandle (Command_mMetaData c) with
  | None => None
  | Some callData =>
      let code := match Command_body c with SplitCommand _ => 503 | _ => code end in
      Some (mk_Reply callData code errorMessage reserved)
  end.

(** ** Events *)
Inductive EventBody :=
  | AccountCreatedEvent (mVersion : Z) (mAccount : Account)
  | AccountMetadataConfiguredEvent (mVersion : Z) (mAccountMetadata : AccountMetadata)
  | JournalEntryRecordedEvent (mVersion : Z) (mJournalEntry : JournalEntry)
  | SplitEvent (mRequest : SplitRequest).

Record Event := mk_Event {
  Event_mMetaData : EventMetaData; Event_body : EventBody }.

Definition Event_getType (e : Event) : Z := mType (Event_mMetaData e).

Definition Event_setIds (e : Event) (id commandId : Z) : Event :=
  mk_Event (mk_EventMetaData (MetaData_setId (Event_mMetaData e) id) commandId) (Event_body e).

Definition AccountCreatedEvent_new junk created a : Event :=
  mk_Event (Event_meta_new junk ACCOUNT_CREATED_EVENT created) (AccountCreatedEvent 1 a).
Definition AccountMetadataConfiguredEvent_new junk created m : Event :=
  mk_Event (Event_meta_new junk ACCOUNT_METADATA_CONFIGURED_EVENT created)
    (AccountMetadataConfiguredEvent 1 m).
Definition JournalEntryRecordedEvent_new junk created e : Event :=
  mk_Event (Event_meta_new junk JOURNAL_ENTRY_RECORDED_EVENT created)
    (JournalEntryRecordedEvent 1 e).
Definition SplitEvent_new junk created r : Event :=
  mk_Event (Event_meta_new junk SPILT_EVENT created) (SplitEvent r).

Section codec.
Context `{LedgerProtos}.

Definition Command_encodeToString (c : Command) : string :=
  match Command_body c with
  | ConfigureAccountMetadataCommand r _ => SerializeAsString r
  | CreateAccountCommand r _ => SerializeAsString r
  | RecordJournalEntryCommand r _ => SerializeAsString r
  | SplitCommand r => SerializeAsString r
  end.

Definition AccountCreatedEvent_encodeToString (v : Z) (a : Account) : result string :=
  switch_version v;;
  p ← Account_encodeTo a protos_Account_default;
  Ret (SerializeAsString (mk_CreatedEvent v p)).

Definition AccountMetadataConfiguredEvent_encodeToString (v : Z) (m : AccountMetadata)
    : result string :=
  switch_version v;;
  p ← AccountMetadata_encodeTo m protos_AccountMetadata_default;
  Ret (SerializeAsString (mk_ConfiguredEvent v p)).

Definition JournalEntryRecordedEvent_encodeToString (v : Z) (e : JournalEntry)
    : result string :=
  switch_version v;;
  p ← JournalEntry_encodeTo e protos_JournalEntry_default;
  Ret (SerializeAsString (mk_RecordedEvent v p)).

Definition Event_encodeToString (e : Event) : result string :=
  match Event_body e with
  | AccountCreatedEvent v a => AccountCreatedEvent_encodeToString v a
  | AccountMetadataConfiguredEvent v m => AccountMetadataConfiguredEvent_encodeToString v m
  | JournalEntryRecordedEvent v j => JournalEntryRecordedEvent_encodeToString v j
  | SplitEvent r => Ret (SerializeAsString r)
  end.

Definition AccountCreatedEvent_decodeFromString (s : string) : result EventBody :=
  let p : CreatedEvent := (ParseFromString s).2 in
  let v := u64 (created_version p) in
  check_version v;;
  a ← Account_initWith (created_account p); Ret (AccountCreatedEvent v a).

Definition AccountMetadataConfiguredEvent_decodeFromString (s : string) : result EventBody :=
  let p : ConfiguredEvent := (ParseFromString s).2 in
  let v := u64 (configured_version p) in
  check_version v;;
  m ← AccountMetadata_initWith (configured_metadata p); Ret (AccountMetadataConfiguredEvent v m).

Definition JournalEntryRecordedEvent_decodeFromString (s : string) : result EventBody :=
  let p : RecordedEvent := (ParseFromString s).2 in
  let v := u64 (recorded_version p) in
  check_version v;;
  e ← JournalEntry_initWith JournalEntry_default (recorded_entry p);
  Ret (JournalEntryRecordedEvent v e).

(** *** Decoders; [None] is the null pointer *)
Definition CommandDecoderImpl_decodeCommandFromString (junk : MetaData)
    (metaData : CommandMetaData) (payload : string) : result (option Command) :=
  let created := mCreatedTimeInNanos metaData in
  let set c := mk_Command (Command_setPartialMetaData (Command_mMetaData c) metaData)
                 (Command_body c) in
  if mType metaData =? CREATE_ACCOUNT_COMMAND then
    c ← CreateAccountCommand_new junk created (ParseFromString payload).2; Ret (Some (set c))
  else if mType metaData =? CONFIGURE_ACCOUNT_METADATA_COMMAND then
    c ← ConfigureAccountMetadataCommand_new junk created (ParseFromString payload).2;
    Ret (Some (set c))
  else if mType metaData =? RECORD_JOURNAL_ENTRY_COMMAND then
    c ← RecordJournalEntryCommand_new junk created (ParseFromString payload).2;
    Ret (Some (set c))
  else Ret None.

Definition EventDecoderImpl_decodeEventFromString (junk metaData : EventMetaData)
    (payload : string) : result (option Event) :=
  let mk type b := mk_Event (Event_setPartialMetaData
      (Event_meta_new junk type (mCreatedTimeInNanos metaData)) metaData) b in
  if mType metaData =? ACCOUNT_CREATED_EVENT then
    b ← AccountCreatedEvent_decodeFromString payload; Ret (Some (mk ACCOUNT_CREATED_EVENT b))
  else if mType metaData =? ACCOUNT_METADATA_CONFIGURED_EVENT then
    b ← AccountMetadataConfiguredEvent_decodeFromString payload;
    Ret (Some (mk ACCOUNT_METADATA_CONFIGURED_EVENT b))
  else if mType metaData =? JOURNAL_ENTRY_RECORDED_EVENT then
    b ← JournalEntryRecordedEvent_decodeFromString payload;
    Ret (Some (mk JOURNAL_ENTRY_RECORDED_EVENT b))
  else Ret None.

Definition CtrlDecoderUtil_decodeEvent (junk metaData : EventMetaData) (payload : string)
    : option Event :=
  if mType metaData =? SPILT_EVENT then
    let e := SplitEvent_new junk (mCreatedTimeInNanos metaData) (ParseFromString payload).2 in
    Some (mk_Event (Event_setPartialMetaData (Event_mMetaData e) metaData) (Event_body e))
  else None.

Definition CtrlDecoderUtil_decodeCommand (junk : MetaData) (metaData : CommandMetaData)
    (payload : string) : option Command :=
  if mType metaData =? SPILT_COMMAND then
    let c := SplitCommand_new junk (mCreatedTimeInNanos metaData) (ParseFromString payload).2 in
    Some (mk_Command (Command_setPartialMetaData (Command_mMetaData c) metaData)
            (Command_body c))
  else None.

Definition decodeEventFromString (junk metaData : EventMetaData) (payload : string)
    : result (option Event) :=
  if isCtrlEvent (mType metaData) then Ret (CtrlDecoderUtil_decodeEvent junk metaData payload)
  else EventDecoderImpl_decodeEventFromString junk metaData payload.

Definition decodeCommandFromString (junk : MetaData) (metaData : CommandMetaData)
    (payload : string) : result (option Command) :=
  if isCtrlCommand (mType metaData) then
    Ret (CtrlDecoderUtil_decodeCommand junk metaData payload)
  else CommandDecoderImpl_decodeCommandFromString junk metaData payload.

(** *** CommandEventEncodeWrapper, CommandEventDecodeWrapper *)
Definition encodeCommand (c : Command) (entry : CommandEntry) : CommandEntry :=
  let e := CommandMetaData_populateCommandEntry (Command_mMetaData c) entry in
  mk_CommandEntry (ce_type e) (ce_id e) (ce_createdTimeInNanos e) (Command_encodeToString c)
    (ce_creatorId e) (ce_groupId e) (ce_groupVersion e) (ce_trackingContext e).

Definition encodeEvent (ev : Event) (entry : EventEntry) : result EventEntry :=
  let e := EventMetaData_populateEventEntry (Event_mMetaData ev) entry in
  s ← Event_encodeToString ev;
  Ret (mk_EventEntry (ee_type e) (ee_id e) (ee_commandId e) (ee_createdTimeInNanos e) s
         (ee_creatorId e) (ee_groupId e) (ee_groupVersion e) (ee_trackingContext e)).

Definition decodeCommand (junk : MetaData) (entry : CommandEntry) : result (option Command) :=
  decodeCommandFromString junk (CommandMetaData_of_entry entry) (ce_entry entry).

Definition decodeEvent (junk : EventMetaData) (entry : EventEntry) : result (option Event) :=
  decodeEventFromString junk (EventMetaData_of_entry entry) (ee_entry entry).
End codec.

(** ** Request handlers

    One [CallData] object serves one RPC: its constructor calls [proceed] to
    announce it to gRPC, the arrival of the request and the completion of the
    reply call [proceed] again. *)
Inductive CallStatus := CREATE | PROCESS | FINISH.

Record Response := mk_Response {
  resp_code : Z; resp_message : string; resp_reserved : string }.

(** What a call does to the outside: announces the RPC to the service, creates
    the next [CallData], enqueues a command, finishes the call, frees itself. *)
Inductive CallAction :=
  | RequestRpc
  | NewCallData
  | Enqueue (c : Command)
  | Finish (r : Response)
  | DeleteThis.

Record CallData (R : Type) := mk_CallData {
  cd_this : Z;
  cd_mCallStatus : CallStatus;
  cd_mRequest : R;
  cd_mResponse : Response }.
Arguments mk_CallData {R}. Arguments cd_this {R}. Arguments cd_mCallStatus {R}.
Arguments cd_mRequest {R}. Arguments cd_mResponse {R}.

Definition CallData_fillResultAndReply {R} (self : CallData R) (code : Z) (message : string)
    (leaderId : option Z) : CallData R * list CallAction :=
  let reserved :=
    match leaderId with
    | Some l => if code =? HttpCode_MOVED_PERMANENTLY then pretty l
                else resp_reserved (cd_mResponse self)
    | None => resp_reserved (cd_mResponse self)
    end in
  let response := mk_Response code message reserved in
  (mk_CallData (cd_this self) FINISH (cd_mRequest self) response, [Finish response]).

(** [AppInfo]: the ids stamped on every command. *)
Record AppInfo := mk_AppInfo {
  AppInfo_subsystemId : Z; AppInfo_groupId : Z; AppInfo_groupVersion : Z }.

(** [setRequestHandle], [setCreatorId], [setGroupId], [setGroupVersion] *)
Definition Command_stamp (c : Command) (handle : Z) (info : AppInfo) : Command :=
  let m := Command_mMetaData c in
  mk_Command
    (mk_CommandMetaData
       (mk_MetaData (mId m) (mType m) (mCreatedTimeInNanos m) (mProcessTimeInNanos m)
          (mLeaderReadyTimeInNanos m) (mFinishTimeInNanos m) (AppInfo_subsystemId info)
          (AppInfo_groupId info) (AppInfo_groupVersion info) (mTrackingContext m))
       (Some handle))
    (Command_body c).

(** [proceed], for the command class whose constructor is [make]; [stopped] is
    the message of the exception [enqueue] throws, if it throws. *)
Definition CallData_proceed {R} (make : MetaData → Z → R → result Command)
    (info : AppInfo) (junk : MetaData) (now : Z) (stopped : option string) (self : CallData R)
    : result (CallData R * list CallAction) :=
  match cd_mCallStatus self with
  | CREATE =>
      Ret (mk_CallData (cd_this self) PROCESS (cd_mRequest self) (cd_mResponse self), [RequestRpc])
  | PROCESS =>
      command ← make junk now (cd_mRequest self);
      let command := Command_stamp command (cd_this self) info in
      let verifyResult := Command_verifyCommand command in
      if negb (bool_decide (verifyResult = kVerifiedSuccess)) then
        let '(self, acts) :=
          CallData_fillResultAndReply self HttpCode_BAD_REQUEST verifyResult None in
        Ret (self, NewCallData :: acts)
      else
        match stopped with
        | None => Ret (self, [NewCallData; Enqueue command])
        | Some what =>
            let '(self, acts) :=
              CallData_fillResultAndReply self HttpCode_SERVICE_UNAVAILABLE what None in
            Ret (self, NewCallData :: acts)
        end
  | FINISH => Ret (self, [DeleteThis])
  end.

Definition ConfigureAccountMetadata_proceed := CallData_proceed ConfigureAccountMetadataCommand_new.
Definition CreateAccount_proceed := CallData_proceed CreateAccountCommand_new.
Definition RecordJournalEntry_proceed := CallData_proceed RecordJournalEntryCommand_new.

(** * Properties *)

(** The body of a command is what its constructor makes of its request; the
    type recorded in the metadata is the class. *)
Definition Command_wf (c : Command) : Prop :=
  match Command_body c with
  | ConfigureAccountMetadataCommand r o =>
      Command_getType c = CONFIGURE_ACCOUNT_METADATA_COMMAND ∧ tryInitAccountMetadata r = Ret o
  | CreateAccountCommand r o =>
      Command_getType c = CREATE_ACCOUNT_COMMAND ∧ tryInitAccount r = Ret o
  | RecordJournalEntryCommand r o =>
      Command_getType c = RECORD_JOURNAL_ENTRY_COMMAND ∧ tryInitJournalEntry r = Ret o
  | SplitCommand r => Command_getType c = SPILT_COMMAND
  end.

(** Events the state machine produces: version 1, well-formed payload, matching
    type. *)
Definition Event_wf (e : Event) : Prop :=
  match Event_body e with
  | AccountCreatedEvent v a => Event_getType e = ACCOUNT_CREATED_EVENT ∧ v = 1 ∧ Account_wf a
  | AccountMetadataConfiguredEvent v m =>
      Event_getType e = ACCOUNT_METADATA_CONFIGURED_EVENT ∧ v = 1 ∧ AccountMetadata_wf m
  | JournalEntryRecordedEvent v j =>
      Event_getType e = JOURNAL_ENTRY_RECORDED_EVENT ∧ v = 1 ∧ JournalEntry_wf j
  | SplitEvent r => Event_getType e = SPILT_EVENT
  end.

Lemma Command_wf_type c : Command_wf c → in_i64 (Command_getType c).
Proof.
  unfold Command_wf, in_i64. destruct (Command_body c); [intros [-> _]..|intros ->];
    unfold CONFIGURE_ACCOUNT_METADATA_COMMAND, CREATE_ACCOUNT_COMMAND,
      RECORD_JOURNAL_ENTRY_COMMAND, SPILT_COMMAND; lia.
Qed.

Lemma Event_wf_type e : Event_wf e → in_i64 (Event_getType e).
Proof.
  unfold Event_wf, in_i64. destruct (Event_body e); [intros [-> _]..|intros ->];
    unfold ACCOUNT_CREATED_EVENT, ACCOUNT_METADATA_CONFIGURED_EVENT,
      JOURNAL_ENTRY_RECORDED_EVENT, SPILT_EVENT; lia.
Qed.

Lemma ConfigureAccountMetadataCommand_new_wf junk t r c :
  ConfigureAccountMetadataCommand_new junk t r = Ret c → Command_wf c.
Proof. unfold ConfigureAccountMetadataCommand_new; intros; inv_ret; done. Qed.

Lemma CreateAccountCommand_new_wf junk t r c :
  CreateAccountCommand_new junk t r = Ret c → Command_wf c.
Proof. unfold CreateAccountCommand_new; intros; inv_ret; done. Qed.

Lemma RecordJournalEntryCommand_new_wf junk t r c :
  RecordJournalEntryCommand_new junk t r = Ret c → Command_wf c.
Proof. unfold RecordJournalEntryCommand_new; intros; inv_ret; done. Qed.

#[export] Hint Resolve ConfigureAccountMetadataCommand_new_wf CreateAccountCommand_new_wf
  RecordJournalEntryCommand_new_wf : ledger.

(** ** Only verified commands are enqueued *)
Lemma CallData_proceed_enqueue {R} (make : MetaData → Z → R → result Command)
    info junk now stopped self self' acts c :
  (∀ j t r c, make j t r = Ret c → Command_wf c) →
  CallData_proceed make info junk now stopped self = Ret (self', acts) →
  Enqueue c ∈ acts →
  Command_wf c ∧ Command_verifyCommand c = kVerifiedSuccess ∧
  mRequestHandle (Command_mMetaData c) = Some (cd_this self).
Proof.
  intros Hmake. unfold CallData_proceed. destruct (cd_mCallStatus self); intros H Hin; inv_ret.
  - set_solver.
  - case_bool_decide as Hv; simpl in *; [destruct stopped; inv_ret|inv_ret]; [set_solver| |set_solver].
    apply list_elem_of_In in Hin as [Hin|[[= <-]|[]]]; [done|].
    split; [|done]. by eapply Hmake in H0.
  - set_solver.
Qed.

(** ** Commands and events survive the log *)
Section codec_props.
Context `{LedgerProtos}.

(** What a reader gets back for a command: the persisted metadata. *)
Definition Command_persisted (c : Command) : Command :=
  mk_Command (mk_CommandMetaData (persisted (Command_mMetaData c)) None) (Command_body c).

(** ... and for a journal entry: what [initWith] makes of what [encodeTo] wrote. *)
Definition JournalEntry_persisted (j : JournalEntry) : JournalEntry :=
  match p ← JournalEntry_encodeTo j protos_JournalEntry_default; JournalEntry_initWith JournalEntry_default p with
  | Ret j' => j'
  | Fail _ => j
  end.

Definition Event_persisted (e : Event) : Event :=
  mk_Event (mk_EventMetaData (persisted (Event_mMetaData e)) (mCommandId (Event_mMetaData e)))
    match Event_body e with
    | JournalEntryRecordedEvent v j => JournalEntryRecordedEvent v (JournalEntry_persisted j)
    | b => b
    end.

(** The id is lost. *)
Lemma JournalEntry_persisted_eq j : JournalEntry_wf j →
  JournalEntry_persisted j =
    mk_JournalEntry (JournalEntry_mVersion j) EmptyString (JournalEntry_mValidTime j) (JournalEntry_mRecordTime j)
      (JournalEntry_mJournalLines j) (JournalEntry_mPurpose j).
Proof.
  intros Hj. destruct (JournalEntry_roundtrip j protos_JournalEntry_default Hj) as (p & He & Hd); [done|].
  unfold JournalEntry_persisted. rewrite He. simpl. by rewrite Hd.
Qed.

Lemma Command_roundtrip junk c entry :
  Command_wf c → decodeCommand junk (encodeCommand c entry) = Ret (Some (Command_persisted c)).
Proof.
  intros Hwf. unfold decodeCommand, encodeCommand, decodeCommandFromString.
  pose proof (Command_wf_type c Hwf) as Ht.
  unfold CommandMetaData_of_entry, MetaData_of_CommandEntry; simpl.
  unfold Command_getType in Ht. rewrite (i64_u64 _ Ht).
  destruct c as [[[i ty ct pt lt ft cr g gv tc] h] [r o|r o|r o|r]];
    unfold Command_wf, Command_getType in Hwf; simpl in *;
    [destruct Hwf as [-> Ho]..|rewrite Hwf]; simpl;
    unfold CommandDecoderImpl_decodeCommandFromString, CtrlDecoderUtil_decodeCommand; simpl;
    unfold Command_encodeToString; simpl; rewrite ParseFromString_SerializeAsString; simpl;
    unfold ConfigureAccountMetadataCommand_new, CreateAccountCommand_new,
      RecordJournalEntryCommand_new; try rewrite Ho; done.
Qed.

Lemma Event_body_roundtrip e :
  Event_wf e →
  ∃ s, Event_encodeToString e = Ret s ∧
  match Event_body e with
  | AccountCreatedEvent v a => AccountCreatedEvent_decodeFromString s
  | AccountMetadataConfiguredEvent v m => AccountMetadataConfiguredEvent_decodeFromString s
  | JournalEntryRecordedEvent v j => JournalEntryRecordedEvent_decodeFromString s
  | SplitEvent r => Ret (SplitEvent (ParseFromString s).2)
  end = Ret (Event_body (Event_persisted e)).
Proof.
  destruct e as [m [v a|v a|v j|r]]; cbn.
  - intros (_ & -> & Ha).
    destruct (Account_roundtrip a protos_Account_default Ha) as (p & He & Hd).
    unfold AccountCreatedEvent_encodeToString; simpl. rewrite He; simpl.
    eexists; split; [done|]. unfold AccountCreatedEvent_decodeFromString.
    rewrite ParseFromString_SerializeAsString; simpl. by rewrite Hd.
  - intros (_ & -> & Ha).
    destruct (AccountMetadata_roundtrip a protos_AccountMetadata_default Ha) as (p & He & Hd).
    unfold AccountMetadataConfiguredEvent_encodeToString; simpl. rewrite He; simpl.
    eexists; split; [done|]. unfold AccountMetadataConfiguredEvent_decodeFromString.
    rewrite ParseFromString_SerializeAsString; simpl. by rewrite Hd.
  - intros (_ & -> & Ha).
    destruct (JournalEntry_roundtrip j protos_JournalEntry_default Ha) as (p & He & Hd); [done|].
    unfold JournalEntryRecordedEvent_encodeToString; simpl. rewrite He; simpl.
    eexists; split; [done|]. unfold JournalEntryRecordedEvent_decodeFromString.
    rewrite ParseFromString_SerializeAsString; simpl. rewrite Hd. by rewrite JournalEntry_persisted_eq.
  - intros _. eexists; split; [done|]. by rewrite ParseFromString_SerializeAsString.
Qed.

Lemma Event_roundtrip junk e entry :
  Event_wf e →
  ∃ ee, encodeEvent e entry = Ret ee ∧ decodeEvent junk ee = Ret (Some (Event_persisted e)).
Proof.
  intros Hwf. destruct (Event_body_roundtrip e Hwf) as (s & He & Hd).
  unfold encodeEvent. rewrite He; simpl. eexists; split; [done|].
  unfold decodeEvent, EventMetaData_of_entry, MetaData_of_EventEntry; simpl.
  pose proof (Event_wf_type e Hwf) as Ht.
  unfold Event_getType in Ht. rewrite (i64_u64 _ Ht). clear Ht.
  unfold decodeEventFromString.
  destruct e as [[[i ty ct pt lt ft cr g gv tc] ci] [v a|v a|v j|r]];
    unfold Event_wf, Event_getType in Hwf; simpl in *;
    [destruct Hwf as [-> _]..|rewrite Hwf]; simpl;
    unfold EventDecoderImpl_decodeEventFromString, CtrlDecoderUtil_decodeEvent; simpl;
    try rewrite Hd; simpl; try done.
  injection He as <-. by rewrite ParseFromString_SerializeAsString.
Qed.
End codec_props.
