(* ===== verification/LedgerSM.v ===== *)
(** * The ledger state machine

    src/src/app_ledger/v2/AppStateMachine.{h,cpp}, the dispatch of
    src/src/app_ledger/AppStateMachine.cpp and of
    src/src/app_util/AppStateMachine.h: [process] turns a command into events
    without touching the state, [apply] applies an event.

    The maps are [gmap]s: the loops of the code over a [std::map] compute
    disjunctions, which do not depend on the order.  The virtual callbacks
    ([onAccountInserted], ...) are recorded in the order of the calls; the
    memory-backed state machine ignores them, the RocksDB-backed one writes
    them to its batch. *)
From stdpp Require Import pretty.
From S2P Require Import Prelude Protobuf Domain Es Control Ledger.
Open Scope Z_scope.

Definition ACCOUNT_ALREADY_EXISTS := 1000.
Definition ACCOUNT_METADATA_RANGE_OVERLAP := 1001.
Definition ACCOUNT_METADATA_RANGE_NOT_COVER_EXISTING_ACCOUNT := 1002.
Definition JOURNAL_ENTRY_ALREADY_PROCESSED := 1003.
Definition ACCOUNT_IN_JOURNAL_ENTRY_NOT_EXIST := 1004.
Definition NO_DEBIT_IN_JOURNAL_ENTRY := 1005.
Definition NO_CREDIT_IN_JOURNAL_ENTRY := 1006.
Definition CREDIT_NOT_EQUAL_TO_DEBIT := 1007.
Definition INVALID_TRANSACTION_TYPE := 1008.
Definition JOURNAL_LINE_ISO_CURRENCY_CODE_DOES_NOT_MATCH_ACCOUNT := 1009.

Record AppStateMachine := mk_AppStateMachine {
  mCtrlState : CtrlState;
  mDoneMap : gmap string Z;
  mCoA : gmap Z Account;
  mAccountMetadata : gmap AccountType AccountMetadata }.

Definition set_mDoneMap (s : AppStateMachine) v :=
  mk_AppStateMachine (mCtrlState s) v (mCoA s) (mAccountMetadata s).
Definition set_mCoA (s : AppStateMachine) v :=
  mk_AppStateMachine (mCtrlState s) (mDoneMap s) v (mAccountMetadata s).
Definition set_mAccountMetadata (s : AppStateMachine) v :=
  mk_AppStateMachine (mCtrlState s) (mDoneMap s) (mCoA s) v.
Definition set_mCtrlState (s : AppStateMachine) v :=
  mk_AppStateMachine v (mDoneMap s) (mCoA s) (mAccountMetadata s).

Definition clearState (s : AppStateMachine) : AppStateMachine :=
  mk_AppStateMachine (mCtrlState s) ∅ ∅ ∅.

Definition hasSameState (s another : AppStateMachine) : bool :=
  if negb (Nat.eqb (size (mCoA s)) (size (mCoA another))) then false
  else
    forallb (λ kv, match mCoA s !! kv.1 with
                   | None => false
                   | Some a => Account_isSame kv.2 a
                   end) (map_to_list (mCoA another)) &&
    forallb (λ kv, match mAccountMetadata s !! kv.1 with
                   | None => false
                   | Some m => AccountMetadata_isSame kv.2 m
                   end) (map_to_list (mAccountMetadata another)).

(** What a call of [process] reads from outside the state: the clock, the
    content of the storage of the new event, and whether RocksDB answers
    [IsNotFound] for a key of the done map. *)
Record ProcessEnv := mk_ProcessEnv {
  env_now : Z;
  env_junk : EventMetaData;
  env_IsNotFound : string → bool }.

Definition success : ProcessHint := mk_ProcessHint HttpCode_OK "Success".

(** ** Command processors: the hint and the events pushed *)
Definition process_ConfigureAccountMetadata (env : ProcessEnv) (s : AppStateMachine)
    (accountMetadataOpt : option AccountMetadata) : ProcessHint * list Event :=
  match accountMetadataOpt with
  | Some accountMetadata =>
      let accountType := AccountMetadata_mAccountType accountMetadata in
      let lowInclusive := AccountMetadata_mLowInclusive accountMetadata in
      let highInclusive := AccountMetadata_mHighInclusive accountMetadata in
      if existsb (λ '(type, metadata),
           negb (bool_decide (accountType = type)) &&
           negb ((AccountMetadata_mHighInclusive metadata <? lowInclusive) ||
                 (highInclusive <? AccountMetadata_mLowInclusive metadata)))
           (map_to_list (mAccountMetadata s)) then
        (mk_ProcessHint ACCOUNT_METADATA_RANGE_OVERLAP
           "range overlaps with other account metadata", [])
      else if existsb (λ '(nominalCode, account),
           bool_decide (accountType = Account_mAccountType account) &&
           ((nominalCode <? lowInclusive) || (highInclusive <? nominalCode)))
           (map_to_list (mCoA s)) then
        (mk_ProcessHint ACCOUNT_METADATA_RANGE_NOT_COVER_EXISTING_ACCOUNT
           "new range cannot cover existing account's nominal code", [])
      else (success, [AccountMetadataConfiguredEvent_new (env_junk env) (env_now env)
                        accountMetadata])
  | None => (success, [])
  end.

Definition process_CreateAccount (env : ProcessEnv) (s : AppStateMachine)
    (accountOpt : option Account) : ProcessHint * list Event :=
  match accountOpt with
  | Some account =>
      match mCoA s !! Account_mNominalCode account with
      | Some _ => (mk_ProcessHint ACCOUNT_ALREADY_EXISTS "Account already exists", [])
      | None => (success, [AccountCreatedEvent_new (env_junk env) (env_now env) account])
      end
  | None => (mk_ProcessHint HttpCode_BAD_REQUEST "Invalid command as no account passed", [])
  end.

(** The counters and sums of the loop over the journal lines. *)
Record LineSums := mk_LineSums {
  debitCnt : Z; creditCnt : Z; debitSum : Amount; creditSum : Amount }.

Definition LineSums_init : LineSums := mk_LineSums 0 0 Amount_default Amount_default.

(** One iteration: the hint of an early return, or the next accumulators. *)
Definition check_line (coa : gmap Z Account) (acc : LineSums) (journalLine : JournalLine)
    : result (ProcessHint + LineSums) :=
  let nominalCode := JournalLine_mNominalCode journalLine in
  match coa !! nominalCode with
  | None =>
      Ret (inl (mk_ProcessHint ACCOUNT_IN_JOURNAL_ENTRY_NOT_EXIST
                  ("account " +:+ pretty nominalCode +:+ " does not exist")%string))
  | Some account =>
      let inAccount := Account_mISO4217CurrencyCode account in
      let inLine := JournalLine_mISO4217CurrencyCode journalLine in
      if negb (inAccount =? inLine) then
        Ret (inl (mk_ProcessHint JOURNAL_LINE_ISO_CURRENCY_CODE_DOES_NOT_MATCH_ACCOUNT
          ("the iso-4217 currency code: " +:+ pretty inLine +:+
           " in journal line doesn't match the code in account: " +:+ pretty inAccount)%string))
      else
        match JournalLine_mTransactionType journalLine with
        | UnknownTransaction =>
            Ret (inl (mk_ProcessHint INVALID_TRANSACTION_TYPE
                        "transaction type should be either debit or credit"))
        | Debit =>
            sum ← Amount_add (debitSum acc) (JournalLine_mAmount journalLine);
            Ret (inr (mk_LineSums (u32 (debitCnt acc + 1)) (creditCnt acc) sum (creditSum acc)))
        | Credit =>
            sum ← Amount_add (creditSum acc) (JournalLine_mAmount journalLine);
            Ret (inr (mk_LineSums (debitCnt acc) (u32 (creditCnt acc + 1)) (debitSum acc) sum))
        end
  end.

Fixpoint check_lines (coa : gmap Z Account) (acc : LineSums) (lines : list JournalLine)
    : result (ProcessHint + LineSums) :=
  match lines with
  | [] => Ret (inr acc)
  | l :: lines =>
      r ← check_line coa acc l;
      match r with
      | inl hint => Ret (inl hint)
      | inr acc => check_lines coa acc lines
      end
  end.

Definition process_RecordJournalEntry (env : ProcessEnv) (s : AppStateMachine)
    (journalEntryOpt : option JournalEntry) : result (ProcessHint * list Event) :=
  match journalEntryOpt with
  | None => Fail AssertFailure
  | Some journalEntry =>
      let entryId := JournalEntry_mId journalEntry in
      let already := mk_ProcessHint JOURNAL_ENTRY_ALREADY_PROCESSED
                       "journal entry has already been processed" in
      match mDoneMap s !! entryId with
      | Some _ => Ret (already, [])
      | None =>
          if negb (env_IsNotFound env entryId) then Ret (already, [])
          else
            r ← check_lines (mCoA s) LineSums_init (JournalEntry_mJournalLines journalEntry);
            match r with
            | inl hint => Ret (hint, [])
            | inr acc =>
                if debitCnt acc =? 0 then
                  Ret (mk_ProcessHint NO_DEBIT_IN_JOURNAL_ENTRY "no debit in journal entry", [])
                else if creditCnt acc =? 0 then
                  Ret (mk_ProcessHint NO_CREDIT_IN_JOURNAL_ENTRY "no credit in journal entry", [])
                else if negb (Amount_eqb (debitSum acc) (creditSum acc)) then
                  Ret (mk_ProcessHint CREDIT_NOT_EQUAL_TO_DEBIT
                         "credit amount not equal to debit amount", [])
                else
                  Ret (success, [JournalEntryRecordedEvent_new (env_junk env) (env_now env)
                                   journalEntry])
            end
      end
  end.

(** ** Event appliers *)
Inductive Callback :=
  | onAccountInserted (account : Account)
  | onAccountMetadataUpdated (accountMetadata : AccountMetadata)
  | onBookkeepingProcessed (dedupId : string) (validTime : Z)
  | onAccountUpdated (account : Account).

Definition apply_AccountMetadataConfigured (s : AppStateMachine) (m : AccountMetadata)
    : AppStateMachine * list Callback :=
  (set_mAccountMetadata s (<[AccountMetadata_mAccountType m := m]> (mAccountMetadata s)),
   [onAccountMetadataUpdated m]).

Definition apply_AccountCreated (s : AppStateMachine) (account : Account)
    : result (AppStateMachine * list Callback) :=
  let nominalCode := Account_mNominalCode account in
  cassert (bool_decide (mCoA s !! nominalCode = None));;
  Ret (set_mCoA s (<[nominalCode := account]> (mCoA s)), [onAccountInserted account]).

(** One iteration of the loop over the journal lines; [mCoA.at] throws
    [std::out_of_range] for a missing key. *)
Definition apply_line (acc : gmap Z Account * list Callback) (journalLine : JournalLine)
    : result (gmap Z Account * list Callback) :=
  let '(coa, calls) := acc in
  let nominalCode := JournalLine_mNominalCode journalLine in
  match coa !! nominalCode with
  | None => Fail OutOfRange
  | Some account =>
      let amount := JournalLine_mAmount journalLine in
      let type := JournalLine_mTransactionType journalLine in
      cassert (negb (bool_decide (type = UnknownTransaction)));;
      account ← (if bool_decide (type = Debit) then Account_applyDebit account amount
                 else Account_applyCredit account amount);
      Ret (<[nominalCode := account]> coa, calls ++ [onAccountUpdated account])
  end.

Definition apply_JournalEntryRecorded (s : AppStateMachine) (journalEntry : JournalEntry)
    : result (AppStateMachine * list Callback) :=
  let id := JournalEntry_mId journalEntry in
  let validTime := JournalEntry_mValidTime journalEntry in
  cassert (bool_decide (mDoneMap s !! id = None));;
  let s := set_mDoneMap s (<[id := validTime]> (mDoneMap s)) in
  '(coa, calls) ← foldM apply_line (mCoA s, [onBookkeepingProcessed id validTime])
                    (JournalEntry_mJournalLines journalEntry);
  Ret (set_mCoA s coa, calls).

(** ** Dispatch *)

(** [mCommandProcessorMap]: the processors the constructor of
    [ledger::AppStateMachine] registers.  The [dynamic_cast] to a reference
    throws [std::bad_cast] on a command of another class. *)
Definition CommandProcessor :=
  ProcessEnv → AppStateMachine → Command → result (ProcessHint * list Event).

Definition mCommandProcessorMap : gmap Z CommandProcessor :=
  {[ CONFIGURE_ACCOUNT_METADATA_COMMAND := (λ env s c,
       match Command_body c with
       | ConfigureAccountMetadataCommand _ o => Ret (process_ConfigureAccountMetadata env s o)
       | _ => Fail Thrown
       end);
     CREATE_ACCOUNT_COMMAND := (λ env s c,
       match Command_body c with
       | CreateAccountCommand _ o => Ret (process_CreateAccount env s o)
       | _ => Fail Thrown
       end);
     RECORD_JOURNAL_ENTRY_COMMAND := (λ env s c,
       match Command_body c with
       | RecordJournalEntryCommand _ o => process_RecordJournalEntry env s o
       | _ => Fail Thrown
       end) ]}.

Definition EventApplier := AppStateMachine → Event → result (AppStateMachine * list Callback).

Definition mEventApplierMap : gmap Z EventApplier :=
  {[ ACCOUNT_METADATA_CONFIGURED_EVENT := (λ s e,
       match Event_body e with
       | AccountMetadataConfiguredEvent _ m => Ret (apply_AccountMetadataConfigured s m)
       | _ => Fail Thrown
       end);
     ACCOUNT_CREATED_EVENT := (λ s e,
       match Event_body e with
       | AccountCreatedEvent _ a => apply_AccountCreated s a
       | _ => Fail Thrown
       end);
     JOURNAL_ENTRY_RECORDED_EVENT := (λ s e,
       match Event_body e with
       | JournalEntryRecordedEvent _ j => apply_JournalEntryRecorded s j
       | _ => Fail Thrown
       end) ]}.

(** The events pushed by a control command. *)
Definition ctrl_process (env : ProcessEnv) (s : AppStateMachine) (r : SplitRequest)
    : ProcessHint * list Event :=
  let '(hint, ev) := SplitCommand_process r (mCtrlState s) in
  (hint, match ev with
         | Some r => [SplitEvent_new (env_junk env) (env_now env) r]
         | None => []
         end).

(** [checkCommand] is not overridden and returns [true]. *)
Definition processCommand (env : ProcessEnv) (s : AppStateMachine) (c : Command)
    : result (ProcessHint * list Event) :=
  if isCtrlCommand (Command_getType c) then
    match Command_body c with
    | SplitCommand r => Ret (ctrl_process env s r)
    | _ => Fail Thrown
    end
  else
    match mCommandProcessorMap !! Command_getType c with
    | Some commandProcessor => commandProcessor env s c
    | None =>
        Ret (mk_ProcessHint 503
               ("Cannot find command processor for " +:+ pretty (Command_getType c))%string, [])
    end.

Definition applyEvent (groupId : Z) (s : AppStateMachine) (e : Event)
    : result (AppStateMachine * list Callback) :=
  if isCtrlEvent (Event_getType e) then
    match Event_body e with
    | SplitEvent r =>
        cs ← SplitEvent_apply groupId (mCommandId (Event_mMetaData e)) r (mCtrlState s);
        Ret (set_mCtrlState s cs, [])
    | _ => Fail Thrown
    end
  else
    match mEventApplierMap !! Event_getType e with
    | Some eventApplier => eventApplier s e
    | None => Ret (s, [])
    end.

(** The loop that applies a list of events. *)
Definition applyEvents (groupId : Z) (s : AppStateMachine) (es : list Event)
    : result (AppStateMachine * list Callback) :=
  foldM (λ '(s, calls) e, '(s, calls') ← applyEvent groupId s e; Ret (s, calls ++ calls'))
    (s, []) es.

(** [events] is the vector passed in; the result has it with the new events. *)
Definition processCommandAndApply (env : ProcessEnv) (groupId : Z) (s : AppStateMachine)
    (c : Command) (events : list Event)
    : result (ProcessHint * list Event * AppStateMachine * list Callback) :=
  '(hint, new) ← processCommand env s c;
  let events := events ++ new in
  match events with
  | [] => Ret (hint, events, s, [])
  | _ => '(s, calls) ← applyEvents groupId s events; Ret (hint, events, s, calls)
  end.
