(* ===== verification/LedgerProps.v ===== *)
(** * Properties of the ledger state machine

    The verdict on a journal entry against its declarative specification, the
    invariant of the chart of accounts and of the account metadata, the
    conservation of the trial balance, deduplication, totality, and what a
    replica that applies the persisted events ends up with. *)
From S2P Require Import Prelude Protobuf Domain Es Control Ledger LedgerSM.
Open Scope Z_scope.

(** ** Journal lines *)

(** The code with which the loop over the lines returns early, if it does. *)
Definition line_error (coa : gmap Z Account) (l : JournalLine) : option Z :=
  match coa !! JournalLine_mNominalCode l with
  | None => Some ACCOUNT_IN_JOURNAL_ENTRY_NOT_EXIST
  | Some a =>
      if Account_mISO4217CurrencyCode a =? JournalLine_mISO4217CurrencyCode l then
        if bool_decide (JournalLine_mTransactionType l = UnknownTransaction)
        then Some INVALID_TRANSACTION_TYPE else None
      else Some JOURNAL_LINE_ISO_CURRENCY_CODE_DOES_NOT_MATCH_ACCOUNT
  end.

Definition first_error (coa : gmap Z Account) (lines : list JournalLine) : option Z :=
  head (omap (line_error coa) lines).

Definition lines_of (t : TransactionType) (lines : list JournalLine) : list JournalLine :=
  filter (λ l, JournalLine_mTransactionType l = t) lines.

Definition line_value (l : JournalLine) : Z := Amount_mValue (JournalLine_mAmount l).

(** The exact sum of the amounts on one side of an entry. *)
Definition side_sum (t : TransactionType) (lines : list JournalLine) : Z :=
  foldr Z.add 0 (map line_value (lines_of t lines)).

Definition side_count (t : TransactionType) (lines : list JournalLine) : Z :=
  Z.of_nat (length (lines_of t lines)).

(** What the verdict on an entry should be: the code of the answer. *)
Definition journal_verdict (env : ProcessEnv) (s : AppStateMachine) (e : JournalEntry) : Z :=
  let lines := JournalEntry_mJournalLines e in
  if bool_decide (is_Some (mDoneMap s !! JournalEntry_mId e)) ||
     negb (env_IsNotFound env (JournalEntry_mId e))
  then JOURNAL_ENTRY_ALREADY_PROCESSED
  else match first_error (mCoA s) lines with
       | Some code => code
       | None =>
           if side_count Debit lines =? 0 then NO_DEBIT_IN_JOURNAL_ENTRY
           else if side_count Credit lines =? 0 then NO_CREDIT_IN_JOURNAL_ENTRY
           else if u64 (side_sum Debit lines) =? u64 (side_sum Credit lines)
           then HttpCode_OK else CREDIT_NOT_EQUAL_TO_DEBIT
       end.

Lemma side_sum_cons t l lines :
  side_sum t (l :: lines) =
  (if bool_decide (JournalLine_mTransactionType l = t) then line_value l else 0) + side_sum t lines.
Proof.
  unfold side_sum, lines_of. rewrite filter_cons.
  case_decide; [rewrite bool_decide_eq_true_2|rewrite bool_decide_eq_false_2]; done.
Qed.

Lemma side_count_cons t l lines :
  side_count t (l :: lines) =
  (if bool_decide (JournalLine_mTransactionType l = t) then 1 else 0) + side_count t lines.
Proof.
  unfold side_count, lines_of. rewrite filter_cons.
  case_decide; [rewrite bool_decide_eq_true_2 by done|rewrite bool_decide_eq_false_2 by done];
    simpl length; lia.
Qed.

Lemma side_count_nonneg t lines : 0 ≤ side_count t lines ≤ Z.of_nat (length lines).
Proof.
  unfold side_count, lines_of. pose proof (length_filter (λ l, JournalLine_mTransactionType l = t) lines).
  lia.
Qed.

(** The accumulators of the loop, as a function of the lines it has seen. *)
Definition sums_of (dc cc ds cs : Z) : LineSums :=
  mk_LineSums (u32 dc) (u32 cc) (mk_Amount 1 (u64 ds)) (mk_Amount 1 (u64 cs)).

Lemma u32_add_l a b : u32 (u32 a + b) = u32 (a + b).
Proof. unfold u32. by rewrite Zplus_mod_idemp_l. Qed.

Lemma u64_add_l a b : u64 (u64 a + b) = u64 (a + b).
Proof. unfold u64. by rewrite Zplus_mod_idemp_l. Qed.

Lemma check_line_spec coa dc cc ds cs l :
  JournalLine_wf l →
  match line_error coa l with
  | Some code => ∃ msg, check_line coa (sums_of dc cc ds cs) l = Ret (inl (mk_ProcessHint code msg))
  | None => check_line coa (sums_of dc cc ds cs) l =
      Ret (inr (sums_of (dc + side_count Debit [l]) (cc + side_count Credit [l])
                        (ds + side_sum Debit [l]) (cs + side_sum Credit [l])))
  end.
Proof.
  intros (_ & _ & _ & Hv & _). unfold line_error, check_line.
  destruct (coa !! _) as [a|]; [|eauto].
  destruct (_ =? _); simpl; [|eauto].
  rewrite !side_count_cons, !side_sum_cons.
  unfold sums_of. destruct (JournalLine_mTransactionType l); simpl; [eauto|..];
    unfold Amount_add; simpl; rewrite Hv; simpl; unfold line_value;
    rewrite u32_add_l, u64_add_l; unfold side_count, side_sum; simpl;
    repeat f_equal; lia.
Qed.

Lemma check_lines_spec coa lines dc cc ds cs :
  Forall JournalLine_wf lines →
  match first_error coa lines with
  | Some code => ∃ msg, check_lines coa (sums_of dc cc ds cs) lines
                        = Ret (inl (mk_ProcessHint code msg))
  | None => check_lines coa (sums_of dc cc ds cs) lines =
      Ret (inr (sums_of (dc + side_count Debit lines) (cc + side_count Credit lines)
                        (ds + side_sum Debit lines) (cs + side_sum Credit lines)))
  end.
Proof.
  intros Hl; revert dc cc ds cs; induction Hl as [|l lines Hl _ IH]; intros dc cc ds cs.
  { cbn. by rewrite !Z.add_0_r. }
  unfold first_error. cbn [omap list_omap check_lines].
  pose proof (check_line_spec coa dc cc ds cs l Hl) as H1.
  destruct (line_error coa l) as [code|].
  - destruct H1 as [msg ->]. simpl. eauto.
  - rewrite H1. simpl. specialize (IH (dc + side_count Debit [l]) (cc + side_count Credit [l])
      (ds + side_sum Debit [l]) (cs + side_sum Credit [l])).
    fold (first_error coa lines). destruct (first_error coa lines) as [code|]; [done|].
    rewrite IH. rewrite !(side_count_cons _ l), !(side_sum_cons _ l).
    do 3 f_equal; unfold side_count, side_sum; simpl; lia.
Qed.

(** The processor gives exactly the verdict of the specification, and an event
    exactly when the verdict is OK. *)
Lemma process_RecordJournalEntry_verdict env s e :
  JournalEntry_wf e → Z.of_nat (length (JournalEntry_mJournalLines e)) < 2 ^ 32 →
  ∃ msg, process_RecordJournalEntry env s (Some e) =
    Ret (mk_ProcessHint (journal_verdict env s e) msg,
         if journal_verdict env s e =? HttpCode_OK
         then [JournalEntryRecordedEvent_new (env_junk env) (env_now env) e] else []).
Proof.
  intros (_ & _ & _ & Hl) Hlen. unfold process_RecordJournalEntry, journal_verdict.
  destruct (mDoneMap s !! JournalEntry_mId e); [cbn; eauto|].
  rewrite bool_decide_eq_false_2 by (by intros [? ?]).
  destruct (env_IsNotFound env _); [|cbn; eauto]. cbn [orb negb].
  pose proof (check_lines_spec (mCoA s) _ 0 0 0 0 Hl) as Hc.
  change (sums_of 0 0 0 0) with LineSums_init in Hc.
  destruct (first_error _ _) as [code|] eqn:Ef.
  - destruct Hc as [msg ->]. exists msg. cbn.
    unfold first_error in Ef. apply head_Some in Ef as [l' Ef].
    assert (Hin : code ∈ omap (line_error (mCoA s)) (JournalEntry_mJournalLines e))
      by (rewrite Ef; constructor).
    apply list_elem_of_omap in Hin as (l & _ & Hcode). unfold line_error in Hcode.
    repeat case_match; simplify_eq; done.
  - rewrite Hc. cbn -[u64 u32 side_sum side_count].
    rewrite !Z.add_0_l.
    pose proof (side_count_nonneg Debit (JournalEntry_mJournalLines e)).
    pose proof (side_count_nonneg Credit (JournalEntry_mJournalLines e)).
    assert (Hu : ∀ z, 0 ≤ z ≤ Z.of_nat (length (JournalEntry_mJournalLines e)) → u32 z = z).
    { intros z Hz. apply Z.mod_small. lia. }
    rewrite !Hu by done.
    destruct (_ =? 0); [eauto|]. destruct (_ =? 0); [eauto|].
    unfold Amount_eqb. cbn -[u64 side_sum].
    destruct (_ =? _); cbn; eauto.
Qed.

(** ** The invariant *)

(** Well-formed accounts and metadata under their own keys; the code ranges of
    different account types are disjoint. *)
Record asm_inv (s : AppStateMachine) : Prop := {
  inv_coa : map_Forall (λ code a, Account_wf a ∧ Account_mNominalCode a = code) (mCoA s);
  inv_meta : map_Forall (λ t m, AccountMetadata_wf m ∧ AccountMetadata_mAccountType m = t)
               (mAccountMetadata s);
  inv_disjoint : ∀ t1 t2 m1 m2,
    mAccountMetadata s !! t1 = Some m1 → mAccountMetadata s !! t2 = Some m2 → t1 ≠ t2 →
    AccountMetadata_mHighInclusive m1 < AccountMetadata_mLowInclusive m2 ∨
    AccountMetadata_mHighInclusive m2 < AccountMetadata_mLowInclusive m1 }.

(** When a range is accepted, exactly. *)
Lemma process_Configure_accepts env s m :
  (process_ConfigureAccountMetadata env s (Some m) =
     (success, [AccountMetadataConfiguredEvent_new (env_junk env) (env_now env) m])) ↔
  map_Forall (λ t m', t ≠ AccountMetadata_mAccountType m →
      AccountMetadata_mHighInclusive m' < AccountMetadata_mLowInclusive m ∨
      AccountMetadata_mHighInclusive m < AccountMetadata_mLowInclusive m') (mAccountMetadata s) ∧
  map_Forall (λ code a, Account_mAccountType a = AccountMetadata_mAccountType m →
      AccountMetadata_mLowInclusive m ≤ code ≤ AccountMetadata_mHighInclusive m) (mCoA s).
Proof.
  unfold process_ConfigureAccountMetadata.
  match goal with |- context [if ?b then _ else if ?c then _ else _] =>
    assert (Hb : b = false ↔ map_Forall (λ t m', t ≠ AccountMetadata_mAccountType m →
      AccountMetadata_mHighInclusive m' < AccountMetadata_mLowInclusive m ∨
      AccountMetadata_mHighInclusive m < AccountMetadata_mLowInclusive m') (mAccountMetadata s));
    [|assert (Hc : c = false ↔ map_Forall (λ code a,
        Account_mAccountType a = AccountMetadata_mAccountType m →
        AccountMetadata_mLowInclusive m ≤ code ≤ AccountMetadata_mHighInclusive m) (mCoA s));
      [|rewrite <- Hb, <- Hc; destruct b; [|destruct c]; split; try done; intros [? ?]; done]]
  end; rewrite existsb_map_to_list; apply map_Forall_iff; intros k x.
  - rewrite andb_false_iff, !negb_false_iff, orb_true_iff, bool_decide_eq_true, !Z.ltb_lt.
    destruct (decide (AccountMetadata_mAccountType m = k)); naive_solver.
  - rewrite andb_false_iff, orb_false_iff, bool_decide_eq_false, !Z.ltb_ge.
    destruct (decide (AccountMetadata_mAccountType m = Account_mAccountType x)); naive_solver lia.
Qed.

(** ** The events a command may produce *)

(** What holds of an event produced in state [s] at the time it is applied. *)
Definition event_ok (s : AppStateMachine) (e : Event) : Prop :=
  Event_wf e ∧
  match Event_body e with
  | AccountMetadataConfiguredEvent _ m =>
      map_Forall (λ t m', t ≠ AccountMetadata_mAccountType m →
        AccountMetadata_mHighInclusive m' < AccountMetadata_mLowInclusive m ∨
        AccountMetadata_mHighInclusive m < AccountMetadata_mLowInclusive m') (mAccountMetadata s) ∧
      map_Forall (λ code a, Account_mAccountType a = AccountMetadata_mAccountType m →
        AccountMetadata_mLowInclusive m ≤ code ≤ AccountMetadata_mHighInclusive m) (mCoA s)
  | AccountCreatedEvent _ a => mCoA s !! Account_mNominalCode a = None
  | JournalEntryRecordedEvent _ j =>
      mDoneMap s !! JournalEntry_mId j = None ∧
      first_error (mCoA s) (JournalEntry_mJournalLines j) = None ∧
      side_sum Debit (JournalEntry_mJournalLines j) ≡₆₄ side_sum Credit (JournalEntry_mJournalLines j)
  | SplitEvent _ => True
  end.

Lemma process_Configure_events env s o h evs :
  (∀ m, o = Some m → AccountMetadata_wf m) →
  process_ConfigureAccountMetadata env s o = (h, evs) →
  evs = [] ∨ ∃ e, evs = [e] ∧ event_ok s e ∧ h = success.
Proof.
  destruct o as [m|]; [|intros _ [= <- <-]; auto]. intros Hwf Hp.
  pose proof (proj1 (process_Configure_accepts env s m)) as Ha.
  unfold process_ConfigureAccountMetadata in *.
  destruct (existsb _ _); [injection Hp as <- <-; auto|].
  destruct (existsb _ _); injection Hp as <- <-; [auto|]. right.
  eexists; split_and!; [done| |done]. split; [|by apply Ha].
  split_and!; [done..|by apply Hwf].
Qed.

Lemma process_CreateAccount_events env s o h evs :
  (∀ a, o = Some a → Account_wf a) →
  process_CreateAccount env s o = (h, evs) →
  evs = [] ∨ ∃ e, evs = [e] ∧ event_ok s e ∧ h = success.
Proof.
  unfold process_CreateAccount. intros Hwf. destruct o as [a|]; [|intros [= <- <-]; auto].
  destruct (mCoA s !! _) eqn:E; intros [= <- <-]; [auto|]. right.
  eexists; split_and!; [done| |done]. split; [|done]. split_and!; [done..|by apply Hwf].
Qed.

Lemma process_Record_events env s o h evs :
  (∀ e, o = Some e → JournalEntry_wf e) →
  process_RecordJournalEntry env s o = Ret (h, evs) →
  evs = [] ∨ ∃ e, evs = [e] ∧ event_ok s e ∧ h = success.
Proof.
  intros Hwf. destruct o as [j|]; [|done]. specialize (Hwf j eq_refl). simpl.
  destruct (mDoneMap s !! _) eqn:Ed; [intros [= <- <-]; auto|].
  destruct (env_IsNotFound _ _); [|intros [= <- <-]; auto]. simpl.
  destruct Hwf as (Hv & Hvt & Hrt & Hl).
  pose proof (check_lines_spec (mCoA s) _ 0 0 0 0 Hl) as Hc.
  change (sums_of 0 0 0 0) with LineSums_init in Hc.
  destruct (first_error _ _) as [code|] eqn:Ef.
  { destruct Hc as [msg ->]. intros [= <- <-]; auto. }
  rewrite Hc. cbn -[u64 u32 side_sum side_count]. rewrite !Z.add_0_l.
  destruct (_ =? 0); [intros [= <- <-]; auto|].
  destruct (_ =? 0); [intros [= <- <-]; auto|].
  unfold Amount_eqb. cbn -[u64 side_sum].
  destruct (Z.eqb_spec (u64 (side_sum Debit (JournalEntry_mJournalLines j)))
                       (u64 (side_sum Credit (JournalEntry_mJournalLines j)))) as [Hs|];
    intros [= <- <-]; [|auto].
  right. eexists; split_and!; [done| |done]. split; [|done].
  unfold Event_wf, JournalEntry_wf; simpl. by split_and!.
Qed.

(** What holds of an entry for which an event is produced. *)
Lemma process_Record_shape env s j h evs :
  JournalEntry_wf j → process_RecordJournalEntry env s (Some j) = Ret (h, evs) → evs ≠ [] →
  mDoneMap s !! JournalEntry_mId j = None ∧
  first_error (mCoA s) (JournalEntry_mJournalLines j) = None ∧
  side_sum Debit (JournalEntry_mJournalLines j) ≡₆₄ side_sum Credit (JournalEntry_mJournalLines j).
Proof.
  intros Hwf Hp Hne.
  assert (Hb : evs = [] ∨ ∃ m, evs = [mk_Event m (JournalEntryRecordedEvent 1 j)]).
  { revert Hp. simpl. destruct (mDoneMap s !! _); [intros [= <- <-]; auto|].
    destruct (env_IsNotFound _ _); [|intros [= <- <-]; auto]. simpl.
    intros ([?|acc] & _ & H)%bind_Ret; repeat case_match; simplify_eq; eauto. }
  apply process_Record_events in Hp as [->|(e & -> & [_ Hok] & _)]; [done| |by intros ? [= <-]].
  destruct Hb as [?|[m [= ->]]]; [done|]. exact Hok.
Qed.

Lemma tryInit_wf :
  (∀ r m, tryInitAccountMetadata r = Ret (Some m) → AccountMetadata_wf m) ∧
  (∀ r a, tryInitAccount r = Ret (Some a) → Account_wf a) ∧
  (∀ r j, tryInitJournalEntry r = Ret (Some j) → JournalEntry_wf j).
Proof.
  unfold tryInitAccountMetadata, tryInitAccount, tryInitJournalEntry.
  split_and!; intros r x; case_bool_decide; try done; intros ?; inv_ret; eauto with ledger.
  eapply JournalEntry_initWith_wf; [|done]. constructor.
Qed.

(** Find the entry of a map written as a list of bindings. *)
Ltac lookup_registered :=
  repeat first [rewrite lookup_insert_eq | rewrite lookup_singleton_eq
               | rewrite lookup_insert_ne by done].

(** A well-formed command reaches the processor of its class. *)
Lemma processCommand_dispatch env s c :
  Command_wf c →
  processCommand env s c =
  match Command_body c with
  | ConfigureAccountMetadataCommand _ o => Ret (process_ConfigureAccountMetadata env s o)
  | CreateAccountCommand _ o => Ret (process_CreateAccount env s o)
  | RecordJournalEntryCommand _ o => process_RecordJournalEntry env s o
  | SplitCommand r => Ret (ctrl_process env s r)
  end.
Proof.
  unfold Command_wf, processCommand. intros Hwf.
  destruct (Command_body c) eqn:E; [destruct Hwf as [Ht _]..|rename Hwf into Ht];
    rewrite Ht; cbn -[mCommandProcessorMap]; [unfold mCommandProcessorMap..|done];
    lookup_registered; by rewrite E.
Qed.

Lemma processCommand_events env s c h evs :
  Command_wf c → processCommand env s c = Ret (h, evs) →
  evs = [] ∨ ∃ e, evs = [e] ∧ event_ok s e ∧ hint_mCode h = HttpCode_OK.
Proof.
  intros Hwf. rewrite (processCommand_dispatch _ _ _ Hwf). unfold Command_wf in Hwf.
  destruct tryInit_wf as (Wm & Wa & Wj).
  destruct (Command_body c) as [r o|r o|r o|r].
  - destruct Hwf as [_ Ho]. intros [= Hp].
    apply process_Configure_events in Hp as [|(e & ? & ? & ->)]; [eauto..|].
    intros ? ->; eauto.
  - destruct Hwf as [_ Ho]. intros [= Hp].
    apply process_CreateAccount_events in Hp as [|(e & ? & ? & ->)]; [eauto..|].
    intros ? ->; eauto.
  - destruct Hwf as [_ Ho]. intros Hp.
    apply process_Record_events in Hp as [|(e & ? & ? & ->)]; [eauto..|].
    intros ? ->; eauto.
  - unfold ctrl_process, SplitCommand_process. intros [= Hp].
    repeat case_match; simplify_eq; auto. right. eexists; split_and!; done.
Qed.

(** ** Applying journal lines *)

Definition trial (coa : gmap Z Account) : Z := map_sum (λ _, signed_balance) coa.

(** The trial balance: what all debit balances exceed all credit balances by. *)
Definition trial_balance (s : AppStateMachine) : Z := trial (mCoA s).

(** An account without its balance. *)
Definition erase (a : Account) : Account := Account_set_balance a (mk_Balance 0 0).

Lemma line_error_erase coa coa' l :
  erase <$> coa = erase <$> coa' → line_error coa l = line_error coa' l.
Proof.
  intros Hf. unfold line_error.
  apply (f_equal (lookup (JournalLine_mNominalCode l))) in Hf. rewrite !lookup_fmap in Hf.
  destruct (coa !! _) as [a|], (coa' !! _) as [a'|]; try discriminate Hf; [|done].
  assert (He : erase a = erase a') by (cbn in Hf; congruence).
  apply (f_equal Account_mISO4217CurrencyCode) in He. simpl in He. by rewrite He.
Qed.

(** One line: the account it names moves by the amount, on its side. *)
Lemma apply_line_spec coa calls l coa' calls' :
  apply_line (coa, calls) l = Ret (coa', calls') →
  ∃ a a', coa !! JournalLine_mNominalCode l = Some a ∧
    coa' = <[JournalLine_mNominalCode l := a']> coa ∧
    calls' = calls ++ [onAccountUpdated a'] ∧
    erase a' = erase a ∧ (Account_wf a → Account_wf a') ∧
    signed_balance a' ≡₆₄ signed_balance a + side_sum Debit [l] - side_sum Credit [l].
Proof.
  unfold apply_line. destruct (coa !! _) as [a|]; [|done]. intros H; inv_ret.
  exists a. rewrite !side_sum_cons. unfold side_sum; simpl.
  apply negb_true_iff, bool_decide_eq_false in H0.
  case_bool_decide as Ht.
  - destruct (Account_apply_frame a _ _ (or_introl H1)) as (b & -> & Hwf).
    apply Account_applyDebit_signed in H1.
    eexists; split_and!; try done. rewrite H1.
    rewrite (bool_decide_eq_false_2 (_ = Credit)) by congruence.
    fold (line_value l). unfold eq64; f_equal; lia.
  - assert (JournalLine_mTransactionType l = Credit) as Hc
      by (destruct (JournalLine_mTransactionType l); done).
    destruct (Account_apply_frame a _ _ (or_intror H1)) as (b & -> & Hwf).
    apply Account_applyCredit_signed in H1.
    eexists; split_and!; try done. rewrite H1, bool_decide_eq_true_2 by done.
    fold (line_value l). unfold eq64; f_equal; lia.
Qed.

Lemma erase_insert (coa : gmap Z Account) k a a' :
  coa !! k = Some a → erase a' = erase a → erase <$> (<[k := a']> coa) = erase <$> coa.
Proof.
  intros Hk He. rewrite fmap_insert, He. apply insert_id. by rewrite lookup_fmap, Hk.
Qed.

Lemma side_sum_step t l lines : side_sum t (l :: lines) = side_sum t [l] + side_sum t lines.
Proof. rewrite !(side_sum_cons t l). unfold side_sum at 2. simpl. lia. Qed.

(** All lines: names, types and currencies of the accounts stay, their trial
    balance moves by debits minus credits. *)
Lemma apply_lines_spec lines coa calls coa' calls' :
  foldM apply_line (coa, calls) lines = Ret (coa', calls') →
  erase <$> coa' = erase <$> coa ∧
  (map_Forall (λ code a, Account_wf a ∧ Account_mNominalCode a = code) coa →
   map_Forall (λ code a, Account_wf a ∧ Account_mNominalCode a = code) coa') ∧
  trial coa' ≡₆₄ trial coa + side_sum Debit lines - side_sum Credit lines.
Proof.
  revert coa calls; induction lines as [|l lines IH]; intros coa calls.
  { intros [= <- <-]. split_and!; [done|done|]. unfold side_sum; simpl. unfold eq64; f_equal; lia. }
  cbn [foldM]. intros ([coa1 calls1] & H1 & H2)%bind_Ret.
  apply apply_line_spec in H1 as (a & a' & Ha & -> & -> & He & Hwf & Hs).
  destruct (IH _ _ H2) as (IH1 & IH2 & IH3). split_and!.
  - rewrite IH1. by eapply erase_insert.
  - intros Hall. apply IH2. apply map_Forall_insert_2; [|done].
    destruct (Hall _ _ Ha) as [Hwa Hna]. split; [auto|].
    apply (f_equal Account_mNominalCode) in He. simpl in He. congruence.
  - rewrite IH3. unfold trial. rewrite (map_sum_insert_Some _ _ _ _ _ Ha).
    cbv beta. rewrite Hs, !(side_sum_step _ l lines). unfold eq64; f_equal; lia.
Qed.

(** A line on an account whose type the schema does not name. *)
Definition untyped_line (coa : gmap Z Account) (l : JournalLine) : bool :=
  match coa !! JournalLine_mNominalCode l with
  | Some a => bool_decide (Account_mAccountType a = Unknown)
  | None => false
  end.

Lemma untyped_line_erase coa coa' l : erase <$> coa = erase <$> coa' → untyped_line coa l = untyped_line coa' l.
Proof.
  intros He. apply (f_equal (lookup (JournalLine_mNominalCode l))) in He. rewrite !lookup_fmap in He.
  unfold untyped_line. destruct (coa !! _) as [a|], (coa' !! _) as [a'|]; [|done..].
  assert (He' : erase a = erase a') by (cbn in He; congruence).
  apply bool_decide_ext. apply (f_equal Account_mAccountType) in He'. simpl in He'. by rewrite He'.
Qed.

(** One line ... *)
Lemma apply_line_verdict coa calls l : line_error coa l = None →
  if untyped_line coa l then apply_line (coa, calls) l = Fail ExitFailure else ∃ r, apply_line (coa, calls) l = Ret r.
Proof.
  unfold line_error, untyped_line, apply_line. destruct (coa !! JournalLine_mNominalCode l) as [a|]; [|done].
  destruct (_ =? _); [|done]. case_bool_decide as Ht; [done|]. intros _. simpl. case_bool_decide as Hu.
  - unfold Account_applyDebit, Account_applyCredit. rewrite Hu. by case_bool_decide.
  - destruct (Account_apply_total a (JournalLine_mAmount l) Hu) as [[d Hd] [c Hc]].
    case_bool_decide; [rewrite Hd|rewrite Hc]; simpl; eauto.
Qed.

(** ... and all of them: the loop returns, unless a line is on such an account. *)
Lemma apply_lines_verdict lines coa calls : first_error coa lines = None →
  if existsb (untyped_line coa) lines then foldM apply_line (coa, calls) lines = Fail ExitFailure
  else ∃ r, foldM apply_line (coa, calls) lines = Ret r.
Proof.
  revert coa calls; induction lines as [|l lines IH]; intros coa calls Hf; [cbn; eauto|].
  unfold first_error in Hf. cbn [omap list_omap] in Hf.
  destruct (line_error coa l) eqn:El; [done|]. fold (first_error coa lines) in Hf.
  cbn [foldM existsb]. pose proof (apply_line_verdict coa calls l El) as Hl.
  destruct (untyped_line coa l); [by rewrite Hl|]. destruct Hl as [[coa1 calls1] Hl]. rewrite Hl. simpl.
  apply apply_line_spec in Hl as (a & a' & Ha & -> & -> & He & _). pose proof (erase_insert _ _ _ _ Ha He) as Her.
  assert (Hu : existsb (untyped_line coa) lines = existsb (untyped_line (<[JournalLine_mNominalCode l := a']> coa)) lines).
  { clear -Her. induction lines as [|x lines IH]; [done|]. cbn [existsb]. rewrite IH. f_equal. by apply untyped_line_erase. }
  rewrite Hu. apply IH.
  rewrite <- Hf. unfold first_error. f_equal. apply list_omap_ext, Forall_Forall2_diag, Forall_forall.
  intros x _. by apply line_error_erase.
Qed.

(** ** Applying events *)

Lemma applyEvent_dispatch g s e :
  Event_wf e →
  applyEvent g s e =
  match Event_body e with
  | AccountCreatedEvent _ a => apply_AccountCreated s a
  | AccountMetadataConfiguredEvent _ m => Ret (apply_AccountMetadataConfigured s m)
  | JournalEntryRecordedEvent _ j => apply_JournalEntryRecorded s j
  | SplitEvent r =>
      cs ← SplitEvent_apply g (mCommandId (Event_mMetaData e)) r (mCtrlState s);
      Ret (set_mCtrlState s cs, [])
  end.
Proof.
  unfold Event_wf, applyEvent. intros Hwf.
  destruct (Event_body e) eqn:E; [destruct Hwf as [Ht _]..|rename Hwf into Ht];
    rewrite Ht; cbn -[mEventApplierMap]; [unfold mEventApplierMap..|done];
    lookup_registered; by rewrite E.
Qed.

Lemma apply_JournalEntryRecorded_Ret s j s' calls :
  apply_JournalEntryRecorded s j = Ret (s', calls) ↔
  mDoneMap s !! JournalEntry_mId j = None ∧
  ∃ coa, foldM apply_line (mCoA s, [onBookkeepingProcessed (JournalEntry_mId j) (JournalEntry_mValidTime j)])
           (JournalEntry_mJournalLines j) = Ret (coa, calls) ∧
    s' = mk_AppStateMachine (mCtrlState s) (<[JournalEntry_mId j := JournalEntry_mValidTime j]> (mDoneMap s))
           coa (mAccountMetadata s).
Proof.
  unfold apply_JournalEntryRecorded. rewrite cassert_bind, bool_decide_eq_true, bind_Ret. split.
  - intros (Hd & [coa c] & Hf & [= <- <-]). split; [done|]. exists coa. done.
  - intros (Hd & coa & Hf & ->). split; [done|]. exists (coa, calls). done.
Qed.

Lemma applyEvent_inv g s e s' calls :
  event_ok s e → asm_inv s → applyEvent g s e = Ret (s', calls) → asm_inv s'.
Proof.
  intros [Hwf Hok] [Hc Hm Hd]. rewrite (applyEvent_dispatch _ _ _ Hwf). unfold Event_wf in Hwf.
  destruct (Event_body e) as [v a|v m|v j|r]; intros Ha.
  - unfold apply_AccountCreated in Ha. inv_ret. split; simpl; [|done|done].
    apply map_Forall_insert_2; [|done]. split; [apply Hwf|done].
  - injection Ha as <- <-. destruct Hok as [Hdis _]. split; simpl; [done|..].
    + apply map_Forall_insert_2; [|done]. split; [apply Hwf|done].
    + intros t1 t2 m1 m2 [[<- <-]|[Hn1 H1]]%lookup_insert_Some [[<- <-]|[Hn2 H2]]%lookup_insert_Some Hne.
      * done.
      * destruct (Hdis _ _ H2); auto.
      * destruct (Hdis _ _ H1); auto.
      * eauto.
  - apply apply_JournalEntryRecorded_Ret in Ha as (_ & coa & Hf & ->).
    apply apply_lines_spec in Hf as (_ & Hf & _). split; simpl; auto.
  - inv_ret. by split.
Qed.

(** The opening balance an event brings into the books. *)
Definition opening (e : Event) : Z :=
  match Event_body e with AccountCreatedEvent _ a => signed_balance a | _ => 0 end.

Lemma applyEvent_trial g s e s' calls :
  event_ok s e → applyEvent g s e = Ret (s', calls) →
  trial_balance s' ≡₆₄ trial_balance s + opening e.
Proof.
  intros [Hwf Hok]. rewrite (applyEvent_dispatch _ _ _ Hwf). unfold opening, trial_balance.
  destruct (Event_body e) as [v a|v m|v j|r]; intros Ha.
  - unfold apply_AccountCreated in Ha. inv_ret. simpl. unfold trial.
    rewrite map_sum_insert_None by done. unfold eq64; f_equal; lia.
  - injection Ha as <- <-. simpl. by rewrite Z.add_0_r.
  - apply apply_JournalEntryRecorded_Ret in Ha as (_ & coa & Hf & ->). simpl.
    apply apply_lines_spec in Hf as (_ & _ & Hf). destruct Hok as (_ & _ & Hs).
    rewrite Hf, Hs. unfold eq64; f_equal; lia.
  - inv_ret. simpl. by rewrite Z.add_0_r.
Qed.

(** ** Commands, processed and applied *)

Lemma processCommandAndApply_cases env g s c h evs s' calls :
  Command_wf c → processCommandAndApply env g s c [] = Ret (h, evs, s', calls) →
  (evs = [] ∧ s' = s ∧ calls = [] ∧ processCommand env s c = Ret (h, [])) ∨
  ∃ e, evs = [e] ∧ event_ok s e ∧ hint_mCode h = HttpCode_OK ∧
       processCommand env s c = Ret (h, [e]) ∧ applyEvent g s e = Ret (s', calls).
Proof.
  intros Hwf. unfold processCommandAndApply. intros ([h0 new] & Hp & Ha)%bind_Ret. simpl in Ha.
  destruct (processCommand_events _ _ _ _ _ Hwf Hp) as [->|(e & -> & Hok & Hh)].
  - left. by injection Ha as <- <- <- <-.
  - right. unfold applyEvents in Ha. cbn in Ha. apply bind_Ret in Ha as ([s1 c1] & Ha & Hr).
    apply bind_Ret in Ha as ([s2 c2] & Ha & [= <- <-]).
    apply bind_Ret in Ha as ([s3 c3] & Ha & [= <- <-]). injection Hr as <- <- <- <-. eauto 10.
Qed.

(** A command that is refused leaves the state as it was. *)
Lemma refused_unchanged env g s c h s' calls :
  Command_wf c → processCommandAndApply env g s c [] = Ret (h, [], s', calls) → s' = s ∧ calls = [].
Proof.
  intros Hwf [(_ & -> & -> & _)|(e & [=] & _)]%processCommandAndApply_cases; done.
Qed.

Lemma processCommandAndApply_inv env g s c h evs s' calls :
  Command_wf c → asm_inv s → processCommandAndApply env g s c [] = Ret (h, evs, s', calls) → asm_inv s'.
Proof.
  intros Hwf Hi [(_ & -> & _)|(e & _ & Hok & _ & _ & Ha)]%processCommandAndApply_cases; [done| |done].
  by eapply applyEvent_inv.
Qed.

Lemma processCommandAndApply_trial env g s c h evs s' calls :
  Command_wf c → processCommandAndApply env g s c [] = Ret (h, evs, s', calls) →
  trial_balance s' ≡₆₄ trial_balance s + foldr Z.add 0 (map opening evs).
Proof.
  intros Hwf [(-> & -> & _)|(e & -> & Hok & _ & _ & Ha)]%processCommandAndApply_cases; [| |done]; simpl.
  - by rewrite Z.add_0_r.
  - rewrite Z.add_0_r. by eapply applyEvent_trial.
Qed.

(** ** Totality *)

(** The two ways in which an event of the ledger's own stops the process: a line on
    an account of unnamed type ends it in [exit], a split that declares cluster 0,
    this one, new in an assertion. *)
Definition event_stops (g : Z) (s : AppStateMachine) (e : Event) : option fault :=
  match Event_body e with
  | JournalEntryRecordedEvent _ j =>
      if existsb (untyped_line (mCoA s)) (JournalEntry_mJournalLines j) then Some ExitFailure else None
  | SplitEvent r =>
      if (g =? 0) && existsb (λ i, (ip_clusterId i =? 0) && ip_newCluster i) (sr_impacts r) then Some AssertFailure else None
  | _ => None
  end.

Definition types_known (s : AppStateMachine) : Prop :=
  map_Forall (λ _ a, Account_mAccountType a ≠ Unknown) (mCoA s).

(** Commands after which neither can happen. *)
Definition Command_safe (g : Z) (c : Command) : Prop :=
  match Command_body c with
  | CreateAccountCommand r _ => AccountTypeUtil_typeOf (pAccount_type (ar_account r)) ≠ Unknown
  | SplitCommand r => (g =? 0) && existsb (λ i, (ip_clusterId i =? 0) && ip_newCluster i) (sr_impacts r) = false
  | _ => True
  end.

Lemma process_Record_total env s j :
  JournalEntry_wf j → ∃ r, process_RecordJournalEntry env s (Some j) = Ret r.
Proof.
  intros (_ & _ & _ & Hl). unfold process_RecordJournalEntry.
  destruct (mDoneMap s !! _); [eauto|]. destruct (env_IsNotFound _ _); [|simpl; eauto]. simpl.
  pose proof (check_lines_spec (mCoA s) _ 0 0 0 0 Hl) as Hc.
  change (sums_of 0 0 0 0) with LineSums_init in Hc.
  destruct (first_error _ _) as [code|].
  - destruct Hc as [msg ->]. simpl. eauto.
  - rewrite Hc. simpl. repeat case_match; eauto.
Qed.

Lemma Record_verified r o :
  tryInitJournalEntry r = Ret o → Record_verifyCommand r = kVerifiedSuccess → is_Some o.
Proof.
  unfold tryInitJournalEntry. intros H Hv. rewrite bool_decide_eq_true_2 in H by done.
  inv_ret. eauto.
Qed.

Lemma SplitEvent_apply_impact_verdict g cmd st b i :
  if (g =? 0) && ((ip_clusterId i =? 0) && ip_newCluster i)
  then SplitEvent_apply_impact g cmd (st, b) i = Fail AssertFailure
  else ∃ st' b', SplitEvent_apply_impact g cmd (st, b) i = Ret (st', b').
Proof.
  unfold SplitEvent_apply_impact. destruct (Z.eqb_spec g 0) as [->|Hg]; simpl.
  - destruct (ip_clusterId i =? 0) eqn:E; simpl; [|eauto]. destruct (ip_newCluster i); simpl; eauto.
  - destruct (Z.eqb_spec (ip_clusterId i) g) as [E|]; [|eauto]. destruct (ip_newCluster i); [|eauto].
    rewrite (proj2 (Z.eqb_neq _ 0)) by (rewrite E; done). simpl. eauto.
Qed.

Lemma SplitEvent_apply_verdict g cmd r cs :
  if (g =? 0) && existsb (λ i, (ip_clusterId i =? 0) && ip_newCluster i) (sr_impacts r)
  then SplitEvent_apply g cmd r cs = Fail AssertFailure
  else ∃ cs', SplitEvent_apply g cmd r cs = Ret cs'.
Proof.
  unfold SplitEvent_apply. generalize (CtrlState_clearRoutes cs), false.
  induction (sr_impacts r) as [|i l IH]; intros st b; [rewrite andb_false_r; destruct b; cbn; eauto|].
  cbn [existsb foldM]. rewrite andb_orb_distrib_r. pose proof (SplitEvent_apply_impact_verdict g cmd st b i) as Hi.
  destruct ((g =? 0) && ((ip_clusterId i =? 0) && ip_newCluster i)); [by rewrite Hi|].
  destruct Hi as (st' & b' & ->). apply IH.
Qed.

Lemma processCommand_total env s c :
  Command_wf c → Command_verifyCommand c = kVerifiedSuccess → ∃ r, processCommand env s c = Ret r.
Proof.
  intros Hwf Hv. rewrite (processCommand_dispatch _ _ _ Hwf).
  unfold Command_wf, Command_verifyCommand in *. destruct (Command_body c) as [r o|r o|r o|r]; eauto.
  destruct Hwf as [_ Ho]. destruct (Record_verified _ _ Ho Hv) as [j ->].
  apply process_Record_total. destruct tryInit_wf as (_ & _ & Wj). eauto.
Qed.

Lemma tryInitAccount_type r a :
  tryInitAccount r = Ret (Some a) →
  Account_mAccountType a = AccountTypeUtil_typeOf (pAccount_type (ar_account r)).
Proof.
  unfold tryInitAccount. case_bool_decide; [|done]. unfold Account_initWith. intros.
  inv_version. simplify_eq. inv_version. done.
Qed.

Lemma event_safe env s c h e g :
  Command_wf c → Command_safe g c → types_known s → processCommand env s c = Ret (h, [e]) →
  event_stops g s e = None ∧ ∀ v a, Event_body e = AccountCreatedEvent v a → Account_mAccountType a ≠ Unknown.
Proof.
  intros Hwf Hs Hk. rewrite (processCommand_dispatch _ _ _ Hwf).
  unfold Command_wf, Command_safe, event_stops in *. destruct (Command_body c) as [r o|r o|r o|r].
  - unfold process_ConfigureAccountMetadata. intros H. repeat case_match; simplify_eq; done.
  - destruct Hwf as [_ Ho]. unfold process_CreateAccount. destruct o as [a|]; [|done].
    destruct (mCoA s !! _); [done|]. intros [= <- <-]. simpl. split; [done|]. intros v a' [= _ <-].
    by rewrite (tryInitAccount_type _ _ Ho).
  - destruct o as [j|]; [|done]. simpl. destruct (mDoneMap s !! _); [done|].
    destruct (env_IsNotFound _ _); [|done]. simpl. intros ([?|acc] & _ & H)%bind_Ret; [congruence|].
    assert (Hu : existsb (untyped_line (mCoA s)) (JournalEntry_mJournalLines j) = false).
    { apply not_true_iff_false. rewrite existsb_exists. intros (l & _ & Hl). unfold untyped_line in Hl.
      destruct (mCoA s !! _) as [a|] eqn:Ea; [|done]. apply bool_decide_eq_true in Hl. by eapply Hk. }
    assert (e = JournalEntryRecordedEvent_new (env_junk env) (env_now env) j) as -> by (clear Hu; repeat case_match; congruence).
    simpl. by rewrite Hu.
  - unfold ctrl_process. destruct (SplitCommand_process _ _) as [h' [r'|]] eqn:Ep; [|done].
    apply SplitCommand_process_epoch in Ep as [-> _]. intros [= <- <-]. simpl. by rewrite Hs.
Qed.

(** What applying an event of the ledger's own comes to. *)
Lemma applyEvent_verdict g s e : event_ok s e →
  match event_stops g s e with
  | Some f => applyEvent g s e = Fail f
  | None => ∃ s' calls, applyEvent g s e = Ret (s', calls)
  end.
Proof.
  intros [Hewf Hok]. rewrite (applyEvent_dispatch _ _ _ Hewf). unfold event_stops.
  destruct (Event_body e) as [v a|v m|v j|r].
  - unfold apply_AccountCreated. rewrite Hok. cbn. eauto.
  - simpl. eauto.
  - destruct Hok as (Hd & Hf & _). unfold apply_JournalEntryRecorded. rewrite Hd. cbn -[foldM].
    pose proof (apply_lines_verdict _ (mCoA s) [onBookkeepingProcessed (JournalEntry_mId j) (JournalEntry_mValidTime j)] Hf) as Hl.
    destruct (existsb _ _); [by rewrite Hl|]. destruct Hl as [[coa calls] ->]. simpl. eauto.
  - pose proof (SplitEvent_apply_verdict g (mCommandId (Event_mMetaData e)) r (mCtrlState s)) as Hs.
    destruct (_ && _); [by rewrite Hs|]. destruct Hs as [cs ->]. simpl. eauto.
Qed.

Lemma applyEvent_types_known g s e s' calls :
  Event_wf e → types_known s → (∀ v a, Event_body e = AccountCreatedEvent v a → Account_mAccountType a ≠ Unknown) →
  applyEvent g s e = Ret (s', calls) → types_known s'.
Proof.
  intros Hwf Hk Hnew. rewrite (applyEvent_dispatch _ _ _ Hwf). destruct (Event_body e) as [v a|v m|v j|r]; intros Ha.
  - unfold apply_AccountCreated in Ha. inv_ret. apply map_Forall_insert_2; [by eapply Hnew|done].
  - by injection Ha as <- <-.
  - apply apply_JournalEntryRecorded_Ret in Ha as (_ & coa & Hf & ->).
    apply apply_lines_spec in Hf as (He & _). unfold types_known; simpl.
    intros k a Ha. apply (f_equal (lookup k)) in He. rewrite !lookup_fmap, Ha in He.
    destruct (mCoA s !! k) as [a0|] eqn:E0; [|done]. specialize (Hk _ _ E0).
    assert (He' : erase a = erase a0) by (cbn in He; congruence).
    apply (f_equal Account_mAccountType) in He'. simpl in He'. congruence.
  - by inv_ret.
Qed.

(** A verified command is processed; its event, if any, is applied or stops the
    process. *)
Lemma processCommandAndApply_verdict env g s c :
  Command_wf c → Command_verifyCommand c = kVerifiedSuccess →
  (∃ h evs s' calls, processCommandAndApply env g s c [] = Ret (h, evs, s', calls)) ∨
  ∃ h e f, processCommand env s c = Ret (h, [e]) ∧ event_stops g s e = Some f ∧ processCommandAndApply env g s c [] = Fail f.
Proof.
  intros Hwf Hv. destruct (processCommand_total env s c Hwf Hv) as [[h evs] Hp].
  unfold processCommandAndApply. rewrite Hp. simpl.
  destruct (processCommand_events _ _ _ _ _ Hwf Hp) as [->|(e & -> & Hok & _)]; [left; eauto 10|].
  pose proof (applyEvent_verdict g s e Hok) as Ha. unfold applyEvents. simpl.
  destruct (event_stops g s e) as [f|] eqn:Ef; [right|left].
  - exists h, e, f. rewrite Ha. split_and!; done.
  - destruct Ha as (s' & calls & ->). simpl. eauto 10.
Qed.

Lemma processCommandAndApply_total env g s c :
  Command_wf c → Command_verifyCommand c = kVerifiedSuccess → Command_safe g c → types_known s →
  ∃ h evs s' calls, processCommandAndApply env g s c [] = Ret (h, evs, s', calls) ∧ types_known s'.
Proof.
  intros Hwf Hv Hs Hk.
  destruct (processCommandAndApply_verdict env g s c Hwf Hv) as [(h & evs & s' & calls & Hp)|(h & e & f & Hp & Hf & _)].
  - exists h, evs, s', calls. split; [done|].
    apply processCommandAndApply_cases in Hp as [(_ & -> & _)|(e & -> & Hok & _ & Hp & Ha)]; [done| |done].
    destruct (event_safe _ _ _ _ _ _ Hwf Hs Hk Hp) as [_ Hnew]. eapply applyEvent_types_known; [apply Hok|exact Hk|exact Hnew|exact Ha].
  - destruct (event_safe _ _ _ _ _ _ Hwf Hs Hk Hp) as [Hn _]. congruence.
Qed.

(** ** Runs

    The commands a leader processes one after the other; the result is the
    state and the events, in order. *)
Definition run_step (g : Z) (acc : AppStateMachine * list Event) (ec : ProcessEnv * Command)
    : result (AppStateMachine * list Event) :=
  let '(s, log) := acc in
  '(_, evs, s', _) ← processCommandAndApply (fst ec) g s (snd ec) [];
  Ret (s', log ++ evs).

Definition run (g : Z) (s : AppStateMachine) (cmds : list (ProcessEnv * Command))
    : result (AppStateMachine * list Event) :=
  foldM (run_step g) (s, []) cmds.

Definition initial (cs : CtrlState) : AppStateMachine := mk_AppStateMachine cs ∅ ∅ ∅.

(** Commands as the request handlers enqueue them. *)
Definition verified (c : Command) : Prop := Command_wf c ∧ Command_verifyCommand c = kVerifiedSuccess.

Lemma initial_inv cs : asm_inv (initial cs).
Proof. split; simpl; [apply map_Forall_empty..|]. intros ???? H. by rewrite lookup_empty in H. Qed.

Lemma run_ind g (P : AppStateMachine → list Event → Prop) s cmds s' log :
  (∀ s log env c h evs s' calls, (env, c) ∈ cmds → P s log →
     processCommandAndApply env g s c [] = Ret (h, evs, s', calls) → P s' (log ++ evs)) →
  P s [] → run g s cmds = Ret (s', log) → P s' log.
Proof.
  intros Hstep H0 Hrun. unfold run in Hrun.
  apply (foldM_ind (λ x, P x.1 x.2)) in Hrun; [done| |done].
  intros [x l] [env c] [y l'] Hx Hin. unfold run_step. simpl.
  intros ([[[h evs] s1] calls] & Hp & [= <- <-])%bind_Ret. by eapply Hstep.
Qed.

Lemma run_inv_trial g cs cmds s log :
  Forall (λ ec, Command_wf ec.2) cmds → run g (initial cs) cmds = Ret (s, log) →
  asm_inv s ∧ trial_balance s ≡₆₄ foldr Z.add 0 (map opening log).
Proof.
  intros Hwf. rewrite Forall_forall in Hwf.
  apply (run_ind g (λ s log, asm_inv s ∧ trial_balance s ≡₆₄ foldr Z.add 0 (map opening log))).
  - intros s0 l env c h evs s1 calls Hin [Hi Ht] Hp. specialize (Hwf _ Hin). simpl in Hwf.
    split; [by eapply processCommandAndApply_inv|].
    rewrite (processCommandAndApply_trial _ _ _ _ _ _ _ _ Hwf Hp), Ht.
    rewrite map_app, foldr_app. unfold eq64; f_equal.
    generalize (map opening l). intros zs. induction zs as [|z zs IH]; simpl; lia.
  - split; [apply initial_inv|]. unfold trial_balance, trial. simpl. by rewrite map_sum_empty.
Qed.

Lemma run_total g cmds s log :
  Forall (λ ec, verified ec.2 ∧ Command_safe g ec.2) cmds → types_known s →
  ∃ s' log', foldM (run_step g) (s, log) cmds = Ret (s', log') ∧ types_known s'.
Proof.
  intros Hok Hk. rewrite Forall_forall in Hok.
  destruct (foldM_total (λ x, types_known x.1) (run_step g) cmds (s, log)) as ([s' log'] & Hf & Hk');
    [|done|eauto].
  intros [x l] [env c] Hx Hin. destruct (Hok _ Hin) as ((Hwf & Hv) & Hs).
  destruct (processCommandAndApply_total env g x c Hwf Hv Hs Hx) as (h & evs & s1 & calls & Hp & Hk1).
  unfold run_step; simpl. rewrite Hp. simpl. eauto.
Qed.

(** Where a run stops, if it does. *)
Lemma run_verdict g cmds s log :
  Forall (λ ec, verified ec.2) cmds →
  (∃ s' log', foldM (run_step g) (s, log) cmds = Ret (s', log')) ∨
  ∃ done env c rest s' log' h e f, cmds = done ++ (env, c) :: rest ∧ foldM (run_step g) (s, log) done = Ret (s', log') ∧
    processCommand env s' c = Ret (h, [e]) ∧ event_stops g s' e = Some f ∧ foldM (run_step g) (s, log) cmds = Fail f.
Proof.
  intros Hall. revert s log. induction Hall as [|[env c] cmds [Hwf Hv] _ IH]; intros s log; [left; eauto|].
  cbn [foldM]. unfold run_step at 1 4. simpl in Hwf, Hv. simpl.
  destruct (processCommandAndApply_verdict env g s c Hwf Hv) as [(h & evs & s1 & calls & Hp)|(h & e & f & Hp & Hf & Ha)].
  - rewrite Hp. simpl. destruct (IH s1 (log ++ evs)) as [Hr|(done & env' & c' & rest & s' & log' & h' & e & f & -> & Hd & He & Hf & Hr)]; [by left|right].
    exists ((env, c) :: done), env', c', rest, s', log', h', e, f. split_and!; try done.
    cbn [foldM]. unfold run_step at 1. simpl. by rewrite Hp.
  - right. exists [], env, c, cmds, s, log, h, e, f. rewrite Ha. split_and!; done.
Qed.

(** ** Deduplication *)

(** The ids of the journal entries recorded by a list of events. *)
Definition recorded_ids (log : list Event) : list string :=
  omap (λ e, match Event_body e with
             | JournalEntryRecordedEvent _ j => Some (JournalEntry_mId j)
             | _ => None
             end) log.

Lemma applyEvent_done g s e s' calls :
  Event_wf e → applyEvent g s e = Ret (s', calls) →
  match Event_body e with
  | JournalEntryRecordedEvent _ j =>
      mDoneMap s !! JournalEntry_mId j = None ∧
      mDoneMap s' = <[JournalEntry_mId j := JournalEntry_mValidTime j]> (mDoneMap s)
  | _ => mDoneMap s' = mDoneMap s
  end.
Proof.
  intros Hwf. rewrite (applyEvent_dispatch _ _ _ Hwf).
  destruct (Event_body e) as [v a|v m|v j|r]; intros Ha.
  - unfold apply_AccountCreated in Ha. by inv_ret.
  - by injection Ha as <- <-.
  - by apply apply_JournalEntryRecorded_Ret in Ha as (Hd & coa & _ & ->).
  - by inv_ret.
Qed.

Lemma run_ids g cs cmds s log :
  Forall (λ ec, Command_wf ec.2) cmds → run g (initial cs) cmds = Ret (s, log) →
  NoDup (recorded_ids log) ∧ ∀ id, id ∈ recorded_ids log ↔ is_Some (mDoneMap s !! id).
Proof.
  intros Hwf. rewrite Forall_forall in Hwf.
  apply (run_ind g (λ s log, NoDup (recorded_ids log) ∧
                     ∀ id, id ∈ recorded_ids log ↔ is_Some (mDoneMap s !! id))).
  2:{ split; [constructor|]. intros id. simpl. rewrite lookup_empty. split; [set_solver|by intros [? ?]]. }
  intros s0 l env c h evs s1 calls Hin [Hnd Hids] Hp. specialize (Hwf _ Hin). simpl in Hwf.
  apply processCommandAndApply_cases in Hp as [(-> & -> & _)|(e & -> & [Hewf _] & _ & _ & Ha)]; [..|done].
  { by rewrite app_nil_r. }
  apply applyEvent_done in Ha; [|done].
  assert (Happ : recorded_ids (l ++ [e]) = recorded_ids l ++ recorded_ids [e]).
  { unfold recorded_ids. by rewrite omap_app. }
  rewrite Happ. unfold recorded_ids at 2 4. simpl.
  destruct (Event_body e) as [v a|v m|v j|r]; try (rewrite app_nil_r, Ha; done).
  destruct Ha as [Hd ->]. split.
  - apply NoDup_app. split_and!; [done| |apply NoDup_singleton].
    intros x Hx ->%list_elem_of_singleton. apply Hids in Hx. rewrite Hd in Hx. by destruct Hx.
  - intros id. rewrite elem_of_app, list_elem_of_singleton, Hids, lookup_insert_is_Some. 
    destruct (decide (JournalEntry_mId j = id)); naive_solver.
Qed.

(** ** Replicas

    A replica applies the events it decodes from the log. *)
Lemma persisted_wf e : Event_wf e → Event_wf (Event_persisted e).
Proof.
  destruct e as [[[] ?] [v a|v m|v j|r]]; unfold Event_wf, Event_getType; simpl; try done.
  intros (Ht & Hv & Hj). rewrite JournalEntry_persisted_eq by done. done.
Qed.

(** Accounts, metadata and control state, not the done map. *)
Definition same_books (s q : AppStateMachine) : Prop :=
  mCoA q = mCoA s ∧ mAccountMetadata q = mAccountMetadata s ∧ mCtrlState q = mCtrlState s.

Definition is_journal (e : Event) : bool :=
  match Event_body e with JournalEntryRecordedEvent _ _ => true | _ => false end.

Definition remembers (s : AppStateMachine) (id : string) : bool := bool_decide (is_Some (mDoneMap s !! id)).

(** What the lines do does not depend on the callbacks collected so far. *)
Lemma apply_lines_calls lines coa c1 c2 coa' calls' :
  foldM apply_line (coa, c1) lines = Ret (coa', calls') → ∃ calls'', foldM apply_line (coa, c2) lines = Ret (coa', calls'').
Proof.
  revert coa c1 c2. induction lines as [|l lines IH]; simpl; intros coa0 c1 c2; [intros [= <- _]; eauto|].
  destruct (coa0 !! _); [|done]. intros ([x y] & Hx & Hy)%bind_Ret.
  apply cassert_bind in Hx as [Hb Hx]. rewrite Hb. simpl.
  apply bind_Ret in Hx as (a' & -> & [= <- <-]). simpl. by eapply IH.
Qed.

(** Where the leader applied an event, a replica with the same books applies the
    decoded one with the same effect on them; but a decoded journal entry has the
    empty id. *)
Lemma replica_applyEvent g s q e s' calls :
  Event_wf e → same_books s q → applyEvent g s e = Ret (s', calls) →
  if is_journal e && remembers q EmptyString then applyEvent g q (Event_persisted e) = Fail AssertFailure
  else ∃ r calls', applyEvent g q (Event_persisted e) = Ret (r, calls') ∧ same_books s' r.
Proof.
  intros Hwf (Hc & Hm & Hs). rewrite (applyEvent_dispatch _ _ _ Hwf), (applyEvent_dispatch _ _ _ (persisted_wf _ Hwf)).
  unfold Event_persisted, is_journal, same_books; simpl. unfold Event_wf in Hwf.
  destruct (Event_body e) as [v a|v m|v j|r]; simpl.
  - unfold apply_AccountCreated. rewrite Hc. intros [Hn [= <- <-]]%cassert_bind. rewrite Hn. simpl. by do 2 eexists.
  - intros [= <- <-]. rewrite <- Hm. by do 2 eexists.
  - intros (_ & coa & Hf & ->)%apply_JournalEntryRecorded_Ret. rewrite JournalEntry_persisted_eq by apply Hwf.
    unfold remembers. case_bool_decide as Hd.
    { unfold apply_JournalEntryRecorded. simpl. rewrite bool_decide_eq_false_2; [done|]. by destruct Hd as [? ->]. }
    apply eq_None_not_Some in Hd.
    destruct (apply_lines_calls _ _ _ [onBookkeepingProcessed EmptyString (JournalEntry_mValidTime j)] _ _ Hf) as [calls' Hf'].
    do 2 eexists. split; [apply apply_JournalEntryRecorded_Ret; split; [exact Hd|rewrite Hc; eauto]|done].
  - rewrite Hs. intros (cs & -> & [= <- <-])%bind_Ret. simpl. by do 2 eexists.
Qed.

(** A remembered id stays remembered. *)
Lemma applyEvents_remembers g es s c s' c' id :
  Forall Event_wf es → remembers s id = true →
  foldM (λ '(s, calls) ev, '(s, calls') ← applyEvent g s ev; Ret (s, calls ++ calls')) (s, c) es = Ret (s', c') →
  remembers s' id = true.
Proof.
  intros Hwf. revert s c. induction Hwf as [|e es He _ IH]; intros s c Hr Hf; [by injection Hf as <- _|].
  cbn [foldM] in Hf. apply bind_Ret in Hf as ([s1 c1] & Ha & Hf). apply bind_Ret in Ha as ([s1' c2] & Ha & [= <- <-]).
  eapply IH; [|exact Hf]. unfold remembers in *. apply bool_decide_eq_true in Hr. apply bool_decide_eq_true.
  pose proof (applyEvent_done _ _ _ _ _ He Ha) as Hd. destruct (Event_body e) as [v a|v m|v j|r]; [by rewrite Hd|by rewrite Hd| |by rewrite Hd].
  destruct Hd as [_ ->]. rewrite lookup_insert_is_Some. destruct (decide (JournalEntry_mId j = id)); [by left|by right].
Qed.

(** ** Comparing states *)
Lemma AccountMetadata_isSame_spec a b :
  AccountMetadata_wf a → AccountMetadata_wf b → AccountMetadata_isSame a b = true ↔ a = b.
Proof.
  intros (Ha & _) (Hb & _).
  destruct a as [va ta la ha], b as [vb tb lb hb]. simpl in *; subst.
  unfold AccountMetadata_isSame; simpl.
  repeat case_bool_decide; simpl;
    repeat match goal with |- context [?x =? ?y] => destruct (Z.eqb_spec x y); simpl end;
    split; intros; subst; try discriminate; try tauto; congruence.
Qed.

(** [hasSameState] decides equality of the charts of accounts, and that every
    metadata of the other machine is present here. *)
Lemma hasSameState_spec s t :
  asm_inv s → asm_inv t →
  hasSameState s t = true ↔ mCoA s = mCoA t ∧ mAccountMetadata t ⊆ mAccountMetadata s.
Proof.
  intros Hs Ht. unfold hasSameState.
  destruct (Nat.eqb_spec (size (mCoA s)) (size (mCoA t))) as [Hsz|Hsz]; simpl.
  2:{ split; [done|]. intros [He _]. congruence. }
  rewrite andb_true_iff, !forallb_map_to_list, map_subseteq_spec.
  assert (H1 : map_Forall (λ k a, match mCoA s !! k with
      | None => false | Some a0 => Account_isSame a a0 end = true) (mCoA t) ↔ mCoA t ⊆ mCoA s).
  { rewrite map_subseteq_spec. split; intros H k a Hk.
    - specialize (H k a Hk). simpl in H. destruct (mCoA s !! k) as [a0|] eqn:E; [|done].
      apply Account_isSame_spec in H; [by subst|apply (inv_coa _ Ht _ _ Hk)|apply (inv_coa _ Hs _ _ E)].
    - simpl. rewrite (H _ _ Hk). apply Account_isSame_spec; try done; apply (inv_coa _ Ht _ _ Hk). }
  simpl. rewrite H1.
  assert (H2 : map_Forall (λ k a, match mAccountMetadata s !! k with
      | None => false | Some a0 => AccountMetadata_isSame a a0 end = true) (mAccountMetadata t)
    ↔ ∀ k m, mAccountMetadata t !! k = Some m → mAccountMetadata s !! k = Some m).
  { split; intros H k a Hk.
    - specialize (H k a Hk). simpl in H. destruct (mAccountMetadata s !! k) as [a0|] eqn:E; [|done].
      apply AccountMetadata_isSame_spec in H;
        [by subst|apply (inv_meta _ Ht _ _ Hk)|apply (inv_meta _ Hs _ _ E)].
    - simpl. rewrite (H _ _ Hk). apply AccountMetadata_isSame_spec; try done; apply (inv_meta _ Ht _ _ Hk). }
  rewrite H2. split; intros [Ha Hb]; (split; [|done]).
  - symmetry. apply map_subseteq_size_eq; [done|lia].
  - by rewrite Ha.
Qed.
