(* ===== verification/LedgerTheorems.v ===== *)
(** * Main theorems of the ledger and of the control module

    Each theorem is about whole runs of the state machine, or characterises an
    operation on every branch; the examples that follow instantiate them. *)
From stdpp Require Import pretty.
From S2P Require Import Prelude Protobuf Domain Es Control Ledger LedgerSM LedgerProps.
Open Scope Z_scope.

(** ** A concrete book, for the examples *)
Module Sample.
Definition junk : MetaData := mk_MetaData 0 0 0 0 0 0 0 0 0 EmptyString.
Definition ejunk : EventMetaData := mk_EventMetaData junk 0.
Definition env : ProcessEnv := mk_ProcessEnv 7 ejunk (λ _, true).
Definition cs : CtrlState := CtrlState_new 0 0.

Definition mk (r : result Command) : Command :=
  match r with Ret c => c | Fail _ => SplitCommand_new junk 0 (mk_SplitRequest 0 EmptyString []) end.

Definition account (t : protos_AccountType) (code bal : Z) : protos_Account :=
  mk_protos_Account 1 t (mk_protos_Balance 1 bal) code "name" "desc" 840.
Definition create (t : protos_AccountType) (code bal : Z) : Command :=
  mk (CreateAccountCommand_new junk 1 (mk_CreateRequest (account t code bal))).
Definition configure (t : protos_AccountType) (lo hi : Z) : Command :=
  mk (ConfigureAccountMetadataCommand_new junk 2
        (mk_ConfigureRequest (mk_protos_AccountMetadata 1 t lo hi))).
Definition line (t : protos_TransactionType) (code amount : Z) : protos_JournalLine :=
  mk_protos_JournalLine 1 code t (mk_protos_Amount 1 amount) 840 EmptyString.
Definition record (id : string) (lines : list protos_JournalLine) : Command :=
  mk (RecordJournalEntryCommand_new junk 3
        (mk_RecordRequest (Some (mk_protos_JournalEntry 1 id 10 11 "rent" lines)))).

(** An asset of 500 and a liability of 500, of which 40 is paid. *)
Definition cmds : list (ProcessEnv * Command) :=
  map (pair env)
    [configure pAsset 1000 1999; configure pLiability 2000 2999;
     create pAsset 1001 500; create pLiability 2001 500;
     record "e1" [line pDebit 2001 40; line pCredit 1001 40];
     configure pIncome 2500 3500; record "e1" []].

Definition final : AppStateMachine * list Event :=
  match run 0 (initial cs) cmds with Ret x => x | Fail _ => (initial cs, []) end.

Definition book : AppStateMachine := final.1.

Lemma run_eq : run 0 (initial cs) cmds = Ret (book, final.2).
Proof. vm_compute. reflexivity. Qed.

Ltac wf_command := split; [reflexivity|vm_compute; reflexivity].

Lemma cmds_wf : Forall (λ ec, Command_wf ec.2) cmds.
Proof. repeat (constructor; [wf_command|]). constructor. Qed.

Lemma cmds_verified : Forall (λ ec, verified ec.2) cmds.
Proof. repeat (constructor; [split; [wf_command|reflexivity]|]). constructor. Qed.

Lemma cmds_safe : Forall (λ ec, Command_safe 0 ec.2) cmds.
Proof. repeat (constructor; [vm_compute; done|]). constructor. Qed.

(** An account of a type the schema does not name, and an entry on it. *)
Definition untyped : list (ProcessEnv * Command) :=
  map (pair env) [create (pOtherAccountType 9) 42 0; create pAsset 1001 500; record "e9" [line pDebit 42 1; line pCredit 1001 1];
                  create pAsset 1002 0].

Lemma untyped_verified : Forall (λ ec, verified ec.2) untyped.
Proof. repeat (constructor; [split; [wf_command|reflexivity]|]). constructor. Qed.

Definition entry : JournalEntry :=
  match Command_body (record "e2" [line pDebit 2001 5; line pCredit 1001 5]) with
  | RecordJournalEntryCommand _ (Some j) => j
  | _ => JournalEntry_default
  end.

Lemma entry_wf : JournalEntry_wf entry.
Proof.
  split_and!; [reflexivity|vm_compute; split; congruence..|].
  repeat (constructor; [split_and!; [reflexivity|vm_compute; split; congruence..|
    split; [reflexivity|vm_compute; split; congruence]]|]).
  constructor.
Qed.
End Sample.

(** C10. What becomes of a sequence of commands that the request handlers enqueue
    (their constructor made them, [verifyCommand] has passed them), from the empty
    book, in any order and with any answers.  Either all of them are processed and
    applied, or the process stops at one of them: the events before it have been
    applied, the command produces one event, and that event is a journal entry with a
    line on an account of a type the schema does not name, which ends the process in
    [exit], or a split that declares this cluster, of id 0, new, which fails an
    assertion ([event_stops]).  Nothing else fails; and when no command creates such
    an account or is such a split, all are processed. *)
Theorem ledger_run_verdict (g : Z) (cs : CtrlState) (cmds : list (ProcessEnv * Command)) :
  Forall (λ ec, verified ec.2) cmds →
  ((∃ s log, run g (initial cs) cmds = Ret (s, log)) ∨
   (∃ done env c rest s log h e f, cmds = done ++ (env, c) :: rest ∧ run g (initial cs) done = Ret (s, log) ∧
      processCommand env s c = Ret (h, [e]) ∧ event_stops g s e = Some f ∧ run g (initial cs) cmds = Fail f)) ∧
  (Forall (λ ec, Command_safe g ec.2) cmds → ∃ s log, run g (initial cs) cmds = Ret (s, log)).
Proof.
  intros Hok. split; [by apply run_verdict|]. intros Hs.
  destruct (run_total g cmds (initial cs) []) as (s & log & Hr & _); [by apply Forall_and|apply map_Forall_empty|eauto].
Qed.

Lemma ledger_run_verdict_witness :
  (∃ s log, run 0 (initial Sample.cs) Sample.cmds = Ret (s, log)) ∧
  run 0 (initial Sample.cs) Sample.untyped = Fail ExitFailure ∧
  ∃ done env c rest s log h e f, Sample.untyped = done ++ (env, c) :: rest ∧ run 0 (initial Sample.cs) done = Ret (s, log) ∧
    processCommand env s c = Ret (h, [e]) ∧ event_stops 0 s e = Some f.
Proof.
  split; [exact (proj2 (ledger_run_verdict 0 Sample.cs Sample.cmds Sample.cmds_verified) Sample.cmds_safe)|].
  assert (Hf : run 0 (initial Sample.cs) Sample.untyped = Fail ExitFailure) by (vm_compute; reflexivity).
  split; [exact Hf|].
  destruct (proj1 (ledger_run_verdict 0 Sample.cs Sample.untyped Sample.untyped_verified))
    as [(s & log & Hr)|(done & env & c & rest & s & log & h & e & f & H1 & H2 & H3 & H4 & _)].
  - rewrite Hf in Hr. discriminate.
  - exists done, env, c, rest, s, log, h, e, f. split; [exact H1|]. split; [exact H2|]. split; [exact H3|exact H4].
Defined.

(** In every state the ledger can reach, two account types never have
    overlapping ranges of nominal codes, every account and every metadata is
    well formed and stored under its own key. *)
Theorem metadata_ranges_disjoint (g : Z) (cs : CtrlState) cmds s log t1 t2 m1 m2 :
  Forall (λ ec, Command_wf ec.2) cmds → run g (initial cs) cmds = Ret (s, log) →
  mAccountMetadata s !! t1 = Some m1 → mAccountMetadata s !! t2 = Some m2 → t1 ≠ t2 →
  AccountMetadata_mHighInclusive m1 < AccountMetadata_mLowInclusive m2 ∨
  AccountMetadata_mHighInclusive m2 < AccountMetadata_mLowInclusive m1.
Proof. intros Hwf Hr. by apply (run_inv_trial g cs cmds s log Hwf Hr). Qed.

Lemma metadata_ranges_disjoint_witness :
  ∃ m1 m2, mAccountMetadata Sample.book !! Asset = Some m1 ∧
           mAccountMetadata Sample.book !! Liability = Some m2 ∧
           (AccountMetadata_mHighInclusive m1 < AccountMetadata_mLowInclusive m2 ∨
            AccountMetadata_mHighInclusive m2 < AccountMetadata_mLowInclusive m1).
Proof.
  do 2 eexists. split; [vm_compute; reflexivity|]. split; [vm_compute; reflexivity|].
  eapply (metadata_ranges_disjoint 0 Sample.cs Sample.cmds Sample.book Sample.final.2 Asset Liability);
    [exact Sample.cmds_wf|exact Sample.run_eq|vm_compute; reflexivity|vm_compute; reflexivity|done].
Defined.

(** C22. The book is well typed: every event a run from the empty book writes to the
    log is well formed, every account is well formed and stored under its own
    nominal code, every metadata is well formed and stored under its own account
    type, and the code ranges of two account types are disjoint. *)
Theorem ledger_well_typed (g : Z) (cs : CtrlState) cmds s log :
  Forall (λ ec, Command_wf ec.2) cmds → run g (initial cs) cmds = Ret (s, log) →
  Forall Event_wf log ∧
  map_Forall (λ code a, Account_wf a ∧ Account_mNominalCode a = code) (mCoA s) ∧
  map_Forall (λ t m, AccountMetadata_wf m ∧ AccountMetadata_mAccountType m = t) (mAccountMetadata s) ∧
  ∀ t1 t2 m1 m2, mAccountMetadata s !! t1 = Some m1 → mAccountMetadata s !! t2 = Some m2 → t1 ≠ t2 →
    AccountMetadata_mHighInclusive m1 < AccountMetadata_mLowInclusive m2 ∨
    AccountMetadata_mHighInclusive m2 < AccountMetadata_mLowInclusive m1.
Proof.
  intros Hwf Hr. pose proof (run_inv_trial g cs cmds s log Hwf Hr) as [[Hc Hm Hd] _]. split; [|by split_and!].
  rewrite Forall_forall in Hwf. apply (run_ind g (λ _ log, Forall Event_wf log) (initial cs) cmds s log); [|constructor|exact Hr].
  intros s0 l env c h evs s1 calls Hin Hl Hp. apply Forall_app. split; [done|].
  apply processCommandAndApply_cases in Hp as [(-> & _)|(e & -> & Hok & _)]; [done| |by apply (Hwf (env, c))].
  constructor; [apply Hok|done].
Qed.

Lemma ledger_well_typed_witness :
  Forall Event_wf Sample.final.2 ∧ (size (mCoA Sample.book) = 2)%nat ∧
  map_Forall (λ code a, Account_wf a ∧ Account_mNominalCode a = code) (mCoA Sample.book).
Proof.
  destruct (ledger_well_typed 0 Sample.cs Sample.cmds Sample.book Sample.final.2) as (He & Hc & _);
    [exact Sample.cmds_wf|exact Sample.run_eq|].
  split; [exact He|]. split; [vm_compute; reflexivity|exact Hc].
Defined.

(** C16. Double entry is conserved: after any run from the empty book, the sum
    of all balances, debit-side accounts counted positively and credit-side
    accounts negatively, is the sum of the opening balances the accounts were
    created with, modulo 2^64. *)
Theorem trial_balance_conserved (g : Z) (cs : CtrlState) cmds s log :
  Forall (λ ec, Command_wf ec.2) cmds → run g (initial cs) cmds = Ret (s, log) →
  trial_balance s ≡₆₄ foldr Z.add 0 (map opening log).
Proof. intros Hwf Hr. by apply (run_inv_trial g cs cmds s log Hwf Hr). Qed.

Lemma trial_balance_conserved_witness :
  trial_balance Sample.book ≡₆₄ foldr Z.add 0 (map opening Sample.final.2).
Proof.
  apply (trial_balance_conserved 0 Sample.cs Sample.cmds Sample.book Sample.final.2);
    [exact Sample.cmds_wf|exact Sample.run_eq].
Defined.

(** C17. The answer to a journal entry is exactly the one of the specification
    [journal_verdict]: already processed; the error of the first line that is
    wrong (unknown account, foreign currency, no side); no debit; no credit;
    sides that differ; or OK.  An event is produced in the last case only. *)
Theorem journal_entry_verdict env s e :
  JournalEntry_wf e → Z.of_nat (length (JournalEntry_mJournalLines e)) < 2 ^ 32 →
  ∃ msg, process_RecordJournalEntry env s (Some e) =
    Ret (mk_ProcessHint (journal_verdict env s e) msg,
         if journal_verdict env s e =? HttpCode_OK
         then [JournalEntryRecordedEvent_new (env_junk env) (env_now env) e] else []).
Proof. apply process_RecordJournalEntry_verdict. Qed.

Lemma journal_entry_verdict_witness :
  journal_verdict Sample.env Sample.book Sample.entry = HttpCode_OK ∧
  ∃ msg, process_RecordJournalEntry Sample.env Sample.book (Some Sample.entry) =
    Ret (mk_ProcessHint (journal_verdict Sample.env Sample.book Sample.entry) msg,
         if journal_verdict Sample.env Sample.book Sample.entry =? HttpCode_OK
         then [JournalEntryRecordedEvent_new (env_junk Sample.env) (env_now Sample.env) Sample.entry]
         else []).
Proof.
  split; [vm_compute; reflexivity|].
  apply (journal_entry_verdict Sample.env Sample.book Sample.entry);
    [exact Sample.entry_wf|vm_compute; reflexivity].
Defined.

(** An accepted journal entry balances exactly, as integers, when both
    sides fit in 64 bits. *)
Theorem accepted_entry_balances env s e h evs :
  JournalEntry_wf e → process_RecordJournalEntry env s (Some e) = Ret (h, evs) → evs ≠ [] →
  in_u64 (side_sum Debit (JournalEntry_mJournalLines e)) →
  in_u64 (side_sum Credit (JournalEntry_mJournalLines e)) →
  side_sum Debit (JournalEntry_mJournalLines e) = side_sum Credit (JournalEntry_mJournalLines e).
Proof.
  intros Hwf Hp Hne Hd Hc.
  destruct (process_Record_shape env s e h evs Hwf Hp Hne) as (_ & _ & Hs).
  by apply eq64_range.
Qed.

Lemma accepted_entry_balances_witness :
  side_sum Debit (JournalEntry_mJournalLines Sample.entry)
  = side_sum Credit (JournalEntry_mJournalLines Sample.entry).
Proof.
  eapply (accepted_entry_balances Sample.env Sample.book Sample.entry);
    [exact Sample.entry_wf|vm_compute; reflexivity|done|vm_compute; split; congruence..].
Defined.

(** A range is accepted exactly when it is disjoint from the ranges of all
    other account types and contains the code of every existing account of its
    type. *)
Theorem configure_accepts_iff env s m :
  (process_ConfigureAccountMetadata env s (Some m) =
     (success, [AccountMetadataConfiguredEvent_new (env_junk env) (env_now env) m])) ↔
  map_Forall (λ t m', t ≠ AccountMetadata_mAccountType m →
      AccountMetadata_mHighInclusive m' < AccountMetadata_mLowInclusive m ∨
      AccountMetadata_mHighInclusive m < AccountMetadata_mLowInclusive m') (mAccountMetadata s) ∧
  map_Forall (λ code a, Account_mAccountType a = AccountMetadata_mAccountType m →
      AccountMetadata_mLowInclusive m ≤ code ≤ AccountMetadata_mHighInclusive m) (mCoA s).
Proof. apply process_Configure_accepts. Qed.

(** A journal entry takes effect once: in every run of well-formed commands from
    the empty book, in which ids may be repeated at will, each id is in at most one
    recorded event, and the ids the state remembers are exactly those recorded. *)
Theorem entries_recorded_once (g : Z) (cs : CtrlState) cmds s log :
  Forall (λ ec, Command_wf ec.2) cmds → run g (initial cs) cmds = Ret (s, log) →
  NoDup (recorded_ids log) ∧ ∀ id, id ∈ recorded_ids log ↔ is_Some (mDoneMap s !! id).
Proof. apply run_ids. Qed.

Lemma entries_recorded_once_witness :
  NoDup (recorded_ids Sample.final.2) ∧
  ∀ id, id ∈ recorded_ids Sample.final.2 ↔ is_Some (mDoneMap Sample.book !! id).
Proof.
  apply (entries_recorded_once 0 Sample.cs Sample.cmds); [exact Sample.cmds_wf|exact Sample.run_eq].
Defined.

(** A command that produces no event leaves the state machine as it was,
    and calls none of its callbacks. *)
Theorem refused_command_changes_nothing env g s c h s' calls :
  Command_wf c → processCommandAndApply env g s c [] = Ret (h, [], s', calls) → s' = s ∧ calls = [].
Proof. apply refused_unchanged. Qed.

Lemma refused_command_changes_nothing_witness :
  ∃ h s' calls,
    processCommandAndApply Sample.env 0 Sample.book (Sample.configure pIncome 1 5000) []
    = Ret (h, [], s', calls) ∧ hint_mCode h = ACCOUNT_METADATA_RANGE_OVERLAP ∧
    s' = Sample.book ∧ calls = [].
Proof.
  do 3 eexists. split; [vm_compute; reflexivity|]. split; [reflexivity|].
  eapply (refused_command_changes_nothing Sample.env 0 Sample.book (Sample.configure pIncome 1 5000));
    [split; [reflexivity|vm_compute; reflexivity]|vm_compute; reflexivity].
Defined.

(** ** Serialisers for the examples *)
Module Wire.
Definition at_of (t : protos_AccountType) : Z * Z :=
  match t with
  | pUnknownAccountType => (0, 0) | pAsset => (1, 0) | pLiability => (2, 0) | pCapital => (3, 0)
  | pIncome => (4, 0) | pCostOfGoodsSold => (5, 0) | pExpense => (6, 0)
  | pOtherAccountType n => (7, n)
  end.
Definition of_at (x : Z * Z) : protos_AccountType :=
  match x with
  | (0, _) => pUnknownAccountType | (1, _) => pAsset | (2, _) => pLiability | (3, _) => pCapital
  | (4, _) => pIncome | (5, _) => pCostOfGoodsSold | (6, _) => pExpense
  | (_, n) => pOtherAccountType n
  end.
Definition tt_of (t : protos_TransactionType) : Z * Z :=
  match t with
  | pUnknownTransactionType => (0, 0) | pDebit => (1, 0) | pCredit => (2, 0)
  | pOtherTransactionType n => (3, n)
  end.
Definition of_tt (x : Z * Z) : protos_TransactionType :=
  match x with
  | (0, _) => pUnknownTransactionType | (1, _) => pDebit | (2, _) => pCredit
  | (_, n) => pOtherTransactionType n
  end.

#[export] Instance at_eq : EqDecision protos_AccountType.
Proof. solve_decision. Defined.
#[export] Instance tt_eq : EqDecision protos_TransactionType.
Proof. solve_decision. Defined.
#[export] Instance at_countable : Countable protos_AccountType.
Proof. refine (inj_countable' at_of of_at _). by intros []. Defined.
#[export] Instance tt_countable : Countable protos_TransactionType.
Proof. refine (inj_countable' tt_of of_tt _). by intros []. Defined.

#[export] Instance amount_packed : Packed protos_Amount.
Proof.
  apply (packed_via (λ a, (pAmount_version a, pAmount_value a))
    (λ x, mk_protos_Amount x.1 x.2)). by intros [].
Defined.
#[export] Instance balance_packed : Packed protos_Balance.
Proof.
  apply (packed_via (λ a, (pBalance_version a, pBalance_value a))
    (λ x, mk_protos_Balance x.1 x.2)). by intros [].
Defined.
#[export] Instance account_packed : Packed protos_Account.
Proof.
  apply (packed_via (λ a, (pAccount_version a, pAccount_type a, pAccount_balance a,
      pAccount_nominal_code a, pAccount_name a, pAccount_desc a, pAccount_iso4217 a))
    (λ '(v, t, b, n, m, d, c), mk_protos_Account v t b n m d c)). by intros [].
Defined.
#[export] Instance metadata_packed : Packed protos_AccountMetadata.
Proof.
  apply (packed_via (λ a, (pAccountMetadata_version a, pAccountMetadata_type a,
      pAccountMetadata_low a, pAccountMetadata_high a))
    (λ '(v, t, l, h), mk_protos_AccountMetadata v t l h)). by intros [].
Defined.
#[export] Instance line_packed : Packed protos_JournalLine.
Proof.
  apply (packed_via (λ a, (pJournalLine_version a, pJournalLine_nominal_code a,
      pJournalLine_type a, pJournalLine_amount a, pJournalLine_iso4217 a, pJournalLine_ref_data a))
    (λ '(v, n, t, a, c, r), mk_protos_JournalLine v n t a c r)). by intros [].
Defined.
#[export] Instance entry_packed : Packed protos_JournalEntry.
Proof.
  apply (packed_via (λ a, (pJournalEntry_version a, pJournalEntry_id a,
      pJournalEntry_valid_time a, pJournalEntry_record_time a, pJournalEntry_purpose a,
      pJournalEntry_lines a))
    (λ '(v, i, t, r, p, l), mk_protos_JournalEntry v i t r p l)). by intros [].
Defined.
#[export] Instance route_packed : Packed RouteProto.
Proof.
  apply (packed_via (λ a, (rp_type a, rp_groups a, rp_groupTotal a))
    (λ '(t, g, n), mk_RouteProto t g n)). by intros [].
Defined.
#[export] Instance impact_packed : Packed ImpactProto.
Proof.
  apply (packed_via (λ a, (ip_route a, ip_clusterId a, ip_newCluster a))
    (λ '(t, g, n), mk_ImpactProto t g n)). by intros [].
Defined.

Definition proto_of {M : Type} (A : Type) `{Packed A} (f : M → A) (g : A → M)
    (Hfg : ∀ m, g (f m) = m) (dflt : M) : Proto M.
Proof.
  refine {|
    default_instance := dflt;
    SerializeAsString m := SerializeAsString (Proto := packed_Proto A (f dflt)) (f m);
    ParseFromString s :=
      let x := ParseFromString (Proto := packed_Proto A (f dflt)) s in (x.1, g x.2) |}.
  - intros m. rewrite ParseFromString_SerializeAsString. simpl. by rewrite Hfg.
  - simpl. by rewrite Hfg.
Defined.

#[export] Instance protos : LedgerProtos.
Proof.
  split.
  - apply (proto_of _ cr_metadata mk_ConfigureRequest);
      [by intros []|exact (mk_ConfigureRequest protos_AccountMetadata_default)].
  - apply (proto_of _ ar_account mk_CreateRequest);
      [by intros []|exact (mk_CreateRequest protos_Account_default)].
  - apply (proto_of _ jr_journal_entry mk_RecordRequest); [by intros []|exact (mk_RecordRequest None)].
  - apply (proto_of _ (λ r, (sr_epoch r, sr_planId r, sr_impacts r))
      (λ '(e, p, i), mk_SplitRequest e p i)); [by intros []|exact (mk_SplitRequest 0 EmptyString [])].
  - apply (proto_of _ (λ r, (created_version r, created_account r)) (λ x, mk_CreatedEvent x.1 x.2));
      [by intros []|exact (mk_CreatedEvent 0 protos_Account_default)].
  - apply (proto_of _ (λ r, (configured_version r, configured_metadata r))
      (λ x, mk_ConfiguredEvent x.1 x.2));
      [by intros []|exact (mk_ConfiguredEvent 0 protos_AccountMetadata_default)].
  - apply (proto_of _ (λ r, (recorded_version r, recorded_entry r)) (λ x, mk_RecordedEvent x.1 x.2));
      [by intros []|exact (mk_RecordedEvent 0 protos_JournalEntry_default)].
Defined.

#[export] Instance split_state : Proto SplitState.
Proof.
  apply (proto_of _ (λ s, (ss_routes s, ss_epoch s, ss_planId s, ss_clusterId s, ss_startIndex s))
    (λ '(r, e, p, c, i), mk_SplitState r e p c i)); [by intros []|exact SplitState_default].
Defined.
End Wire.
Import Wire.

(** ** The log *)

(** A command written to the log and decoded is the same command, less the
    request handle and the times kept for metrics. *)
Theorem command_log_roundtrip `{LedgerProtos} junk c entry :
  Command_wf c → decodeCommand junk (encodeCommand c entry) = Ret (Some (Command_persisted c)).
Proof. apply Command_roundtrip. Qed.

Lemma command_log_roundtrip_witness :
  decodeCommand Sample.junk (encodeCommand (Sample.create pAsset 1001 500) CommandEntry_default)
  = Ret (Some (Command_persisted (Sample.create pAsset 1001 500))).
Proof.
  apply (command_log_roundtrip Sample.junk (Sample.create pAsset 1001 500)).
  split; [reflexivity|vm_compute; reflexivity].
Defined.

(** An event written to the log and decoded is the same event, with one
    exception: a journal entry comes back without its id. *)
Theorem event_log_roundtrip `{LedgerProtos} junk e entry :
  Event_wf e →
  ∃ ee, encodeEvent e entry = Ret ee ∧ decodeEvent junk ee = Ret (Some (Event_persisted e)).
Proof. apply Event_roundtrip. Qed.

Lemma event_log_roundtrip_witness :
  ∃ ee, encodeEvent (JournalEntryRecordedEvent_new Sample.ejunk 7 Sample.entry) EventEntry_default = Ret ee ∧
  decodeEvent Sample.ejunk ee =
    Ret (Some (Event_persisted (JournalEntryRecordedEvent_new Sample.ejunk 7 Sample.entry))).
Proof.
  apply (event_log_roundtrip Sample.ejunk (JournalEntryRecordedEvent_new Sample.ejunk 7 Sample.entry)).
  split; [reflexivity|]. split; [reflexivity|exact Sample.entry_wf].
Defined.

(** C34. A replica follows the leader, with one exception.  Take an event the leader
    has applied, well formed as the ledger makes them, and a replica with the same
    accounts, metadata and control state (and whatever journal ids it remembers).
    What the replica decodes from the entry the leader encodes has the same effect on
    them there; except that a journal entry arrives without its id, so a replica
    that remembers the empty id, from a journal entry decoded before, aborts. *)
Theorem replica_follows_leader `{LedgerProtos} junk entry g s q e s' calls :
  Event_wf e → same_books s q → applyEvent g s e = Ret (s', calls) →
  ∃ ee e', encodeEvent e entry = Ret ee ∧ decodeEvent junk ee = Ret (Some e') ∧
    if is_journal e && remembers q EmptyString then applyEvent g q e' = Fail AssertFailure
    else ∃ r calls', applyEvent g q e' = Ret (r, calls') ∧ same_books s' r.
Proof.
  intros Hwf Hq Ha. destruct (Event_roundtrip junk e entry Hwf) as (ee & He & Hd).
  exists ee, (Event_persisted e). split; [done|]. split; [done|]. by eapply replica_applyEvent.
Qed.

Lemma replica_follows_leader_witness :
  ∃ s' calls, applyEvent 0 Sample.book (JournalEntryRecordedEvent_new Sample.ejunk 7 Sample.entry) = Ret (s', calls) ∧
  ∃ ee e', encodeEvent (JournalEntryRecordedEvent_new Sample.ejunk 7 Sample.entry) EventEntry_default = Ret ee ∧
    decodeEvent Sample.ejunk ee = Ret (Some e') ∧
    ∃ r calls', applyEvent 0 Sample.book e' = Ret (r, calls') ∧ same_books s' r.
Proof.
  do 2 eexists. split; [vm_compute; reflexivity|].
  refine (replica_follows_leader Sample.ejunk EventEntry_default 0 Sample.book Sample.book
    (JournalEntryRecordedEvent_new Sample.ejunk 7 Sample.entry) _ _ _ _ _);
    [split; [reflexivity|split; [reflexivity|exact Sample.entry_wf]]|done|vm_compute; reflexivity].
Defined.

(** C35. The lost id is fatal.  Two journal entries, well formed as the ledger makes
    them and whatever their ids are, are encoded by a leader and decoded by a
    replica; once the replica has applied the first, and then any well-formed
    events, it aborts on the second. *)
Theorem second_replayed_entry_aborts `{LedgerProtos} junk e1 e2 entry1 entry2 ee1 ee2 d1 d2 g s s1 calls between s2 calls2 :
  Event_wf e1 → is_journal e1 = true → encodeEvent e1 entry1 = Ret ee1 → decodeEvent junk ee1 = Ret (Some d1) →
  Event_wf e2 → is_journal e2 = true → encodeEvent e2 entry2 = Ret ee2 → decodeEvent junk ee2 = Ret (Some d2) →
  applyEvent g s d1 = Ret (s1, calls) → Forall Event_wf between → applyEvents g s1 between = Ret (s2, calls2) →
  applyEvent g s2 d2 = Fail AssertFailure.
Proof.
  intros W1 J1 E1 D1 W2 J2 E2 D2 Ha Hb Hbs.
  destruct (Event_roundtrip junk e1 entry1 W1) as (ee1' & E1' & D1'). destruct (Event_roundtrip junk e2 entry2 W2) as (ee2' & E2' & D2').
  assert (d1 = Event_persisted e1) as -> by congruence. assert (d2 = Event_persisted e2) as -> by congruence.
  apply applyEvent_done in Ha; [|by apply persisted_wf].
  assert (Hr : remembers s1 EmptyString = true).
  { unfold is_journal in J1. unfold Event_wf in W1. unfold Event_persisted in Ha. simpl in Ha.
    destruct (Event_body e1) as [v a|v m|v j|r]; try discriminate. rewrite JournalEntry_persisted_eq in Ha by apply W1.
    destruct Ha as [_ Hd]. unfold remembers. rewrite Hd. simpl. by rewrite lookup_insert_eq. }
  apply (applyEvents_remembers _ _ _ _ _ _ _ Hb Hr) in Hbs. rewrite (applyEvent_dispatch _ _ _ (persisted_wf _ W2)).
  unfold is_journal in J2. unfold Event_wf in W2. unfold Event_persisted. simpl. destruct (Event_body e2) as [v a|v m|v j|r]; try discriminate.
  rewrite JournalEntry_persisted_eq by apply W2. unfold apply_JournalEntryRecorded. simpl.
  unfold remembers in Hbs. apply bool_decide_eq_true in Hbs as [? ->]. done.
Qed.

Lemma second_replayed_entry_aborts_witness :
  ∃ ee1 ee2 d1 d2 s1 calls,
    encodeEvent (JournalEntryRecordedEvent_new Sample.ejunk 7 Sample.entry) EventEntry_default = Ret ee1 ∧
    decodeEvent Sample.ejunk ee1 = Ret (Some d1) ∧
    encodeEvent (JournalEntryRecordedEvent_new Sample.ejunk 8 Sample.entry) EventEntry_default = Ret ee2 ∧
    decodeEvent Sample.ejunk ee2 = Ret (Some d2) ∧
    applyEvent 0 Sample.book d1 = Ret (s1, calls) ∧ applyEvent 0 s1 d2 = Fail AssertFailure.
Proof.
  do 6 eexists. split; [vm_compute; reflexivity|]. split; [vm_compute; reflexivity|]. split; [vm_compute; reflexivity|].
  split; [vm_compute; reflexivity|]. split; [vm_compute; reflexivity|].
  eapply (second_replayed_entry_aborts Sample.ejunk
    (JournalEntryRecordedEvent_new Sample.ejunk 7 Sample.entry) (JournalEntryRecordedEvent_new Sample.ejunk 8 Sample.entry)
    EventEntry_default EventEntry_default _ _ _ _ 0 Sample.book _ _ []);
    [split; [reflexivity|split; [reflexivity|exact Sample.entry_wf]]|reflexivity|vm_compute; reflexivity|vm_compute; reflexivity
    |split; [reflexivity|split; [reflexivity|exact Sample.entry_wf]]|reflexivity|vm_compute; reflexivity|vm_compute; reflexivity
    |vm_compute; reflexivity|constructor|reflexivity].
Defined.

(** Only verified, well-formed commands reach the command queue, each with
    the handle of the request it answers. *)
Theorem create_account_enqueues_verified info junk now stopped self self' acts c :
  CreateAccount_proceed info junk now stopped self = Ret (self', acts) → Enqueue c ∈ acts →
  Command_wf c ∧ Command_verifyCommand c = kVerifiedSuccess ∧
  mRequestHandle (Command_mMetaData c) = Some (cd_this self).
Proof. apply CallData_proceed_enqueue. eauto with ledger. Qed.

Lemma create_account_enqueues_verified_witness :
  ∃ self' c,
    CreateAccount_proceed (mk_AppInfo 1 0 0) Sample.junk 5 None
      (mk_CallData 77 PROCESS (mk_CreateRequest (Sample.account pAsset 1001 500)) (mk_Response 0 EmptyString EmptyString))
    = Ret (self', [NewCallData; Enqueue c]) ∧
    Command_wf c ∧ Command_verifyCommand c = kVerifiedSuccess ∧
    mRequestHandle (Command_mMetaData c) = Some 77.
Proof.
  do 2 eexists. split; [vm_compute; reflexivity|].
  eapply (create_account_enqueues_verified (mk_AppInfo 1 0 0) Sample.junk 5 None
    (mk_CallData 77 PROCESS (mk_CreateRequest (Sample.account pAsset 1001 500))
       (mk_Response 0 EmptyString EmptyString)));
    [vm_compute; reflexivity|]. right. left.
Defined.

(** A request whose message version is not 1 stops the server before it
    is validated: the handler of a create request never returns for it. *)
Theorem bad_version_stops_server info junk now stopped this r resp :
  CreateAccount_verifyCommand r = kVerifiedSuccess → u64 (pAccount_version (ar_account r)) ≠ 1 →
  ∃ f, CreateAccount_proceed info junk now stopped (mk_CallData this PROCESS r resp) = Fail f ∧
       (f = AssertFailure ∨ f = ExitFailure).
Proof.
  intros Hv Hne. unfold CreateAccount_proceed, CallData_proceed, CreateAccountCommand_new, tryInitAccount.
  rewrite bool_decide_eq_true_2 by done. unfold Account_initWith, check_version. cbn [cd_mCallStatus cd_mRequest].
  rewrite (proj2 (Z.eqb_neq _ _)) by done. destruct (0 <? _); simpl; eauto.
Qed.

Lemma bad_version_stops_server_witness :
  ∃ f, CreateAccount_proceed (mk_AppInfo 1 0 0) Sample.junk 5 None
         (mk_CallData 77 PROCESS (mk_CreateRequest
            (mk_protos_Account 2 pAsset (mk_protos_Balance 1 0) 1 "n" "d" 840))
            (mk_Response 0 EmptyString EmptyString)) = Fail f ∧
       (f = AssertFailure ∨ f = ExitFailure).
Proof. apply bad_version_stops_server; vm_compute; done. Defined.

(** An account type the schema does not name passes validation; the first
    journal line on such an account ends the process. *)
Theorem unnamed_account_type_exits :
  ∃ c s1 h evs calls,
    Command_wf c ∧ Command_verifyCommand c = kVerifiedSuccess ∧
    processCommandAndApply Sample.env 0 Sample.book c [] = Ret (h, evs, s1, calls) ∧ evs ≠ [] ∧
    processCommandAndApply Sample.env 0 s1
      (Sample.record "e9" [Sample.line pDebit 42 1; Sample.line pCredit 1001 1]) [] = Fail ExitFailure.
Proof.
  exists (Sample.create (pOtherAccountType 9) 42 0). do 4 eexists.
  split; [split; [reflexivity|vm_compute; reflexivity]|].
  split; [reflexivity|]. split; [vm_compute; reflexivity|]. split; [done|vm_compute; reflexivity].
Qed.

(** ** Splitting clusters *)
Module SampleSplit.
Definition req : SplitRequest :=
  mk_SplitRequest 3 "plan-a"
    [mk_ImpactProto (mk_RouteProto 1 [0; 1] 4) 0 false;
     mk_ImpactProto (mk_RouteProto 1 [2; 3] 4) 1 true].
Definition st : CtrlState := CtrlState_new 0 0.
Definition st0 : CtrlState := match SplitEvent_apply 0 9 req st with Ret s => s | _ => st end.
Definition st1 : CtrlState := match SplitEvent_apply 1 9 req st with Ret s => s | _ => st end.
Definition st2 : CtrlState := match SplitEvent_apply 2 9 req st with Ret s => s | _ => st end.
End SampleSplit.

(** A split request is accepted exactly when it names a plan, has a
    positive epoch, gives no group of a route type twice and does not
    contradict itself on the number of groups. *)
Theorem split_verify_iff r :
  SplitCommand_verifyCommand r = kVerifiedSuccess ↔
  sr_planId r ≠ EmptyString ∧ 0 < sr_epoch r ∧
  (∀ t, NoDup (groups_of t (sr_impacts r))) ∧ StronglySorted total_agrees (sr_impacts r).
Proof. apply SplitCommand_verifyCommand_spec. Qed.

(** C40. What clusters serve after a split.  A verified split request is applied by two
    clusters, whatever their states were; a cluster serves the groups of its routes
    once it has been through a split, and every group before ([CtrlState_serves]).
    A group both serve is one of a cluster the request does not name and that has
    never been through a split, and such a cluster goes on to serve every group; of
    the clusters the request names, or that have been split before, at most one
    serves a group of a type. *)
Theorem split_serves_exclusive r c1 c2 cmd1 cmd2 st1 st2 st1' st2' t g :
  SplitCommand_verifyCommand r = kVerifiedSuccess →
  SplitEvent_apply c1 cmd1 r st1 = Ret st1' → SplitEvent_apply c2 cmd2 r st2 = Ret st2' → c1 ≠ c2 →
  (CtrlState_serves st1' t g = true → CtrlState_serves st2' t g = true → untouched r c1 st1 ∨ untouched r c2 st2) ∧
  (untouched r c1 st1 → ∀ t' g', CtrlState_serves st1' t' g' = true).
Proof.
  intros Hv H1 H2 Hne. split; [|intros Hu t' g'; by eapply untouched_serves].
  intros Hs1 Hs2. destruct (decide (untouched r c1 st1)) as [|N1]; [by left|].
  destruct (decide (untouched r c2 st2)) as [|N2]; [by right|]. destruct Hne.
  apply (split_routes_disjoint r c1 c2 cmd1 cmd2 st1 st2 st1' st2' t g Hv H1 H2);
    [exact (touched_serves r c1 cmd1 st1 st1' t g Hv N1 H1 Hs1)|exact (touched_serves r c2 cmd2 st2 st2' t g Hv N2 H2 Hs2)].
Qed.

Lemma split_serves_exclusive_witness :
  CtrlState_serves SampleSplit.st1 1 3 = true ∧ CtrlState_serves SampleSplit.st0 1 3 = false ∧
  CtrlState_serves SampleSplit.st2 1 3 = true ∧
  (untouched SampleSplit.req 1 SampleSplit.st ∨ untouched SampleSplit.req 2 SampleSplit.st).
Proof.
  split; [vm_compute; reflexivity|]. split; [vm_compute; reflexivity|]. split; [vm_compute; reflexivity|].
  refine (proj1 (split_serves_exclusive SampleSplit.req 1 2 9 9 SampleSplit.st SampleSplit.st SampleSplit.st1 SampleSplit.st2 1 3 _ _ _ _) _ _);
    vm_compute; congruence.
Defined.

(** Processing a split request and applying its event never lowers the
    epoch of the control state. *)
Theorem split_epoch_never_decreases r s h r' c cmd s' :
  0 ≤ sr_epoch r → SplitCommand_process r s = (h, Some r') → SplitEvent_apply c cmd r' s = Ret s' →
  mEpoch s ≤ mEpoch s'.
Proof. apply split_epoch_monotone. Qed.

Lemma split_epoch_never_decreases_witness : mEpoch SampleSplit.st ≤ mEpoch SampleSplit.st1.
Proof.
  eapply (split_epoch_never_decreases SampleSplit.req SampleSplit.st _ SampleSplit.req 1 9);
    [done|vm_compute; reflexivity|vm_compute; reflexivity].
Defined.

(** A split that took effect on this cluster is answered 201 when it is sent
    again, and produces no event. *)
Theorem split_is_idempotent r s c cmd s' :
  0 < sr_epoch r → existsb (λ i, ip_clusterId i =? c) (sr_impacts r) = true →
  SplitEvent_apply c cmd r s = Ret s' →
  SplitCommand_process r s' = (mk_ProcessHint 201 "deduped", None).
Proof. apply split_dedup. Qed.

Lemma split_is_idempotent_witness :
  SplitCommand_process SampleSplit.req SampleSplit.st1 = (mk_ProcessHint 201 "deduped", None).
Proof.
  apply (split_is_idempotent SampleSplit.req SampleSplit.st 1 9); [done|reflexivity|vm_compute; reflexivity].
Defined.

(** A control state that has been through a split is recovered from its
    encoding, whatever the fresh object held. *)
Theorem ctrl_state_roundtrip `{Proto SplitState} c cmd r st s j1 j2 :
  SplitEvent_apply c cmd r st = Ret s → 0 < mEpoch s → default_instance = SplitState_default →
  CtrlState_decodeFromString (mClusterId s) (CtrlState_new j1 j2) (CtrlState_encodeToString s) = s.
Proof. intros Ha. apply CtrlState_roundtrip. by eapply SplitEvent_apply_wf. Qed.

Lemma ctrl_state_roundtrip_witness :
  CtrlState_decodeFromString 1 (CtrlState_new 5 6) (CtrlState_encodeToString SampleSplit.st1)
  = SampleSplit.st1.
Proof.
  apply (ctrl_state_roundtrip 1 9 SampleSplit.req SampleSplit.st SampleSplit.st1 5 6);
    [vm_compute; reflexivity|vm_compute; reflexivity|reflexivity].
Defined.
