(* ===== verification/Crypto.v ===== *)
(** * Encryption of log payloads

    src/src/infra/util/CryptoUtil.{h,cpp}.  The cipher, the message
    authentication code and the base64 decoder are OpenSSL's: they are the class
    [OpenSSL], whose one law is that decryption under a key inverts encryption
    under it.  The initialisation vector is the constant zero. *)
From Stdlib Require Import String.
From S2P Require Import Prelude.
Open Scope Z_scope.

Definition kKeyLen : nat := 32.
Definition kInvalidSecKeyVersion : Z := 0.

(** [EVP_aes_256_cbc] under the zero initialisation vector, [HMAC] with
    [EVP_sha256], and the base64 filter, which gives the bytes it could read. *)
Class OpenSSL := {
  aes_encrypt : string → string → option string;
  aes_decrypt : string → string → option string;
  hmac_sha256 : string → string → string;
  base64_read : string → string;
  aes_decrypt_encrypt key plain cipher :
    aes_encrypt key plain = Some cipher → aes_decrypt key cipher = Some plain;
}.

Record CryptoUtil := mk_CryptoUtil {
  mEnabled : bool;
  mDescendingSecKeyVersions : list Z;
  mAllKeys : gmap Z string;
  mLatestVersion : Z }.

Definition CryptoUtil_new : CryptoUtil := mk_CryptoUtil false [] ∅ kInvalidSecKeyVersion.

Definition isEnabled (c : CryptoUtil) : bool := mEnabled c.
Definition getDescendingVersions (c : CryptoUtil) : list Z := mDescendingSecKeyVersions c.
Definition getLatestVersion (c : CryptoUtil) : Z := mLatestVersion c.

Section crypto.
Context `{OpenSSL}.

Definition decodeBase64Key (base64 : string) : result string :=
  let key := base64_read base64 in
  if Nat.eqb (String.length key) kKeyLen then Ret key else Fail ExitFailure.

(** One key of the key file. *)
Definition add_key (c : CryptoUtil) (keyAndVersion : Z * string) : result CryptoUtil :=
  let '(version, base64) := keyAndVersion in
  cassert (kInvalidSecKeyVersion <? version);;
  key ← decodeBase64Key base64;
  Ret (mk_CryptoUtil (mEnabled c) (mDescendingSecKeyVersions c ++ [version])
         (<[version := key]> (mAllKeys c))
         (if mLatestVersion c <? version then version else mLatestVersion c)).

(** [init(reader)]: what the reader says and what the key file parses to. *)
Definition init_reader (c : CryptoUtil) (enableCrypt : bool) (keyFileName : string)
    (keySet : option (list (Z * string))) : result CryptoUtil :=
  if mEnabled c then Fail ExitFailure
  else if negb enableCrypt || bool_decide (keyFileName = EmptyString) then Ret c
  else
    match keySet with
    | None => Fail AssertFailure
    | Some keys =>
        c ← foldM add_key (mk_CryptoUtil (mEnabled c) [] ∅ (mLatestVersion c)) keys;
        cassert (0 <? mLatestVersion c);;
        cassert (negb (Nat.eqb (size (mAllKeys c)) 0));;
        cassert (negb (Nat.eqb (List.length (mDescendingSecKeyVersions c)) 0));;
        Ret (mk_CryptoUtil true (merge_sort descending (mDescendingSecKeyVersions c))
               (mAllKeys c) (mLatestVersion c))
    end.

(** [init(version, key)] *)
Definition init_key (c : CryptoUtil) (version : Z) (key : string) : result CryptoUtil :=
  if mEnabled c then Fail ExitFailure
  else if negb (Nat.eqb (String.length key) kKeyLen) || (version <=? kInvalidSecKeyVersion)
  then Fail ExitFailure
  else Ret (mk_CryptoUtil true [version] {[version := key]} version).

(** [assertValidVersion] and [mAllKeys.at]. *)
Definition assertValidVersion (c : CryptoUtil) (version : Z) : result string :=
  match mAllKeys c !! version with Some key => Ret key | None => Fail ExitFailure end.

(** In place: the payload afterwards, with the return code. *)
Definition encrypt (c : CryptoUtil) (payload : string) (version : Z) : result (string * Z) :=
  if negb (mEnabled c) then Ret (payload, 0)
  else
    key ← assertValidVersion c version;
    match aes_encrypt key payload with
    | Some cipher => Ret (cipher, 0)
    | None => Ret (payload, -1)
    end.

Definition decrypt (c : CryptoUtil) (payload : string) (version : Z) : result (string * Z) :=
  if negb (mEnabled c) then Ret (payload, 0)
  else
    key ← assertValidVersion c version;
    match aes_decrypt key payload with
    | Some plain => Ret (plain, 0)
    | None => Ret (payload, -1)
    end.

Definition hmac (c : CryptoUtil) (payload : string) (version : Z) : result string :=
  if negb (mEnabled c) then Ret EmptyString
  else
    key ← assertValidVersion c version;
    let digest := hmac_sha256 key payload in
    cassert (Nat.eqb (String.length digest) 32);; Ret digest.

(** ** What initialisation establishes *)
Record crypto_inv (c : CryptoUtil) : Prop := {
  cy_versions v : v ∈ mDescendingSecKeyVersions c ↔ is_Some (mAllKeys c !! v);
  cy_latest_max v : v ∈ mDescendingSecKeyVersions c → v ≤ mLatestVersion c;
  cy_positive v : v ∈ mDescendingSecKeyVersions c → 0 < v;
  cy_latest_in : mLatestVersion c = 0 ∨ mLatestVersion c ∈ mDescendingSecKeyVersions c }.

Lemma add_key_inv c kv c' : crypto_inv c → add_key c kv = Ret c' → crypto_inv c' ∧ mEnabled c' = mEnabled c.
Proof.
  intros [I1 I2 I3 I4]. destruct kv as [v b]. unfold add_key. intros Ha.
  apply cassert_bind in Ha as [Hv Ha]. apply Z.ltb_lt in Hv. apply bind_Ret in Ha as (key & _ & [= <-]).
  unfold kInvalidSecKeyVersion in Hv. split; [|done].
  split; simpl; [intros w; rewrite elem_of_app, list_elem_of_singleton, lookup_insert_is_Some, I1|..].
  - destruct (decide (v = w)); naive_solver.
  - intros w [Hw| ->%list_elem_of_singleton]%elem_of_app; [specialize (I2 w Hw)|];
      destruct (Z.ltb_spec (mLatestVersion c) v); lia.
  - intros w [Hw| ->%list_elem_of_singleton]%elem_of_app; [by apply I3|done].
  - destruct (Z.ltb_spec (mLatestVersion c) v); [right; set_solver|].
    destruct I4; [lia|]. right. set_solver.
Qed.

Lemma add_keys_inv keys c c' :
  crypto_inv c → foldM add_key c keys = Ret c' → crypto_inv c' ∧ mEnabled c' = mEnabled c.
Proof.
  intros Hi Hf. apply (foldM_ind (λ c', crypto_inv c' ∧ mEnabled c' = mEnabled c) add_key keys c c'); [|done|done].
  intros x kv y [Hx Hex] _ Ha. destruct (add_key_inv _ _ _ Hx Ha) as [? ->]. done.
Qed.

Lemma crypto_inv_new : crypto_inv CryptoUtil_new.
Proof. split; simpl; [|set_solver|set_solver|by left]. intros v. rewrite lookup_empty. split; [set_solver|by intros [? ?]]. Qed.

Lemma init_reader_inv enable file keySet c :
  init_reader CryptoUtil_new enable file keySet = Ret c →
  c = CryptoUtil_new ∨
  mEnabled c = true ∧ crypto_inv c ∧ 0 < mLatestVersion c ∧ StronglySorted descending (mDescendingSecKeyVersions c).
Proof.
  unfold init_reader. simpl. intros Hr. split_if Hr; [injection Hr as <-; by left|].
  destruct keySet as [keys|]; [|done]. apply bind_Ret in Hr as (c1 & Hf & Hr).
  apply cassert_bind in Hr as [Hl Hr]. apply cassert_bind in Hr as [_ Hr]. apply cassert_bind in Hr as [_ [= <-]].
  destruct (add_keys_inv _ _ _ crypto_inv_new Hf) as [[I1 I2 I3 I4] He]. right. simpl.
  assert (Hp : ∀ v, v ∈ merge_sort descending (mDescendingSecKeyVersions c1) ↔ v ∈ mDescendingSecKeyVersions c1)
    by (intros v; by rewrite merge_sort_Permutation).
  split_and!; [done| |by apply Z.ltb_lt|apply StronglySorted_merge_sort; apply _].
  split; simpl; intros *; rewrite ?Hp; auto.
Qed.

(** The versions come out with the latest first. *)
Lemma latest_is_head c :
  crypto_inv c → 0 < mLatestVersion c → StronglySorted descending (mDescendingSecKeyVersions c) →
  head (mDescendingSecKeyVersions c) = Some (mLatestVersion c).
Proof.
  intros [_ I2 _ [?|I4]] Hp Hs; [lia|]. destruct (mDescendingSecKeyVersions c) as [|v vs]; [set_solver|].
  simpl. f_equal. apply StronglySorted_inv in Hs as [_ Hall]. rewrite Forall_forall in Hall.
  apply elem_of_cons in I4 as [->|Hin]; [done|]. specialize (Hall _ Hin). unfold descending in Hall.
  specialize (I2 v ltac:(left)). lia.
Qed.

Lemma decrypt_encrypt c c' plain cipher version :
  encrypt c plain version = Ret (cipher, 0) →
  mEnabled c' = mEnabled c → (∀ key, mAllKeys c !! version = Some key → mAllKeys c' !! version = Some key) →
  decrypt c' cipher version = Ret (plain, 0).
Proof.
  unfold encrypt, decrypt, assertValidVersion. intros He -> Hk. destruct (mEnabled c); simpl in *; [|congruence].
  destruct (mAllKeys c !! version) as [key|] eqn:E; [|done]. simpl in He.
  destruct (aes_encrypt key plain) eqn:Ea; [|congruence]. injection He as ->.
  rewrite (Hk key) by done. simpl. by rewrite (aes_decrypt_encrypt _ _ _ Ea).
Qed.
End crypto.

(** An instance: the key in front of the text. *)
Module XorSSL.
Definition toy_encrypt (key plain : string) : option string := Some (String.append plain key).
Definition toy_decrypt (key cipher : string) : option string :=
  let n := (String.length cipher - String.length key)%nat in Some (String.substring 0 n cipher).

Lemma substring_append a b : String.substring 0 (String.length a) (String.append a b) = a.
Proof. induction a as [|c a IH]; simpl; [by destruct b|by rewrite IH]. Qed.

Lemma length_append a b : String.length (String.append a b) = (String.length a + String.length b)%nat.
Proof. induction a as [|c a IH]; [done|]. simpl. f_equal. exact IH. Qed.

#[export] Instance toy : OpenSSL.
Proof.
  refine {| aes_encrypt := toy_encrypt; aes_decrypt := toy_decrypt;
            hmac_sha256 k p := k; base64_read s := s |}.
  intros key plain cipher [= <-]. unfold toy_decrypt. rewrite length_append.
  replace (_ + _ - _)%nat with (String.length plain) by lia. by rewrite substring_append.
Defined.
End XorSSL.
