(* ===== verification/Numeric.v ===== *)
(** * Numbers in decimal: [std::to_string], [std::stoull], [std::stoll], [std::stoi]

    The functions of the C++ standard library by which RocksDB keys are written
    and read back.  [std::to_string] is [pretty]; the two parsers skip white
    space, take an optional sign and the longest run of digits, and throw when
    there is none or the value is out of range. *)
From Stdlib Require Import Ascii String.
From stdpp Require Import pretty.
From S2P Require Import Prelude.
Open Scope Z_scope.

Definition digit_of (c : ascii) : option Z :=
  let n := Z.of_N (N_of_ascii c) in
  if (48 <=? n) && (n <=? 57) then Some (n - 48) else None.

Definition is_space (c : ascii) : bool :=
  let n := Z.of_N (N_of_ascii c) in (n =? 32) || ((9 <=? n) && (n <=? 13)).

Fixpoint digits (acc : Z) (s : string) : Z :=
  match s with
  | EmptyString => acc
  | String c rest => match digit_of c with Some d => digits (10 * acc + d) rest | None => acc end
  end.

Definition number (s : string) : option Z :=
  match s with
  | EmptyString => None
  | String c _ => match digit_of c with Some _ => Some (digits 0 s) | None => None end
  end.

Fixpoint skip_space (s : string) : string :=
  match s with
  | String c rest => if is_space c then skip_space rest else s
  | EmptyString => EmptyString
  end.

Definition strtol (s : string) : option Z :=
  match skip_space s with
  | EmptyString => None
  | String c rest =>
      if Ascii.eqb c "-" then Z.opp <$> number rest
      else if Ascii.eqb c "+" then number rest
      else number (String c rest)
  end.

(** A negative number is accepted and wraps. *)
Definition stoull (s : string) : result Z :=
  match strtol s with
  | None => Fail Thrown
  | Some n => if two64 <=? Z.abs n then Fail Thrown else Ret (u64 n)
  end.

Definition stoll (s : string) : result Z :=
  match strtol s with
  | None => Fail Thrown
  | Some n => if (n <? - 2 ^ 63) || (2 ^ 63 - 1 <? n) then Fail Thrown else Ret n
  end.

Definition stoi (s : string) : result Z :=
  match strtol s with
  | None => Fail Thrown
  | Some n => if (n <? - 2147483648) || (2147483647 <? n) then Fail Thrown else Ret n
  end.

(** ** Reading back what was written *)
Definition head_digit (s : string) : Prop :=
  match s with String c _ => is_Some (digit_of c) ∧ is_space c = false ∧ c ≠ "-"%char ∧ c ≠ "+"%char
             | EmptyString => False end.

Lemma pretty_N_char_digit x :
  (x < 10)%N → digit_of (pretty_N_char x) = Some (Z.of_N x) ∧ is_space (pretty_N_char x) = false ∧
  pretty_N_char x ≠ "-"%char ∧ pretty_N_char x ≠ "+"%char.
Proof.
  intros Hx. assert (Hin : x ∈ [0; 1; 2; 3; 4; 5; 6; 7; 8; 9]%N).
  { rewrite !elem_of_cons. lia. }
  set_unfold in Hin. repeat (destruct Hin as [->|Hin]; [by vm_compute|]). done.
Qed.

Lemma pretty_N_go_spec x s :
  digits 0 (pretty_N_go x s) = digits (Z.of_N x) s ∧
  (x ≠ 0%N ∨ head_digit s → head_digit (pretty_N_go x s)).
Proof.
  revert s. induction (N.lt_wf_0 x) as [x _ IH]; intros s.
  destruct (decide (x = 0)%N) as [->|Hx].
  { rewrite pretty_N_go_0. split; [done|]. by intros [?|?]. }
  rewrite pretty_N_go_step by lia.
  assert (Hlt : (x / 10 < x)%N) by (apply N.div_lt; lia).
  assert (Hm : (x `mod` 10 < 10)%N) by (apply N.mod_lt; lia).
  destruct (pretty_N_char_digit _ Hm) as (Hd & Hs & H1 & H2).
  destruct (IH _ Hlt (String (pretty_N_char (x `mod` 10)) s)) as [I1 I2]. split.
  - rewrite I1. simpl. rewrite Hd. f_equal. rewrite N2Z.inj_div, N2Z.inj_mod.
    pose proof (Z.div_mod (Z.of_N x) 10). lia.
  - intros _. apply I2. right. simpl. by rewrite Hd.
Qed.

Lemma strtol_head s : head_digit s → strtol s = Some (digits 0 s).
Proof.
  destruct s as [|c s]; [done|]. intros ([d Hd] & Hsp & H1 & H2). unfold strtol. simpl. rewrite Hsp.
  rewrite (proj2 (Ascii.eqb_neq _ _) H1), (proj2 (Ascii.eqb_neq _ _) H2). simpl. by rewrite Hd.
Qed.

Lemma strtol_pretty z : 0 ≤ z → strtol (pretty z) = Some z.
Proof.
  intros Hz. destruct z as [|p|p]; [by vm_compute| |lia].
  change (pretty (Z.pos p)) with (pretty (N.pos p)). unfold pretty, pretty_N.
  rewrite decide_False by done. destruct (pretty_N_go_spec (N.pos p) EmptyString) as [Hv Hh].
  rewrite strtol_head, Hv by (apply Hh; by left). done.
Qed.

Lemma stoull_pretty z : 0 ≤ z < two64 → stoull (pretty z) = Ret z.
Proof.
  intros Hz. unfold stoull. rewrite strtol_pretty by lia.
  rewrite (proj2 (Z.leb_gt _ _)) by lia. by rewrite u64_small.
Qed.

Lemma stoi_pretty z : 0 ≤ z ≤ 2147483647 → stoi (pretty z) = Ret z.
Proof.
  intros Hz. unfold stoi. rewrite strtol_pretty by lia.
  rewrite (proj2 (Z.ltb_ge _ _)), (proj2 (Z.ltb_ge _ _)) by lia. done.
Qed.

Lemma stoll_pretty n : 0 ≤ n < 2 ^ 63 → stoll (pretty n) = Ret n.
Proof. intros Hn. unfold stoll. rewrite strtol_pretty by lia. by rewrite (proj2 (Z.ltb_ge _ _)), (proj2 (Z.ltb_ge _ _)) by lia. Qed.

(** ** Only digits *)
Definition is_digit (c : ascii) : bool := bool_decide (is_Some (digit_of c)).

Definition all_digits (s : string) : Prop := Forall (λ c, is_digit c = true) (list_ascii_of_string s).

Lemma decimal_go_digits x s : all_digits s → all_digits (pretty_N_go x s).
Proof.
  revert s. induction (N.lt_wf_0 x) as [x _ IH]; intros s Hs. destruct (decide (x = 0)%N) as [->|Hx]; [by rewrite pretty_N_go_0|].
  rewrite pretty_N_go_step by lia. apply IH; [apply N.div_lt; lia|]. constructor; [|done].
  destruct (pretty_N_char_digit (x `mod` 10)) as (Hd & _); [apply N.mod_lt; lia|]. unfold is_digit. by rewrite Hd.
Qed.

Lemma decimal_digits n : 0 ≤ n → all_digits (pretty n) ∧ pretty n ≠ EmptyString.
Proof.
  intros Hn. destruct n as [|p|p]; [split; [repeat constructor|done]| |lia].
  change (pretty (Z.pos p)) with (pretty (N.pos p)). split.
  - unfold pretty, pretty_N. rewrite decide_False by done. apply decimal_go_digits. constructor.
  - intros He. assert (Hs : strtol (pretty (Z.pos p)) = Some (Z.pos p)) by (apply strtol_pretty; lia).
    change (pretty (Z.pos p)) with (pretty (N.pos p)) in Hs. by rewrite He in Hs.
Qed.
