(* ===== verification/RaftLog.v ===== *)
(** * The Raft log and its in-memory implementation

    src/src/infra/raft/storage/Log.h and InMemoryLog.h.  The abstract class
    [storage::Log] is the class [Log]; [LogSpec] states what it promises to the
    Raft core as a refinement of [LogView], a sequence of entries from a first
    index together with the persistent term and vote; [InMemoryLog] is the
    first implementation.

    Indices and terms are unbounded here: a log of 2^64 entries is out of
    reach. *)
From S2P Require Import Prelude Crypto.
Open Scope Z_scope.

(** ** raft.proto: LogEntry *)
Record SpecialTag := mk_SpecialTag { tag_identifier : Z; tag_payload : string }.

Record LogEntry := mk_LogEntry {
  le_term : Z;
  le_index : Z;
  le_noop : bool;
  le_checksum : Z;
  le_payload : string;
  le_secret_key_version : Z;
  le_specialTag : option SpecialTag }.

#[export] Instance SpecialTag_eq_dec : EqDecision SpecialTag.
Proof. solve_decision. Defined.
#[export] Instance LogEntry_eq_dec : EqDecision LogEntry.
Proof. solve_decision. Defined.


(** ** The interface [storage::Log] *)
Class Log (L : Type) := {
  getLatestSecKeyVersion : L → Z;
  appendEntry : L → LogEntry → bool * L;
  appendEntries : L → list LogEntry → bool * L;
  getEntry : L → Z → option LogEntry;
  getTerm : L → Z → option Z;
  (** [getEntries(index, size, entries)] *)
  getEntriesExact : L → Z → Z → option (list LogEntry);
  (** [getEntries(startIndex, maxLenInBytes, maxBatchSize, entries)] *)
  getEntries : L → Z → Z → Z → result (list LogEntry);
  truncatePrefix : L → Z → L;
  truncateSuffix : L → Z → L;
  getFirstLogIndex : L → Z;
  getLastLogIndex : L → Z;
  setCurrentTerm : L → Z → L;
  setVoteFor : L → Z → L;
  getCurrentTerm : L → Z;
  getVote : L → Z;
}.

(** ** What a log is *)
Record LogView := mk_LogView {
  lv_first : Z;
  lv_entries : list LogEntry;
  lv_term : Z;
  lv_vote : Z }.

Definition lv_last (v : LogView) : Z := lv_first v + Z.of_nat (length (lv_entries v)) - 1.

Definition lv_lookup (v : LogView) (i : Z) : option LogEntry :=
  if i <? lv_first v then None else lv_entries v !! Z.to_nat (i - lv_first v).

Definition lv_with_entries (v : LogView) (es : list LogEntry) : LogView :=
  mk_LogView (lv_first v) es (lv_term v) (lv_vote v).

(** Entries are numbered consecutively from a positive first index. *)
Definition view_wf (v : LogView) : Prop :=
  1 ≤ lv_first v ∧ ∀ k e, lv_entries v !! k = Some e → le_index e = lv_first v + Z.of_nat k.

(** A batch that continues index [i]. *)
Fixpoint contiguous (i : Z) (es : list LogEntry) : Prop :=
  match es with
  | [] => True
  | e :: es => le_index e = i ∧ contiguous (i + 1) es
  end.

Definition lv_truncatePrefix (v : LogView) (firstKept : Z) : LogView :=
  if firstKept <=? lv_first v then v
  else mk_LogView firstKept (drop (Z.to_nat (firstKept - lv_first v)) (lv_entries v))
         (lv_term v) (lv_vote v).

(** Dropping a suffix; when everything goes, the log is empty after
    [lastKept]. *)
Definition lv_truncateSuffix (v : LogView) (lastKept : Z) : LogView :=
  if lv_last v <=? lastKept then v
  else if lastKept <? lv_first v then mk_LogView (lastKept + 1) [] (lv_term v) (lv_vote v)
  else lv_with_entries v (take (Z.to_nat (lastKept - lv_first v + 1)) (lv_entries v)).

(** What an implementation promises: on states that satisfy its representation
    invariant, every operation acts on the view as stated. *)
Class LogSpec (L : Type) `{Log L} := {
  log_inv : L → Prop;
  log_view : L → LogView;
  log_view_wf l : log_inv l → view_wf (log_view l);
  spec_first l : log_inv l → getFirstLogIndex l = lv_first (log_view l);
  spec_last l : log_inv l → getLastLogIndex l = lv_last (log_view l);
  spec_term l : log_inv l → getCurrentTerm l = lv_term (log_view l);
  spec_vote l : log_inv l → getVote l = lv_vote (log_view l);
  spec_setCurrentTerm l t : log_inv l →
    log_inv (setCurrentTerm l t) ∧
    log_view (setCurrentTerm l t) =
      mk_LogView (lv_first (log_view l)) (lv_entries (log_view l)) t (lv_vote (log_view l));
  spec_setVoteFor l n : log_inv l →
    log_inv (setVoteFor l n) ∧
    log_view (setVoteFor l n) =
      mk_LogView (lv_first (log_view l)) (lv_entries (log_view l)) (lv_term (log_view l)) n;
  spec_getTerm_in l i : log_inv l → lv_first (log_view l) ≤ i ≤ lv_last (log_view l) →
    getTerm l i = le_term <$> lv_lookup (log_view l) i;
  spec_getTerm_0 l : log_inv l → lv_first (log_view l) = 1 → getTerm l 0 = Some 0;
  spec_getTerm_above l i : log_inv l → lv_last (log_view l) < i → 0 < i → getTerm l i = None;
  spec_getEntry_in l i : log_inv l → lv_first (log_view l) ≤ i ≤ lv_last (log_view l) →
    getEntry l i = lv_lookup (log_view l) i;
  spec_getEntry_above l i : log_inv l → lv_last (log_view l) < i → 0 < i → getEntry l i = None;
  spec_appendEntries l es : log_inv l → contiguous (lv_last (log_view l) + 1) es →
    ∃ l', appendEntries l es = (true, l') ∧ log_inv l' ∧
          log_view l' = lv_with_entries (log_view l) (lv_entries (log_view l) ++ es);
  spec_appendEntry l e : log_inv l → le_index e = lv_last (log_view l) + 1 →
    ∃ l', appendEntry l e = (true, l') ∧ log_inv l' ∧
          log_view l' = lv_with_entries (log_view l) (lv_entries (log_view l) ++ [e]);
  spec_getEntries l start maxLen maxBatch : log_inv l → lv_first (log_view l) ≤ start →
    start ≤ lv_last (log_view l) + 1 →
    ∃ es k, getEntries l start maxLen maxBatch = Ret es ∧
      es = take k (drop (Z.to_nat (start - lv_first (log_view l))) (lv_entries (log_view l))) ∧
      Z.of_nat k ≤ Z.max 0 maxBatch;
  spec_truncatePrefix l i : log_inv l →
    log_inv (truncatePrefix l i) ∧
    log_view (truncatePrefix l i) = lv_truncatePrefix (log_view l) i;
  spec_truncateSuffix l i : log_inv l → 0 ≤ i →
    log_inv (truncateSuffix l i) ∧
    log_view (truncateSuffix l i) = lv_truncateSuffix (log_view l) i;
}.

(** ** The convenience members of [Log.h] *)
Section LogBase.
Context `{Log L}.

Definition Log_append (l : L) (e : LogEntry) : result L :=
  let '(ok, l) := appendEntry l e in cassert ok;; Ret l.

Definition Log_appendAll (l : L) (es : list LogEntry) : result L :=
  let '(ok, l) := appendEntries l es in cassert ok;; Ret l.

Definition Log_getLogTerm (l : L) (index : Z) : result Z :=
  match getTerm l index with Some t => Ret t | None => Fail AssertFailure end.
End LogBase.

(** ** InMemoryLog *)
Record InMemoryLog := mk_InMemoryLog {
  mLog : list LogEntry;
  mFirstIndex : Z;
  mLastIndex : Z;
  mTerm : Z;
  mVoteFor : Z }.

Definition InMemoryLog_new : InMemoryLog := mk_InMemoryLog [] 1 0 0 0.

Definition InMemoryLog_appendEntry (l : InMemoryLog) (entry : LogEntry) : bool * InMemoryLog :=
  if negb (mLastIndex l + 1 =? le_index entry) then (false, l)
  else (true, mk_InMemoryLog (mLog l ++ [entry]) (mFirstIndex l) (mLastIndex l + 1)
                (mTerm l) (mVoteFor l)).

Fixpoint InMemoryLog_appendEntries (l : InMemoryLog) (entries : list LogEntry)
    : bool * InMemoryLog :=
  match entries with
  | [] => (true, l)
  | entry :: entries =>
      let '(ok, l) := InMemoryLog_appendEntry l entry in
      if negb ok then (false, l) else InMemoryLog_appendEntries l entries
  end.

(** [mLog[i]]; the guards of the callers keep [i] in range, see
    [InMemoryLog_inv]. *)
Definition mLog_at (l : InMemoryLog) (i : Z) : option LogEntry :=
  if i <? 0 then None else mLog l !! Z.to_nat i.

Definition InMemoryLog_getEntry (l : InMemoryLog) (index : Z) : option LogEntry :=
  if index =? 0 then Some (mk_LogEntry 0 0 false 0 EmptyString kInvalidSecKeyVersion None)
  else if (index <? mFirstIndex l) || (mLastIndex l <? index) then None
  else mLog_at l (index - mFirstIndex l).

Definition InMemoryLog_getTerm (l : InMemoryLog) (index : Z) : option Z :=
  if index =? 0 then Some 0
  else if (index <? mFirstIndex l) || (mLastIndex l <? index) then None
  else le_term <$> mLog_at l (index - mFirstIndex l).

Definition InMemoryLog_getEntriesExact (l : InMemoryLog) (index size : Z)
    : option (list LogEntry) :=
  if (index <? mFirstIndex l) || (mLastIndex l <? index + size - 1) then None
  else mapM (λ i, mLog_at l (index + i - mFirstIndex l)) (seqZ 0 size).

(** The [while (true)] loop, with the number of iterations left to
    [maxBatchSize] as fuel: the loop leaves at the latest when [batchSize]
    reaches it.  [ByteSizeLong], the encoded size of an entry, is a function of
    the generated code. *)
Fixpoint InMemoryLog_fetch (ByteSizeLong : LogEntry → Z) (l : InMemoryLog)
    (startIndex maxLenInBytes batchSize lenInBytes : Z) (fuel : nat)
    : result (list LogEntry) :=
  match fuel with
  | O => Ret []
  | S fuel =>
      let nextIndex := startIndex + batchSize in
      match mLog_at l (nextIndex - mFirstIndex l) with
      | None => Fail UndefinedBehaviour
      | Some nextEntry =>
          let nextLogSize := ByteSizeLong nextEntry in
          if maxLenInBytes <? lenInBytes + nextLogSize then Ret []
          else
            rest ← InMemoryLog_fetch ByteSizeLong l startIndex maxLenInBytes (batchSize + 1)
                     (lenInBytes + nextLogSize) fuel;
            Ret (nextEntry :: rest)
      end
  end.

Definition InMemoryLog_getEntries (ByteSizeLong : LogEntry → Z) (l : InMemoryLog)
    (startIndex maxLenInBytes maxBatchSize : Z) : result (list LogEntry) :=
  let lastIndex := mLastIndex l in
  if lastIndex <? startIndex then
    cassert (startIndex =? lastIndex + 1);; Ret []
  else
    let maxBatchSize := Z.min maxBatchSize (lastIndex - startIndex + 1) in
    InMemoryLog_fetch ByteSizeLong l startIndex maxLenInBytes 0 0 (Z.to_nat maxBatchSize).

Definition InMemoryLog_truncatePrefix (l : InMemoryLog) (firstIndexKept : Z) : InMemoryLog :=
  if firstIndexKept <=? mFirstIndex l then l
  else
    let prevFirstIndex := mFirstIndex l in
    if mLastIndex l <? firstIndexKept then
      mk_InMemoryLog [] firstIndexKept (firstIndexKept - 1) (mTerm l) (mVoteFor l)
    else
      mk_InMemoryLog (drop (Z.to_nat (firstIndexKept - prevFirstIndex)) (mLog l)) firstIndexKept
        (mLastIndex l) (mTerm l) (mVoteFor l).

Definition InMemoryLog_truncateSuffix (l : InMemoryLog) (lastIndexKept : Z) : InMemoryLog :=
  if mLastIndex l <=? lastIndexKept then l
  else if lastIndexKept <? mFirstIndex l then
    mk_InMemoryLog [] (lastIndexKept + 1) lastIndexKept (mTerm l) (mVoteFor l)
  else
    mk_InMemoryLog (take (Z.to_nat (lastIndexKept - mFirstIndex l + 1)) (mLog l)) (mFirstIndex l)
      lastIndexKept (mTerm l) (mVoteFor l).

Definition InMemoryLog_setCurrentTerm (l : InMemoryLog) (term : Z) : InMemoryLog :=
  mk_InMemoryLog (mLog l) (mFirstIndex l) (mLastIndex l) term (mVoteFor l).

Definition InMemoryLog_setVoteFor (l : InMemoryLog) (voteFor : Z) : InMemoryLog :=
  mk_InMemoryLog (mLog l) (mFirstIndex l) (mLastIndex l) (mTerm l) voteFor.

Definition InMemoryLog_Log (ByteSizeLong : LogEntry → Z) : Log InMemoryLog := {|
  getLatestSecKeyVersion _ := kInvalidSecKeyVersion;
  appendEntry := InMemoryLog_appendEntry;
  appendEntries := InMemoryLog_appendEntries;
  getEntry := InMemoryLog_getEntry;
  getTerm := InMemoryLog_getTerm;
  getEntriesExact := InMemoryLog_getEntriesExact;
  getEntries := InMemoryLog_getEntries ByteSizeLong;
  truncatePrefix := InMemoryLog_truncatePrefix;
  truncateSuffix := InMemoryLog_truncateSuffix;
  getFirstLogIndex := mFirstIndex;
  getLastLogIndex := mLastIndex;
  setCurrentTerm := InMemoryLog_setCurrentTerm;
  setVoteFor := InMemoryLog_setVoteFor;
  getCurrentTerm := mTerm;
  getVote := mVoteFor;
|}.

(** * InMemoryLog implements the interface *)

Definition InMemoryLog_view (l : InMemoryLog) : LogView :=
  mk_LogView (mFirstIndex l) (mLog l) (mTerm l) (mVoteFor l).

(** The counters agree with the vector. *)
Definition InMemoryLog_inv (l : InMemoryLog) : Prop :=
  mLastIndex l = lv_last (InMemoryLog_view l) ∧ view_wf (InMemoryLog_view l).

Lemma view_wf_app v e :
  view_wf v → le_index e = lv_last v + 1 → view_wf (lv_with_entries v (lv_entries v ++ [e])).
Proof.
  intros [H1 H2] He. split; [done|]. simpl. intros k e' [Hk|[Hk He']]%lookup_app_Some; [auto|].
  apply list_lookup_singleton_Some in He' as [Hk0 <-]. unfold lv_last in He. lia.
Qed.

Lemma view_wf_drop v k :
  view_wf v →
  view_wf (mk_LogView (lv_first v + Z.of_nat k) (drop k (lv_entries v)) (lv_term v) (lv_vote v)).
Proof.
  intros [H1 H2]. split; simpl; [lia|]. intros i e. rewrite lookup_drop. intros He%H2. lia.
Qed.

Lemma view_wf_take v k : view_wf v → view_wf (lv_with_entries v (take k (lv_entries v))).
Proof.
  intros [H1 H2]. split; simpl; [lia|]. intros i e Hi.
  apply H2. apply lookup_take_Some in Hi as [Hi _]. done.
Qed.

Lemma lv_last_app v es :
  lv_last (lv_with_entries v (lv_entries v ++ es)) = lv_last v + Z.of_nat (length es).
Proof. unfold lv_last; simpl. rewrite length_app. lia. Qed.

Lemma InMemoryLog_appendEntry_spec l e :
  InMemoryLog_inv l → le_index e = lv_last (InMemoryLog_view l) + 1 →
  ∃ l', InMemoryLog_appendEntry l e = (true, l') ∧ InMemoryLog_inv l' ∧
        InMemoryLog_view l' = lv_with_entries (InMemoryLog_view l) (mLog l ++ [e]).
Proof.
  intros [Hl Hwf] He. unfold InMemoryLog_appendEntry.
  rewrite (proj2 (Z.eqb_eq _ _)) by lia. simpl. eexists; split; [done|]. split; [|done].
  split; [|by apply (view_wf_app (InMemoryLog_view l) e)].
  simpl. rewrite Hl. symmetry. apply (lv_last_app (InMemoryLog_view l) [e]).
Qed.

Lemma InMemoryLog_appendEntries_spec l es :
  InMemoryLog_inv l → contiguous (lv_last (InMemoryLog_view l) + 1) es →
  ∃ l', InMemoryLog_appendEntries l es = (true, l') ∧ InMemoryLog_inv l' ∧
        InMemoryLog_view l' = lv_with_entries (InMemoryLog_view l) (mLog l ++ es).
Proof.
  revert l; induction es as [|e es IH]; intros l Hl Hc; simpl.
  - exists l. rewrite app_nil_r. split; [done|]. split; [done|]. by destruct l.
  - destruct Hc as [He Hc].
    destruct (InMemoryLog_appendEntry_spec l e Hl He) as (l1 & -> & Hl1 & Hv). simpl.
    destruct (IH l1 Hl1) as (l2 & -> & Hl2 & Hv2).
    { rewrite Hv. change (mLog l) with (lv_entries (InMemoryLog_view l)).
      rewrite lv_last_app. exact Hc. }
    exists l2. split; [done|]. split; [done|]. rewrite Hv2, Hv. unfold lv_with_entries; simpl.
    apply (f_equal lv_entries) in Hv. simpl in Hv. by rewrite Hv, <- app_assoc.
Qed.

Lemma mLog_at_view l i :
  mLog_at l (i - mFirstIndex l) = lv_lookup (InMemoryLog_view l) i.
Proof.
  unfold mLog_at, lv_lookup; simpl.
  destruct (Z.ltb_spec (i - mFirstIndex l) 0), (Z.ltb_spec i (mFirstIndex l)); try done; lia.
Qed.

Lemma InMemoryLog_getTerm_spec l i :
  InMemoryLog_inv l → mFirstIndex l ≤ i ≤ lv_last (InMemoryLog_view l) →
  InMemoryLog_getTerm l i = le_term <$> lv_lookup (InMemoryLog_view l) i.
Proof.
  intros [Hl [Hf _]] Hi. simpl in Hf. unfold InMemoryLog_getTerm.
  rewrite (proj2 (Z.eqb_neq _ _)) by lia. rewrite (proj2 (Z.ltb_ge _ _)) by lia.
  rewrite (proj2 (Z.ltb_ge _ _)) by lia. simpl. by rewrite mLog_at_view.
Qed.

Lemma InMemoryLog_getEntry_spec l i :
  InMemoryLog_inv l → mFirstIndex l ≤ i ≤ lv_last (InMemoryLog_view l) →
  InMemoryLog_getEntry l i = lv_lookup (InMemoryLog_view l) i.
Proof.
  intros [Hl [Hf _]] Hi. simpl in Hf. unfold InMemoryLog_getEntry.
  rewrite (proj2 (Z.eqb_neq _ _)) by lia. rewrite (proj2 (Z.ltb_ge _ _)) by lia.
  rewrite (proj2 (Z.ltb_ge _ _)) by lia. simpl. by rewrite mLog_at_view.
Qed.

(** What the fetch loop collects: a prefix of the entries from [startIndex]. *)
Lemma InMemoryLog_fetch_spec size l start maxLen k len fuel :
  InMemoryLog_inv l → mFirstIndex l ≤ start → 0 ≤ k →
  start + k + Z.of_nat fuel ≤ mLastIndex l + 1 →
  ∃ es n, InMemoryLog_fetch size l start maxLen k len fuel = Ret es ∧
    es = take n (drop (Z.to_nat (start + k - mFirstIndex l)) (mLog l)) ∧ (n ≤ fuel)%nat.
Proof.
  intros Hl Hs. revert k len; induction fuel as [|fuel IH]; intros k len Hk Hb; simpl.
  { exists [], 0%nat. rewrite take_0. split_and!; [done|done|lia]. }
  rewrite mLog_at_view. destruct Hl as [Hlast Hwf]. unfold lv_last in Hlast; simpl in Hlast.
  unfold lv_lookup; simpl. rewrite (proj2 (Z.ltb_ge _ _)) by lia.
  destruct (lookup_lt_is_Some_2 (mLog l) (Z.to_nat (start + k - mFirstIndex l))) as [e He]; [lia|].
  rewrite He. destruct (maxLen <? len + size e).
  { exists [], 0%nat. rewrite take_0. split_and!; [done|done|lia]. }
  destruct (IH (k + 1) (len + size e)) as (es & n & -> & -> & Hn); [lia|lia|].
  simpl. eexists _, (S n). split_and!; [done| |lia].
  rewrite (drop_S _ _ _ He). simpl. do 3 f_equal. lia.
Qed.

#[export] Instance InMemoryLog_LogSpec (ByteSizeLong : LogEntry → Z) :
  @LogSpec InMemoryLog (InMemoryLog_Log ByteSizeLong).
Proof.
  refine (@Build_LogSpec InMemoryLog (InMemoryLog_Log ByteSizeLong) InMemoryLog_inv
            InMemoryLog_view _ _ _ _ _ _ _ _ _ _ _ _ _ _ _ _ _); simpl.
  - by intros l [_ ?].
  - done.
  - by intros l [? _].
  - done.
  - done.
  - intros l t [Hl Hwf]. done.
  - intros l t [Hl Hwf]. done.
  - apply InMemoryLog_getTerm_spec.
  - done.
  - intros l i [Hl [Hf _]] Hi H0. unfold InMemoryLog_getTerm.
    rewrite (proj2 (Z.eqb_neq _ _)) by lia. rewrite (proj2 (Z.ltb_lt (mLastIndex l) i)) by lia.
    by rewrite orb_true_r.
  - intros l i Hl Hi. apply InMemoryLog_getEntry_spec; done.
  - intros l i [Hl [Hf _]] Hi Hpos. unfold InMemoryLog_getEntry.
    rewrite (proj2 (Z.eqb_neq _ _)) by lia. rewrite (proj2 (Z.ltb_lt (mLastIndex l) i)) by lia.
    by rewrite orb_true_r.
  - apply InMemoryLog_appendEntries_spec.
  - apply InMemoryLog_appendEntry_spec.
  - intros l start maxLen maxBatch Hl Hs He. pose proof (proj1 Hl) as Hlast.
    unfold InMemoryLog_getEntries. destruct (Z.ltb_spec (mLastIndex l) start).
    + rewrite (proj2 (Z.eqb_eq _ _)) by lia. exists [], 0%nat. rewrite take_0. split_and!; [done|done|lia].
    + edestruct InMemoryLog_fetch_spec as (es & n & Hf & -> & Hn); [exact Hl|exact Hs|reflexivity| |].
      2:{ rewrite Hf. eexists _, n. rewrite Z.add_0_r. split_and!; [done|done|lia]. }
      lia.
  - intros l i [Hl Hwf]. unfold InMemoryLog_truncatePrefix, lv_truncatePrefix; simpl.
    unfold lv_last in Hl; simpl in Hl. destruct (Z.leb_spec i (mFirstIndex l)); [done|].
    pose proof (view_wf_drop _ (Z.to_nat (i - mFirstIndex l)) Hwf) as Hd. simpl in Hd.
    replace (mFirstIndex l + Z.of_nat (Z.to_nat (i - mFirstIndex l))) with i in Hd by lia.
    destruct (Z.ltb_spec (mLastIndex l) i).
    + rewrite drop_ge in * by lia. split; [|done]. split; [unfold lv_last; simpl; lia|done].
    + split; [|done]. split; [unfold lv_last; simpl; rewrite length_drop; lia|done].
  - intros l i [Hl Hwf] H0. unfold InMemoryLog_truncateSuffix, lv_truncateSuffix; simpl.
    rewrite <- Hl. destruct (Z.leb_spec (mLastIndex l) i); [done|].
    unfold lv_last in Hl; simpl in Hl.
    destruct (Z.ltb_spec i (mFirstIndex l)).
    + split; [|done]. split; [unfold lv_last; simpl; lia|]. split; [simpl; lia|done].
    + split; [|done]. split; [|by apply (view_wf_take (InMemoryLog_view l))].
      unfold lv_last; simpl. rewrite length_take. lia.
Defined.

(** ** The persistent term and vote

    What the election depends on: the setters set, and no operation on entries
    touches term or vote, whatever its arguments. *)
Class LogMeta (L : Type) `{Log L} := {
  term_setCurrentTerm l t : getCurrentTerm (setCurrentTerm l t) = t;
  vote_setCurrentTerm l t : getVote (setCurrentTerm l t) = getVote l;
  term_setVoteFor l n : getCurrentTerm (setVoteFor l n) = getCurrentTerm l;
  vote_setVoteFor l n : getVote (setVoteFor l n) = n;
  term_appendEntry l e : getCurrentTerm (appendEntry l e).2 = getCurrentTerm l;
  vote_appendEntry l e : getVote (appendEntry l e).2 = getVote l;
  term_appendEntries l es : getCurrentTerm (appendEntries l es).2 = getCurrentTerm l;
  vote_appendEntries l es : getVote (appendEntries l es).2 = getVote l;
  term_truncateSuffix l i : getCurrentTerm (truncateSuffix l i) = getCurrentTerm l;
  vote_truncateSuffix l i : getVote (truncateSuffix l i) = getVote l;
  term_truncatePrefix l i : getCurrentTerm (truncatePrefix l i) = getCurrentTerm l;
  vote_truncatePrefix l i : getVote (truncatePrefix l i) = getVote l;
}.

Lemma InMemoryLog_appendEntries_meta l es :
  mTerm (InMemoryLog_appendEntries l es).2 = mTerm l ∧
  mVoteFor (InMemoryLog_appendEntries l es).2 = mVoteFor l.
Proof.
  revert l; induction es as [|e es IH]; intros l; simpl; [done|].
  unfold InMemoryLog_appendEntry. destruct (_ =? _); simpl; [|done].
  destruct (IH (mk_InMemoryLog (mLog l ++ [e]) (mFirstIndex l) (mLastIndex l + 1) (mTerm l) (mVoteFor l)))
    as [-> ->]. done.
Qed.

#[export] Instance InMemoryLog_LogMeta (ByteSizeLong : LogEntry → Z) :
  @LogMeta InMemoryLog (InMemoryLog_Log ByteSizeLong).
Proof.
  split; intros; simpl; try done; try apply InMemoryLog_appendEntries_meta;
    unfold InMemoryLog_appendEntry, InMemoryLog_truncateSuffix, InMemoryLog_truncatePrefix;
    repeat case_match; done.
Qed.

Create Rewrite HintDb raft_log.
#[export] Hint Rewrite @term_setCurrentTerm @vote_setCurrentTerm @term_setVoteFor @vote_setVoteFor
  @term_appendEntry @vote_appendEntry @term_appendEntries @vote_appendEntries
  @term_truncateSuffix @vote_truncateSuffix @term_truncatePrefix @vote_truncatePrefix
  using typeclasses eauto : raft_log.
