(* ===== verification/Disk.v ===== *)
(** * The log directory

    The files of a Raft log directory and what the storage code does to them:
    the names of Segment.cpp and SegmentLog.cpp, the regular expressions of
    [SegmentLog::listSegments], the calls of src/src/infra/util/FileUtil.cpp, and
    what a crash leaves behind.

    The name of a file is kept as a value and turned into its string only where
    the code reads names back from the directory. *)
From Stdlib Require Import Ascii String.
From stdpp Require Import pretty.
From S2P Require Import Prelude Numeric.
Open Scope Z_scope.

(** ** Names *)
Inductive SegmentName :=
  | InProgress (firstIndex : Z)
  | ClosedName (firstIndex lastIndex : Z).

Inductive Part := PData | PMeta.

(** The three files of [MetaStorage]. *)
Inductive Field := current_term | vote_for | first_index.

Inductive FileName :=
  | SegmentFile (n : SegmentName) (p : Part)
  | DroppedFile (n : SegmentName) (p : Part) (tsInNano : Z)
  | FieldFile (f : Field)
  | TmpFile (f : Field).

#[export] Instance SegmentName_eq_dec : EqDecision SegmentName.
Proof. solve_decision. Defined.
#[export] Instance Part_eq_dec : EqDecision Part.
Proof. solve_decision. Defined.
#[export] Instance Field_eq_dec : EqDecision Field.
Proof. solve_decision. Defined.
#[export] Instance FileName_eq_dec : EqDecision FileName.
Proof. solve_decision. Defined.

#[export] Instance SegmentName_countable : Countable SegmentName.
Proof.
  refine (inj_countable' (λ n, match n with InProgress f => inl f | ClosedName f l => inr (f, l) end)
    (λ x, match x with inl f => InProgress f | inr (f, l) => ClosedName f l end) _).
  by intros [].
Defined.
#[export] Instance Part_countable : Countable Part.
Proof.
  refine (inj_countable' (λ p, match p with PData => true | PMeta => false end)
    (λ b : bool, if b then PData else PMeta) _).
  by intros [].
Defined.
#[export] Instance Field_countable : Countable Field.
Proof.
  refine (inj_countable'
    (λ f, match f with current_term => None | vote_for => Some true | first_index => Some false end)
    (λ x, match x with None => current_term | Some true => vote_for | Some false => first_index end) _).
  by intros [].
Defined.
#[export] Instance FileName_countable : Countable FileName.
Proof.
  refine (inj_countable'
    (λ n, match n with
          | SegmentFile n p => inl (n, p, None)
          | DroppedFile n p ts => inl (n, p, Some ts)
          | FieldFile f => inr (f, true)
          | TmpFile f => inr (f, false)
          end)
    (λ x, match x with
          | inl (n, p, None) => SegmentFile n p
          | inl (n, p, Some ts) => DroppedFile n p ts
          | inr (f, true) => FieldFile f
          | inr (f, false) => TmpFile f
          end) _).
  by intros [].
Defined.

Definition dataFileNameForActiveSegment (firstIndex : Z) : string :=
  ("segment_in_progress_" +:+ pretty firstIndex +:+ ".data").
Definition metaFileNameForActiveSegment (firstIndex : Z) : string :=
  ("segment_in_progress_" +:+ pretty firstIndex +:+ ".meta").
Definition dataFileNameForClosedSegment (firstIndex lastIndex : Z) : string :=
  ("segment_" +:+ pretty firstIndex +:+ "_" +:+ pretty lastIndex +:+ ".data").
Definition metaFileNameForClosedSegment (firstIndex lastIndex : Z) : string :=
  ("segment_" +:+ pretty firstIndex +:+ "_" +:+ pretty lastIndex +:+ ".meta").

Definition print_segment (n : SegmentName) (p : Part) : string :=
  match n, p with
  | InProgress f, PData => dataFileNameForActiveSegment f
  | InProgress f, PMeta => metaFileNameForActiveSegment f
  | ClosedName f l, PData => dataFileNameForClosedSegment f l
  | ClosedName f l, PMeta => metaFileNameForClosedSegment f l
  end.

(** [MetaStorage::MetaStorage] *)
Definition print_field (f : Field) : string :=
  match f with
  | current_term => "current_term"
  | vote_for => "vote_for"
  | first_index => "first_index"
  end.

Definition print (n : FileName) : string :=
  match n with
  | SegmentFile n p => print_segment n p
  | DroppedFile n p ts => print_segment n p +:+ ".dropped." +:+ pretty ts
  | FieldFile f => print_field f
  | TmpFile f => print_field f +:+ ".tmp"
  end.

(** ** Regular expressions

    As much of [std::regex] as the two patterns use.  [TDigits] is the group
    [([0-9]+)]: greedy, giving digits back when the rest does not match. *)
Inductive token :=
  | TLit (c : ascii)
  | TAny
  | TDigits
  | TEnd.

Definition is_digit (c : ascii) : bool := match digit_of c with Some _ => true | None => false end.

(** The dot does not match a line terminator. *)
Definition dot_matches (c : ascii) : bool :=
  negb (Ascii.eqb c "010"%char) && negb (Ascii.eqb c "013"%char).

(** A match at the start of the string, with the text of the groups. *)
Fixpoint match_here (ts : list token) (s : string) : option (list string) :=
  match ts with
  | [] => Some []
  | TLit c :: ts =>
      match s with
      | String c' s' => if Ascii.eqb c c' then match_here ts s' else None
      | EmptyString => None
      end
  | TAny :: ts =>
      match s with
      | String c s' => if dot_matches c then match_here ts s' else None
      | EmptyString => None
      end
  | TEnd :: ts => match s with EmptyString => match_here ts s | String _ _ => None end
  | TDigits :: ts =>
      (fix grab (s : string) : option (list string) :=
         match s with
         | EmptyString => None
         | String c s' =>
             if is_digit c then
               match grab s' with
               | Some (d :: caps) => Some (String c d :: caps)
               | Some [] => None
               | None => cons (String c EmptyString) <$> match_here ts s'
               end
             else None
         end) s
  end.

(** The leftmost match. *)
Fixpoint regex_search (ts : list token) (s : string) : option (list string) :=
  match match_here ts s with
  | Some caps => Some caps
  | None => match s with EmptyString => None | String _ s' => regex_search ts s' end
  end.

Definition lits (s : string) : list token := TLit <$> list_ascii_of_string s.

Definition closedSegmentRegex : list token :=
  lits "segment_" ++ [TDigits] ++ lits "_" ++ [TDigits; TAny] ++ lits "meta" ++ [TEnd].
Definition activeSegmentRegex : list token :=
  lits "segment_in_progress_" ++ [TDigits; TAny] ++ lits "meta" ++ [TEnd].

(** ** Contents *)
Record LogMeta := mk_LogMeta {
  meta_offset : Z;
  meta_length : Z;
  meta_term : Z;
  meta_index : Z;
  meta_digest : string }.

#[export] Instance LogMeta_eq_dec : EqDecision LogMeta.
Proof. solve_decision. Defined.

Definition sizeof_LogMeta : Z := 64.

Fixpoint zeros (n : nat) : string :=
  match n with O => EmptyString | S n => String "000"%char (zeros n) end.

Definition kDigestLen : nat := 32.
Definition zero_digest : string := zeros kDigestLen.
Definition zero_meta : LogMeta := mk_LogMeta 0 0 0 0 zero_digest.

(** Bytes and records that were never written are zero.  Records are 64 bytes
    at multiples of 64, so that none straddles a page or a sector. *)
Inductive Content :=
  | DataContent (size : Z) (bytes : gmap Z ascii)
  | MetaContent (size : Z) (metas : gmap Z LogMeta)
  | TextContent (text : string).

Notation FS := (gmap FileName Content).

Definition byte_at (bytes : gmap Z ascii) (off : Z) : ascii := default "000"%char (bytes !! off).
Definition record_at (metas : gmap Z LogMeta) (pos : Z) : LogMeta := default zero_meta (metas !! pos).

Fixpoint write_bytes (bytes : gmap Z ascii) (off : Z) (s : string) : gmap Z ascii :=
  match s with
  | EmptyString => bytes
  | String c s => write_bytes (<[off := c]> bytes) (off + 1) s
  end.

Fixpoint read_bytes (bytes : gmap Z ascii) (off : Z) (len : nat) : string :=
  match len with
  | O => EmptyString
  | S len => String (byte_at bytes off) (read_bytes bytes (off + 1) len)
  end.

Fixpoint write_records (metas : gmap Z LogMeta) (pos : Z) (ms : list LogMeta) : gmap Z LogMeta :=
  match ms with
  | [] => metas
  | m :: ms => write_records (<[pos := m]> metas) (pos + 1) ms
  end.

Definition empty_content (n : FileName) : Content :=
  match n with
  | SegmentFile _ PData | DroppedFile _ PData _ => DataContent 0 ∅
  | SegmentFile _ PMeta | DroppedFile _ PMeta _ => MetaContent 0 ∅
  | FieldFile _ | TmpFile _ => TextContent EmptyString
  end.

(** ** Operations on the disk

    What the process asks the system for, in order.  [WriteText] is creating a
    file, writing it and [fdatasync]; a mapped region is written by [WriteData]
    and [WriteRecords] and made durable by [Sync], whose range is in bytes for
    a data file and in records for a meta file. *)
Inductive DiskOp :=
  | OpenTrunc (n : FileName)
  | SetSize (n : FileName) (size : Z)
  | WriteData (n : FileName) (off : Z) (s : string)
  | WriteRecords (n : FileName) (pos : Z) (ms : list LogMeta)
  | Sync (n : FileName) (lo hi : Z)
  | WriteText (n : FileName) (s : string)
  | Rename (from to : FileName).

Definition resize (size : Z) (c : Content) : Content :=
  match c with
  | DataContent _ b => DataContent size b
  | MetaContent _ m => MetaContent size m
  | TextContent t => TextContent t
  end.

Definition content_write_data (off : Z) (s : string) (c : Content) : Content :=
  match c with DataContent size b => DataContent size (write_bytes b off s) | _ => c end.

Definition content_write_records (pos : Z) (ms : list LogMeta) (c : Content) : Content :=
  match c with MetaContent size m => MetaContent size (write_records m pos ms) | _ => c end.

Definition exec_op (fs : FS) (op : DiskOp) : FS :=
  match op with
  | OpenTrunc n => <[n := empty_content n]> fs
  | SetSize n size => alter (resize size) n fs
  | WriteData n off s => alter (content_write_data off s) n fs
  | WriteRecords n pos ms => alter (content_write_records pos ms) n fs
  | Sync _ _ _ => fs
  | WriteText n s => <[n := TextContent s]> fs
  | Rename from to =>
      match fs !! from with
      | Some c => <[to := c]> (delete from fs)
      | None => fs
      end
  end.

Definition replay (fs : FS) (ops : list DiskOp) : FS := foldl exec_op fs ops.

(** The file system as the process sees it, and what it has asked for since the
    process started. *)
Record Disk := mk_Disk { disk_fs : FS; disk_trace : list DiskOp }.

Definition emit (op : DiskOp) (d : Disk) : Disk :=
  mk_Disk (exec_op (disk_fs d) op) (disk_trace d ++ [op]).

Definition boot (fs : FS) : Disk := mk_Disk fs [].

(** ** FileUtil and the system calls *)
Definition kPageSize : Z := 4096.

Definition fileExists (fs : FS) (n : FileName) : bool :=
  match fs !! n with Some _ => true | None => false end.

Definition getFileContent (fs : FS) (n : FileName) : result string :=
  match fs !! n with Some (TextContent s) => Ret s | _ => Fail Thrown end.

(** [rename] fails when there is no such file; the callers assert. *)
Definition rename (d : Disk) (from to : FileName) : result Disk :=
  cassert (fileExists (disk_fs d) from);; Ret (emit (Rename from to) d).

Definition setFileContentWithSync (d : Disk) (f : Field) (content : string) : result Disk :=
  rename (emit (WriteText (TmpFile f) content) d) (TmpFile f) (FieldFile f).

Definition getFileSize (fs : FS) (n : FileName) : result Z :=
  match fs !! n with
  | Some (DataContent size _) | Some (MetaContent size _) => Ret size
  | Some (TextContent s) => Ret (Z.of_nat (String.length s))
  | None => Fail AssertFailure
  end.

(** [open(O_CREAT | O_TRUNC)]; the size; [mmap], which refuses a length of zero. *)
Definition mmap_length (size : Z) : result unit := cassert (0 <? size).

Definition setFileSize (d : Disk) (n : FileName) (fileSize : Z) : result Disk :=
  cassert (fileSize `mod` kPageSize =? 0);; Ret (emit (SetSize n fileSize) d).

Definition create_mapped (d : Disk) (n : FileName) (size : Z) : result Disk :=
  d ← setFileSize (emit (OpenTrunc n) d) n size;
  mmap_length size;; Ret d.

(** Access to a mapped file; outside the mapping it is undefined. *)
Definition mapped_write (d : Disk) (n : FileName) (off : Z) (s : string) : result Disk :=
  match disk_fs d !! n with
  | Some (DataContent size _) =>
      if (0 <=? off) && (off + Z.of_nat (String.length s) <=? size)
      then Ret (emit (WriteData n off s) d) else Fail UndefinedBehaviour
  | _ => Fail UndefinedBehaviour
  end.

Definition mapped_read (fs : FS) (n : FileName) (off len : Z) : result string :=
  match fs !! n with
  | Some (DataContent size b) =>
      if (0 <=? off) && (0 <=? len) && (off + len <=? size)
      then Ret (read_bytes b off (Z.to_nat len)) else Fail UndefinedBehaviour
  | _ => Fail UndefinedBehaviour
  end.

Definition mapped_write_records (d : Disk) (n : FileName) (pos : Z) (ms : list LogMeta)
    : result Disk :=
  match disk_fs d !! n with
  | Some (MetaContent size _) =>
      if (0 <=? pos) && ((pos + Z.of_nat (length ms)) * sizeof_LogMeta <=? size)
      then Ret (emit (WriteRecords n pos ms) d) else Fail UndefinedBehaviour
  | _ => Fail UndefinedBehaviour
  end.

Definition mapped_record (fs : FS) (n : FileName) (pos : Z) : result LogMeta :=
  match fs !! n with
  | Some (MetaContent size m) =>
      if (0 <=? pos) && ((pos + 1) * sizeof_LogMeta <=? size)
      then Ret (record_at m pos) else Fail UndefinedBehaviour
  | _ => Fail UndefinedBehaviour
  end.

(** [msync] of the pages that hold the range; the model records the range. *)
Definition syncAt (d : Disk) (n : FileName) (lo hi : Z) : Disk := emit (Sync n lo hi) d.

(** ** Crashes

    When the process is killed, the system goes on: what was asked for is there,
    and some of the operation in progress.  When the machine fails, less is: of a
    mapped write that no later [msync] covers, any bytes or records may have
    reached the disk, and of the names only those the directory had.  Nothing in
    the program syncs the directory, so a rename may be lost, whatever was done
    after it, and a file that was created may be missing; what is in it when it is
    there is left open, as it is in an older file of that name. *)
Definition covers (write sync : DiskOp) : bool :=
  match write, sync with
  | WriteData n off s, Sync n' lo hi =>
      bool_decide (n = n') && (lo <=? off) && (off + Z.of_nat (String.length s) <=? hi)
  | WriteRecords n pos ms, Sync n' lo hi =>
      bool_decide (n = n') && (lo <=? pos) && (pos + Z.of_nat (length ms) <=? hi)
  | _, _ => false
  end.

(** [op] is a piece of [write]. *)
Definition fragment (write op : DiskOp) : Prop :=
  match write, op with
  | WriteData n off s, WriteData n' off' s' =>
      n' = n ∧ ∃ i c, String.get i s = Some c ∧ off' = off + Z.of_nat i ∧ s' = String c EmptyString
  | WriteRecords n pos ms, WriteRecords n' pos' ms' =>
      n' = n ∧ ∃ i m, ms !! i = Some m ∧ pos' = pos + Z.of_nat i ∧ ms' = [m]
  | _, _ => False
  end.

Definition is_mapped_write (op : DiskOp) : bool :=
  match op with WriteData _ _ _ | WriteRecords _ _ _ => true | _ => false end.

Inductive survive : list DiskOp → list DiskOp → Prop :=
  | survive_nil : survive [] []
  | survive_keep op ops ops' : survive ops ops' → survive (op :: ops) (op :: ops')
  | survive_torn op ops frags ops' :
      is_mapped_write op = true → existsb (covers op) ops = false →
      Forall (fragment op) frags → survive ops ops' → survive (op :: ops) (frags ++ ops')
  | survive_name from to ops ops' : survive ops ops' → survive (Rename from to :: ops) ops'.

(** The files an operation creates, or empties. *)
Definition opened (ops : list DiskOp) : list FileName :=
  omap (λ op, match op with OpenTrunc n | WriteText n _ => Some n | _ => None end) ops.

(** But for the files [ns]. *)
Definition same_but (ns : list FileName) (fs img : FS) : Prop := ∀ n, n ∉ ns → img !! n = fs !! n.

(** What the file system may hold after the machine has failed during the operations
    [ops], everything before them being on the disk ... *)
Definition crash_image (fs : FS) (ops : list DiskOp) (img : FS) : Prop :=
  ∃ k surv, survive (take k ops) surv ∧ same_but (opened (take (S k) ops)) (replay fs surv) img.

(** ... and after the process has been killed. *)
Definition process_image (fs : FS) (ops : list DiskOp) (img : FS) : Prop :=
  ∃ k frags, match ops !! k with Some op => Forall (fragment op) frags | None => frags = [] end ∧
    same_but (opened (option_list (ops !! k))) (replay fs (take k ops ++ frags)) img.

Lemma same_but_nil fs img : same_but [] fs img → img = fs.
Proof. intros Hs. apply map_eq. intros n. apply Hs. by apply not_elem_of_nil. Qed.
