(* ===== verification/DiskProps.v ===== *)
(** * Lemmas on the log directory

    Reading back bytes and records, renaming, replaying operations, and what the
    two regular expressions make of the path of a file. *)
From Stdlib Require Import Ascii String.
From stdpp Require Import pretty.
From S2P Require Import Prelude Numeric Disk.
Open Scope Z_scope.

(** ** Bytes *)
Lemma byte_at_insert b off c i :
  byte_at (<[off := c]> b) i = if decide (i = off) then c else byte_at b i.
Proof. unfold byte_at. case_decide as Hd; [subst; by rewrite lookup_insert_eq|by rewrite lookup_insert_ne]. Qed.

Lemma write_bytes_outside s b off i :
  i < off ∨ off + Z.of_nat (String.length s) ≤ i → byte_at (write_bytes b off s) i = byte_at b i.
Proof.
  revert b off. induction s as [|c s IH]; intros b off Hi; simpl in *; [done|].
  rewrite IH by lia. rewrite byte_at_insert. rewrite decide_False by lia. done.
Qed.

Lemma read_bytes_ext b b' off len :
  (∀ i, off ≤ i < off + Z.of_nat len → byte_at b i = byte_at b' i) →
  read_bytes b off len = read_bytes b' off len.
Proof.
  revert off. induction len as [|len IH]; intros off Hi; simpl; [done|].
  rewrite Hi by lia. f_equal. apply IH. intros i ?. apply Hi. lia.
Qed.

Lemma read_write_bytes s b off : read_bytes (write_bytes b off s) off (String.length s) = s.
Proof.
  revert b off. induction s as [|c s IH]; intros b off; simpl; [done|]. f_equal.
  - rewrite write_bytes_outside by lia. rewrite byte_at_insert. by rewrite decide_True.
  - apply IH.
Qed.

(** ** Records *)
Lemma record_at_insert m pos r i :
  record_at (<[pos := r]> m) i = if decide (i = pos) then r else record_at m i.
Proof. unfold record_at. case_decide as Hd; [subst; by rewrite lookup_insert_eq|by rewrite lookup_insert_ne]. Qed.

Lemma write_records_outside ms m pos i :
  i < pos ∨ pos + Z.of_nat (length ms) ≤ i → record_at (write_records m pos ms) i = record_at m i.
Proof.
  revert m pos. induction ms as [|r ms IH]; intros m pos Hi; simpl in *; [done|].
  rewrite IH by lia. rewrite record_at_insert. rewrite decide_False by lia. done.
Qed.

Lemma write_records_inside ms m pos k r :
  ms !! k = Some r → record_at (write_records m pos ms) (pos + Z.of_nat k) = r.
Proof.
  revert m pos k. induction ms as [|r' ms IH]; intros m pos k Hk; simpl in *; [done|].
  destruct k as [|k]; simpl in Hk.
  - injection Hk as ->. rewrite write_records_outside by lia. rewrite record_at_insert.
    by rewrite decide_True by lia.
  - replace (pos + Z.of_nat (S k)) with (pos + 1 + Z.of_nat k) by lia. by apply IH.
Qed.

(** ** Operations *)
Definition issue (ops : list DiskOp) (d : Disk) : Disk :=
  mk_Disk (replay (disk_fs d) ops) (disk_trace d ++ ops).

Lemma emit_issue op d : emit op d = issue [op] d.
Proof. done. Qed.

Lemma issue_app ops1 ops2 d : issue ops2 (issue ops1 d) = issue (ops1 ++ ops2) d.
Proof. unfold issue, replay; simpl. by rewrite foldl_app, app_assoc. Qed.

Lemma issue_nil d : issue [] d = d.
Proof. destruct d as [fs t]. unfold issue; simpl. by rewrite app_nil_r. Qed.

Lemma disk_fs_issue ops d : disk_fs (issue ops d) = replay (disk_fs d) ops.
Proof. done. Qed.

Lemma replay_app fs ops1 ops2 : replay fs (ops1 ++ ops2) = replay (replay fs ops1) ops2.
Proof. apply foldl_app. Qed.

(** Which file an operation touches, renames apart. *)
Definition op_target (op : DiskOp) : option FileName :=
  match op with
  | OpenTrunc n | SetSize n _ | WriteData n _ _ | WriteRecords n _ _ | Sync n _ _ | WriteText n _ => Some n
  | Rename _ _ => None
  end.

Lemma exec_op_other fs op n n' : op_target op = Some n → n ≠ n' → exec_op fs op !! n' = fs !! n'.
Proof.
  destruct op; simpl; intros [= ->] Hn; try done;
    rewrite ?lookup_insert_ne, ?lookup_alter_ne by done; done.
Qed.

Lemma replay_other fs ops n n' :
  Forall (λ op, op_target op = Some n) ops → n ≠ n' → replay fs ops !! n' = fs !! n'.
Proof.
  intros Hall Hn. revert fs. induction Hall as [|op ops Hop _ IH]; intros fs; [done|].
  simpl. unfold replay in IH. rewrite IH. by apply (exec_op_other fs op n n').
Qed.

(** ** Renames *)
Lemma rename_spec d from to c :
  disk_fs d !! from = Some c → rename d from to = Ret (issue [Rename from to] d).
Proof. intros Hc. unfold rename, fileExists. by rewrite Hc. Qed.

Lemma lookup_rename fs from to c n :
  fs !! from = Some c →
  exec_op fs (Rename from to) !! n =
    if decide (n = to) then Some c else if decide (n = from) then None else fs !! n.
Proof.
  intros Hc. simpl. rewrite Hc. case_decide as H1; [subst; by rewrite lookup_insert_eq|].
  rewrite lookup_insert_ne by done. case_decide as H2; [subst; by rewrite lookup_delete_eq|].
  by rewrite lookup_delete_ne.
Qed.

Lemma setFileContentWithSync_spec d f s :
  setFileContentWithSync d f s =
    Ret (issue [WriteText (TmpFile f) s; Rename (TmpFile f) (FieldFile f)] d).
Proof.
  unfold setFileContentWithSync. erewrite rename_spec by apply lookup_insert_eq.
  by rewrite emit_issue, issue_app.
Qed.

Lemma lookup_field_written fs f s n :
  replay fs [WriteText (TmpFile f) s; Rename (TmpFile f) (FieldFile f)] !! n =
    if decide (n = FieldFile f) then Some (TextContent s)
    else if decide (n = TmpFile f) then None else fs !! n.
Proof.
  change (exec_op (exec_op fs (WriteText (TmpFile f) s)) (Rename (TmpFile f) (FieldFile f)) !! n = 
    if decide (n = FieldFile f) then Some (TextContent s)
    else if decide (n = TmpFile f) then None else fs !! n).
  erewrite (lookup_rename _ _ _ (TextContent s)) by apply lookup_insert_eq.
  repeat case_decide; try done. simpl. by rewrite lookup_insert_ne.
Qed.

(** ** The regular expressions

    [matches ts caps s]: [s] as a whole is a text of the pattern. *)
Inductive matches : list token → list string → string → Prop :=
  | matches_nil s : matches [] [] s
  | matches_lit c ts caps s : matches ts caps s → matches (TLit c :: ts) caps (String c s)
  | matches_any c ts caps s : dot_matches c = true → matches ts caps s → matches (TAny :: ts) caps (String c s)
  | matches_end ts caps : matches ts caps EmptyString → matches (TEnd :: ts) caps EmptyString
  | matches_digits c d ts caps s :
      is_digit c = true → matches (TDigits :: ts) (d :: caps) s →
      matches (TDigits :: ts) (String c d :: caps) (String c s)
  | matches_digit c ts caps s :
      is_digit c = true → matches ts caps s →
      matches (TDigits :: ts) (String c EmptyString :: caps) (String c s).

Lemma match_here_digits ts c s :
  match_here (TDigits :: ts) (String c s) =
    if is_digit c then
      match match_here (TDigits :: ts) s with
      | Some (d :: caps) => Some (String c d :: caps)
      | Some [] => None
      | None => cons (String c EmptyString) <$> match_here ts s
      end
    else None.
Proof. done. Qed.

Lemma match_here_sound ts s caps : match_here ts s = Some caps → matches ts caps s.
Proof.
  revert s caps. induction ts as [|t ts IH]; intros s caps.
  { intros [= <-]. constructor. }
  destruct t as [c| | |].
  - simpl. destruct s as [|c' s]; [done|]. destruct (Ascii.eqb_spec c c') as [->|]; [|done].
    intros Hm. constructor. by apply IH.
  - simpl. destruct s as [|c' s]; [done|]. destruct (dot_matches c') eqn:E; [|done].
    intros Hm. constructor; [done|]. by apply IH.
  - revert caps. induction s as [|c s IHs]; intros caps; [done|].
    rewrite match_here_digits. destruct (is_digit c) eqn:E; [|done].
    destruct (match_here (TDigits :: ts) s) as [[|d caps']|] eqn:Eg.
    + done.
    + intros [= <-]. constructor; [done|]. by apply IHs.
    + destruct (match_here ts s) as [caps'|] eqn:Em; [|done]. intros [= <-]. apply matches_digit; [done|]. by apply IH.
  - simpl. destruct s as [|c s]; [|done]. intros Hm. constructor. by apply IH.
Qed.

Lemma match_here_complete ts s caps : matches ts caps s → is_Some (match_here ts s).
Proof.
  induction 1 as [s|c ts caps s _ [x Hx]|c ts caps s Hd _ [x Hx]|ts caps _ [x Hx]|c d ts caps s Hd Hm [x Hx]
                 |c ts caps s Hd _ [x Hx]].
  - by eexists.
  - simpl. rewrite Ascii.eqb_refl, Hx. by eexists.
  - simpl. rewrite Hd, Hx. by eexists.
  - simpl. simpl in Hx. rewrite Hx. by eexists.
  - assert (Hne : x ≠ []).
    { intros ->. apply match_here_sound in Hx. inversion Hx. }
    rewrite match_here_digits, Hd, Hx. destruct x; [done|]. by eexists.
  - rewrite match_here_digits, Hd.
    destruct (match_here (TDigits :: ts) s) as [[|y ys]|] eqn:Eg; [|by eexists|rewrite Hx; by eexists].
    apply match_here_sound in Eg. inversion Eg.
Qed.

(** A search finds a match exactly where some suffix is one. *)
Lemma regex_search_sound ts s caps :
  regex_search ts s = Some caps → ∃ pre suf, s = pre +:+ suf ∧ matches ts caps suf.
Proof.
  induction s as [|c s IH]; simpl.
  - destruct (match_here ts EmptyString) as [x|] eqn:E; [|done]. intros [= <-].
    exists EmptyString, EmptyString. split; [done|]. by apply match_here_sound.
  - destruct (match_here ts (String c s)) as [x|] eqn:E.
    + intros [= <-]. exists EmptyString, (String c s). split; [done|]. by apply match_here_sound.
    + intros Hs. destruct (IH Hs) as (pre & suf & -> & Hm). exists (String c pre), suf. done.
Qed.

Lemma regex_search_complete ts pre suf caps :
  matches ts caps suf → is_Some (regex_search ts (pre +:+ suf)).
Proof.
  intros Hm. induction pre as [|c pre IH]; simpl.
  - destruct (match_here_complete _ _ _ Hm) as [x Hx].
    change (EmptyString +:+ suf) with suf. destruct suf; simpl; rewrite Hx; by eexists.
  - change (String c pre +:+ suf) with (String c (pre +:+ suf)). simpl.
    destruct (match_here ts (String c (pre +:+ suf))); [by eexists|done].
Qed.

(** ** What the patterns make of a path *)
Definition chars (s : string) : list ascii := list_ascii_of_string s.

Lemma chars_app a b : chars (a +:+ b) = chars a ++ chars b.
Proof. induction a as [|c a IH]; [done|]. exact (f_equal (cons c) IH). Qed.

Lemma chars_inj a b : chars a = chars b → a = b.
Proof.
  intros He. rewrite <- (string_of_list_ascii_of_string a), <- (string_of_list_ascii_of_string b).
  unfold chars in He. by rewrite He.
Qed.

Definition all_digits (l : list ascii) : Prop := l ≠ [] ∧ Forall (λ c, is_digit c = true) l.

Lemma matches_lits l ts caps s :
  matches (lits l ++ ts) caps s → ∃ s', s = l +:+ s' ∧ matches ts caps s'.
Proof.
  revert s. induction l as [|c l IH]; intros s Hm; [by exists s|].
  inversion Hm as [|? ? ? ? Hm'| | | |]; subst. destruct (IH _ Hm') as (s' & -> & Hs'). by exists s'.
Qed.

Lemma matches_lits_intro l ts caps s : matches ts caps s → matches (lits l ++ ts) caps (l +:+ s).
Proof. induction l as [|c l IH]; intros Hm; [done|]. apply matches_lit. by apply IH. Qed.

Lemma matches_digits_inv ts caps s :
  matches (TDigits :: ts) caps s →
  ∃ d caps' s', caps = d :: caps' ∧ s = d +:+ s' ∧ all_digits (chars d) ∧ matches ts caps' s'.
Proof.
  remember (TDigits :: ts) as ts' eqn:E. intros Hm.
  induction Hm as [| | | |c d ts0 caps s Hd _ IH|c ts0 caps s Hd Hm _]; try discriminate E.
  - destruct (IH E) as (d' & caps' & s' & [= <- <-] & -> & [_ Ha] & Hm). eexists (String c d), caps, s'.
    split_and!; [done|done| |done]. split; [done|]. by constructor.
  - injection E as <-. eexists (String c EmptyString), caps, s. split_and!; [done|done| |done].
    split; [done|]. by repeat constructor.
Qed.

Lemma matches_digits_intro d ts caps s :
  all_digits (chars d) → matches ts caps s → matches (TDigits :: ts) (d :: caps) (d +:+ s).
Proof.
  intros [Hne Ha] Hm. induction d as [|c d IH]; [done|]. apply Forall_cons in Ha as [Hc Ha].
  destruct d as [|c' d].
  - apply matches_digit; [exact Hc|exact Hm].
  - apply matches_digits; [exact Hc|]. by apply IH.
Qed.

Lemma closed_regex_inv caps s :
  matches closedSegmentRegex caps s →
  ∃ a b c, caps = [a; b] ∧ all_digits (chars a) ∧ all_digits (chars b) ∧
    chars s = ((chars "segment" ++ "_"%char :: chars a) ++ "_"%char :: chars b) ++ c :: chars "meta".
Proof.
  unfold closedSegmentRegex. intros (s1 & -> & Hm)%matches_lits.
  apply matches_digits_inv in Hm as (a & caps1 & s2 & -> & -> & Ha & Hm).
  apply matches_lits in Hm as (s3 & -> & Hm).
  apply matches_digits_inv in Hm as (b & caps2 & s4 & -> & -> & Hb & Hm).
  inversion Hm as [| |c ? ? s5 _ Hm'| | |]; subst.
  apply (matches_lits "meta" [TEnd]) in Hm' as (s6 & -> & Hm'). inversion Hm' as [| | |? ? Hm''| |]; subst.
  inversion Hm''; subst. exists a, b, c. split_and!; [done|done|done|].
  rewrite !chars_app. simpl. by rewrite <- !app_assoc.
Qed.

Lemma active_regex_inv caps s :
  matches activeSegmentRegex caps s →
  ∃ a c, caps = [a] ∧ all_digits (chars a) ∧
    chars s = (chars "segment_in_progress" ++ "_"%char :: chars a) ++ c :: chars "meta".
Proof.
  unfold activeSegmentRegex. intros (s1 & -> & Hm)%matches_lits.
  apply matches_digits_inv in Hm as (a & caps1 & s2 & -> & -> & Ha & Hm).
  inversion Hm as [| |c ? ? s5 _ Hm'| | |]; subst.
  apply (matches_lits "meta" [TEnd]) in Hm' as (s6 & -> & Hm'). inversion Hm' as [| | |? ? Hm''| |]; subst.
  inversion Hm''; subst. exists a, c. split_and!; [done|done|].
  rewrite !chars_app. simpl. by rewrite <- ?app_assoc.
Qed.

(** The last run of digits of a text is determined. *)
Lemma last_run x y c1 c2 d1 d2 :
  Forall (λ c, is_digit c = true) d1 → Forall (λ c, is_digit c = true) d2 →
  is_digit c1 = false → is_digit c2 = false →
  x ++ c1 :: d1 = y ++ c2 :: d2 → x = y ∧ c1 = c2 ∧ d1 = d2.
Proof.
  intros H1 H2 Hc1 Hc2. revert d2 H2. induction d1 as [|e1 d1 IH] using rev_ind; intros d2 H2 He.
  - destruct d2 as [|e2 d2 _] using rev_ind; [by apply app_inj_tail in He as [-> ->]|].
    apply Forall_app in H2 as [_ [H2 _]%Forall_cons_1].
    rewrite app_comm_cons, app_assoc in He. apply app_inj_tail in He as [_ ->]. congruence.
  - apply Forall_app in H1 as [H1 [He1 _]%Forall_cons_1].
    destruct d2 as [|e2 d2 _] using rev_ind.
    + rewrite app_comm_cons, app_assoc in He. apply app_inj_tail in He as [_ ->]. congruence.
    + apply Forall_app in H2 as [H2 _]. rewrite !app_comm_cons, !app_assoc in He.
      apply app_inj_tail in He as [He ->]. destruct (IH H1 d2 H2 He) as (-> & -> & ->). done.
Qed.

(** A text that ends with a digit has no last character that is none. *)
Lemma digits_tail x y c d : all_digits d → is_digit c = false → x ++ d ≠ y ++ [c].
Proof.
  intros [Hne Ha] Hc He. destruct d as [|e d _] using rev_ind; [done|].
  apply Forall_app in Ha as [_ [Ha _]%Forall_cons_1]. rewrite app_assoc in He.
  apply app_inj_tail in He as [_ ->]. congruence.
Qed.

Lemma is_digit_pretty_char x : (x < 10)%N → is_digit (pretty_N_char x) = true.
Proof. intros Hx. destruct (pretty_N_char_digit x Hx) as [Hd _]. unfold is_digit. by rewrite Hd. Qed.

Lemma pretty_N_go_digits x s :
  Forall (λ c, is_digit c = true) (chars s) → Forall (λ c, is_digit c = true) (chars (pretty_N_go x s)).
Proof.
  revert s. induction (N.lt_wf_0 x) as [x _ IH]; intros s Hs.
  destruct (decide (x = 0)%N) as [->|Hx]; [by rewrite pretty_N_go_0|].
  rewrite pretty_N_go_step by lia. apply IH; [apply N.div_lt; lia|].
  constructor; [apply is_digit_pretty_char, N.mod_lt; lia|exact Hs].
Qed.

Lemma pretty_digits z : 0 ≤ z → all_digits (chars (pretty z)).
Proof.
  intros Hz. destruct z as [|p|p]; [split; [done|by repeat constructor]| |lia].
  change (pretty (Z.pos p)) with (pretty (N.pos p)). unfold pretty, pretty_N. rewrite decide_False by done.
  split; [|by apply pretty_N_go_digits].
  destruct (pretty_N_go_spec (N.pos p) EmptyString) as [_ Hh].
  specialize (Hh ltac:(by left)). by destruct (pretty_N_go (N.pos p) EmptyString).
Qed.

(** Names the code makes: indices and times are unsigned. *)
Definition segment_name_ok (n : SegmentName) : Prop :=
  match n with InProgress f => 0 ≤ f | ClosedName f l => 0 ≤ f ∧ 0 ≤ l end.
Definition name_ok (n : FileName) : Prop :=
  match n with
  | SegmentFile n _ => segment_name_ok n
  | DroppedFile _ _ ts => 0 ≤ ts
  | _ => True
  end.

Definition path (dir : string) (n : FileName) : string := dir +:+ "/" +:+ print n.

(** What stands before the extension. *)
Definition stem (n : SegmentName) : list ascii :=
  match n with
  | InProgress f => chars "segment_in_progress" ++ "_"%char :: chars (pretty f)
  | ClosedName f l => (chars "segment" ++ "_"%char :: chars (pretty f)) ++ "_"%char :: chars (pretty l)
  end.

Definition extension (p : Part) : string := match p with PData => "data" | PMeta => "meta" end.

Lemma chars_print_segment n p : chars (print_segment n p) = stem n ++ "."%char :: chars (extension p).
Proof.
  destruct n as [f|f l], p; simpl;
    unfold dataFileNameForActiveSegment, metaFileNameForActiveSegment,
      dataFileNameForClosedSegment, metaFileNameForClosedSegment;
    rewrite !chars_app; simpl; by rewrite <- ?app_assoc.
Qed.

(** Only a meta file has the extension both patterns ask for. *)
Lemma meta_path dir n x c :
  name_ok n → chars (path dir n) = x ++ c :: chars "meta" →
  ∃ m, n = SegmentFile m PMeta ∧ c = "."%char ∧ x = (chars dir ++ ["/"%char]) ++ stem m.
Proof.
  unfold path. rewrite !chars_app. intros Hok He.
  assert (Hlast : ∃ y, chars dir ++ chars "/" ++ chars (print n) = y ++ ["a"%char]).
  { exists (x ++ c :: chars "met"). rewrite He. by rewrite <- app_assoc. }
  destruct n as [m p|m p ts|f|f]; simpl in *.
  - rewrite chars_print_segment in He. rewrite cons_middle, (cons_middle "."%char), (cons_middle c) in He.
    rewrite !app_assoc in He. apply app_inj_2 in He as [He Hx]; [|by destruct p].
    destruct p; [done|]. apply app_inj_tail in He as [<- <-]. by exists m.
  - exfalso. destruct Hlast as [y Hy]. rewrite !chars_app, app_assoc, app_comm_cons, !app_assoc in Hy.
    revert Hy. apply digits_tail; [|done]. by apply pretty_digits.
  - exfalso. destruct Hlast as [y Hy]. destruct f; simpl in Hy;
      rewrite ?app_comm_cons in Hy; revert Hy.
    all: match goal with |- ?a ++ ?l = _ → _ => rewrite (app_removelast_last " "%char (l := l)) by done end;
      rewrite app_assoc; intros [_ Hc]%app_inj_tail; simpl in Hc; discriminate Hc.
  - exfalso. destruct Hlast as [y Hy]. destruct f; simpl in Hy; revert Hy.
    all: match goal with |- ?a ++ ?l = _ → _ => rewrite (app_removelast_last " "%char (l := l)) by done end;
      rewrite app_assoc; intros [_ Hc]%app_inj_tail; simpl in Hc; discriminate Hc.
Qed.

Lemma underscore_no_digit : is_digit "_"%char = false. Proof. done. Qed.

Lemma closed_path_inv dir n pre suf caps :
  name_ok n → path dir n = pre +:+ suf → matches closedSegmentRegex caps suf →
  ∃ f l, n = SegmentFile (ClosedName f l) PMeta ∧ caps = [pretty f; pretty l].
Proof.
  intros Hok Hp Hm. apply closed_regex_inv in Hm as (a & b & c & -> & [Ha1 Ha] & [_ Hb] & Hs).
  apply (f_equal chars) in Hp. rewrite chars_app, Hs, app_assoc in Hp.
  apply meta_path in Hp as (m & -> & _ & Hx); [|done]. destruct m as [f|f l]; cbn [stem name_ok segment_name_ok] in Hok, Hx.
  - exfalso. pose proof (pretty_digits _ Hok) as [_ Hf]. rewrite !app_assoc in Hx.
    apply last_run in Hx as (Hx & _ & _); [|done..].
    change (chars "segment_in_progress") with (chars "segment_in_progres" ++ ["s"%char]) in Hx.
    rewrite cons_middle, !app_assoc in Hx. revert Hx. apply digits_tail; [by split|done].
  - destruct Hok as [Hf Hl]. pose proof (pretty_digits _ Hf) as [_ Hf']. pose proof (pretty_digits _ Hl) as [_ Hl'].
    rewrite !app_assoc in Hx. apply last_run in Hx as (Hx & _ & ->%chars_inj); [|done..].
    apply last_run in Hx as (_ & _ & ->%chars_inj); [|done..]. eauto.
Qed.

Lemma active_path_inv dir n pre suf caps :
  name_ok n → path dir n = pre +:+ suf → matches activeSegmentRegex caps suf →
  ∃ f, n = SegmentFile (InProgress f) PMeta ∧ caps = [pretty f].
Proof.
  intros Hok Hp Hm. apply active_regex_inv in Hm as (a & c & -> & [Ha1 Ha] & Hs).
  apply (f_equal chars) in Hp. rewrite chars_app, Hs, app_assoc in Hp.
  apply meta_path in Hp as (m & -> & _ & Hx); [|done]. destruct m as [f|f l]; cbn [stem name_ok segment_name_ok] in Hok, Hx.
  - pose proof (pretty_digits _ Hok) as [_ Hf]. rewrite !app_assoc in Hx.
    apply last_run in Hx as (_ & _ & ->%chars_inj); [|done..]. eauto.
  - exfalso. destruct Hok as [Hf Hl]. pose proof (pretty_digits _ Hf) as Hf'. pose proof (pretty_digits _ Hl) as [_ Hl'].
    rewrite !app_assoc in Hx. apply last_run in Hx as (Hx & _ & _); [|done..].
    change (chars "segment_in_progress") with (chars "segment_in_progres" ++ ["s"%char]) in Hx.
    rewrite (cons_middle "_"%char), !app_assoc in Hx. symmetry in Hx. revert Hx. by apply digits_tail.
Qed.

Definition closed_caps (n : FileName) : option (list string) :=
  match n with SegmentFile (ClosedName f l) PMeta => Some [pretty f; pretty l] | _ => None end.
Definition active_caps (n : FileName) : option (list string) :=
  match n with SegmentFile (InProgress f) PMeta => Some [pretty f] | _ => None end.

Lemma closed_name_matches f l :
  0 ≤ f → 0 ≤ l →
  matches closedSegmentRegex [pretty f; pretty l] (metaFileNameForClosedSegment f l).
Proof.
  intros Hf Hl. apply matches_lits_intro, matches_digits_intro; [by apply pretty_digits|].
  apply (matches_lits_intro "_"), matches_digits_intro; [by apply pretty_digits|].
  apply matches_any; [done|]. apply (matches_lits_intro "meta" [TEnd] _ EmptyString). repeat constructor.
Qed.

Lemma active_name_matches f :
  0 ≤ f → matches activeSegmentRegex [pretty f] (metaFileNameForActiveSegment f).
Proof.
  intros Hf. apply matches_lits_intro, matches_digits_intro; [by apply pretty_digits|].
  apply matches_any; [done|]. apply (matches_lits_intro "meta" [TEnd] _ EmptyString). repeat constructor.
Qed.

Lemma regex_search_unique ts s want :
  (∀ pre suf caps, s = pre +:+ suf → matches ts caps suf → want = Some caps) →
  (∀ caps, want = Some caps → ∃ pre suf, s = pre +:+ suf ∧ matches ts caps suf) →
  regex_search ts s = want.
Proof.
  intros Huniq Hex. destruct (regex_search ts s) as [caps|] eqn:E.
  - destruct (regex_search_sound _ _ _ E) as (pre & suf & Hs & Hm). by rewrite (Huniq _ _ _ Hs Hm).
  - destruct want as [caps|]; [|done]. destruct (Hex caps eq_refl) as (pre & suf & -> & Hm).
    destruct (regex_search_complete _ pre _ _ Hm). congruence.
Qed.

Lemma closed_search dir n :
  name_ok n → regex_search closedSegmentRegex (path dir n) = closed_caps n.
Proof.
  intros Hok. apply regex_search_unique.
  - intros pre suf caps Hp Hm. destruct (closed_path_inv _ _ _ _ _ Hok Hp Hm) as (f & l & -> & ->). done.
  - intros caps. destruct n as [[|f l] []| | |]; try done. intros [= <-]. destruct Hok as [Hf Hl].
    exists (dir +:+ "/"), (metaFileNameForClosedSegment f l). split; [|by apply closed_name_matches].
    unfold path. simpl. apply chars_inj. rewrite !chars_app. by rewrite <- app_assoc.
Qed.

Lemma active_search dir n :
  name_ok n → regex_search activeSegmentRegex (path dir n) = active_caps n.
Proof.
  intros Hok. apply regex_search_unique.
  - intros pre suf caps Hp Hm. destruct (active_path_inv _ _ _ _ _ Hok Hp Hm) as (f & -> & ->). done.
  - intros caps. destruct n as [[f|] []| | |]; try done. intros [= <-].
    exists (dir +:+ "/"), (metaFileNameForActiveSegment f). split; [|by apply active_name_matches].
    unfold path. simpl. apply chars_inj. rewrite !chars_app. by rewrite <- app_assoc.
Qed.
