(* ===== verification/Segment.v ===== *)
(** * A segment of the Raft log

    src/src/infra/raft/storage/Segment.{h,cpp}: a data file with the serialised
    entries one after the other, and a meta file with a fixed-size record for
    each.  The state of the object is the record [Segment]; the files are in the
    [Disk] that is passed through.

    [raft::LogEntry] is a generated class ([Proto]); [mCrypto] is shared by all
    segments.  [mRecentUsedSecKeyIndex] is an atomic hint that readers on other
    threads may have moved at any time, so the value loaded is an argument of the
    functions that read it.  Indices are unbounded, see RaftLog.v. *)
From Stdlib Require Import Ascii String.
From stdpp Require Import pretty.
From S2P Require Import Prelude Protobuf Crypto Numeric RaftLog Disk.
Open Scope Z_scope.

Record Segment := mk_Segment {
  seg_mDataSizeLimit : Z;
  seg_mDataOffset : Z;
  seg_mMetaSizeLimit : Z;
  seg_mMetaOffset : Z;
  seg_mFirstIndex : Z;
  seg_mLastIndex : Z;
  seg_mIsActive : bool }.

(** The three constructors; the first one goes on to create the files. *)
Definition Segment_new_active (firstIndex maxDataSize maxMetaSize : Z) : Segment :=
  mk_Segment maxDataSize 0 maxMetaSize 0 firstIndex (firstIndex - 1) true.
Definition Segment_found_active (firstIndex : Z) : Segment :=
  mk_Segment 0 0 0 0 firstIndex (firstIndex - 1) true.
Definition Segment_found_closed (firstIndex lastIndex : Z) : Segment :=
  mk_Segment 0 0 0 0 firstIndex lastIndex false.

Definition seg_name (s : Segment) : SegmentName :=
  if seg_mIsActive s then InProgress (seg_mFirstIndex s)
  else ClosedName (seg_mFirstIndex s) (seg_mLastIndex s).
Definition seg_data (s : Segment) : FileName := SegmentFile (seg_name s) PData.
Definition seg_meta (s : Segment) : FileName := SegmentFile (seg_name s) PMeta.

(** Both [Segment::isEmpty] and [Log::isEmpty]. *)
Definition isEmpty (firstIndex lastIndex : Z) : bool := lastIndex =? firstIndex - 1.

Definition createActiveSegment (d : Disk) (s : Segment) : result Disk :=
  cassert (seg_mIsActive s);;
  d ← create_mapped d (seg_data s) (seg_mDataSizeLimit s);
  create_mapped d (seg_meta s) (seg_mMetaSizeLimit s).

(** The scan of the meta file: how many records have the expected index. *)
Fixpoint scan_metas (metas : Z → LogMeta) (lastIndex pos : Z) (fuel : nat) : Z :=
  match fuel with
  | O => pos
  | S fuel =>
      if meta_index (metas pos) =? lastIndex + 1
      then scan_metas metas (lastIndex + 1) (pos + 1) fuel
      else pos
  end.

Definition recoverActiveOrClosedSegment (fs : FS) (s : Segment) : result Segment :=
  dataSize ← getFileSize fs (seg_data s);
  mmap_length dataSize;;
  metaSize ← getFileSize fs (seg_meta s);
  mmap_length metaSize;;
  match fs !! seg_meta s with
  | Some (MetaContent _ metas) =>
      let maxPos := metaSize / sizeof_LogMeta in
      let pos := scan_metas (record_at metas) (seg_mFirstIndex s - 1) 0 (Z.to_nat maxPos) in
      let lastIndex := seg_mFirstIndex s - 1 + pos in
      cassert (seg_mIsActive s || (lastIndex =? seg_mLastIndex s));;
      let metaOffset := (lastIndex - seg_mFirstIndex s + 1) * sizeof_LogMeta in
      cassert (metaOffset <=? metaSize);;
      let m := record_at metas (lastIndex - seg_mFirstIndex s) in
      let dataOffset :=
        if isEmpty (seg_mFirstIndex s) lastIndex then 0 else meta_offset m + meta_length m in
      cassert (dataOffset <=? dataSize);;
      Ret (mk_Segment dataSize dataOffset metaSize metaOffset (seg_mFirstIndex s) lastIndex
             (seg_mIsActive s))
  | _ => Fail UndefinedBehaviour
  end.

(** Renaming both files of a segment, the data file first. *)
Definition rename_pair (d : Disk) (from to : Part → FileName) : result Disk :=
  d ← rename d (from PData) (to PData);
  rename d (from PMeta) (to PMeta).

Definition Segment_closeActiveSegment (d : Disk) (s : Segment) : result (Disk * Segment) :=
  cassert (seg_mIsActive s);;
  let s' := mk_Segment (seg_mDataSizeLimit s) (seg_mDataOffset s) (seg_mMetaSizeLimit s)
              (seg_mMetaOffset s) (seg_mFirstIndex s) (seg_mLastIndex s) false in
  d ← rename_pair d (SegmentFile (seg_name s)) (SegmentFile (seg_name s'));
  Ret (d, s').

Definition isWithInBoundary (s : Segment) (index : Z) : bool :=
  if isEmpty (seg_mFirstIndex s) (seg_mLastIndex s) then false
  else negb ((index <? seg_mFirstIndex s) || (seg_mLastIndex s <? index)).

(** [n] is the meta file, which keeps its name until the object renames it. *)
Definition getMeta_in (fs : FS) (n : FileName) (s : Segment) (index : Z) : result LogMeta :=
  cassert (isWithInBoundary s index);;
  meta ← mapped_record fs n (index - seg_mFirstIndex s);
  cassert (meta_index meta =? index);; Ret meta.

Definition getMeta (fs : FS) (s : Segment) (index : Z) : result LogMeta :=
  getMeta_in fs (seg_meta s) s index.

Definition Segment_getTerm (fs : FS) (s : Segment) (index : Z) : result (option Z) :=
  if negb (isWithInBoundary s index) then Ret None
  else meta ← getMeta fs s index; Ret (Some (meta_term meta)).

(** [getEntryAddr] and the [meta.length] bytes that are read there. *)
Definition read_entry_bytes (fs : FS) (s : Segment) (meta : LogMeta) : result string :=
  cassert (meta_offset meta <=? seg_mDataOffset s);;
  mapped_read fs (seg_data s) (meta_offset meta) (meta_length meta).

Definition Segment_truncateSuffix (d : Disk) (s : Segment) (lastIndexKept : Z)
    : result (Disk * Segment) :=
  if seg_mLastIndex s <=? lastIndexKept then Ret (d, s)
  else
    let prevLastIndex := seg_mLastIndex s in
    let lastIndex := lastIndexKept in
    let pos := lastIndex - seg_mFirstIndex s + 1 in
    let count := prevLastIndex - lastIndex in
    d ← mapped_write_records d (seg_meta s) pos (replicate (Z.to_nat count) zero_meta);
    let d := syncAt d (seg_meta s) pos (pos + count) in
    let s' := mk_Segment (seg_mDataSizeLimit s) (seg_mDataOffset s) (seg_mMetaSizeLimit s)
                (pos * sizeof_LogMeta) (seg_mFirstIndex s) lastIndex (seg_mIsActive s) in
    meta ← getMeta_in (disk_fs d) (seg_meta s) s' lastIndex;
    let s' := mk_Segment (seg_mDataSizeLimit s) (meta_offset meta + meta_length meta)
                (seg_mMetaSizeLimit s) (pos * sizeof_LogMeta) (seg_mFirstIndex s) lastIndex
                (seg_mIsActive s) in
    if seg_mIsActive s then Ret (d, s')
    else
      d ← rename_pair d (SegmentFile (seg_name s)) (SegmentFile (seg_name s'));
      Ret (d, s').

Definition dropSegment (d : Disk) (s : Segment) (tsInNano : Z) : result Disk :=
  rename_pair d (SegmentFile (seg_name s)) (λ p, DroppedFile (seg_name s) p tsInNano).

Section segment.
Context `{Proto LogEntry} `{OpenSSL}.
Context (mCrypto : CryptoUtil).

Definition ByteSizeLong (entry : LogEntry) : Z := Z.of_nat (String.length (SerializeAsString entry)).

Definition total_bytes (entries : list LogEntry) : Z := foldr Z.add 0 (ByteSizeLong <$> entries).

Definition shouldRoll (s : Segment) (entries : list LogEntry) : result bool :=
  cassert (seg_mIsActive s);;
  let metaLen := Z.of_nat (length entries) * sizeof_LogMeta in
  if seg_mMetaSizeLimit s <? seg_mMetaOffset s + metaLen then Ret true
  else
    let dataLen := total_bytes entries in
    if seg_mDataSizeLimit s <? seg_mDataOffset s + dataLen then Ret true else Ret false.

(** What the HMAC is computed of. *)
Definition hmac_message (index : Z) (bytes : string) : string := pretty index +:+ bytes.

(** The digest of the bytes at [meta.offset]; the digest is stored into [meta]. *)
Definition createHMAC (fs : FS) (s : Segment) (meta : LogMeta) (version : Z) : result LogMeta :=
  if negb (isEnabled mCrypto) then Ret meta
  else
    bytes ← mapped_read fs (seg_data s) (meta_offset meta) (meta_length meta);
    digest ← hmac mCrypto (hmac_message (meta_index meta) bytes) version;
    cassert (Nat.eqb (String.length digest) kDigestLen);;
    Ret (mk_LogMeta (meta_offset meta) (meta_length meta) (meta_term meta) (meta_index meta) digest).

(** The version of the key an entry is authenticated with. *)
Definition hmac_version (entry : LogEntry) : result Z :=
  if le_secret_key_version entry =? kInvalidSecKeyVersion then
    let descendingVersions := getDescendingVersions mCrypto in
    cassert (negb (Nat.eqb (length descendingVersions) 0));;
    Ret (List.last descendingVersions 0)
  else Ret (le_secret_key_version entry).

(** One turn of the loop of [appendEntries]: the loop counter, [dataOffset],
    [metaArr] and the disk. *)
Definition append_one (s : Segment) (acc : Z * Z * list LogMeta * Disk) (entry : LogEntry)
    : result (Z * Z * list LogMeta * Disk) :=
  let '(i, dataOffset, metaArr, d) := acc in
  cassert (seg_mLastIndex s + 1 + i =? le_index entry);;
  let meta := mk_LogMeta dataOffset (ByteSizeLong entry) (le_term entry) (le_index entry) zero_digest in
  d ← mapped_write d (seg_data s) dataOffset (SerializeAsString entry);
  meta ← (if isEnabled mCrypto then
            version ← hmac_version entry; createHMAC (disk_fs d) s meta version
          else Ret meta);
  Ret (i + 1, dataOffset + meta_length meta, metaArr ++ [meta], d).

Definition Segment_appendEntries (d : Disk) (s : Segment) (entries : list LogEntry)
    : result (Disk * Segment) :=
  cassert (seg_mIsActive s);;
  '(_, dataOffset, metaArr, d) ← foldM (append_one s) (0, seg_mDataOffset s, [], d) entries;
  match metaArr with
  | [] => Fail UndefinedBehaviour
  | meta0 :: _ =>
      let dataLen := dataOffset - seg_mDataOffset s in
      let d := syncAt d (seg_data s) (meta_offset meta0) (meta_offset meta0 + dataLen) in
      let pos := seg_mMetaOffset s / sizeof_LogMeta in
      let count := Z.of_nat (length entries) in
      d ← mapped_write_records d (seg_meta s) pos metaArr;
      let d := syncAt d (seg_meta s) pos (pos + count) in
      Ret (d, mk_Segment (seg_mDataSizeLimit s) dataOffset (seg_mMetaSizeLimit s)
                (seg_mMetaOffset s + count * sizeof_LogMeta) (seg_mFirstIndex s)
                (seg_mLastIndex s + count) true)
  end.

(** The loop of [verifyHMAC]: the last digest computed and the index stored. *)
Fixpoint try_versions (message expectDigest : string) (recentKeyIndex : Z) (i : Z) (realDigest : string)
    (fuel : nat) : result (string * option Z) :=
  match fuel with
  | O => Ret (realDigest, None)
  | S fuel =>
      let descendingVersions := getDescendingVersions mCrypto in
      let versionCnt := Z.of_nat (length descendingVersions) in
      let tryVersionIndex := (recentKeyIndex + i + versionCnt) `mod` versionCnt in
      match descendingVersions !! Z.to_nat tryVersionIndex with
      | None => Fail UndefinedBehaviour
      | Some version =>
          realDigest ← hmac mCrypto message version;
          if negb (Nat.eqb (String.length realDigest) 0) && bool_decide (realDigest = expectDigest)
          then Ret (realDigest, Some tryVersionIndex)
          else try_versions message expectDigest recentKeyIndex (i + 1) realDigest fuel
      end
  end.

(** The new value of [mRecentUsedSecKeyIndex], if one is stored. *)
Definition verifyHMAC (fs : FS) (s : Segment) (recent : Z) (meta : LogMeta) : result (option Z) :=
  if negb (isEnabled mCrypto) then Ret None
  else if bool_decide (meta_digest meta = zero_digest) then Ret None
  else
    bytes ← read_entry_bytes fs s meta;
    '(realDigest, stored) ←
      try_versions (hmac_message (meta_index meta) bytes) (meta_digest meta) recent 0 EmptyString
        (length (getDescendingVersions mCrypto));
    cassert (bool_decide (realDigest = meta_digest meta));;
    Ret stored.

(** [recent index] is the hint loaded when the entry at [index] is verified.
    The [bool] is what [ParseFromArray] returns. *)
Definition fetch_entry (fs : FS) (s : Segment) (recent : Z → Z) (index : Z)
    : result (Z * bool * LogEntry) :=
  meta ← getMeta fs s index;
  verifyHMAC fs s (recent index) meta;;
  bytes ← read_entry_bytes fs s meta;
  let '(parsed, entry) := ParseFromString bytes in
  Ret (meta_length meta, parsed, entry).

Definition Segment_getEntry (fs : FS) (s : Segment) (recent : Z → Z) (index : Z)
    : result (option LogEntry) :=
  if negb (isWithInBoundary s index) then Ret None
  else
    '(_, parsed, entry) ← fetch_entry fs s recent index;
    Ret (if parsed : bool then Some entry else None).

(** [getEntries(index, size, entries)] *)
Fixpoint fetch_exact (fs : FS) (s : Segment) (recent : Z → Z) (index : Z) (size : nat)
    : result (option (list LogEntry)) :=
  match size with
  | O => Ret (Some [])
  | S size =>
      '(_, parsed, entry) ← fetch_entry fs s recent index;
      if negb parsed then Ret None
      else
        rest ← fetch_exact fs s recent (index + 1) size;
        Ret (match rest with Some entries => Some (entry :: entries) | None => None end)
  end.

Definition Segment_getEntriesExact (fs : FS) (s : Segment) (recent : Z → Z) (index size : Z)
    : result (option (list LogEntry)) :=
  if negb (isWithInBoundary s index) || negb (isWithInBoundary s (index + size - 1)) then Ret None
  else fetch_exact fs s recent index (Z.to_nat size).

(** The [while (true)] loop of [getEntries]; the fuel is what is left of
    [maxBatchSize].  The result is the value returned and the vector. *)
Fixpoint fetch_batch (fs : FS) (s : Segment) (recent : Z → Z) (startIndex maxLenInBytes : Z)
    (batchSize lenInBytes : Z) (entries : list LogEntry) (fuel : nat) : result (Z * list LogEntry) :=
  match fuel with
  | O => Ret (batchSize, entries)
  | S fuel =>
      let nextIndex := startIndex + batchSize in
      meta ← getMeta fs s nextIndex;
      let nextLogSize := meta_length meta in
      if maxLenInBytes <? lenInBytes + nextLogSize then Ret (batchSize, entries)
      else
        '(_, parsed, entry) ← fetch_entry fs s recent nextIndex;
        if negb parsed then Ret (0, entries)
        else fetch_batch fs s recent startIndex maxLenInBytes (batchSize + 1)
               (lenInBytes + nextLogSize) (entries ++ [entry]) fuel
  end.

Definition Segment_getEntries (fs : FS) (s : Segment) (recent : Z → Z)
    (startIndex maxLenInBytes maxBatchSize : Z) : result (Z * list LogEntry) :=
  cassert (isWithInBoundary s startIndex);;
  let lastIndex := seg_mLastIndex s in
  let maxBatchSize := Z.min maxBatchSize (lastIndex - startIndex + 1) in
  fetch_batch fs s recent startIndex maxLenInBytes 0 0 [] (Z.to_nat maxBatchSize).
End segment.
