(* ===== verification/SegmentProps.v ===== *)
(** * What a segment holds

    [holds] relates the bytes and the records of the two files to a sequence of
    entries; [seg_rep] adds the counters of the object.  The operations of
    Segment.v act on the sequence as their names say. *)
From Stdlib Require Import Ascii String.
From stdpp Require Import pretty.
From S2P Require Import Prelude Protobuf Crypto Numeric RaftLog Disk DiskProps Segment.
Open Scope Z_scope.

(** ** The HMAC of an entry *)
Section hmac.
Context `{OpenSSL}.
Context (mCrypto : CryptoUtil).

(** The key of every known version is there and gives digests of 32 bytes, as
    HMAC-SHA256 does. *)
Definition hmac_ready : Prop :=
  mEnabled mCrypto = true →
  mDescendingSecKeyVersions mCrypto ≠ [] ∧
  ∀ v, v ∈ mDescendingSecKeyVersions mCrypto →
    ∃ key, mAllKeys mCrypto !! v = Some key ∧ ∀ message, String.length (hmac_sha256 key message) = 32%nat.

(** The digest is one a key of ours gives, or there is none to check. *)
Definition authentic (index : Z) (bytes digest : string) : Prop :=
  mEnabled mCrypto = false ∨ digest = zero_digest ∨
  ∃ v, v ∈ mDescendingSecKeyVersions mCrypto ∧ hmac mCrypto (hmac_message index bytes) v = Ret digest.

Lemma hmac_known v message :
  hmac_ready → mEnabled mCrypto = true → v ∈ mDescendingSecKeyVersions mCrypto →
  ∃ digest, hmac mCrypto message v = Ret digest ∧ String.length digest = 32%nat.
Proof.
  intros Hr He Hv. destruct (Hr He) as [_ Hk]. destruct (Hk v Hv) as (key & Hkey & Hlen).
  exists (hmac_sha256 key message). split; [|by apply Hlen].
  unfold hmac, assertValidVersion. rewrite He, Hkey. simpl. by rewrite Hlen.
Qed.

(** The place the loop looks at in turn [j]. *)
Definition tried (recent j : Z) : option Z :=
  let n := Z.of_nat (length (mDescendingSecKeyVersions mCrypto)) in
  mDescendingSecKeyVersions mCrypto !! Z.to_nat ((recent + j + n) `mod` n).

Lemma tried_known recent j :
  mDescendingSecKeyVersions mCrypto ≠ [] →
  ∃ v, tried recent j = Some v ∧ v ∈ mDescendingSecKeyVersions mCrypto.
Proof.
  intros Hne. unfold tried. set (n := Z.of_nat _).
  assert (Hn : 0 < n) by (unfold n; destruct (mDescendingSecKeyVersions mCrypto); [done|simpl; lia]).
  destruct (lookup_lt_is_Some_2 (mDescendingSecKeyVersions mCrypto) (Z.to_nat ((recent + j + n) `mod` n)))
    as [v Hv]; [pose proof (Z.mod_pos_bound (recent + j + n) n); unfold n in *; lia|].
  exists v. split; [done|]. by apply list_elem_of_lookup_2 in Hv.
Qed.

(** Wherever it starts, the loop comes round to every version. *)
Lemma tried_all recent v :
  v ∈ mDescendingSecKeyVersions mCrypto →
  ∃ j, 0 ≤ j < Z.of_nat (length (mDescendingSecKeyVersions mCrypto)) ∧ tried recent j = Some v.
Proof.
  intros [i Hi]%list_elem_of_lookup. pose proof (lookup_lt_Some _ _ _ Hi) as Hlt. unfold tried.
  set (n := Z.of_nat _) in *. assert (0 < n) by lia.
  exists ((Z.of_nat i - recent) `mod` n). split; [apply Z.mod_pos_bound; lia|].
  replace ((recent + (Z.of_nat i - recent) `mod` n + n) `mod` n) with (Z.of_nat i); [by rewrite Nat2Z.id|].
  rewrite <- Z.add_assoc, Z.add_assoc, <- (Zplus_mod_idemp_l (_ + _)), Zplus_mod_idemp_r.
  replace (recent + (Z.of_nat i - recent)) with (Z.of_nat i) by lia.
  rewrite Zplus_mod_idemp_l, Z.add_comm. replace (n + Z.of_nat i) with (Z.of_nat i + 1 * n) by lia.
  rewrite Z_mod_plus_full. symmetry. apply Z.mod_small. lia.
Qed.

(** What the loop ends with, when no version is unknown. *)
Lemma try_versions_spec message expect recent i real fuel :
  hmac_ready → mEnabled mCrypto = true → String.length expect = 32%nat →
  ∃ digest stored, try_versions mCrypto message expect recent i real fuel = Ret (digest, stored) ∧
    (digest = expect ↔
     (fuel = O ∧ real = expect) ∨
     (∃ j v, i ≤ j < i + Z.of_nat fuel ∧ tried recent j = Some v ∧ hmac mCrypto message v = Ret expect)).
Proof.
  intros Hr He Hlen. revert i real. induction fuel as [|fuel IH]; intros i real.
  { exists real, None. split; [done|]. split; [by left|]. intros [[_ ?]|(j & v & ? & _)]; [done|lia]. }
  destruct (tried_known recent i (proj1 (Hr He))) as (v & Ht & Hv).
  destruct (hmac_known v message Hr He Hv) as (d & Hd & Hl).
  assert (Hstep : try_versions mCrypto message expect recent i real (S fuel) =
    if negb (Nat.eqb (String.length d) 0) && bool_decide (d = expect)
    then Ret (d, Some ((recent + i + Z.of_nat (length (mDescendingSecKeyVersions mCrypto)))
                         `mod` Z.of_nat (length (mDescendingSecKeyVersions mCrypto))))
    else try_versions mCrypto message expect recent (i + 1) d fuel).
  { simpl. unfold getDescendingVersions, tried in *. rewrite Ht, Hd. done. }
  rewrite Hstep, Hl. simpl. case_bool_decide as Hde.
  - eexists d, _. split; [done|]. split; [|done]. intros _. right. exists i, v. rewrite Hd, Hde. split_and!; [lia|lia|done|done].
  - destruct (IH (i + 1) d) as (digest & stored & -> & Hiff). exists digest, stored. split; [done|].
    rewrite Hiff. split.
    + intros [[_ ?]|(j & w & ? & ? & ?)]; [done|]. right. exists j, w. split_and!; [lia|lia|done|done].
    + intros [[? _]|(j & w & ? & Hj & Hw)]; [done|]. right. exists j, w.
      destruct (decide (j = i)) as [->|]; [|split_and!; [lia|lia|done|done]]. congruence.
Qed.
End hmac.

Section segment.
Context `{Proto LogEntry} `{OpenSSL}.
Context (mCrypto : CryptoUtil).

(** [verifyHMAC] passes exactly what is authentic, wherever the hint points. *)
Lemma verifyHMAC_spec fs s recent m bytes :
  hmac_ready mCrypto → String.length (meta_digest m) = 32%nat → read_entry_bytes fs s m = Ret bytes →
  (∃ stored, verifyHMAC mCrypto fs s recent m = Ret stored) ↔
  authentic mCrypto (meta_index m) bytes (meta_digest m).
Proof.
  intros Hr Hlen Hb. unfold verifyHMAC, authentic, isEnabled. destruct (mEnabled mCrypto) eqn:He; simpl.
  2:{ split; [by left|by eexists]. }
  case_bool_decide as Hz; [split; [by right; left|by eexists]|]. rewrite Hb. simpl. unfold getDescendingVersions.
  destruct (try_versions_spec mCrypto (hmac_message (meta_index m) bytes) (meta_digest m) recent 0 EmptyString
              (length (mDescendingSecKeyVersions mCrypto)) Hr He Hlen) as (digest & stored & -> & Hiff). simpl.
  transitivity (digest = meta_digest m).
  { case_bool_decide; simpl; split; try done; [by eexists|by intros [? [=]]]. }
  rewrite Hiff. split.
  - intros [[_ Hd]|(j & v & _ & Hj & Hv)]; [by rewrite <- Hd in Hlen|].
    right. right. exists v. split; [|done]. by apply list_elem_of_lookup_2 in Hj.
  - intros [?|[?|(v & Hv & Hd)]]; [done|done|]. right.
    destruct (tried_all mCrypto recent v Hv) as (j & Hj & Ht). exists j, v. split_and!; [lia|lia|done|done].
Qed.

(** ** Entries in the files *)

(** The record of an entry whose bytes start at [off]. *)
Definition stored (entry : LogEntry) (off : Z) (m : LogMeta) : Prop :=
  ∃ digest, m = mk_LogMeta off (ByteSizeLong entry) (le_term entry) (le_index entry) digest ∧
    String.length digest = 32%nat ∧ authentic mCrypto (le_index entry) (SerializeAsString entry) digest.

(** From byte [off] and record [pos] of a segment that starts at [first]. *)
Fixpoint holds (bytes : gmap Z ascii) (metas : gmap Z LogMeta) (first off pos : Z) (es : list LogEntry)
    : Prop :=
  match es with
  | [] => True
  | e :: es =>
      (le_index e = first + pos ∧
       read_bytes bytes off (String.length (SerializeAsString e)) = SerializeAsString e ∧
       stored e off (record_at metas pos)) ∧
      holds bytes metas first (off + ByteSizeLong e) (pos + 1) es
  end.

Lemma total_bytes_cons e es : total_bytes (e :: es) = ByteSizeLong e + total_bytes es.
Proof. done. Qed.

Lemma total_bytes_app es1 es2 : total_bytes (es1 ++ es2) = total_bytes es1 + total_bytes es2.
Proof.
  induction es1 as [|e es1 IH]; [done|]. rewrite <- app_comm_cons, !total_bytes_cons, IH. lia.
Qed.

Lemma ByteSizeLong_nonneg e : 0 ≤ ByteSizeLong e.
Proof. unfold ByteSizeLong. lia. Qed.

Lemma total_bytes_nonneg es : 0 ≤ total_bytes es.
Proof.
  induction es as [|e es IH]; [done|]. rewrite total_bytes_cons. pose proof (ByteSizeLong_nonneg e). lia.
Qed.

Lemma holds_app bytes metas first off pos es1 es2 :
  holds bytes metas first off pos (es1 ++ es2) ↔
  holds bytes metas first off pos es1 ∧
  holds bytes metas first (off + total_bytes es1) (pos + Z.of_nat (length es1)) es2.
Proof.
  revert off pos. induction es1 as [|e es1 IH]; intros off pos; simpl.
  { unfold total_bytes; simpl. rewrite !Z.add_0_r. tauto. }
  rewrite IH, total_bytes_cons.
  replace (off + ByteSizeLong e + total_bytes es1) with (off + (ByteSizeLong e + total_bytes es1)) by lia.
  replace (pos + 1 + Z.of_nat (length es1)) with (pos + Z.of_nat (S (length es1))) by lia. tauto.
Qed.

(** Only the bytes and records of the entries matter. *)
Lemma holds_ext bytes metas bytes' metas' first off pos es :
  holds bytes metas first off pos es →
  (∀ i, off ≤ i < off + total_bytes es → byte_at bytes i = byte_at bytes' i) →
  (∀ i, pos ≤ i < pos + Z.of_nat (length es) → record_at metas i = record_at metas' i) →
  holds bytes' metas' first off pos es.
Proof.
  revert off pos. induction es as [|e es IH]; intros off pos; [done|]. intros [(Hi & Hr & Hs) Hes] Hb Hm.
  rewrite total_bytes_cons in Hb. pose proof (ByteSizeLong_nonneg e). pose proof (total_bytes_nonneg es).
  simpl in Hm. split.
  - split_and!; [done| |by rewrite <- Hm by lia]. rewrite <- Hr at 2. symmetry. apply read_bytes_ext.
    intros i Hin. apply Hb. unfold ByteSizeLong in *. lia.
  - apply IH; [done| |]; intros i ?; [apply Hb|apply Hm]; lia.
Qed.

Lemma holds_lookup bytes metas first off pos es k e :
  holds bytes metas first off pos es → es !! k = Some e →
  le_index e = first + pos + Z.of_nat k ∧
  read_bytes bytes (off + total_bytes (take k es)) (String.length (SerializeAsString e)) = SerializeAsString e ∧
  stored e (off + total_bytes (take k es)) (record_at metas (pos + Z.of_nat k)).
Proof.
  intros Hh Hk. rewrite <- (take_drop_middle es k e Hk) in Hh. apply holds_app in Hh as [_ Hh].
  simpl in Hh. destruct Hh as [(Hi & Hr & Hs) _]. apply lookup_lt_Some in Hk.
  rewrite length_take in *. rewrite Nat.min_l in * by lia. split_and!; [lia|done|done].
Qed.

(** ** The representation of a segment *)
Definition seg_files (fs : FS) (n : SegmentName) (dl ml : Z) (bytes : gmap Z ascii) (metas : gmap Z LogMeta)
    : Prop :=
  fs !! SegmentFile n PData = Some (DataContent dl bytes) ∧
  fs !! SegmentFile n PMeta = Some (MetaContent ml metas).

(** Behind the last entry: either all records are zero, or at least the scan of
    recovery stops there. *)
Definition clean (metas : gmap Z LogMeta) (n : Z) : Prop :=
  ∀ p, n ≤ p → meta_index (record_at metas p) = 0.
Definition stops (metas : gmap Z LogMeta) (first n ml : Z) : Prop :=
  (n + 1) * sizeof_LogMeta ≤ ml → meta_index (record_at metas n) ≠ first + n.
Definition tail_ok (is_clean : bool) metas first n ml : Prop :=
  if is_clean then clean metas n else stops metas first n ml.

Record seg_ok (s : Segment) (es : list LogEntry) : Prop := {
  so_first : 1 ≤ seg_mFirstIndex s;
  so_last : seg_mLastIndex s = seg_mFirstIndex s + Z.of_nat (length es) - 1;
  so_metaOffset : seg_mMetaOffset s = Z.of_nat (length es) * sizeof_LogMeta;
  so_dataOffset : seg_mDataOffset s = total_bytes es;
  so_meta_fits : Z.of_nat (length es) * sizeof_LogMeta ≤ seg_mMetaSizeLimit s;
  so_data_fits : total_bytes es ≤ seg_mDataSizeLimit s;
  so_data_size : 0 < seg_mDataSizeLimit s;
  so_meta_size : 0 < seg_mMetaSizeLimit s }.

Definition seg_rep (is_clean : bool) (fs : FS) (s : Segment) (es : list LogEntry) : Prop :=
  ∃ bytes metas,
    seg_files fs (seg_name s) (seg_mDataSizeLimit s) (seg_mMetaSizeLimit s) bytes metas ∧
    seg_ok s es ∧ holds bytes metas (seg_mFirstIndex s) 0 0 es ∧
    tail_ok is_clean metas (seg_mFirstIndex s) (Z.of_nat (length es)) (seg_mMetaSizeLimit s).

Lemma tail_ok_stops b metas first n ml : 1 ≤ first → 0 ≤ n → tail_ok b metas first n ml → stops metas first n ml.
Proof. destruct b; [|done]. intros Hf Hn Hc _. rewrite Hc by lia. lia. Qed.

Lemma seg_rep_weaken b fs s es : seg_rep b fs s es → seg_rep false fs s es.
Proof.
  intros (bytes & metas & Hf & Ho & Hh & Ht). exists bytes, metas. split_and!; [done..|].
  apply (tail_ok_stops b); [apply Ho|lia|exact Ht].
Qed.

Lemma seg_rep_frame b fs fs' s es :
  seg_rep b fs s es → (∀ p, fs' !! SegmentFile (seg_name s) p = fs !! SegmentFile (seg_name s) p) →
  seg_rep b fs' s es.
Proof.
  intros (bytes & metas & [Hd Hm] & Hrest) He. exists bytes, metas. split; [|done]. split; by rewrite He.
Qed.

Lemma seg_rep_last b fs s es : seg_rep b fs s es → seg_mLastIndex s = seg_mFirstIndex s + Z.of_nat (length es) - 1.
Proof. intros (? & ? & _ & Ho & _). apply Ho. Qed.

Lemma seg_rep_first b fs s es : seg_rep b fs s es → 1 ≤ seg_mFirstIndex s.
Proof. intros (? & ? & _ & Ho & _). apply Ho. Qed.

(** ** Recovery *)
Lemma scan_holds bytes metas first off pos es fuel :
  holds bytes metas first off pos es → (length es ≤ fuel)%nat →
  ((length es < fuel)%nat →
    meta_index (record_at metas (pos + Z.of_nat (length es))) ≠ first + pos + Z.of_nat (length es)) →
  scan_metas (record_at metas) (first + pos - 1) pos fuel = pos + Z.of_nat (length es).
Proof.
  revert off pos fuel. induction es as [|e es IH]; intros off pos fuel Hh Hlen Hstop; simpl in *.
  - destruct fuel as [|fuel]; simpl; [lia|]. specialize (Hstop ltac:(lia)). rewrite !Z.add_0_r in Hstop.
    destruct (Z.eqb_spec (meta_index (record_at metas pos)) (first + pos - 1 + 1)); lia.
  - destruct fuel as [|fuel]; [lia|]. simpl. destruct Hh as [(Hi & _ & dg & -> & _) Hh]. simpl.
    rewrite (proj2 (Z.eqb_eq _ _)) by lia. replace (first + pos - 1 + 1) with (first + (pos + 1) - 1) by lia.
    rewrite (IH _ _ _ Hh); [lia|lia|].
    intros Hlt. specialize (Hstop ltac:(lia)).
    replace (pos + 1 + Z.of_nat (length es)) with (pos + Z.of_nat (S (length es))) by lia. lia.
Qed.

Lemma recover_spec fs s dl ml bytes metas es :
  seg_files fs (seg_name s) dl ml bytes metas → 0 < dl → 0 < ml →
  Z.of_nat (length es) * sizeof_LogMeta ≤ ml → total_bytes es ≤ dl →
  holds bytes metas (seg_mFirstIndex s) 0 0 es → stops metas (seg_mFirstIndex s) (Z.of_nat (length es)) ml →
  seg_mIsActive s = true ∨ seg_mLastIndex s = seg_mFirstIndex s + Z.of_nat (length es) - 1 →
  recoverActiveOrClosedSegment fs s =
    Ret (mk_Segment dl (total_bytes es) ml (Z.of_nat (length es) * sizeof_LogMeta) (seg_mFirstIndex s)
           (seg_mFirstIndex s + Z.of_nat (length es) - 1) (seg_mIsActive s)).
Proof.
  intros [Hd Hm] Hdl Hml Hlm Hld Hh Hstop Hact. unfold recoverActiveOrClosedSegment, seg_data, seg_meta, getFileSize.
  rewrite Hd, Hm. unfold mmap_length. simpl. rewrite (proj2 (Z.ltb_lt 0 dl)), (proj2 (Z.ltb_lt 0 ml)) by done. simpl.
  unfold sizeof_LogMeta in *. pose proof (Z.div_mod ml 64). pose proof (Z.mod_pos_bound ml 64).
  assert (Hscan : scan_metas (record_at metas) (seg_mFirstIndex s - 1) 0 (Z.to_nat (ml / 64)) =
    Z.of_nat (length es)).
  { replace (seg_mFirstIndex s - 1) with (seg_mFirstIndex s + 0 - 1) by lia.
    rewrite (scan_holds bytes metas _ 0 0 es); [lia|done|lia|].
    intros Hlt. rewrite !Z.add_0_l, Z.add_0_r. apply Hstop. unfold sizeof_LogMeta. lia. }
  rewrite Hscan.
  replace (seg_mFirstIndex s - 1 + Z.of_nat (length es) - seg_mFirstIndex s + 1) with (Z.of_nat (length es)) by lia.
  replace (seg_mFirstIndex s - 1 + Z.of_nat (length es)) with (seg_mFirstIndex s + Z.of_nat (length es) - 1) by lia.
  assert (Ha : seg_mIsActive s || (seg_mFirstIndex s + Z.of_nat (length es) - 1 =? seg_mLastIndex s) = true).
  { apply orb_true_iff. destruct Hact; [by left|right; lia]. }
  rewrite Ha, (proj2 (Z.leb_le (Z.of_nat (length es) * 64) ml)) by lia. simpl.
  assert (Hoff : (if isEmpty (seg_mFirstIndex s) (seg_mFirstIndex s + Z.of_nat (length es) - 1) then 0
    else meta_offset (record_at metas (seg_mFirstIndex s + Z.of_nat (length es) - 1 - seg_mFirstIndex s)) +
         meta_length (record_at metas (seg_mFirstIndex s + Z.of_nat (length es) - 1 - seg_mFirstIndex s))) =
    total_bytes es).
  { unfold isEmpty. destruct es as [|e es _] using rev_ind; [simpl; rewrite (proj2 (Z.eqb_eq _ _)); [done|lia]|].
    rewrite length_app. simpl. rewrite (proj2 (Z.eqb_neq _ _)) by lia.
    destruct (holds_lookup _ _ _ _ _ _ (length es) e Hh) as (_ & _ & dg & Hrec & _); [by apply list_lookup_middle|].
    replace (seg_mFirstIndex s + Z.of_nat (length es + 1) - 1 - seg_mFirstIndex s) with (0 + Z.of_nat (length es)) by lia.
    rewrite Hrec. simpl. rewrite take_app_length, total_bytes_app, total_bytes_cons.
    unfold Segment.total_bytes at 3. simpl. lia. }
  rewrite Hoff. rewrite (proj2 (Z.leb_le _ _)) by done. done.
Qed.

(** Recovering a segment that is represented gives the segment back. *)
Lemma recover_rep b fs s s0 es :
  seg_rep b fs s es → seg_name s0 = seg_name s → seg_mFirstIndex s0 = seg_mFirstIndex s →
  seg_mIsActive s0 = seg_mIsActive s → (seg_mIsActive s = true ∨ seg_mLastIndex s0 = seg_mLastIndex s) →
  recoverActiveOrClosedSegment fs s0 = Ret s.
Proof.
  intros (bytes & metas & Hf & Ho & Hh & Ht) Hn Hfi Ha Hl.
  rewrite (recover_spec fs s0 (seg_mDataSizeLimit s) (seg_mMetaSizeLimit s) bytes metas es); try apply Ho.
  - destruct Ho as [? Hla Hmo Hdo ? ? ? ?]. destruct s; simpl in *. by rewrite Hfi, Ha, Hla, Hmo, Hdo.
  - by rewrite Hn.
  - by rewrite Hfi.
  - rewrite Hfi. apply (tail_ok_stops b); [apply Ho|lia|done].
  - rewrite Ha, Hfi. rewrite <- (so_last _ _ Ho). done.
Qed.
End segment.
