(* ===== verification/SegmentOps.v ===== *)
(** * The operations of a segment on the sequence it holds

    Reading, appending, truncating, closing and dropping; what each asks of the
    disk; and what a crash during an append leaves. *)
From Stdlib Require Import Ascii String.
From stdpp Require Import pretty.
From S2P Require Import Prelude Protobuf Crypto Numeric RaftLog Disk DiskProps Segment SegmentProps.
Open Scope Z_scope.

(** ** Names *)
Lemma seg_name_active s : seg_mIsActive s = true → seg_name s = InProgress (seg_mFirstIndex s).
Proof. unfold seg_name. by intros ->. Qed.

Lemma seg_name_closed s :
  seg_mIsActive s = false → seg_name s = ClosedName (seg_mFirstIndex s) (seg_mLastIndex s).
Proof. unfold seg_name. by intros ->. Qed.

(** ** Renaming both files *)
Definition rename_ops (from to : Part → FileName) : list DiskOp :=
  [Rename (from PData) (to PData); Rename (from PMeta) (to PMeta)].

Lemma replay_rename_pair fs (from to : Part → FileName) cd cm n :
  fs !! from PData = Some cd → fs !! from PMeta = Some cm →
  (∀ p q, from p ≠ to q) → from PData ≠ from PMeta → to PData ≠ to PMeta →
  replay fs (rename_ops from to) !! n =
    if decide (n = to PMeta) then Some cm
    else if decide (n = to PData) then Some cd
    else if decide (n = from PMeta ∨ n = from PData) then None
    else fs !! n.
Proof.
  intros Hd Hm Hft Hf Ht.
  change (exec_op (exec_op fs (Rename (from PData) (to PData))) (Rename (from PMeta) (to PMeta)) !! n =
    if decide (n = to PMeta) then Some cm
    else if decide (n = to PData) then Some cd
    else if decide (n = from PMeta ∨ n = from PData) then None else fs !! n).
  erewrite (lookup_rename _ (from PMeta) _ cm).
  2:{ erewrite lookup_rename by done. rewrite decide_False by apply Hft. rewrite decide_False by done. exact Hm. }
  erewrite (lookup_rename _ (from PData)) by done.
  repeat case_decide; naive_solver.
Qed.

Lemma rename_pair_spec d (from to : Part → FileName) cd cm :
  disk_fs d !! from PData = Some cd → disk_fs d !! from PMeta = Some cm →
  (∀ p q, from p ≠ to q) → from PData ≠ from PMeta →
  rename_pair d from to = Ret (issue (rename_ops from to) d).
Proof.
  intros Hd Hm Hft Hf. unfold rename_pair. rewrite (rename_spec _ _ _ _ Hd). simpl.
  erewrite rename_spec; [by rewrite issue_app|].
  change (disk_fs (issue [Rename (from PData) (to PData)] d)) with (exec_op (disk_fs d) (Rename (from PData) (to PData))).
  erewrite lookup_rename by done. rewrite decide_False by apply Hft. rewrite decide_False by done. exact Hm.
Qed.

Section segment.
Context `{Proto LogEntry} `{OpenSSL}.
Context (mCrypto : CryptoUtil).

(** The files of a segment are there, under its name. *)
Lemma seg_rep_files b fs s es :
  seg_rep mCrypto b fs s es → ∃ cd cm, fs !! SegmentFile (seg_name s) PData = Some cd ∧ fs !! SegmentFile (seg_name s) PMeta = Some cm.
Proof. intros (bytes & metas & [Hd Hm] & _). eauto. Qed.

(** The same contents under another name, for an object with the same counters. *)
Lemma seg_rep_moved b fs fs' s s' es :
  seg_rep mCrypto b fs s es →
  (∀ p, fs' !! SegmentFile (seg_name s') p = fs !! SegmentFile (seg_name s) p) →
  seg_mDataSizeLimit s' = seg_mDataSizeLimit s → seg_mDataOffset s' = seg_mDataOffset s →
  seg_mMetaSizeLimit s' = seg_mMetaSizeLimit s → seg_mMetaOffset s' = seg_mMetaOffset s →
  seg_mFirstIndex s' = seg_mFirstIndex s → seg_mLastIndex s' = seg_mLastIndex s →
  seg_rep mCrypto b fs' s' es.
Proof.
  intros (bytes & metas & [Hd Hm] & [] & Hh & Ht) He E1 E2 E3 E4 E5 E6. exists bytes, metas.
  rewrite <- He in Hd, Hm. rewrite E1, E3, E5. split_and!; [done| |done|done].
  split; rewrite ?E1, ?E2, ?E3, ?E4, ?E5, ?E6; done.
Qed.

(** ** Reading *)
Lemma isWithInBoundary_rep b fs s es i :
  seg_rep mCrypto b fs s es →
  isWithInBoundary s i = bool_decide (seg_mFirstIndex s ≤ i < seg_mFirstIndex s + Z.of_nat (length es)).
Proof.
  intros Hr. pose proof (seg_rep_last _ _ _ _ _ Hr) as Hl. unfold isWithInBoundary, isEmpty. rewrite Hl.
  destruct (Z.eqb_spec (seg_mFirstIndex s + Z.of_nat (length es) - 1) (seg_mFirstIndex s - 1));
    case_bool_decide; try lia; try done;
  destruct (Z.ltb_spec i (seg_mFirstIndex s)), (Z.ltb_spec (seg_mFirstIndex s + Z.of_nat (length es) - 1) i); simpl; try done; lia.
Qed.

Lemma getMeta_rep b fs s es k e :
  seg_rep mCrypto b fs s es → es !! k = Some e →
  ∃ m, getMeta fs s (seg_mFirstIndex s + Z.of_nat k) = Ret m ∧
    stored mCrypto e (total_bytes (take k es)) m.
Proof.
  intros Hr Hk. pose proof (lookup_lt_Some _ _ _ Hk) as Hlt. unfold getMeta, getMeta_in, seg_meta.
  rewrite (isWithInBoundary_rep _ _ _ _ _ Hr), bool_decide_true by lia. simpl.
  destruct Hr as (bytes & metas & [Hd Hm] & Ho & Hh & Ht). unfold mapped_record. rewrite Hm.
  destruct (holds_lookup _ _ _ _ _ _ _ _ _ Hh Hk) as (Hi & _ & Hs). pose proof (so_meta_fits _ _ Ho) as Hfit.
  unfold sizeof_LogMeta in *. rewrite (proj2 (Z.leb_le _ _)), (proj2 (Z.leb_le _ _)) by lia. simpl.
  replace (seg_mFirstIndex s + Z.of_nat k - seg_mFirstIndex s) with (0 + Z.of_nat k) by lia.
  exists (record_at metas (0 + Z.of_nat k)). split; [|exact Hs].
  destruct Hs as (dg & -> & _). simpl. by rewrite (proj2 (Z.eqb_eq _ _)) by lia.
Qed.

Lemma take_total_le es k : total_bytes (take k es) ≤ total_bytes es.
Proof.
  rewrite <- (take_drop k es) at 2. rewrite total_bytes_app. pose proof (total_bytes_nonneg (drop k es)). lia.
Qed.

Lemma take_S_total es k e : es !! k = Some e → total_bytes (take (S k) es) = total_bytes (take k es) + ByteSizeLong e.
Proof.
  intros Hk. rewrite (take_S_r _ _ _ Hk), total_bytes_app. f_equal. rewrite total_bytes_cons.
  change (total_bytes []) with 0. lia.
Qed.

Lemma read_entry_rep b fs s es k e m :
  seg_rep mCrypto b fs s es → es !! k = Some e → stored mCrypto e (total_bytes (take k es)) m →
  read_entry_bytes fs s m = Ret (SerializeAsString e).
Proof.
  intros (bytes & metas & [Hd Hm] & Ho & Hh & Ht) Hk (dg & -> & _). unfold read_entry_bytes, mapped_read, seg_data. simpl.
  destruct (holds_lookup _ _ _ _ _ _ _ _ _ Hh Hk) as (_ & Hread & _).
  pose proof (take_total_le es k). pose proof (take_total_le es (S k)) as HS. rewrite (take_S_total _ _ _ Hk) in HS.
  pose proof (total_bytes_nonneg (take k es)). pose proof (ByteSizeLong_nonneg e). pose proof (so_data_fits _ _ Ho).
  rewrite (so_dataOffset _ _ Ho). rewrite (proj2 (Z.leb_le _ (total_bytes es))) by lia. simpl. rewrite Hd.
  rewrite !(proj2 (Z.leb_le _ _)) by lia. simpl. f_equal. unfold ByteSizeLong. rewrite Nat2Z.id.
  rewrite Z.add_0_l in Hread. exact Hread.
Qed.

Lemma fetch_entry_rep b fs s es recent k e :
  hmac_ready mCrypto → seg_rep mCrypto b fs s es → es !! k = Some e →
  fetch_entry mCrypto fs s recent (seg_mFirstIndex s + Z.of_nat k) = Ret (ByteSizeLong e, true, e).
Proof.
  intros Hr Hs Hk. destruct (getMeta_rep _ _ _ _ _ _ Hs Hk) as (m & Hm & Hst). unfold fetch_entry. rewrite Hm. simpl.
  pose proof (read_entry_rep _ _ _ _ _ _ _ Hs Hk Hst) as Hb.
  pose proof Hst as (dg & Em & Hlen & Hauth). assert (Hl : String.length (meta_digest m) = 32%nat) by by rewrite Em.
  destruct (proj2 (verifyHMAC_spec mCrypto fs s (recent (seg_mFirstIndex s + Z.of_nat k)) m _ Hr Hl Hb)) as [x Hv].
  { by rewrite Em. }
  rewrite Hv. simpl. rewrite Hb. simpl. rewrite ParseFromString_SerializeAsString. by rewrite Em.
Qed.

Lemma Segment_getTerm_rep b fs s es k e :
  seg_rep mCrypto b fs s es → es !! k = Some e →
  Segment_getTerm fs s (seg_mFirstIndex s + Z.of_nat k) = Ret (Some (le_term e)).
Proof.
  intros Hs Hk. pose proof (lookup_lt_Some _ _ _ Hk). unfold Segment_getTerm.
  rewrite (isWithInBoundary_rep _ _ _ _ _ Hs), bool_decide_true by lia. simpl.
  destruct (getMeta_rep _ _ _ _ _ _ Hs Hk) as (m & -> & dg & -> & _). done.
Qed.

Lemma Segment_getEntry_rep b fs s es recent k e :
  hmac_ready mCrypto → seg_rep mCrypto b fs s es → es !! k = Some e →
  Segment_getEntry mCrypto fs s recent (seg_mFirstIndex s + Z.of_nat k) = Ret (Some e).
Proof.
  intros Hr Hs Hk. pose proof (lookup_lt_Some _ _ _ Hk). unfold Segment_getEntry.
  rewrite (isWithInBoundary_rep _ _ _ _ _ Hs), bool_decide_true by lia. simpl.
  by rewrite (fetch_entry_rep _ _ _ _ _ _ _ Hr Hs Hk).
Qed.

Lemma Segment_getEntriesExact_rep b fs s es recent k n :
  hmac_ready mCrypto → seg_rep mCrypto b fs s es → (0 < n)%nat → (k + n ≤ length es)%nat →
  Segment_getEntriesExact mCrypto fs s recent (seg_mFirstIndex s + Z.of_nat k) (Z.of_nat n) =
    Ret (Some (take n (drop k es))).
Proof.
  intros Hr Hs Hpos Hn. unfold Segment_getEntriesExact.
  rewrite !(isWithInBoundary_rep _ _ _ _ _ Hs), !bool_decide_true by lia. simpl. rewrite Nat2Z.id.
  clear Hpos. revert k Hn. induction n as [|n IH]; intros k Hn; simpl; [by rewrite take_0|].
  destruct (lookup_lt_is_Some_2 es k) as [e He]; [lia|]. rewrite (fetch_entry_rep _ _ _ _ _ _ _ Hr Hs He). simpl.
  replace (seg_mFirstIndex s + Z.of_nat k + 1) with (seg_mFirstIndex s + Z.of_nat (S k)) by lia.
  rewrite IH by lia. simpl. by rewrite (drop_S _ _ _ He).
Qed.

(** The batch [getEntries] gives: as many entries as fit [maxLen] bytes, at most
    [n]. *)
Fixpoint batch (maxLen : Z) (n : nat) (es : list LogEntry) : list LogEntry :=
  match n, es with
  | S n, e :: es => if maxLen <? ByteSizeLong e then [] else e :: batch (maxLen - ByteSizeLong e) n es
  | _, _ => []
  end.

Lemma fetch_batch_rep b fs s es recent start maxLen k len acc fuel :
  hmac_ready mCrypto → seg_rep mCrypto b fs s es → seg_mFirstIndex s ≤ start →
  let i := (Z.to_nat (start - seg_mFirstIndex s) + k)%nat in
  (i + fuel ≤ length es)%nat →
  let got := batch (maxLen - len) fuel (drop i es) in
  fetch_batch mCrypto fs s recent start maxLen (Z.of_nat k) len acc fuel =
    Ret (Z.of_nat (k + length got), acc ++ got).
Proof.
  intros Hr Hs Hst. revert k len acc. induction fuel as [|fuel IH]; intros k len acc i Hi got; simpl.
  { subst got; simpl. by rewrite Nat.add_0_r, app_nil_r. }
  destruct (lookup_lt_is_Some_2 es i) as [e He]; [lia|]. unfold got. rewrite (drop_S _ _ _ He). simpl.
  replace (start + Z.of_nat k) with (seg_mFirstIndex s + Z.of_nat i) by lia.
  destruct (getMeta_rep _ _ _ _ _ _ Hs He) as (m & -> & dg & -> & _). simpl.
  destruct (Z.ltb_spec maxLen (len + ByteSizeLong e)); destruct (Z.ltb_spec (maxLen - len) (ByteSizeLong e)); try lia.
  { simpl. by rewrite Nat.add_0_r, app_nil_r. }
  rewrite (fetch_entry_rep _ _ _ _ _ _ _ Hr Hs He). simpl.
  replace (Z.of_nat k + 1) with (Z.of_nat (S k)) by lia. rewrite IH by lia.
  replace (Z.to_nat (start - seg_mFirstIndex s) + S k)%nat with (S i) by lia.
  replace (maxLen - (len + ByteSizeLong e)) with (maxLen - len - ByteSizeLong e) by lia.
  rewrite <- app_assoc. simpl. do 2 f_equal. lia.
Qed.

Lemma Segment_getEntries_rep b fs s es recent start maxLen maxBatch :
  hmac_ready mCrypto → seg_rep mCrypto b fs s es →
  seg_mFirstIndex s ≤ start < seg_mFirstIndex s + Z.of_nat (length es) →
  let rest := drop (Z.to_nat (start - seg_mFirstIndex s)) es in
  let got := batch maxLen (Z.to_nat (Z.min maxBatch (Z.of_nat (length rest)))) rest in
  Segment_getEntries mCrypto fs s recent start maxLen maxBatch = Ret (Z.of_nat (length got), got).
Proof.
  intros Hr Hs Hst rest got. unfold Segment_getEntries.
  rewrite (isWithInBoundary_rep _ _ _ _ _ Hs), bool_decide_true by lia. simpl.
  rewrite (seg_rep_last _ _ _ _ _ Hs). change 0 with (Z.of_nat 0) at 1.
  assert (Hlen : Z.of_nat (length rest) = seg_mFirstIndex s + Z.of_nat (length es) - 1 - start + 1).
  { unfold rest. rewrite length_drop. lia. }
  rewrite <- Hlen. rewrite (fetch_batch_rep _ _ _ es _ _ _ 0%nat) by (done || unfold rest in *; rewrite ?length_drop in *; lia).
  rewrite Z.sub_0_r, Nat.add_0_r. done.
Qed.

(** ** Appending *)

(** The entry names a key we have. *)
Definition entry_keyed (e : LogEntry) : Prop :=
  mEnabled mCrypto = true →
  le_secret_key_version e = kInvalidSecKeyVersion ∨ le_secret_key_version e ∈ mDescendingSecKeyVersions mCrypto.

Lemma length_zeros n : String.length (zeros n) = n.
Proof. induction n as [|n IH]; [done|]. simpl. by f_equal. Qed.

Lemma length_zero_digest : String.length zero_digest = 32%nat.
Proof. apply length_zeros. Qed.

Fixpoint data_writes (n : FileName) (off : Z) (es : list LogEntry) : list DiskOp :=
  match es with
  | [] => []
  | e :: es => WriteData n off (SerializeAsString e) :: data_writes n (off + ByteSizeLong e) es
  end.

Fixpoint bytes_written (bytes : gmap Z ascii) (off : Z) (es : list LogEntry) : gmap Z ascii :=
  match es with
  | [] => bytes
  | e :: es => bytes_written (write_bytes bytes off (SerializeAsString e)) (off + ByteSizeLong e) es
  end.

(** [ms] are the records of [es], from byte [off]. *)
Fixpoint metas_for (off : Z) (es : list LogEntry) (ms : list LogMeta) : Prop :=
  match es, ms with
  | [], [] => True
  | e :: es, m :: ms => stored mCrypto e off m ∧ metas_for (off + ByteSizeLong e) es ms
  | _, _ => False
  end.

Lemma metas_for_length off es ms : metas_for off es ms → length ms = length es.
Proof. revert off ms. induction es as [|e es IH]; intros off [|m ms]; try done. intros [_ Hm]. simpl. by f_equal; eauto. Qed.

Lemma replay_data_writes fs n off es dl bytes :
  fs !! n = Some (DataContent dl bytes) →
  replay fs (data_writes n off es) = <[n := DataContent dl (bytes_written bytes off es)]> fs.
Proof.
  revert fs off bytes. induction es as [|e es IH]; intros fs off bytes Hn; simpl; [by rewrite insert_id|].
  unfold replay in *. simpl. rewrite (IH _ _ (write_bytes bytes off (SerializeAsString e))).
  - apply map_eq. intros n'. destruct (decide (n = n')) as [->|Hne].
    + by rewrite !lookup_insert_eq.
    + by rewrite !lookup_insert_ne, lookup_alter_ne by done.
  - by rewrite lookup_alter_eq, Hn.
Qed.

Lemma bytes_written_outside bytes off es i :
  i < off ∨ off + total_bytes es ≤ i → byte_at (bytes_written bytes off es) i = byte_at bytes i.
Proof.
  revert bytes off. induction es as [|e es IH]; intros bytes off Hi; [done|].
  simpl. rewrite total_bytes_cons in Hi. pose proof (total_bytes_nonneg es). pose proof (ByteSizeLong_nonneg e).
  rewrite IH by lia. apply write_bytes_outside. unfold ByteSizeLong in *. lia.
Qed.

(** What was appended is held. *)
Lemma holds_appended bytes metas first off pos es ms :
  contiguous (first + pos) es → metas_for off es ms →
  (∀ k m, ms !! k = Some m → record_at metas (pos + Z.of_nat k) = m) →
  holds mCrypto (bytes_written bytes off es) metas first off pos es.
Proof.
  revert bytes off pos ms. induction es as [|e es IH]; intros bytes off pos ms; [done|]. intros [Hi Hc] Hms Hrec.
  destruct ms as [|m ms]; [done|]. destruct Hms as [Hm Hms]. simpl. split.
  - split_and!; [done| |].
    + etransitivity; [|apply (read_write_bytes _ bytes off)]. apply read_bytes_ext.
      intros i Hin. apply bytes_written_outside. unfold ByteSizeLong. lia.
    + pose proof (Hrec 0%nat m eq_refl) as Hr. rewrite Z.add_0_r in Hr. by rewrite Hr.
  - apply (IH _ _ _ ms); [by rewrite Z.add_assoc|done|].
    intros k m' Hk. rewrite <- (Hrec (S k) m' Hk). f_equal. lia.
Qed.

Lemma append_one_spec s i off ms d e dl bytes :
  hmac_ready mCrypto → entry_keyed e → disk_fs d !! seg_data s = Some (DataContent dl bytes) →
  seg_mLastIndex s + 1 + i = le_index e → 0 ≤ off → off + ByteSizeLong e ≤ dl →
  ∃ m, append_one mCrypto s (i, off, ms, d) e =
    Ret (i + 1, off + ByteSizeLong e, ms ++ [m], issue [WriteData (seg_data s) off (SerializeAsString e)] d) ∧
    stored mCrypto e off m.
Proof.
  intros Hr Hk Hd Hi Hoff Hfit. unfold append_one. rewrite (proj2 (Z.eqb_eq _ _)) by done. simpl.
  unfold mapped_write. rewrite Hd. change (Z.of_nat (String.length (SerializeAsString e))) with (ByteSizeLong e).
  rewrite (proj2 (Z.leb_le 0 off)), (proj2 (Z.leb_le _ dl)) by lia. simpl.
  change (emit (WriteData (seg_data s) off (SerializeAsString e)) d)
    with (issue [WriteData (seg_data s) off (SerializeAsString e)] d).
  set (d' := issue _ d). cbv zeta. unfold isEnabled. destruct (mEnabled mCrypto) eqn:He; simpl.
  2:{ eexists. split; [done|]. eexists. split_and!; [done|apply length_zero_digest|by left]. }
  assert (Hv : ∃ v, hmac_version mCrypto e = Ret v ∧ v ∈ mDescendingSecKeyVersions mCrypto).
  { unfold hmac_version, getDescendingVersions. destruct (Z.eqb_spec (le_secret_key_version e) kInvalidSecKeyVersion) as [|Hne].
    - destruct (Hr He) as [Hnil _]. destruct (mDescendingSecKeyVersions mCrypto) as [|v vs] eqn:Ev using rev_ind; [done|].
      rewrite length_app, Nat.add_comm. simpl. eexists. split; [done|]. rewrite List.last_last. set_solver.
    - eexists. split; [done|]. destruct (Hk He); done. }
  destruct Hv as (v & -> & Hv). simpl. unfold createHMAC, isEnabled. rewrite He. simpl.
  assert (Hread : mapped_read (alter (content_write_data off (SerializeAsString e)) (seg_data s) (disk_fs d)) (seg_data s) off (ByteSizeLong e) = Ret (SerializeAsString e)).
  { unfold mapped_read. rewrite lookup_alter_eq, Hd. simpl.
    pose proof (ByteSizeLong_nonneg e). rewrite !(proj2 (Z.leb_le _ _)) by lia. simpl. f_equal.
    unfold ByteSizeLong. rewrite Nat2Z.id. apply read_write_bytes. }
  rewrite Hread. simpl.
  destruct (hmac_known mCrypto v (hmac_message (le_index e) (SerializeAsString e)) Hr He Hv) as (dg & Hdg & Hlen).
  rewrite Hdg. simpl. rewrite Hlen. simpl. eexists. split; [done|]. exists dg. split_and!; [done|done|].
  right. right. eauto.
Qed.

Lemma append_all_spec s i off ms d es dl bytes :
  hmac_ready mCrypto → Forall entry_keyed es → disk_fs d !! seg_data s = Some (DataContent dl bytes) →
  contiguous (seg_mLastIndex s + 1 + i) es → 0 ≤ off → off + total_bytes es ≤ dl →
  ∃ ms', foldM (append_one mCrypto s) (i, off, ms, d) es =
    Ret (i + Z.of_nat (length es), off + total_bytes es, ms ++ ms', issue (data_writes (seg_data s) off es) d) ∧
    metas_for off es ms'.
Proof.
  intros Hr Hk. revert i off ms d bytes. induction Hk as [|e es He Hk IH]; intros i off ms d bytes Hd Hc Hoff Hfit.
  { exists []. rewrite app_nil_r. simpl. rewrite issue_nil, !Z.add_0_r. done. }
  destruct Hc as [Hi Hc]. rewrite total_bytes_cons in *. pose proof (total_bytes_nonneg es). pose proof (ByteSizeLong_nonneg e).
  destruct (append_one_spec s i off ms d e dl bytes Hr He Hd) as (m & Hm & Hst); [lia|lia|lia|].
  cbn [foldM]. rewrite Hm. cbn [mbind result_mbind].
  destruct (IH (i + 1) (off + ByteSizeLong e) (ms ++ [m]) (issue [WriteData (seg_data s) off (SerializeAsString e)] d)
              (write_bytes bytes off (SerializeAsString e))) as (ms' & -> & Hms).
  - rewrite disk_fs_issue. unfold replay. simpl. by rewrite lookup_alter_eq, Hd.
  - by rewrite Z.add_assoc.
  - lia.
  - lia.
  - exists (m :: ms'). split; [|done]. rewrite issue_app, <- app_assoc. simpl.
    replace (i + 1 + Z.of_nat (length es)) with (i + Z.of_nat (S (length es))) by lia.
    by rewrite <- Z.add_assoc.
Qed.

(** What [appendEntries] asks of the disk. *)
Definition append_ops (s : Segment) (off pos : Z) (new : list LogEntry) (ms : list LogMeta) : list DiskOp :=
  data_writes (seg_data s) off new ++
  [Sync (seg_data s) off (off + total_bytes new);
   WriteRecords (seg_meta s) pos ms;
   Sync (seg_meta s) pos (pos + Z.of_nat (length new))].

(** The object after appending [new] to [es]. *)
Definition seg_grown (s : Segment) (new : list LogEntry) : Segment :=
  mk_Segment (seg_mDataSizeLimit s) (seg_mDataOffset s + total_bytes new) (seg_mMetaSizeLimit s)
    (seg_mMetaOffset s + Z.of_nat (length new) * sizeof_LogMeta) (seg_mFirstIndex s)
    (seg_mLastIndex s + Z.of_nat (length new)) true.

Record fits (s : Segment) (new : list LogEntry) : Prop := {
  fit_meta : seg_mMetaOffset s + Z.of_nat (length new) * sizeof_LogMeta ≤ seg_mMetaSizeLimit s;
  fit_data : seg_mDataOffset s + total_bytes new ≤ seg_mDataSizeLimit s }.

Lemma data_parts_ne s : seg_data s ≠ seg_meta s.
Proof. unfold seg_data, seg_meta. by intros [=]. Qed.

Lemma appendEntries_spec b d s es new :
  hmac_ready mCrypto → Forall entry_keyed new → seg_rep mCrypto b (disk_fs d) s es → seg_mIsActive s = true →
  new ≠ [] → contiguous (seg_mLastIndex s + 1) new → fits s new →
  ∃ ms, Segment_appendEntries mCrypto d s new =
      Ret (issue (append_ops s (total_bytes es) (Z.of_nat (length es)) new ms) d, seg_grown s new) ∧
    metas_for (total_bytes es) new ms.
Proof.
  intros Hr Hk (bytes & metas & [Hd Hm] & Ho & Hh & Ht) Ha Hne Hc [Hfm Hfd].
  pose proof (so_dataOffset _ _ Ho) as Eo. pose proof (so_metaOffset _ _ Ho) as Em. pose proof (total_bytes_nonneg es).
  unfold Segment_appendEntries. rewrite Ha. simpl.
  destruct (append_all_spec s 0 (seg_mDataOffset s) [] d new _ bytes Hr Hk Hd) as (ms & -> & Hms); [by rewrite Z.add_0_r|lia..|].
  rewrite Eo in Hms |- *. cbn [mbind result_mbind app]. pose proof (metas_for_length _ _ _ Hms) as Hlen.
  destruct ms as [|m0 ms]; [destruct new; done|]. set (ms' := m0 :: ms) in *.
  assert (Hm0 : meta_offset m0 = total_bytes es) by (destruct new; [done|]; by destruct Hms as [(dg & -> & _) _]).
  rewrite Hm0. replace (total_bytes es + total_bytes new - total_bytes es) with (total_bytes new) by lia.
  rewrite Em. unfold sizeof_LogMeta in *. rewrite Z.div_mul by done. unfold syncAt. rewrite emit_issue, issue_app.
  set (ops := data_writes _ _ _ ++ _). cbv zeta. unfold mapped_write_records.
  assert (Hmeta : disk_fs (issue ops d) !! seg_meta s = Some (MetaContent (seg_mMetaSizeLimit s) metas)).
  { rewrite disk_fs_issue. unfold ops. rewrite replay_app. unfold replay at 1. simpl.
    rewrite (replay_data_writes _ _ _ _ _ _ Hd). rewrite lookup_insert_ne by apply data_parts_ne. exact Hm. }
  rewrite Hmeta, Hlen. unfold sizeof_LogMeta. rewrite !(proj2 (Z.leb_le _ _)) by lia. simpl.
  exists ms'. split; [|exact Hms]. unfold seg_grown, append_ops, ops, sizeof_LogMeta.
  rewrite !emit_issue, !issue_app, <- !app_assoc, Em, Eo. done.
Qed.

(** The directory afterwards. *)
Lemma replay_append_ops fs s off pos new ms dl ml bytes metas n :
  fs !! seg_data s = Some (DataContent dl bytes) → fs !! seg_meta s = Some (MetaContent ml metas) →
  replay fs (append_ops s off pos new ms) !! n =
    if decide (n = seg_data s) then Some (DataContent dl (bytes_written bytes off new))
    else if decide (n = seg_meta s) then Some (MetaContent ml (write_records metas pos ms))
    else fs !! n.
Proof.
  intros Hd Hm. unfold append_ops. rewrite replay_app, (replay_data_writes _ _ _ _ _ _ Hd). unfold replay. simpl.
  pose proof (data_parts_ne s). destruct (decide (n = seg_meta s)) as [->|Hne].
  - rewrite decide_False by done. by rewrite lookup_alter_eq, lookup_insert_ne, Hm by done.
  - rewrite lookup_alter_ne by done. case_decide; [subst; by rewrite lookup_insert_eq|by rewrite lookup_insert_ne].
Qed.

(** The entries of the segment and what follows them. *)
Lemma holds_extend bytes metas bytes' metas' first es new :
  holds mCrypto bytes metas first 0 0 es →
  (∀ i, i < total_bytes es → byte_at bytes i = byte_at bytes' i) →
  (∀ p, p < Z.of_nat (length es) → record_at metas p = record_at metas' p) →
  holds mCrypto bytes' metas' first (total_bytes es) (Z.of_nat (length es)) new →
  holds mCrypto bytes' metas' first 0 0 (es ++ new).
Proof.
  intros Hh Hb Hm Hn. apply holds_app. split; [|exact Hn].
  apply (holds_ext _ bytes metas); [done|intros i ?; apply Hb; lia|intros p ?; apply Hm; lia].
Qed.

Lemma append_rep fs s es new ms :
  seg_rep mCrypto true fs s es → seg_mIsActive s = true →
  contiguous (seg_mLastIndex s + 1) new → fits s new → metas_for (total_bytes es) new ms →
  seg_rep mCrypto true (replay fs (append_ops s (total_bytes es) (Z.of_nat (length es)) new ms))
    (seg_grown s new) (es ++ new).
Proof.
  intros (bytes & metas & [Hd Hm] & Ho & Hh & Ht) Ha Hc [Hfm Hfd] Hms.
  exists (bytes_written bytes (total_bytes es) new), (write_records metas (Z.of_nat (length es)) ms).
  assert (En : seg_name (seg_grown s new) = seg_name s) by (unfold seg_name; by rewrite Ha).
  pose proof (metas_for_length _ _ _ Hms) as Hlen. pose proof (data_parts_ne s). destruct Ho as [? E1 E2 E3 ? ? ? ?].
  split_and!.
  - rewrite En. split.
    + rewrite (replay_append_ops _ _ _ _ _ _ _ _ _ _ _ Hd Hm). by rewrite decide_True.
    + rewrite (replay_append_ops _ _ _ _ _ _ _ _ _ _ _ Hd Hm). by rewrite decide_False, decide_True.
  - split; simpl; rewrite ?length_app, ?total_bytes_app; try done; lia.
  - simpl. apply (holds_extend bytes metas); [done|intros i ?; by rewrite bytes_written_outside by lia| |].
    + intros p ?. by rewrite write_records_outside by lia.
    + apply (holds_appended _ _ _ _ _ _ ms); [|done|].
      * replace (seg_mFirstIndex s + Z.of_nat (length es)) with (seg_mLastIndex s + 1) by lia. done.
      * intros k m Hk. by apply write_records_inside.
  - simpl. intros p Hp. rewrite length_app in Hp. rewrite write_records_outside by lia. apply Ht. lia.
Qed.

Lemma shouldRoll_spec s es :
  seg_mIsActive s = true → ∃ r, shouldRoll s es = Ret r ∧ (r = false ↔ fits s es).
Proof.
  intros Ha. unfold shouldRoll. rewrite Ha. simpl.
  destruct (Z.ltb_spec (seg_mMetaSizeLimit s) (seg_mMetaOffset s + Z.of_nat (length es) * sizeof_LogMeta)).
  { eexists. split; [done|]. split; [done|]. intros [? ?]. lia. }
  destruct (Z.ltb_spec (seg_mDataSizeLimit s) (seg_mDataOffset s + total_bytes es)); eexists; (split; [done|]).
  - split; [done|]. intros [? ?]. lia.
  - split; [|done]. intros _. split; lia.
Qed.

(** ** Truncating *)
Definition seg_cut (s : Segment) (es : list LogEntry) : Segment :=
  mk_Segment (seg_mDataSizeLimit s) (total_bytes es) (seg_mMetaSizeLimit s)
    (Z.of_nat (length es) * sizeof_LogMeta) (seg_mFirstIndex s)
    (seg_mFirstIndex s + Z.of_nat (length es) - 1) (seg_mIsActive s).

Definition cut_ops (s : Segment) (n count : nat) : list DiskOp :=
  [WriteRecords (seg_meta s) (Z.of_nat n) (replicate count zero_meta);
   Sync (seg_meta s) (Z.of_nat n) (Z.of_nat n + Z.of_nat count)].

Definition move_ops (s s' : Segment) : list DiskOp :=
  if decide (seg_name s = seg_name s') then []
  else rename_ops (SegmentFile (seg_name s)) (SegmentFile (seg_name s')).

Lemma record_at_cut metas n count p :
  (n ≤ p < n + Z.of_nat count → record_at (write_records metas n (replicate count zero_meta)) p = zero_meta) ∧
  (p < n ∨ n + Z.of_nat count ≤ p →
    record_at (write_records metas n (replicate count zero_meta)) p = record_at metas p).
Proof.
  split; intros Hp.
  - replace p with (n + Z.of_nat (Z.to_nat (p - n))) by lia. apply write_records_inside.
    apply lookup_replicate_2. lia.
  - apply write_records_outside. by rewrite length_replicate.
Qed.

(** The contents after the records behind the first [n] have been cleared. *)
Lemma cut_holds b s bytes metas es n :
  seg_ok s es → holds mCrypto bytes metas (seg_mFirstIndex s) 0 0 es →
  tail_ok b metas (seg_mFirstIndex s) (Z.of_nat (length es)) (seg_mMetaSizeLimit s) →
  (n < length es)%nat →
  let metas' := write_records metas (Z.of_nat n) (replicate (length es - n) zero_meta) in
  holds mCrypto bytes metas' (seg_mFirstIndex s) 0 0 (take n es) ∧
  seg_ok (seg_cut s (take n es)) (take n es) ∧
  tail_ok b metas' (seg_mFirstIndex s) (Z.of_nat (length (take n es))) (seg_mMetaSizeLimit s).
Proof.
  intros Ho Hh Ht Hn metas'. pose proof (so_first _ _ Ho). rewrite length_take, Nat.min_l by lia. split_and!.
  - rewrite <- (take_drop n es) in Hh. apply holds_app in Hh as [Hh _].
    apply (holds_ext _ bytes metas); [done|done|]. intros p Hp. rewrite length_take in Hp.
    symmetry. apply record_at_cut. lia.
  - pose proof (take_total_le es n). pose proof (so_data_fits _ _ Ho). pose proof (so_meta_fits _ _ Ho).
    pose proof (so_data_size _ _ Ho). pose proof (so_meta_size _ _ Ho). unfold sizeof_LogMeta in *.
    split; simpl; rewrite ?length_take; unfold sizeof_LogMeta; try done; lia.
  - destruct b; simpl in *.
    + intros p Hp. destruct (decide (p < Z.of_nat (length es))).
      * unfold metas'. rewrite (proj1 (record_at_cut _ _ _ _)) by lia. done.
      * unfold metas'. rewrite (proj2 (record_at_cut _ _ _ _)) by lia. apply Ht. lia.
    + intros _. unfold metas'. rewrite (proj1 (record_at_cut _ _ _ _)) by lia. simpl. lia.
Qed.

Lemma truncateSuffix_spec b d s es n :
  seg_rep mCrypto b (disk_fs d) s es → (0 < n < length es)%nat →
  let s' := seg_cut s (take n es) in
  Segment_truncateSuffix d s (seg_mFirstIndex s + Z.of_nat n - 1) =
    Ret (issue (cut_ops s n (length es - n) ++ move_ops s s') d, s') ∧
  seg_rep mCrypto b (replay (disk_fs d) (cut_ops s n (length es - n) ++ move_ops s s')) s' (take n es).
Proof.
  intros (bytes & metas & [Hd Hm] & Ho & Hh & Ht) Hn s'. fold (seg_data s) in Hd. fold (seg_meta s) in Hm.
  pose proof (data_parts_ne s) as Hparts.
  destruct (cut_holds b s bytes metas es n Ho Hh Ht) as (Hh' & Ho' & Ht'); [lia|].
  set (metas' := write_records metas (Z.of_nat n) (replicate (length es - n) zero_meta)) in *.
  pose proof (so_last _ _ Ho) as El. pose proof (so_meta_fits _ _ Ho) as Hfit. unfold sizeof_LogMeta in Hfit.
  assert (Hlen : length (take n es) = n) by (rewrite length_take; lia).
  set (d1 := issue (cut_ops s n (length es - n)) d).
  assert (Hfs : ∀ f, disk_fs d1 !! f = if decide (f = seg_meta s) then Some (MetaContent (seg_mMetaSizeLimit s) metas')
                                       else disk_fs d !! f).
  { intros f. unfold d1. rewrite disk_fs_issue. unfold replay, cut_ops. simpl.
    case_decide; [subst; by rewrite lookup_alter_eq, Hm|by rewrite lookup_alter_ne]. }
  assert (Hd1 : disk_fs d1 !! seg_data s = Some (DataContent (seg_mDataSizeLimit s) bytes))
    by (rewrite Hfs, decide_False; done).
  assert (Hm1 : disk_fs d1 !! seg_meta s = Some (MetaContent (seg_mMetaSizeLimit s) metas'))
    by (rewrite Hfs, decide_True; done).
  split.
  - unfold Segment_truncateSuffix. rewrite El, (proj2 (Z.leb_gt _ _)) by lia. cbv zeta.
    replace (seg_mFirstIndex s + Z.of_nat n - 1 - seg_mFirstIndex s + 1) with (Z.of_nat n) by lia.
    replace (seg_mFirstIndex s + Z.of_nat (length es) - 1 - (seg_mFirstIndex s + Z.of_nat n - 1))
      with (Z.of_nat (length es - n)) by lia. rewrite Nat2Z.id.
    unfold mapped_write_records. rewrite Hm, length_replicate. unfold sizeof_LogMeta.
    rewrite !(proj2 (Z.leb_le _ _)) by lia. cbn [andb mbind result_mbind]. unfold syncAt.
    rewrite !emit_issue, issue_app. cbn [app]. fold (cut_ops s n (length es - n)). fold d1.
    unfold getMeta_in, isWithInBoundary, isEmpty.
    cbn [seg_mFirstIndex seg_mLastIndex]. rewrite (proj2 (Z.eqb_neq _ _)) by lia.
    rewrite !(proj2 (Z.ltb_ge _ _)) by lia. cbn [orb negb cassert mbind result_mbind]. unfold mapped_record.
    rewrite Hm1. unfold sizeof_LogMeta. rewrite !(proj2 (Z.leb_le _ _)) by lia. cbn [andb mbind result_mbind].
    destruct (lookup_lt_is_Some_2 es (n - 1)) as [e He]; [lia|].
    destruct (holds_lookup _ _ _ _ _ _ _ (n - 1) e Hh') as (Hi & _ & dg & Hrec & _);
      [rewrite lookup_take_lt by lia; done|].
    replace (seg_mFirstIndex s + Z.of_nat n - 1 - seg_mFirstIndex s) with (0 + Z.of_nat (n - 1)) by lia.
    rewrite Hrec. simpl. rewrite (proj2 (Z.eqb_eq _ _)) by lia. simpl.
    assert (Hoff : total_bytes (take (n - 1) (take n es)) + ByteSizeLong e = total_bytes (take n es)).
    { rewrite take_take, Nat.min_l by lia. rewrite <- (take_S_total _ _ _ He). f_equal. f_equal. lia. }
    rewrite Z.add_0_l, Hoff.
    assert (Es : mk_Segment (seg_mDataSizeLimit s) (total_bytes (take n es)) (seg_mMetaSizeLimit s) (Z.of_nat n * 64)
                   (seg_mFirstIndex s) (seg_mFirstIndex s + Z.of_nat n - 1) (seg_mIsActive s) = s').
    { unfold s', seg_cut. by rewrite Hlen. }
    rewrite Es. unfold move_ops.
    destruct (seg_mIsActive s) eqn:Ha.
    + rewrite decide_True; [done|]. unfold seg_name, s'. simpl. by rewrite Ha.
    + assert (Hne : seg_name s ≠ seg_name s').
      { unfold seg_name, s'. simpl. rewrite Ha, El, Hlen. intros [=]. lia. }
      rewrite decide_False by done.
      rewrite (rename_pair_spec d1 _ _ _ _ Hd1 Hm1) by congruence. simpl. unfold d1. by rewrite issue_app.
  - rewrite replay_app. change (replay (disk_fs d) (cut_ops s n (length es - n))) with (disk_fs d1).
    exists bytes, metas'. split; [|done]. unfold move_ops, seg_files. case_decide as Hne.
    + unfold seg_data, seg_meta in *. rewrite Hne in *. done.
    + rewrite !(replay_rename_pair _ _ _ _ _ _ Hd1 Hm1) by congruence.
      split; repeat case_decide; first [done | congruence].
Qed.

(** ** Closing, dropping, creating *)
Definition seg_closed (s : Segment) : Segment :=
  mk_Segment (seg_mDataSizeLimit s) (seg_mDataOffset s) (seg_mMetaSizeLimit s)
    (seg_mMetaOffset s) (seg_mFirstIndex s) (seg_mLastIndex s) false.

Lemma closeActiveSegment_spec b d s es :
  seg_rep mCrypto b (disk_fs d) s es → seg_mIsActive s = true →
  Segment_closeActiveSegment d s = Ret (issue (move_ops s (seg_closed s)) d, seg_closed s) ∧
  seg_rep mCrypto b (replay (disk_fs d) (move_ops s (seg_closed s))) (seg_closed s) es.
Proof.
  intros Hr Ha. destruct (seg_rep_files _ _ _ _ Hr) as (cd & cm & Hd & Hm).
  assert (Hne : seg_name s ≠ seg_name (seg_closed s)) by (unfold seg_name; rewrite Ha; simpl; by intros [=]).
  unfold move_ops. rewrite decide_False by done. split.
  - unfold Segment_closeActiveSegment. rewrite Ha. simpl. fold (seg_closed s).
    by rewrite (rename_pair_spec d _ _ _ _ Hd Hm) by congruence.
  - apply (seg_rep_moved b (disk_fs d) _ s); [done| |done..].
    intros p. rewrite (replay_rename_pair _ _ _ _ _ _ Hd Hm) by congruence.
    destruct p; repeat case_decide; naive_solver.
Qed.

Definition drop_ops (s : Segment) (ts : Z) : list DiskOp :=
  rename_ops (SegmentFile (seg_name s)) (λ p, DroppedFile (seg_name s) p ts).

Lemma dropSegment_spec b d s es ts :
  seg_rep mCrypto b (disk_fs d) s es →
  dropSegment d s ts = Ret (issue (drop_ops s ts) d) ∧
  ∀ m p, replay (disk_fs d) (drop_ops s ts) !! SegmentFile m p =
    if decide (m = seg_name s) then None else disk_fs d !! SegmentFile m p.
Proof.
  intros Hr. destruct (seg_rep_files _ _ _ _ Hr) as (cd & cm & Hd & Hm). split.
  - unfold dropSegment. by rewrite (rename_pair_spec d _ _ _ _ Hd Hm) by congruence.
  - intros m p. unfold drop_ops. rewrite (replay_rename_pair _ _ _ _ _ _ Hd Hm) by congruence.
    destruct p; repeat case_decide; naive_solver.
Qed.

Definition create_ops (s : Segment) : list DiskOp :=
  [OpenTrunc (seg_data s); SetSize (seg_data s) (seg_mDataSizeLimit s);
   OpenTrunc (seg_meta s); SetSize (seg_meta s) (seg_mMetaSizeLimit s)].

(** A size the system accepts. *)
Definition page_aligned (size : Z) : Prop := 0 < size ∧ size `mod` kPageSize = 0.

Lemma create_spec d first dl ml :
  page_aligned dl → page_aligned ml → 1 ≤ first →
  let s := Segment_new_active first dl ml in
  createActiveSegment d s = Ret (issue (create_ops s) d) ∧
  seg_rep mCrypto true (replay (disk_fs d) (create_ops s)) s [] ∧
  ∀ n, n ≠ seg_data s → n ≠ seg_meta s → replay (disk_fs d) (create_ops s) !! n = disk_fs d !! n.
Proof.
  intros [Hd0 Hd] [Hm0 Hm] Hf s. split_and!.
  - unfold createActiveSegment, create_mapped, setFileSize, mmap_length. simpl.
    rewrite (proj2 (Z.eqb_eq _ _) Hd), (proj2 (Z.eqb_eq _ _) Hm). simpl.
    rewrite (proj2 (Z.ltb_lt 0 dl)), (proj2 (Z.ltb_lt 0 ml)) by done. simpl.
    rewrite !emit_issue, !issue_app. done.
  - exists ∅, ∅. split_and!; [|split; simpl; try done; unfold sizeof_LogMeta, Segment.total_bytes; simpl; lia|done|by intros p _].
    unfold seg_files, replay, create_ops, s. simpl. split.
    + rewrite lookup_alter_ne, lookup_insert_ne, lookup_alter_eq, lookup_insert_eq by done. done.
    + rewrite lookup_alter_eq, lookup_insert_eq. done.
  - intros n Hn1 Hn2. unfold replay, create_ops. simpl.
    rewrite lookup_alter_ne, lookup_insert_ne, lookup_alter_ne, lookup_insert_ne by done. done.
Qed.
End segment.
