(* ===== verification/SegmentCrash.v ===== *)
(** * A crash while a segment appends

    The entries a segment already holds survive, and of the new ones a prefix:
    data is made durable before the records that refer to it. *)
From Stdlib Require Import Ascii String.
From stdpp Require Import pretty.
From S2P Require Import Prelude Protobuf Crypto Numeric RaftLog Disk DiskProps Segment SegmentProps SegmentOps.
Open Scope Z_scope.

(** ** What survives *)
Lemma survive_nil_inv surv : survive [] surv → surv = [].
Proof. by inversion 1. Qed.

(** Writes that a later sync covers survive whole, and so does the sync. *)
Lemma survive_synced ws n lo hi rest surv :
  Forall (λ op, covers op (Sync n lo hi) = true) ws →
  survive (ws ++ Sync n lo hi :: rest) surv → ∃ surv', surv = ws ++ Sync n lo hi :: surv' ∧ survive rest surv'.
Proof.
  intros Hws. revert surv. induction Hws as [|op ws Hop _ IH]; intros surv; simpl.
  - inversion 1 as [|? ? surv1 Hs|? ? frags surv1 Hm|]; subst; [eauto|discriminate].
  - inversion 1 as [|? ? surv1 Hs|? ? frags surv1 _ Hn|? ? ? surv1 Hs]; subst.
    + destruct (IH _ Hs) as (surv' & -> & ?). eauto.
    + exfalso. rewrite existsb_app in Hn. simpl in Hn. rewrite Hop in Hn. by rewrite orb_true_r in Hn.
    + discriminate.
Qed.

(** An append opens no file. *)
Lemma opened_append `{Proto LogEntry} k s off pos new ms : opened (take k (append_ops s off pos new ms)) = [].
Proof.
  assert (Hall : Forall (λ op, match op with WriteData _ _ _ | WriteRecords _ _ _ | Sync _ _ _ => True | _ => False end)
    (append_ops s off pos new ms)).
  { unfold append_ops. apply Forall_app. split; [|by repeat constructor]. generalize off.
    induction new as [|e new IH]; intros o; simpl; [constructor|]. by constructor. }
  apply (Forall_take _ k) in Hall. unfold opened. induction Hall as [|op ops Hop _ IH]; [done|]. cbn [omap list_omap]. rewrite IH.
  by destruct op.
Qed.

(** Pieces of data writes behind [lo]. *)
Definition data_piece (n : FileName) (lo : Z) (op : DiskOp) : Prop :=
  ∃ off s, op = WriteData n off s ∧ lo ≤ off.

Lemma survive_data_pieces n lo ops surv :
  Forall (data_piece n lo) ops → survive ops surv → Forall (data_piece n lo) surv.
Proof.
  intros Hall Hs. induction Hs as [|op ops surv _ IH|op ops frags surv _ _ Hf _ IH|from to ops surv _ IH]; [done| | |];
    apply Forall_cons in Hall as [Hop Hall].
  - constructor; [done|by apply IH].
  - apply Forall_app. split; [|by apply IH]. destruct Hop as (off & s & -> & Hlo).
    eapply Forall_impl; [exact Hf|]. intros [] Hx; try done. destruct Hx as (-> & i & c & _ & -> & ->).
    eexists _, _. split; [done|lia].
  - by destruct Hop as (? & ? & ? & _).
Qed.

Lemma replay_data_pieces n lo ops fs dl bytes :
  fs !! n = Some (DataContent dl bytes) → Forall (data_piece n lo) ops →
  ∃ bytes', replay fs ops = <[n := DataContent dl bytes']> fs ∧ ∀ i, i < lo → byte_at bytes' i = byte_at bytes i.
Proof.
  intros Hn Hall. revert fs bytes Hn. induction Hall as [|op ops (off & s & -> & Hlo) _ IH]; intros fs bytes Hn.
  { exists bytes. split; [|done]. by rewrite insert_id. }
  destruct (IH (exec_op fs (WriteData n off s)) (write_bytes bytes off s)) as (bytes' & Hr & Hb).
  { simpl. by rewrite lookup_alter_eq, Hn. }
  exists bytes'. split.
  - unfold replay in *. simpl in *. rewrite Hr. apply map_eq. intros n'. destruct (decide (n = n')) as [->|].
    + by rewrite !lookup_insert_eq.
    + by rewrite !lookup_insert_ne, lookup_alter_ne by done.
  - intros i Hi. rewrite Hb by done. apply write_bytes_outside. lia.
Qed.

(** The records after some of a write has reached the disk: every record is the
    old one or the new one. *)
Definition partly_written (metas metas' : gmap Z LogMeta) (pos : Z) (ms : list LogMeta) : Prop :=
  (∀ p, p < pos → record_at metas' p = record_at metas p) ∧
  ∀ k, record_at metas' (pos + Z.of_nat k) = record_at metas (pos + Z.of_nat k) ∨
       ms !! k = Some (record_at metas' (pos + Z.of_nat k)).

Lemma partly_written_whole metas pos ms : partly_written metas (write_records metas pos ms) pos ms.
Proof.
  split; [intros p Hp; apply write_records_outside; lia|]. intros k.
  destruct (ms !! k) as [m|] eqn:Ek.
  - right. f_equal. symmetry. by apply write_records_inside.
  - left. apply write_records_outside. apply lookup_ge_None in Ek. lia.
Qed.

Lemma replay_record_pieces n pos ms frags fs ml metas0 metas :
  fs !! n = Some (MetaContent ml metas) → partly_written metas0 metas pos ms →
  Forall (fragment (WriteRecords n pos ms)) frags →
  ∃ metas', replay fs frags = <[n := MetaContent ml metas']> fs ∧ partly_written metas0 metas' pos ms.
Proof.
  intros Hn Hp Hall. revert fs metas Hn Hp. induction Hall as [|op ops Hop _ IH]; intros fs metas Hn Hp.
  { exists metas. split; [|done]. by rewrite insert_id. }
  destruct op as [| | |n' pos' ms'| | |]; try done. destruct Hop as (-> & i & m & Hi & -> & ->).
  destruct (IH (exec_op fs (WriteRecords n (pos + Z.of_nat i) [m])) (<[pos + Z.of_nat i := m]> metas))
    as (metas' & Hr & Hp').
  - simpl. by rewrite lookup_alter_eq, Hn.
  - destruct Hp as [H1 H2]. split.
    + intros p ?. rewrite record_at_insert, decide_False by lia. by apply H1.
    + intros k. rewrite record_at_insert. case_decide as Hk; [|apply H2]. right.
      replace k with i by lia. done.
  - exists metas'. split; [|done]. unfold replay in *. simpl in *. rewrite Hr. apply map_eq. intros n'.
    destruct (decide (n = n')) as [->|].
    + by rewrite !lookup_insert_eq.
    + by rewrite !lookup_insert_ne, lookup_alter_ne by done.
Qed.

Section segment.
Context `{Proto LogEntry} `{OpenSSL}.
Context (mCrypto : CryptoUtil).

(** The scan finds a prefix of what was being written. *)
Lemma torn_prefix bytes full metas' first off pos new :
  1 ≤ first → 0 ≤ pos → holds mCrypto bytes full first off pos new →
  (∀ k, meta_index (record_at metas' (pos + Z.of_nat k)) = 0 ∨
        (k < length new)%nat ∧ record_at metas' (pos + Z.of_nat k) = record_at full (pos + Z.of_nat k)) →
  ∃ n, (n ≤ length new)%nat ∧ holds mCrypto bytes metas' first off pos (take n new) ∧
    meta_index (record_at metas' (pos + Z.of_nat n)) ≠ first + (pos + Z.of_nat n).
Proof.
  intros Hf. revert off pos. induction new as [|e new IH]; intros off pos Hpos Hh Hrec.
  { exists 0%nat. split; [done|]. split; [done|]. destruct (Hrec 0%nat) as [Hz|[? _]]; [lia|simpl in *; lia]. }
  destruct (Hrec 0%nat) as [Hz|[_ He]].
  { exists 0%nat. split; [simpl; lia|]. split; [done|]. lia. }
  destruct Hh as [(Hi & Hr & Hs) Hh].
  destruct (IH (off + ByteSizeLong e) (pos + 1)) as (n & Hn & Hp & Hstop); [lia|done| |].
  - intros k. replace (pos + 1 + Z.of_nat k) with (pos + Z.of_nat (S k)) by lia.
    destruct (Hrec (S k)) as [|[? ?]]; [by left|right; simpl in *; split; [lia|done]].
  - exists (S n). split; [simpl; lia|]. split.
    + simpl. split; [|done]. split_and!; [done|done|]. rewrite Z.add_0_r in He. by rewrite He.
    + replace (pos + Z.of_nat (S n)) with (pos + 1 + Z.of_nat n) by lia. done.
Qed.

Lemma data_writes_covered n off es :
  Forall (λ op, covers op (Sync n off (off + total_bytes es)) = true) (data_writes n off es).
Proof.
  assert (Hgen : ∀ lo, lo ≤ off → Forall (λ op, covers op (Sync n lo (off + total_bytes es)) = true) (data_writes n off es)).
  { revert off. induction es as [|e es IH]; intros off lo Hlo; simpl; [constructor|].
    rewrite total_bytes_cons. pose proof (total_bytes_nonneg es). pose proof (ByteSizeLong_nonneg e). constructor.
    - unfold covers. rewrite bool_decide_true by done. change (Z.of_nat (String.length (SerializeAsString e))) with (ByteSizeLong e).
      by rewrite !(proj2 (Z.leb_le _ _)) by lia.
    - rewrite Z.add_assoc. apply IH. lia. }
  by apply Hgen.
Qed.

Lemma data_writes_pieces n off es : Forall (data_piece n off) (data_writes n off es).
Proof.
  assert (Hgen : ∀ lo, lo ≤ off → Forall (data_piece n lo) (data_writes n off es)); [|by apply Hgen].
  revert off. induction es as [|e es IH]; intros off lo Hlo; simpl; [constructor|].
  pose proof (ByteSizeLong_nonneg e). constructor; [by eexists _, _|]. apply IH. lia.
Qed.

(** The last two operations of an append: whichever part is left. *)
Lemma survive_records n pos ms hi j surv fs ml metas :
  pos + Z.of_nat (length ms) ≤ hi → fs !! n = Some (MetaContent ml metas) →
  survive (take j [WriteRecords n pos ms; Sync n pos hi]) surv →
  ∃ metas', replay fs surv = <[n := MetaContent ml metas']> fs ∧ partly_written metas metas' pos ms.
Proof.
  intros Hhi Hn Hs.
  assert (Hwhole : ∃ metas', exec_op fs (WriteRecords n pos ms) = <[n := MetaContent ml metas']> fs ∧
    partly_written metas metas' pos ms).
  { eexists. split; [|apply partly_written_whole]. simpl. apply map_eq. intros n'.
    destruct (decide (n = n')) as [->|]; [by rewrite lookup_alter_eq, lookup_insert_eq, Hn|].
    by rewrite lookup_alter_ne, lookup_insert_ne by done. }
  assert (Hnone : partly_written metas metas pos ms) by (split; [done|intros k; by left]).
  destruct j as [|[|j]]; simpl in Hs.
  - apply survive_nil_inv in Hs as ->. exists metas. split; [by rewrite insert_id|done].
  - inversion Hs as [|? ? surv1 Hs1|? ? frags surv1 _ _ Hf Hs1|]; subst; apply survive_nil_inv in Hs1 as ->.
    + exact Hwhole.
    + rewrite app_nil_r. by apply (replay_record_pieces n pos ms frags fs ml metas metas).
  - assert (Hcov : Forall (λ op, covers op (Sync n pos hi) = true) [WriteRecords n pos ms]).
    { constructor; [|constructor]. simpl. rewrite bool_decide_true by done. by rewrite !(proj2 (Z.leb_le _ _)) by lia. }
    rewrite take_nil in Hs. destruct (survive_synced [WriteRecords n pos ms] _ _ _ _ _ Hcov Hs) as (surv' & -> & Hs').
    apply survive_nil_inv in Hs' as ->. exact Hwhole.
Qed.

Lemma append_crash fs s es new ms img :
  seg_rep mCrypto true fs s es → seg_mIsActive s = true →
  contiguous (seg_mLastIndex s + 1) new → fits s new → metas_for mCrypto (total_bytes es) new ms →
  crash_image fs (append_ops s (total_bytes es) (Z.of_nat (length es)) new ms) img →
  ∃ n, (n ≤ length new)%nat ∧
    seg_rep mCrypto false img (seg_grown s (take n new)) (es ++ take n new) ∧
    ∀ f, f ≠ seg_data s → f ≠ seg_meta s → img !! f = fs !! f.
Proof.
  intros (bytes & metas & [Hd Hm] & Ho & Hh & Ht) Ha Hc [Hfm Hfd] Hms (k & surv & Hs & Himg).
  rewrite opened_append in Himg. apply same_but_nil in Himg as ->.
  fold (seg_data s) in Hd. fold (seg_meta s) in Hm.
  pose proof (data_parts_ne s) as Hne. pose proof (metas_for_length _ _ _ _ Hms) as Hlen.
  assert (En : ∀ l, seg_name (seg_grown s l) = seg_name s) by (intros l; unfold seg_name; by rewrite Ha).
  pose proof (so_dataOffset _ _ Ho). pose proof (so_metaOffset _ _ Ho). pose proof (so_first _ _ Ho) as Hfirst.
  pose proof (total_bytes_nonneg new) as Hnew. pose proof (so_last _ _ Ho) as El. unfold append_ops in Hs.
  assert (Hok : ∀ n, (n ≤ length new)%nat → seg_ok (seg_grown s (take n new)) (es ++ take n new)).
  { intros n Hn. pose proof (take_total_le new n). destruct Ho. unfold sizeof_LogMeta in *.
    split; simpl; rewrite ?length_app, ?total_bytes_app, ?length_take; unfold sizeof_LogMeta; try done; lia. }
  set (ws := data_writes (seg_data s) (total_bytes es) new) in *.
  destruct (decide (k ≤ length ws)%nat) as [Hk|Hk].
  - rewrite take_app_le in Hs by done.
    assert (Hp : Forall (data_piece (seg_data s) (total_bytes es)) surv).
    { apply (survive_data_pieces _ _ (take k ws)); [|done]. apply Forall_take, data_writes_pieces. }
    destruct (replay_data_pieces _ _ _ _ _ _ Hd Hp) as (bytes' & Hrep & Hb).
    exists 0%nat. split; [lia|]. split.
    + exists bytes', metas. rewrite En, take_0, app_nil_r. split_and!.
      * rewrite Hrep. split; [by rewrite lookup_insert_eq|by rewrite lookup_insert_ne].
      * specialize (Hok 0%nat ltac:(lia)). by rewrite take_0, app_nil_r in Hok.
      * simpl. apply (holds_ext _ bytes metas); [done|intros i ?; symmetry; apply Hb; lia|done].
      * by apply (tail_ok_stops true); [|lia|].
    + intros f Hf1 Hf2. by rewrite Hrep, lookup_insert_ne.
  - rewrite take_app_ge in Hs by lia. destruct (k - length ws)%nat as [|j] eqn:Ej; [lia|]. simpl in Hs.
    destruct (survive_synced ws _ _ _ _ _ (data_writes_covered _ _ _) Hs) as (surv' & -> & Hs').
    assert (Hrep : replay fs (ws ++ Sync (seg_data s) (total_bytes es) (total_bytes es + total_bytes new) :: surv') =
      replay (<[seg_data s := DataContent (seg_mDataSizeLimit s) (bytes_written bytes (total_bytes es) new)]> fs) surv').
    { unfold ws. by rewrite replay_app, (replay_data_writes _ _ _ _ _ _ Hd). }
    destruct (survive_records (seg_meta s) (Z.of_nat (length es)) ms (Z.of_nat (length es) + Z.of_nat (length new)) j surv'
      (<[seg_data s := DataContent (seg_mDataSizeLimit s) (bytes_written bytes (total_bytes es) new)]> fs)
      (seg_mMetaSizeLimit s) metas) as (metas' & Hrep' & Hlow & Hrec); [lia|by rewrite lookup_insert_ne|exact Hs'|].
    set (full := write_records metas (Z.of_nat (length es)) ms).
    assert (Hfull : holds mCrypto (bytes_written bytes (total_bytes es) new) full (seg_mFirstIndex s) (total_bytes es)
      (Z.of_nat (length es)) new).
    { apply (holds_appended _ _ _ _ _ _ _ ms); [|done|intros i m Hi; by apply write_records_inside].
      replace (seg_mFirstIndex s + Z.of_nat (length es)) with (seg_mLastIndex s + 1) by lia. done. }
    destruct (torn_prefix _ _ metas' _ _ _ _ Hfirst (Nat2Z.is_nonneg _) Hfull) as (n & Hn & Hpre & Hstop).
    { intros i. destruct (Hrec i) as [->|Hi]; [left; apply Ht; lia|right]. split.
      - apply lookup_lt_Some in Hi. lia.
      - symmetry. by apply write_records_inside. }
    exists n. split; [done|]. split.
    + exists (bytes_written bytes (total_bytes es) new), metas'. rewrite En, Hrep, Hrep'. split_and!.
      * split; [by rewrite lookup_insert_ne, lookup_insert_eq|by rewrite lookup_insert_eq].
      * by apply Hok.
      * apply (holds_extend _ bytes metas); [done|intros i ?; symmetry; apply bytes_written_outside; lia
          |intros p ?; symmetry; by apply Hlow|done].
      * intros _. rewrite length_app, length_take, Nat.min_l, Nat2Z.inj_add by done. exact Hstop.
    + intros f Hf1 Hf2. by rewrite Hrep, Hrep', !lookup_insert_ne by done.
Qed.
End segment.
