(* ===== verification/SegmentLog.v ===== *)
(** * The segmented Raft log

    src/src/infra/raft/storage/SegmentLog.{h,cpp}: closed segments and one active
    segment, with the current term, the vote and the first index in three small
    files.  The mutex protects the containers from readers; the writers run on the
    one thread of the Raft main loop, so an operation is a function.  (Only
    [truncatePrefix] is called from the thread of the admin server; it changes
    the first index and, under the mutex, the map, and is taken as atomic.)

    [std::map<uint64_t, SegmentPtr>] is the list of its values in the order of
    the keys: the key of a segment is its first index.  A segment is reachable
    from the map or from [mActiveSegment], never from both, so the object behind
    a [SegmentPtr] is updated where it is stored. *)
From Stdlib Require Import Ascii String.
From stdpp Require Import pretty.
From S2P Require Import Prelude Protobuf Crypto Numeric RaftLog Disk Segment.
Open Scope Z_scope.

(** ** [std::map] keyed by the first index *)
Fixpoint smap_insert (s : Segment) (m : list Segment) : list Segment :=
  match m with
  | [] => [s]
  | t :: m' =>
      if seg_mFirstIndex s <? seg_mFirstIndex t then s :: m
      else if seg_mFirstIndex s =? seg_mFirstIndex t then s :: m'
      else t :: smap_insert s m'
  end.

Definition smap_contains (k : Z) (m : list Segment) : bool :=
  existsb (λ s, seg_mFirstIndex s =? k) m.

Definition smap_erase (k : Z) (m : list Segment) : list Segment :=
  filter (λ s, seg_mFirstIndex s ≠ k) m.

(** [--m.upper_bound(k)]; [None] where the iterator has no predecessor. *)
Definition smap_floor (k : Z) (m : list Segment) : option Segment :=
  last (filter (λ s, seg_mFirstIndex s ≤ k) m).

(** ** The state *)
Record SegmentLog := mk_SegmentLog {
  sl_mSegmentDataSizeLimit : Z;
  sl_mSegmentMetaSizeLimit : Z;
  sl_mFirstIndex : Z;
  sl_mLastIndex : Z;
  sl_mCurrentTerm : Z;
  sl_mVoteFor : Z;
  sl_mClosedSegments : list Segment;
  sl_mActiveSegment : option Segment }.

Definition with_last (i : Z) (l : SegmentLog) : SegmentLog :=
  mk_SegmentLog (sl_mSegmentDataSizeLimit l) (sl_mSegmentMetaSizeLimit l) (sl_mFirstIndex l) i
    (sl_mCurrentTerm l) (sl_mVoteFor l) (sl_mClosedSegments l) (sl_mActiveSegment l).

Definition with_first (i : Z) (l : SegmentLog) : SegmentLog :=
  mk_SegmentLog (sl_mSegmentDataSizeLimit l) (sl_mSegmentMetaSizeLimit l) i (sl_mLastIndex l)
    (sl_mCurrentTerm l) (sl_mVoteFor l) (sl_mClosedSegments l) (sl_mActiveSegment l).

Definition with_segments (closed : list Segment) (active : option Segment) (l : SegmentLog) : SegmentLog :=
  mk_SegmentLog (sl_mSegmentDataSizeLimit l) (sl_mSegmentMetaSizeLimit l) (sl_mFirstIndex l)
    (sl_mLastIndex l) (sl_mCurrentTerm l) (sl_mVoteFor l) closed active.

Definition with_meta (term vote : Z) (l : SegmentLog) : SegmentLog :=
  mk_SegmentLog (sl_mSegmentDataSizeLimit l) (sl_mSegmentMetaSizeLimit l) (sl_mFirstIndex l)
    (sl_mLastIndex l) term vote (sl_mClosedSegments l) (sl_mActiveSegment l).

(** ** MetaStorage *)
Definition persist (d : Disk) (f : Field) (value : Z) : result Disk :=
  setFileContentWithSync d f (pretty value).

(** [recoverCurrentTerm], [recoverVoteFor] and [recoverFirstIndex] differ in the
    file and in the initial value. *)
Definition initial_value (f : Field) : Z :=
  match f with current_term => 0 | vote_for => 0 | first_index => 1 end.

Definition recover_field (d : Disk) (f : Field) : result (Disk * Z) :=
  if fileExists (disk_fs d) (FieldFile f) then
    text ← getFileContent (disk_fs d) (FieldFile f);
    value ← stoull text;
    Ret (d, value)
  else
    d ← persist d f (initial_value f);
    Ret (d, initial_value f).

Definition SegmentLog_setCurrentTerm (d : Disk) (l : SegmentLog) (term : Z)
    : result (Disk * SegmentLog) :=
  d ← persist d current_term term; Ret (d, with_meta term (sl_mVoteFor l) l).

Definition SegmentLog_setVoteFor (d : Disk) (l : SegmentLog) (voteFor : Z)
    : result (Disk * SegmentLog) :=
  d ← persist d vote_for voteFor; Ret (d, with_meta (sl_mCurrentTerm l) voteFor l).

(** ** Start-up *)

(** [std::stoull] of a group of the match. *)
Definition list_file (path : string) (acc : list Segment * option Segment)
    : result (list Segment * option Segment) :=
  let '(closed, active) := acc in
  match regex_search closedSegmentRegex path with
  | Some [first; last] =>
      firstIndex ← stoull first;
      lastIndex ← stoull last;
      cassert (negb (smap_contains firstIndex closed));;
      Ret (smap_insert (Segment_found_closed firstIndex lastIndex) closed, active)
  | Some _ => Fail UndefinedBehaviour
  | None =>
      match regex_search activeSegmentRegex path with
      | Some [first] =>
          firstIndex ← stoull first;
          cassert (match active with Some _ => false | None => true end);;
          Ret (closed, Some (Segment_found_active firstIndex))
      | Some _ => Fail UndefinedBehaviour
      | None => Ret (closed, active)
      end
  end.

Definition listSegments (paths : list string) : result (list Segment * option Segment) :=
  foldM (λ acc path, list_file path acc) ([], None) paths.

(** One turn of the loop over the closed segments: those kept so far, of which
    the last one is [prevSegPtr], and [mLastIndex]. *)
Definition recover_closed (fs : FS) (firstIndex : Z) (acc : list Segment * Z) (s : Segment)
    : result (list Segment * Z) :=
  let '(kept, lastIndex) := acc in
  cassert (seg_mFirstIndex s <=? seg_mLastIndex s);;
  match last kept with
  | Some prev =>
      cassert (seg_mFirstIndex s =? seg_mLastIndex prev + 1);;
      s ← recoverActiveOrClosedSegment fs s;
      Ret (kept ++ [s], seg_mLastIndex s)
  | None =>
      cassert (seg_mFirstIndex s <=? firstIndex);;
      if seg_mLastIndex s <? firstIndex then Ret (kept, lastIndex)
      else
        s ← recoverActiveOrClosedSegment fs s;
        Ret (kept ++ [s], seg_mLastIndex s)
  end.

Definition recoverSegments (fs : FS) (l : SegmentLog) : result SegmentLog :=
  '(closed, lastIndex) ← foldM (recover_closed fs (sl_mFirstIndex l)) ([], sl_mLastIndex l)
                          (sl_mClosedSegments l);
  match sl_mActiveSegment l with
  | None => Ret (with_last lastIndex (with_segments closed None l))
  | Some s =>
      cassert (match last closed with
               | None => seg_mFirstIndex s <=? sl_mFirstIndex l
               | Some prev => seg_mFirstIndex s =? seg_mLastIndex prev + 1
               end);;
      s ← recoverActiveOrClosedSegment fs s;
      if seg_mLastIndex s <? sl_mFirstIndex l
      then Ret (with_last lastIndex (with_segments closed None l))
      else Ret (with_last (seg_mLastIndex s) (with_segments closed (Some s) l))
  end.

(** A new active segment after [mLastIndex]. *)
Definition new_active (d : Disk) (l : SegmentLog) : result (Disk * SegmentLog) :=
  let s := Segment_new_active (sl_mLastIndex l + 1) (sl_mSegmentDataSizeLimit l)
             (sl_mSegmentMetaSizeLimit l) in
  d ← createActiveSegment d s;
  Ret (d, with_segments (sl_mClosedSegments l) (Some s) l).

Definition ensure_active (d : Disk) (l : SegmentLog) : result (Disk * SegmentLog) :=
  match sl_mActiveSegment l with Some _ => Ret (d, l) | None => new_active d l end.

(** [readdir] is what [directory_iterator] yields of the directory, in an order
    of its own. *)
Definition SegmentLog_init (logDir : string) (readdir : FS → list FileName)
    (segmentDataSizeLimit segmentMetaSizeLimit : Z) (d : Disk) : result (Disk * SegmentLog) :=
  '(d, term) ← recover_field d current_term;
  '(d, vote) ← recover_field d vote_for;
  '(d, firstIndex) ← recover_field d first_index;
  '(closed, active) ← listSegments ((λ n, logDir +:+ "/" +:+ print n) <$> readdir (disk_fs d));
  l ← recoverSegments (disk_fs d)
        (mk_SegmentLog segmentDataSizeLimit segmentMetaSizeLimit firstIndex 0 term vote closed active);
  let l := if sl_mLastIndex l =? 0 then with_last (sl_mFirstIndex l - 1) l else l in
  ensure_active d l.

(** ** Reading *)
Definition getSegment (l : SegmentLog) (index : Z) : result (option Segment) :=
  if isEmpty (sl_mFirstIndex l) (sl_mLastIndex l) then Ret None
  else if (index <? sl_mFirstIndex l) || (sl_mLastIndex l <? index) then Ret None
  else
    let from_closed :=
      cassert (negb (Nat.eqb (length (sl_mClosedSegments l)) 0));;
      match smap_floor index (sl_mClosedSegments l) with
      | Some s => Ret (Some s)
      | None => Fail UndefinedBehaviour
      end in
    match sl_mActiveSegment l with
    | Some s => if seg_mFirstIndex s <=? index then Ret (Some s) else from_closed
    | None => from_closed
    end.

Definition SegmentLog_getTerm (fs : FS) (l : SegmentLog) (index : Z) : result (option Z) :=
  if index =? sl_mFirstIndex l - 1 then Ret (Some 0)
  else
    segmentPtr ← getSegment l index;
    match segmentPtr with Some s => Segment_getTerm fs s index | None => Ret None end.

(** ** Truncation *)

(** The loop over the closed segments: what is left of them.  It stops at the
    first segment that reaches [firstIndexKept]. *)
Fixpoint erase_prefix (firstIndexKept : Z) (closed : list Segment) : list Segment :=
  match closed with
  | [] => []
  | s :: rest =>
      if seg_mLastIndex s <? firstIndexKept then erase_prefix firstIndexKept rest else closed
  end.

Definition SegmentLog_truncatePrefix (d : Disk) (l : SegmentLog) (firstIndexKept : Z)
    : result (Disk * SegmentLog) :=
  if firstIndexKept <=? sl_mFirstIndex l then Ret (d, l)
  else
    d ← persist d first_index firstIndexKept;
    let l := with_first firstIndexKept l in
    let closed := erase_prefix firstIndexKept (sl_mClosedSegments l) in
    let l := with_segments closed (sl_mActiveSegment l) l in
    match closed, sl_mActiveSegment l with
    | _ :: _, _ => Ret (d, l)
    | [], None => Fail AssertFailure
    | [], Some s =>
        if seg_mLastIndex s <? firstIndexKept
        then new_active d (with_last (sl_mFirstIndex l - 1) l)
        else Ret (d, l)
    end.

(** The loop from [rbegin]: the segments to drop, and the one to cut. *)
Fixpoint find_last_kept (lastIndexKept : Z) (reversed : list Segment)
    : list Segment * option Segment :=
  match reversed with
  | [] => ([], None)
  | s :: rest =>
      if seg_mFirstIndex s <=? lastIndexKept then ([], Some s)
      else let '(dropped, last) := find_last_kept lastIndexKept rest in (s :: dropped, last)
  end.

(** The first critical section: the log, [dropped], [lastSegment] and whether
    it is [mActiveSegment]. *)
Definition select_dropped (l : SegmentLog) (lastIndexKept : Z)
    : result (SegmentLog * list Segment * option Segment * bool) :=
  match sl_mActiveSegment l with
  | None => Fail AssertFailure
  | Some active =>
      if seg_mFirstIndex active <=? lastIndexKept then Ret (l, [], Some active, true)
      else
        let '(tail, lastSegment) := find_last_kept lastIndexKept (rev (sl_mClosedSegments l)) in
        let dropped := active :: tail in
        let closed := foldl (λ m s, smap_erase (seg_mFirstIndex s) m) (sl_mClosedSegments l) dropped in
        let l := with_segments closed None l in
        let l := if Nat.eqb (length closed) 0 then with_first (sl_mLastIndex l + 1) l else l in
        Ret (l, dropped, lastSegment, false)
  end.

(** [lastSegment] has changed: the object is where it was found. *)
Definition store_segment (l : SegmentLog) (is_active : bool) (s : Segment) : SegmentLog :=
  if is_active then with_segments (sl_mClosedSegments l) (Some s) l
  else with_segments (smap_insert s (sl_mClosedSegments l)) (sl_mActiveSegment l) l.

Definition forget_segment (l : SegmentLog) (is_active : bool) (s : Segment) : SegmentLog :=
  if is_active then with_segments (sl_mClosedSegments l) None l
  else with_segments (smap_erase (seg_mFirstIndex s) (sl_mClosedSegments l)) (sl_mActiveSegment l) l.

(** [now f]: the clock when the segment that starts at [f] is dropped. *)
Definition SegmentLog_truncateSuffix (now : Z → Z) (d : Disk) (l : SegmentLog) (lastIndexKept : Z)
    : result (Disk * SegmentLog) :=
  if sl_mLastIndex l <=? lastIndexKept then Ret (d, l)
  else
    '(l, dropped, lastSegment, is_active) ← select_dropped (with_last lastIndexKept l) lastIndexKept;
    '(d, l, dropped) ←
      match lastSegment with
      | None => Ret (d, l, dropped)
      | Some s =>
          if sl_mFirstIndex l <=? sl_mLastIndex l then
            '(d, s) ← Segment_truncateSuffix d s lastIndexKept;
            Ret (d, store_segment l is_active s, dropped)
          else Ret (d, forget_segment l is_active s, dropped ++ [s])
      end;
    d ← foldM (λ d s, dropSegment d s (now (seg_mFirstIndex s))) d dropped;
    ensure_active d l.

(** ** Appending *)
Definition rollActiveSegment (d : Disk) (l : SegmentLog) : result (Disk * SegmentLog) :=
  match sl_mActiveSegment l with
  | None => Fail UndefinedBehaviour
  | Some active =>
      '(d, s) ← Segment_closeActiveSegment d active;
      new_active d (with_segments (smap_insert s (sl_mClosedSegments l)) None l)
  end.

(** The public [closeActiveSegment]: the closed object stays [mActiveSegment]. *)
Definition SegmentLog_closeActiveSegment (d : Disk) (l : SegmentLog) : result (Disk * SegmentLog) :=
  match sl_mActiveSegment l with
  | None => Fail UndefinedBehaviour
  | Some active =>
      '(d, s) ← Segment_closeActiveSegment d active;
      Ret (d, with_segments (sl_mClosedSegments l) (Some s) l)
  end.

Section segment_log.
Context `{Proto LogEntry} `{OpenSSL}.
Context (mCrypto : CryptoUtil).

Definition SegmentLog_getLatestSecKeyVersion (_ : SegmentLog) : Z := getLatestVersion mCrypto.

(** Roll if needed, append to the active segment. *)
Definition append_to_active (d : Disk) (l : SegmentLog) (entries : list LogEntry)
    : result (Disk * SegmentLog) :=
  match sl_mActiveSegment l with
  | None => Fail AssertFailure
  | Some active =>
      roll ← shouldRoll active entries;
      '(d, l) ← (if roll : bool then rollActiveSegment d l else Ret (d, l));
      match sl_mActiveSegment l with
      | None => Fail UndefinedBehaviour
      | Some active =>
          '(d, s) ← Segment_appendEntries mCrypto d active entries;
          Ret (d, with_segments (sl_mClosedSegments l) (Some s) l)
      end
  end.

Definition SegmentLog_appendEntry (d : Disk) (l : SegmentLog) (entry : LogEntry)
    : result (Disk * SegmentLog * bool) :=
  if negb (le_index entry =? sl_mLastIndex l + 1) then Ret (d, l, false)
  else
    '(d, l) ← append_to_active d l [entry];
    Ret (d, with_last (sl_mLastIndex l + 1) l, true).

Definition SegmentLog_appendEntries (d : Disk) (l : SegmentLog) (entries : list LogEntry)
    : result (Disk * SegmentLog * bool) :=
  match entries with
  | [] => Ret (d, l, true)
  | entry0 :: _ =>
      if negb (le_index entry0 =? sl_mLastIndex l + 1) then Ret (d, l, false)
      else
        '(d, l) ← append_to_active d l entries;
        Ret (d, with_last (sl_mLastIndex l + Z.of_nat (length entries)) l, true)
  end.

Definition SegmentLog_getEntry (fs : FS) (l : SegmentLog) (recent : Z → Z) (index : Z)
    : result (option LogEntry) :=
  segmentPtr ← getSegment l index;
  match segmentPtr with
  | Some s => Segment_getEntry mCrypto fs s recent index
  | None => Ret None
  end.

(** [entries] is the vector passed in: a heartbeat leaves it alone. *)
Definition SegmentLog_getEntries (fs : FS) (l : SegmentLog) (recent : Z → Z)
    (startIndex maxLenInBytes maxBatchSize : Z) (entries : list LogEntry) : result (Z * list LogEntry) :=
  let lastIndex := sl_mLastIndex l in
  if lastIndex <? startIndex then
    cassert (startIndex =? lastIndex + 1);; Ret (0, entries)
  else
    segmentPtr ← getSegment l startIndex;
    match segmentPtr with
    | Some s => Segment_getEntries mCrypto fs s recent startIndex maxLenInBytes maxBatchSize
    | None => Ret (0, entries)
    end.
End segment_log.
