(* ===== verification/SegmentLogProps.v ===== *)
(** * The representation of a segmented log

    [log_rep] relates the state of [SegmentLog] and the directory to the parts
    the segments hold; [log_view] is the sequence they make.  Every operation
    that changes the log keeps the representation and acts on the view as
    [LogView] says. *)
From Stdlib Require Import Ascii String.
From stdpp Require Import pretty.
From S2P Require Import Prelude Protobuf Crypto Numeric RaftLog Disk DiskProps Segment SegmentProps SegmentOps SegmentLog.
Open Scope Z_scope.

(** ** [std::map] *)
Lemma smap_insert_above s m :
  (∀ t, t ∈ m → seg_mFirstIndex t < seg_mFirstIndex s) → smap_insert s m = m ++ [s].
Proof.
  induction m as [|t m IH]; intros Hm; [done|]. simpl. pose proof (Hm t ltac:(left)).
  rewrite (proj2 (Z.ltb_ge _ _)), (proj2 (Z.eqb_neq _ _)) by lia. f_equal. apply IH. intros u Hu. apply Hm. by right.
Qed.

Lemma smap_insert_same s s' m :
  (∀ t, t ∈ m → seg_mFirstIndex t < seg_mFirstIndex s) → seg_mFirstIndex s' = seg_mFirstIndex s →
  smap_insert s' (m ++ [s]) = m ++ [s'].
Proof.
  intros Hm Hs. induction m as [|t m IH]; simpl.
  - by rewrite Hs, Z.ltb_irrefl, Z.eqb_refl.
  - pose proof (Hm t ltac:(left)). rewrite (proj2 (Z.ltb_ge _ _)), (proj2 (Z.eqb_neq _ _)) by lia. f_equal.
    apply IH. intros u Hu. apply Hm. by right.
Qed.

Lemma smap_erase_all m ds :
  foldl (λ m s, smap_erase (seg_mFirstIndex s) m) m ds =
  filter (λ s, Forall (λ t, seg_mFirstIndex s ≠ seg_mFirstIndex t) ds) m.
Proof.
  revert m. induction ds as [|t ds IH]; intros m; simpl.
  - symmetry. apply filter_keeps_all. by constructor.
  - rewrite IH. unfold smap_erase. rewrite list_filter_filter. apply list_filter_iff.
    intros s. rewrite Forall_cons. tauto.
Qed.

Lemma erase_prefix_spec k m :
  ∃ pre post, m = pre ++ post ∧ erase_prefix k m = post ∧ Forall (λ s, seg_mLastIndex s < k) pre ∧
    match post with [] => True | s :: _ => k ≤ seg_mLastIndex s end.
Proof.
  induction m as [|s m (pre & post & -> & He & Hpre & Hpost)]; simpl; [by exists [], []|].
  destruct (Z.ltb_spec (seg_mLastIndex s) k).
  - exists (s :: pre), post. split_and!; [done|done|by constructor|done].
  - exists [], (s :: pre ++ post). done.
Qed.

(** The loop from the end stops at the last segment that starts at or below [k]. *)

Lemma find_last_kept_none k m :
  (∀ s, s ∈ m → k < seg_mFirstIndex s) → find_last_kept k m = (m, None).
Proof.
  induction m as [|s m IH]; intros Hm; [done|]. simpl. pose proof (Hm s ltac:(left)).
  rewrite (proj2 (Z.leb_gt _ _)) by done. rewrite IH; [done|]. intros t Ht. apply Hm. by right.
Qed.

Lemma find_last_kept_some k m s rest :
  (∀ t, t ∈ m → k < seg_mFirstIndex t) → seg_mFirstIndex s ≤ k →
  find_last_kept k (m ++ s :: rest) = (m, Some s).
Proof.
  intros Hm Hs. induction m as [|t m IH]; simpl.
  - by rewrite (proj2 (Z.leb_le _ _)).
  - pose proof (Hm t ltac:(left)). rewrite (proj2 (Z.leb_gt _ _)) by done. rewrite IH; [done|].
    intros u Hu. apply Hm. by right.
Qed.

(** ** Parts *)
Definition part : Type := Segment * list LogEntry.

(** Consecutive parts, none empty, from index [i]. *)
Fixpoint chained (i : Z) (ps : list part) : Prop :=
  match ps with
  | [] => True
  | (s, es) :: ps => seg_mFirstIndex s = i ∧ es ≠ [] ∧ chained (i + Z.of_nat (length es)) ps
  end.

Definition part_entries (ps : list part) : list LogEntry := concat ps.*2.
Definition chain_end (i : Z) (ps : list part) : Z := i + Z.of_nat (length (part_entries ps)).

Lemma part_entries_app ps qs : part_entries (ps ++ qs) = part_entries ps ++ part_entries qs.
Proof. unfold part_entries. by rewrite fmap_app, concat_app. Qed.

Lemma part_entries_one s es : part_entries [(s, es)] = es.
Proof. apply app_nil_r. Qed.

Lemma chain_end_app i ps qs : chain_end i (ps ++ qs) = chain_end (chain_end i ps) qs.
Proof. unfold chain_end. rewrite part_entries_app, length_app. lia. Qed.

Lemma chain_end_cons i s es ps : chain_end i ((s, es) :: ps) = chain_end (i + Z.of_nat (length es)) ps.
Proof.
  change ((s, es) :: ps) with ([(s, es)] ++ ps). rewrite chain_end_app. unfold chain_end at 2. by rewrite part_entries_one.
Qed.

Lemma chain_end_nil i : chain_end i [] = i.
Proof. unfold chain_end, part_entries. simpl. lia. Qed.

Lemma chain_end_le i ps : i ≤ chain_end i ps.
Proof. unfold chain_end. lia. Qed.

Lemma chained_app i ps qs : chained i (ps ++ qs) ↔ chained i ps ∧ chained (chain_end i ps) qs.
Proof.
  revert i. induction ps as [|[s es] ps IH]; intros i; simpl.
  - unfold chain_end. simpl. rewrite Z.add_0_r. tauto.
  - rewrite IH, chain_end_cons. tauto.
Qed.

Lemma chained_first i ps s es :
  chained i ps → (s, es) ∈ ps → i ≤ seg_mFirstIndex s < chain_end i ps.
Proof.
  revert i. induction ps as [|[t fs] ps IH]; intros i Hc Hin; [set_solver|].
  destruct Hc as (Ht & Hne & Hc). rewrite chain_end_cons. pose proof (chain_end_le (i + Z.of_nat (length fs)) ps).
  assert (0 < length fs)%nat by (destruct fs; [done|simpl; lia]).
  apply elem_of_cons in Hin as [[= -> ->]|Hin]; [lia|]. specialize (IH _ Hc Hin). lia.
Qed.

Lemma elem_of_firsts (ps : list part) s : s ∈ ps.*1 → ∃ es, (s, es) ∈ ps.
Proof. intros ([t es] & -> & Hin)%list_elem_of_fmap. eauto. Qed.

(** The part index [k] lies in. *)
Lemma chain_split i ps k :
  chained i ps → i ≤ k < chain_end i ps →
  ∃ pre s es post, ps = pre ++ (s, es) :: post ∧ seg_mFirstIndex s ≤ k < seg_mFirstIndex s + Z.of_nat (length es) ∧
    seg_mFirstIndex s = chain_end i pre ∧
    (∀ t, t ∈ pre.*1 → seg_mFirstIndex t < seg_mFirstIndex s) ∧ (∀ t, t ∈ post.*1 → k < seg_mFirstIndex t).
Proof.
  revert i. induction ps as [|[s es] ps IH]; intros i Hc Hk; [rewrite chain_end_nil in Hk; lia|].
  destruct Hc as (Hs & Hne & Hc). rewrite chain_end_cons in Hk.
  destruct (decide (k < i + Z.of_nat (length es))).
  - exists [], s, es, ps. split_and!; [done|lia|lia|by rewrite chain_end_nil|set_solver|].
    intros t (fs & Hin)%elem_of_firsts. pose proof (chained_first _ _ _ _ Hc Hin). lia.
  - destruct (IH _ Hc) as (pre & t & fs & post & -> & Ht & Hf & Hpre & Hpost); [lia|].
    exists ((s, es) :: pre), t, fs, post. rewrite chain_end_cons.
    pose proof (chain_end_le (i + Z.of_nat (length es)) pre).
    assert (0 < length es)%nat by (destruct es; [done|simpl; lia]).
    split_and!; [done|lia|lia|done| |done]. intros u [->|Hu]%elem_of_cons; [simpl; lia|by apply Hpre].
Qed.

Section segment_log.
Context `{Proto LogEntry} `{OpenSSL}.
Context (mCrypto : CryptoUtil).

Definition closed_part (b : bool) (fs : FS) (p : part) : Prop :=
  seg_mIsActive p.1 = false ∧ seg_rep mCrypto b fs p.1 p.2.

Definition live (ps : list part) (active : Segment) : list SegmentName :=
  seg_name active :: (seg_name ∘ fst <$> ps).

(** Besides the files of the segments in use there are those of segments
    [truncatePrefix] has let go of: it leaves them in the directory. *)
Record directory (fs : FS) (first0 : Z) (names : list SegmentName) : Prop := {
  dir_named n : is_Some (fs !! n) → name_ok n;
  dir_segments n : is_Some (fs !! SegmentFile n PMeta) →
    n ∈ names ∨ ∃ f l, n = ClosedName f l ∧ 1 ≤ f ≤ l ∧ l < first0;
  dir_retained f l l' : l < first0 → l' < first0 →
    is_Some (fs !! SegmentFile (ClosedName f l) PMeta) →
    is_Some (fs !! SegmentFile (ClosedName f l') PMeta) → l = l' }.

Definition field_is (fs : FS) (f : Field) (v : Z) : Prop := fs !! FieldFile f = Some (TextContent (pretty v)).

Record log_rep (b : bool) (fs : FS) (l : SegmentLog) (first0 : Z) (ps : list part) (active : Segment)
    (es : list LogEntry) : Prop := {
  lr_closed : sl_mClosedSegments l = ps.*1;
  lr_active : sl_mActiveSegment l = Some active;
  lr_parts : Forall (closed_part b fs) ps;
  lr_chain : chained first0 ps;
  lr_is_active : seg_mIsActive active = true;
  lr_active_first : seg_mFirstIndex active = chain_end first0 ps;
  lr_active_rep : seg_rep mCrypto b fs active es;
  lr_last : sl_mLastIndex l = seg_mLastIndex active;
  lr_first0 : 1 ≤ first0;
  lr_head : first0 ≤ sl_mFirstIndex l;
  lr_reach : match ps with
             | [] => sl_mFirstIndex l ≤ sl_mLastIndex l ∨ es = [] ∧ sl_mFirstIndex l = first0
             | (s, _) :: _ => sl_mFirstIndex l ≤ seg_mLastIndex s
             end;
  lr_term : field_is fs current_term (sl_mCurrentTerm l);
  lr_vote : field_is fs vote_for (sl_mVoteFor l);
  lr_first : field_is fs first_index (sl_mFirstIndex l);
  lr_dir : directory fs first0 (live ps active);
  lr_data_size : page_aligned (sl_mSegmentDataSizeLimit l);
  lr_meta_size : page_aligned (sl_mSegmentMetaSizeLimit l);
  lr_limits : seg_mDataSizeLimit active = sl_mSegmentDataSizeLimit l ∧
              seg_mMetaSizeLimit active = sl_mSegmentMetaSizeLimit l }.

(** All entries of the segments in use, and those the log shows. *)
Definition all_entries (ps : list part) (es : list LogEntry) : list LogEntry := part_entries ps ++ es.
Definition view_of (l : SegmentLog) (first0 : Z) (ps : list part) (es : list LogEntry) : LogView :=
  mk_LogView (sl_mFirstIndex l) (drop (Z.to_nat (sl_mFirstIndex l - first0)) (all_entries ps es))
    (sl_mCurrentTerm l) (sl_mVoteFor l).

Definition log_holds (b : bool) (fs : FS) (l : SegmentLog) (v : LogView) : Prop :=
  ∃ first0 ps active es, log_rep b fs l first0 ps active es ∧ v = view_of l first0 ps es.

Lemma log_rep_last b fs l first0 ps active es :
  log_rep b fs l first0 ps active es →
  sl_mLastIndex l = first0 + Z.of_nat (length (all_entries ps es)) - 1 ∧
  sl_mFirstIndex l ≤ sl_mLastIndex l + 1.
Proof.
  intros Hr. pose proof (seg_rep_last _ _ _ _ _ (lr_active_rep _ _ _ _ _ _ _ Hr)) as Ha.
  pose proof (lr_reach _ _ _ _ _ _ _ Hr) as Hre. pose proof (lr_active_first _ _ _ _ _ _ _ Hr) as Hf.
  pose proof (lr_last _ _ _ _ _ _ _ Hr) as El.
  assert (Hlen : sl_mLastIndex l = first0 + Z.of_nat (length (all_entries ps es)) - 1).
  { unfold all_entries, chain_end in *. rewrite length_app. lia. }
  split; [done|]. destruct ps as [|[s ses] ps].
  - destruct Hre as [|[-> Hx]]; [lia|]. unfold chain_end, part_entries in *. simpl in *. lia.
  - pose proof (lr_parts _ _ _ _ _ _ _ Hr) as [[_ Hp] _]%Forall_cons. simpl in Hp.
    pose proof (seg_rep_last _ _ _ _ _ Hp). destruct (lr_chain _ _ _ _ _ _ _ Hr) as (Hs & _ & _).
    rewrite chain_end_cons in Hf. pose proof (chain_end_le (first0 + Z.of_nat (length ses)) ps). lia.
Qed.

Lemma view_last b fs l first0 ps active es :
  log_rep b fs l first0 ps active es → lv_last (view_of l first0 ps es) = sl_mLastIndex l.
Proof.
  intros Hr. destruct (log_rep_last _ _ _ _ _ _ _ Hr) as [E1 E2]. pose proof (lr_head _ _ _ _ _ _ _ Hr).
  unfold lv_last. simpl. rewrite length_drop. lia.
Qed.

(** Entries carry their indices. *)
Lemma seg_rep_index b fs s es k e :
  seg_rep mCrypto b fs s es → es !! k = Some e → le_index e = seg_mFirstIndex s + Z.of_nat k.
Proof.
  intros (bytes & metas & _ & _ & Hh & _) Hk. destruct (holds_lookup _ _ _ _ _ _ _ _ _ Hh Hk) as [Hi _]. lia.
Qed.

Lemma parts_index b fs i ps k e :
  Forall (closed_part b fs) ps → chained i ps → part_entries ps !! k = Some e → le_index e = i + Z.of_nat k.
Proof.
  intros Hp. revert i k. induction Hp as [|[s es] ps [_ Hs] _ IH]; intros i k Hc Hk; [done|].
  destruct Hc as (Hf & _ & Hc). change (part_entries ((s, es) :: ps)) with (es ++ part_entries ps) in Hk.
  apply lookup_app_Some in Hk as [Hk|[Hle Hk]].
  - rewrite (seg_rep_index _ _ _ _ _ _ Hs Hk). simpl. lia.
  - rewrite (IH _ _ Hc Hk). lia.
Qed.

Lemma all_index b fs l first0 ps active es k e :
  log_rep b fs l first0 ps active es → all_entries ps es !! k = Some e → le_index e = first0 + Z.of_nat k.
Proof.
  intros Hr Hk. apply lookup_app_Some in Hk as [Hk|[Hle Hk]].
  - by apply (parts_index _ _ _ _ _ _ (lr_parts _ _ _ _ _ _ _ Hr) (lr_chain _ _ _ _ _ _ _ Hr)).
  - rewrite (seg_rep_index _ _ _ _ _ _ (lr_active_rep _ _ _ _ _ _ _ Hr) Hk).
    rewrite (lr_active_first _ _ _ _ _ _ _ Hr). unfold chain_end. lia.
Qed.

Lemma log_holds_wf b fs l v : log_holds b fs l v → view_wf v.
Proof.
  intros (first0 & ps & active & es & Hr & ->). pose proof (lr_first0 _ _ _ _ _ _ _ Hr).
  pose proof (lr_head _ _ _ _ _ _ _ Hr). split; simpl; [lia|]. intros k e. rewrite lookup_drop. intros Hk.
  rewrite (all_index _ _ _ _ _ _ _ _ _ Hr Hk). lia.
Qed.

Lemma closed_part_frame b fs fs' ps :
  Forall (closed_part b fs) ps →
  (∀ p q, p ∈ ps → fs' !! SegmentFile (seg_name p.1) q = fs !! SegmentFile (seg_name p.1) q) →
  Forall (closed_part b fs') ps.
Proof.
  intros Hp He. apply Forall_forall. intros p Hin. rewrite Forall_forall in Hp. destruct (Hp p Hin) as [Ha Hr].
  split; [done|]. apply (seg_rep_frame _ _ fs); [done|]. intros q. by apply He.
Qed.

(** ** Reading *)
Lemma getSegment_spec b fs l first0 ps active es i :
  log_rep b fs l first0 ps active es → sl_mFirstIndex l ≤ i ≤ sl_mLastIndex l →
  ∃ s ses k rest, getSegment l i = Ret (Some s) ∧ seg_rep mCrypto b fs s ses ∧ i = seg_mFirstIndex s + Z.of_nat k ∧
    (k < length ses)%nat ∧ drop (Z.to_nat (i - first0)) (all_entries ps es) = drop k ses ++ rest.
Proof.
  intros Hr Hi. pose proof (lr_head _ _ _ _ _ _ _ Hr). pose proof (lr_active_first _ _ _ _ _ _ _ Hr) as Haf.
  destruct (log_rep_last _ _ _ _ _ _ _ Hr) as [El _]. unfold getSegment, isEmpty.
  rewrite (proj2 (Z.eqb_neq _ _)) by lia. rewrite !(proj2 (Z.ltb_ge _ _)) by lia. cbn [orb].
  rewrite (lr_active _ _ _ _ _ _ _ Hr), (lr_closed _ _ _ _ _ _ _ Hr). unfold all_entries, chain_end in *.
  rewrite length_app in El. destruct (Z.leb_spec (seg_mFirstIndex active) i).
  - exists active, es, (Z.to_nat (i - seg_mFirstIndex active)), [].
    split_and!; [done|apply (lr_active_rep _ _ _ _ _ _ _ Hr)|lia|lia|]. rewrite app_nil_r.
    rewrite drop_app_ge by lia. f_equal. lia.
  - destruct (chain_split first0 ps i) as (pre & s & ses & post & -> & Hs & Hfs & Hpre & Hpost);
      [apply (lr_chain _ _ _ _ _ _ _ Hr)|unfold chain_end; lia|].
    pose proof (lr_parts _ _ _ _ _ _ _ Hr) as [_ [[_ Hrep] _]%Forall_cons]%Forall_app.
    exists s, ses, (Z.to_nat (i - seg_mFirstIndex s)), (part_entries post ++ es).
    split_and!; [|done|lia|lia|].
    + rewrite fmap_app, fmap_cons, length_app, Nat.add_comm. cbn [fst length Nat.add Nat.eqb negb cassert mbind result_mbind].
      unfold smap_floor.
      rewrite filter_app, filter_cons_True, (filter_keeps_all _ pre.*1), (filter_drops_all _ post.*1), last_snoc;
        [done| | |lia].
      * apply Forall_forall. intros t Ht. specialize (Hpost t Ht). lia.
      * intros t Ht. specialize (Hpre t Ht). lia.
    + rewrite part_entries_app. change (part_entries ((s, ses) :: post)) with (ses ++ part_entries post).
      rewrite <- !app_assoc. unfold chain_end in Hfs. rewrite drop_app_ge by lia. rewrite drop_app_le by lia.
      do 2 f_equal. lia.
Qed.
End segment_log.
