(* ===== verification/SegmentLogOps.v ===== *)
(** * The operations of a segmented log on its view

    Each lemma says that an operation returns, keeps [log_rep] and acts on the
    sequence of entries as its name says. *)
From Stdlib Require Import Ascii String.
From stdpp Require Import pretty.
From S2P Require Import Prelude Protobuf Crypto Numeric RaftLog Disk DiskProps Segment SegmentProps SegmentOps SegmentLog.
From S2P Require Import SegmentLogProps.
Open Scope Z_scope.

(** The facts of a represented log, by name. *)
Ltac open_rep H :=
  destruct H as [Rclosed Ractive Rparts Rchain Ris_active Ractive_first Ractive_rep Rlast Rfirst0 Rhead
                 Rreach Rterm Rvote Rfirst Rdir Rdata_size Rmeta_size Rlimits].

(** ** The directory *)
Lemma directory_change fs fs' f0 f0' names names' :
  directory fs f0 names →
  (∀ n, is_Some (fs' !! n) → is_Some (fs !! n) ∨ name_ok n) →
  (∀ n, is_Some (fs' !! SegmentFile n PMeta) →
    n ∈ names' ∨ is_Some (fs !! SegmentFile n PMeta) ∧ n ∉ names) →
  (∀ f l, l < f0' → is_Some (fs' !! SegmentFile (ClosedName f l) PMeta) →
    is_Some (fs !! SegmentFile (ClosedName f l) PMeta) ∧ l < f0) →
  f0 ≤ f0' → directory fs' f0' names'.
Proof.
  intros [D1 D2 D3] Hn Hseg Hret Hf. split.
  - intros n Hs. destruct (Hn n Hs) as [?|?]; [by apply D1|done].
  - intros n Hs. destruct (Hseg n Hs) as [?|[Hs' Hni]]; [by left|]. right.
    destruct (D2 n Hs') as [?|(f & l & -> & ? & ?)]; [done|]. exists f, l. split_and!; [done|lia|lia|lia].
  - intros f l l' Hl Hl' Hs Hs'. destruct (Hret f l Hl Hs) as [? ?], (Hret f l' Hl' Hs') as [? ?]. by apply (D3 f).
Qed.

Lemma directory_same fs fs' f0 names :
  directory fs f0 names → (∀ n, is_Some (fs' !! n) → is_Some (fs !! n) ∨ name_ok n) →
  (∀ n, fs' !! SegmentFile n PMeta = fs !! SegmentFile n PMeta) → directory fs' f0 names.
Proof.
  intros [D1 D2 D3] Hn Hs. split.
  - intros n Hi. destruct (Hn n Hi); [by apply D1|done].
  - intros n. rewrite Hs. apply D2.
  - intros f l l'. rewrite !Hs. apply D3.
Qed.

(** ** The small files *)
Lemma persist_spec d f v :
  ∃ d', persist d f v = Ret d' ∧ field_is (disk_fs d') f v ∧
    (∀ n p, disk_fs d' !! SegmentFile n p = disk_fs d !! SegmentFile n p) ∧
    (∀ f', f' ≠ f → disk_fs d' !! FieldFile f' = disk_fs d !! FieldFile f') ∧
    (∀ n, is_Some (disk_fs d' !! n) → is_Some (disk_fs d !! n) ∨ name_ok n).
Proof.
  unfold persist. rewrite setFileContentWithSync_spec. eexists. split; [done|].
  set (d' := issue _ d).
  assert (Hl : ∀ n, disk_fs d' !! n = if decide (n = FieldFile f) then Some (TextContent (pretty v))
    else if decide (n = TmpFile f) then None else disk_fs d !! n) by (intros n; apply lookup_field_written).
  split_and!.
  - unfold field_is. by rewrite Hl, decide_True.
  - intros n p. by rewrite Hl, !decide_False.
  - intros f' Hf. rewrite Hl. rewrite decide_False by congruence. by rewrite decide_False.
  - intros n. rewrite Hl. repeat case_decide; subst; [by right|by intros [? [=]]|by left].
Qed.

Section segment_log.
Context `{Proto LogEntry} `{OpenSSL}.
Context (mCrypto : CryptoUtil).

(** Only the small files have changed, and the log agrees with them. *)
Lemma log_rep_fields b fs fs' l l' first0 ps active es :
  log_rep mCrypto b fs l first0 ps active es →
  (∀ n p, fs' !! SegmentFile n p = fs !! SegmentFile n p) →
  (∀ n, is_Some (fs' !! n) → is_Some (fs !! n) ∨ name_ok n) →
  sl_mClosedSegments l' = sl_mClosedSegments l → sl_mActiveSegment l' = sl_mActiveSegment l →
  sl_mLastIndex l' = sl_mLastIndex l → sl_mFirstIndex l' = sl_mFirstIndex l →
  sl_mSegmentDataSizeLimit l' = sl_mSegmentDataSizeLimit l →
  sl_mSegmentMetaSizeLimit l' = sl_mSegmentMetaSizeLimit l →
  field_is fs' current_term (sl_mCurrentTerm l') → field_is fs' vote_for (sl_mVoteFor l') →
  field_is fs' first_index (sl_mFirstIndex l') →
  log_rep mCrypto b fs' l' first0 ps active es.
Proof.
  intros [] Hs Hn E1 E2 E3 E4 E5 E6 Ht Hv Hf. split; rewrite ?E1, ?E2, ?E3, ?E4, ?E5, ?E6; try done.
  - apply (closed_part_frame _ _ fs); [done|]. intros p q _. apply Hs.
  - apply (seg_rep_frame _ _ fs); [done|]. intros q. apply Hs.
  - by rewrite <- E4.
  - apply (directory_same fs); [done|done|]. intros n. apply Hs.
Qed.

Lemma setCurrentTerm_holds b d l v term :
  log_holds mCrypto b (disk_fs d) l v →
  ∃ d' l', SegmentLog_setCurrentTerm d l term = Ret (d', l') ∧
    log_holds mCrypto b (disk_fs d') l' (mk_LogView (lv_first v) (lv_entries v) term (lv_vote v)).
Proof.
  intros (first0 & ps & active & es & Hr & ->). unfold SegmentLog_setCurrentTerm.
  destruct (persist_spec d current_term term) as (d' & -> & Hf & Hs & Ho & Hn). simpl. eexists _, _. split; [done|].
  exists first0, ps, active, es. split; [|done].
  apply (log_rep_fields b (disk_fs d) _ l); try done; unfold field_is; rewrite ?Ho by done; apply Hr.
Qed.

Lemma setVoteFor_holds b d l v vote :
  log_holds mCrypto b (disk_fs d) l v →
  ∃ d' l', SegmentLog_setVoteFor d l vote = Ret (d', l') ∧
    log_holds mCrypto b (disk_fs d') l' (mk_LogView (lv_first v) (lv_entries v) (lv_term v) vote).
Proof.
  intros (first0 & ps & active & es & Hr & ->). unfold SegmentLog_setVoteFor.
  destruct (persist_spec d vote_for vote) as (d' & -> & Hf & Hs & Ho & Hn). simpl. eexists _, _. split; [done|].
  exists first0, ps, active, es. split; [|done].
  apply (log_rep_fields b (disk_fs d) _ l); try done; unfold field_is; rewrite ?Ho by done; apply Hr.
Qed.

(** ** Names of the segments in use *)
Lemma closed_name b fs ps p :
  Forall (closed_part mCrypto b fs) ps → p ∈ ps → seg_name p.1 = ClosedName (seg_mFirstIndex p.1) (seg_mLastIndex p.1).
Proof. rewrite Forall_forall. intros Hp Hin. destruct (Hp p Hin) as [Ha _]. by apply seg_name_closed. Qed.

Lemma part_first i ps (p : part) : chained i ps → p ∈ ps → i ≤ seg_mFirstIndex p.1 < chain_end i ps.
Proof. destruct p as [s es]. apply chained_first. Qed.

Lemma part_last b fs i ps p :
  Forall (closed_part mCrypto b fs) ps → chained i ps → p ∈ ps →
  seg_mFirstIndex p.1 ≤ seg_mLastIndex p.1 < chain_end i ps.
Proof.
  intros Hp Hc (pre & post & ->)%list_elem_of_split. destruct p as [s es]. apply chained_app in Hc as [_ (Hs & Hne & _)].
  apply Forall_app in Hp as [_ [[_ Hr] _]%Forall_cons]. simpl in *. rewrite (seg_rep_last _ _ _ _ _ Hr).
  rewrite chain_end_app, chain_end_cons, Hs. pose proof (chain_end_le (chain_end i pre + Z.of_nat (length es)) post).
  assert (0 < length es)%nat by (destruct es; [done|simpl; lia]). lia.
Qed.

(** A segment in use does not have the name of another one. *)
Lemma part_name_ne b fs i ps p n :
  Forall (closed_part mCrypto b fs) ps → chained i ps → p ∈ ps →
  (n = InProgress (chain_end i ps) ∨ ∃ l, n = ClosedName (chain_end i ps) l) → seg_name p.1 ≠ n.
Proof.
  intros Hp Hc Hin Hn. rewrite (closed_name _ _ _ _ Hp Hin). pose proof (part_first _ _ _ Hc Hin).
  destruct Hn as [->|[l ->]]; intros [=]. lia.
Qed.

(** ** Appending *)

(** The log whose active segment has grown by [new]. *)
Definition log_grown (l : SegmentLog) (active : Segment) (new : list LogEntry) : SegmentLog :=
  with_last (sl_mLastIndex l + Z.of_nat (length new))
    (with_segments (sl_mClosedSegments l) (Some (seg_grown active new)) l).

Lemma log_rep_grown b b' fs fs' l first0 ps active es new :
  log_rep mCrypto b fs l first0 ps active es → b' = b ∨ b' = false →
  (∀ f, f ≠ seg_data active → f ≠ seg_meta active → fs' !! f = fs !! f) →
  seg_rep mCrypto b' fs' (seg_grown active new) (es ++ new) →
  log_rep mCrypto b' fs' (log_grown l active new) first0 ps (seg_grown active new) (es ++ new).
Proof.
  intros Hl Hb Hother Hrep. pose proof (log_rep_last _ _ _ _ _ _ _ _ Hl) as [El _]. open_rep Hl.
  assert (En : seg_name (seg_grown active new) = seg_name active) by (unfold seg_name; by rewrite Ris_active).
  destruct (seg_rep_files _ _ _ _ _ Ractive_rep) as (cd & cm & Hd & Hm).
  assert (Hpres : ∀ n, is_Some (fs' !! n) → is_Some (fs !! n)).
  { intros n. destruct (decide (n = seg_data active)) as [->|]; [intros _; by eexists|].
    destruct (decide (n = seg_meta active)) as [->|]; [intros _; by eexists|]. by rewrite Hother. }
  split; simpl; try done.
  - assert (Hps : Forall (closed_part mCrypto b' fs) ps).
    { destruct Hb as [-> | ->]; [done|]. eapply Forall_impl; [exact Rparts|]. intros p [? ?]. split; [done|].
      by apply (seg_rep_weaken _ b). }
    apply (closed_part_frame _ _ fs); [done|]. intros p q Hin.
    pose proof (part_name_ne _ _ _ _ _ (seg_name active) Rparts Rchain Hin) as Hx.
    rewrite (seg_name_active active), Ractive_first in Hx by done. specialize (Hx (or_introl eq_refl)).
    apply Hother; unfold seg_data, seg_meta; rewrite (seg_name_active active), Ractive_first by done; congruence.
  - by rewrite Rlast.
  - destruct ps as [|[s ses] ps]; [|done]. destruct Rreach as [|[-> Hf]]; [left; lia|].
    destruct new as [|e new]; [by right|]. left. change (all_entries [] []) with (@nil LogEntry) in El. simpl in El. simpl. lia.
  - unfold field_is. by rewrite Hother.
  - unfold field_is. by rewrite Hother.
  - unfold field_is. by rewrite Hother.
  - replace (live ps (seg_grown active new)) with (live ps active) by (unfold live; by rewrite En).
    apply (directory_change fs _ first0 _ (live ps active)); [done|intros n ?; left; by apply Hpres| | |done].
    + intros n Hs. apply Hpres in Hs. destruct (decide (n ∈ live ps active)); [by left|by right].
    + intros f l' Hl' Hs. split; [by apply Hpres|done].
Qed.

Lemma append_no_roll d l first0 ps active es new :
  hmac_ready mCrypto → Forall (entry_keyed mCrypto) new → log_rep mCrypto true (disk_fs d) l first0 ps active es →
  new ≠ [] → contiguous (sl_mLastIndex l + 1) new → fits active new →
  ∃ ms, append_to_active mCrypto d l new =
      Ret (issue (append_ops active (total_bytes es) (Z.of_nat (length es)) new ms) d,
           with_segments (sl_mClosedSegments l) (Some (seg_grown active new)) l) ∧
    metas_for mCrypto (total_bytes es) new ms ∧
    log_rep mCrypto true (replay (disk_fs d) (append_ops active (total_bytes es) (Z.of_nat (length es)) new ms))
      (log_grown l active new) first0 ps (seg_grown active new) (es ++ new).
Proof.
  intros Hr Hk Hl Hne Hc Hfit. pose proof Hl as Hl0. open_rep Hl. rewrite Rlast in Hc.
  destruct (appendEntries_spec mCrypto true d active es new Hr Hk Ractive_rep Ris_active Hne Hc Hfit) as (ms & Ha & Hms).
  exists ms. split_and!; [|done|].
  - unfold append_to_active. rewrite Ractive. destruct (shouldRoll_spec active new Ris_active) as (r & -> & Hiff).
    rewrite (proj2 Hiff) by done. cbn [mbind result_mbind]. rewrite Ractive, Ha. done.
  - apply (log_rep_grown true _ (disk_fs d)); [done|by left| |by apply append_rep].
    destruct Ractive_rep as (bytes & metas & [Hd Hm] & _). intros f H1f H2f.
    rewrite (replay_append_ops _ _ _ _ _ _ _ _ _ _ f Hd Hm). by rewrite !decide_False.
Qed.

(** Rolling: the active segment becomes the last closed one. *)
Definition fresh_segment (l : SegmentLog) : Segment :=
  Segment_new_active (sl_mLastIndex l + 1) (sl_mSegmentDataSizeLimit l) (sl_mSegmentMetaSizeLimit l).

Definition roll_ops (l : SegmentLog) (active : Segment) : list DiskOp :=
  move_ops active (seg_closed active) ++ create_ops (fresh_segment l).

Lemma roll_files fs l active cd cm n :
  seg_mIsActive active = true → sl_mLastIndex l = seg_mLastIndex active →
  fs !! SegmentFile (seg_name active) PData = Some cd → fs !! SegmentFile (seg_name active) PMeta = Some cm →
  n ≠ seg_data (fresh_segment l) → n ≠ seg_meta (fresh_segment l) →
  replay fs (roll_ops l active) !! n =
    if decide (n = seg_meta (seg_closed active)) then Some cm
    else if decide (n = seg_data (seg_closed active)) then Some cd
    else if decide (n = seg_meta active ∨ n = seg_data active) then None else fs !! n.
Proof.
  intros Ha Hl Hd Hm Hn1 Hn2. unfold roll_ops. rewrite replay_app.
  assert (Hne : seg_name active ≠ seg_name (seg_closed active)) by (unfold seg_name; rewrite Ha; by intros [=]).
  unfold replay at 1, create_ops. simpl.
  rewrite lookup_alter_ne, lookup_insert_ne, lookup_alter_ne, lookup_insert_ne by done.
  unfold move_ops. rewrite (decide_False (P := seg_name active = _)) by done.
  rewrite (replay_rename_pair _ _ _ _ _ _ Hd Hm) by congruence. done.
Qed.

Lemma roll_presence fs l active cd cm n :
  seg_mIsActive active = true → sl_mLastIndex l = seg_mLastIndex active →
  fs !! SegmentFile (seg_name active) PData = Some cd → fs !! SegmentFile (seg_name active) PMeta = Some cm →
  is_Some (replay fs (roll_ops l active) !! n) →
  n = seg_data (fresh_segment l) ∨ n = seg_meta (fresh_segment l) ∨
  n = seg_data (seg_closed active) ∨ n = seg_meta (seg_closed active) ∨
  is_Some (fs !! n) ∧ n ≠ seg_meta active ∧ n ≠ seg_data active.
Proof.
  intros Ha Hl Hd Hm. destruct (decide (n = seg_data (fresh_segment l))) as [->|Hn1]; [by left|].
  destruct (decide (n = seg_meta (fresh_segment l))) as [->|Hn2]; [by right; left|].
  rewrite (roll_files _ _ _ _ _ _ Ha Hl Hd Hm Hn1 Hn2).
  repeat case_decide; intros Hs; [naive_solver|naive_solver|by destruct Hs|].
  do 4 right. split; [done|]. split; intros ?; naive_solver.
Qed.

Lemma roll_spec b d l first0 ps active es :
  log_rep mCrypto b (disk_fs d) l first0 ps active es → es ≠ [] →
  let l' := with_segments (ps ++ [(seg_closed active, es)]).*1 (Some (fresh_segment l)) l in
  rollActiveSegment d l = Ret (issue (roll_ops l active) d, l') ∧
  log_rep mCrypto b (replay (disk_fs d) (roll_ops l active)) l' first0
    (ps ++ [(seg_closed active, es)]) (fresh_segment l) [].
Proof.
  intros Hl Hne l'. pose proof Hl as Hl0. open_rep Hl. pose proof (seg_rep_files _ _ _ _ _ Ractive_rep) as (cd & cm & Hd & Hm).
  pose proof (seg_rep_last _ _ _ _ _ Ractive_rep) as El. pose proof (seg_rep_first _ _ _ _ _ Ractive_rep) as Hf1.
  assert (0 < length es)%nat by (destruct es; [done|simpl; lia]).
  pose proof (closeActiveSegment_spec mCrypto b d active es Ractive_rep Ris_active) as [Hclose Hcrep].
  destruct (create_spec mCrypto (issue (move_ops active (seg_closed active)) d) (sl_mLastIndex l + 1)
    (sl_mSegmentDataSizeLimit l) (sl_mSegmentMetaSizeLimit l)) as (Hcreate & Hnrep & Hother); [done|done|lia|].
  fold (fresh_segment l) in Hcreate, Hnrep, Hother. rewrite disk_fs_issue, <- replay_app in Hnrep.
  rewrite disk_fs_issue, <- replay_app in Hother. fold (roll_ops l active) in Hnrep, Hother.
  assert (Hend : chain_end first0 (ps ++ [(seg_closed active, es)]) = sl_mLastIndex l + 1).
  { rewrite chain_end_app, chain_end_cons, chain_end_nil. lia. }
  assert (Hps : ∀ p q, p ∈ ps → replay (disk_fs d) (roll_ops l active) !! SegmentFile (seg_name p.1) q =
                                disk_fs d !! SegmentFile (seg_name p.1) q).
  { intros p q Hin. pose proof (part_name_ne _ _ _ _ _ (seg_name active) Rparts Rchain Hin) as Hn1.
    pose proof (part_name_ne _ _ _ _ _ (seg_name (seg_closed active)) Rparts Rchain Hin) as Hn2.
    rewrite <- Ractive_first in Hn1, Hn2. specialize (Hn1 (or_introl (seg_name_active _ Ris_active))).
    specialize (Hn2 (or_intror (ex_intro _ _ eq_refl))).
    assert (Hn3 : seg_name p.1 ≠ seg_name (fresh_segment l)) by (rewrite (closed_name _ _ _ _ Rparts Hin); by intros [=]).
    unfold seg_data, seg_meta in *.
    rewrite (roll_files _ _ _ _ _ _ Ris_active Rlast Hd Hm) by (unfold seg_data, seg_meta; congruence).
    unfold seg_data, seg_meta. rewrite !decide_False by (try intros [?|?]; congruence). done. }
  split.
  - unfold rollActiveSegment. rewrite Ractive, Hclose. simpl. unfold new_active. simpl. fold (fresh_segment l).
    rewrite Hcreate. cbn [mbind result_mbind]. rewrite issue_app, Rclosed, smap_insert_above; [unfold l'; by rewrite (fmap_app fst ps)|].
    intros t (ts & Hin)%elem_of_firsts. simpl. pose proof (chained_first _ _ _ _ Rchain Hin). lia.
  - split; try done.
    + apply Forall_app. split; [by apply (closed_part_frame _ _ (disk_fs d))|]. constructor; [|done]. split; [done|]. simpl.
      apply (seg_rep_frame _ _ (replay (disk_fs d) (move_ops active (seg_closed active)))); [done|].
      intros q. apply Hother; by intros [=].
    + apply chained_app. split; [done|]. simpl. done.
    + by destruct b; [|by apply (seg_rep_weaken _ true)].
    + simpl. lia.
    + simpl. destruct ps as [|[s ses] ps]; [|done]. simpl. destruct Rreach as [|[-> _]]; [by rewrite <- Rlast|done].
    + unfold field_is. rewrite (roll_files _ _ _ _ _ _ Ris_active Rlast Hd Hm) by done. rewrite !decide_False by naive_solver. done.
    + unfold field_is. rewrite (roll_files _ _ _ _ _ _ Ris_active Rlast Hd Hm) by done. rewrite !decide_False by naive_solver. done.
    + unfold field_is. rewrite (roll_files _ _ _ _ _ _ Ris_active Rlast Hd Hm) by done. rewrite !decide_False by naive_solver. done.
    + assert (Hlive : live (ps ++ [(seg_closed active, es)]) (fresh_segment l) =
        InProgress (sl_mLastIndex l + 1) :: (seg_name ∘ fst <$> ps) ++ [seg_name (seg_closed active)]).
      { unfold live. by rewrite fmap_app. }
      apply (directory_change (disk_fs d) _ first0 _ (live ps active)); [done| | | |done].
      * intros n Hs. apply (roll_presence _ _ _ _ _ _ Ris_active Rlast Hd Hm) in Hs.
        destruct Hs as [->|[->|[->|[->|[? _]]]]]; [right; simpl; lia..|by left].
      * intros n Hs. apply (roll_presence _ _ _ _ _ _ Ris_active Rlast Hd Hm) in Hs. rewrite Hlive.
        destruct Hs as [|[Hx|[|[Hx|[Hs [Hn _]]]]]]; [done|injection Hx as ->; left; by left|done|injection Hx as ->; left; set_solver|].
        destruct (decide (n ∈ live ps active)) as [Hin|]; [|by right]. left.
        unfold live in Hin. apply elem_of_cons in Hin as [->|Hin]; [done|]. set_solver.
      * intros f l0 Hl0' Hs. apply (roll_presence _ _ _ _ _ _ Ris_active Rlast Hd Hm) in Hs.
        destruct Hs as [|[|[|[Hx|[Hs _]]]]]; [done|done|done| |done]. injection Hx as -> ->.
        rewrite Ractive_first in El. pose proof (chain_end_le first0 ps). lia.
Qed.

(** What every batch needs: it continues the log, an empty segment can take it,
    and its entries name keys we have. *)
Record appendable (l : SegmentLog) (new : list LogEntry) : Prop := {
  ap_keyed : Forall (entry_keyed mCrypto) new;
  ap_contiguous : contiguous (sl_mLastIndex l + 1) new;
  ap_meta : Z.of_nat (length new) * sizeof_LogMeta ≤ sl_mSegmentMetaSizeLimit l;
  ap_data : total_bytes new ≤ sl_mSegmentDataSizeLimit l }.

Lemma empty_fits b fs s new :
  seg_rep mCrypto b fs s [] → Z.of_nat (length new) * sizeof_LogMeta ≤ seg_mMetaSizeLimit s →
  total_bytes new ≤ seg_mDataSizeLimit s → fits s new.
Proof.
  intros (bytes & metas & _ & Ho & _) H1m H1d. pose proof (so_metaOffset _ _ Ho) as E1.
  pose proof (so_dataOffset _ _ Ho) as E2. change (total_bytes []) with 0 in E2. simpl in E1. split; lia.
Qed.

(** The view after new entries at the end. *)
Lemma view_append b fs l first0 ps active es l'' ps' es' new :
  log_rep mCrypto b fs l first0 ps active es →
  all_entries ps' es' = all_entries ps es ++ new →
  sl_mFirstIndex l'' = sl_mFirstIndex l → sl_mCurrentTerm l'' = sl_mCurrentTerm l → sl_mVoteFor l'' = sl_mVoteFor l →
  view_of l'' first0 ps' es' =
    lv_with_entries (view_of l first0 ps es) (lv_entries (view_of l first0 ps es) ++ new).
Proof.
  intros Hr He E1 E2 E3. destruct (log_rep_last _ _ _ _ _ _ _ _ Hr) as [El Hfl].
  pose proof (lr_head _ _ _ _ _ _ _ _ Hr). unfold view_of, lv_with_entries. simpl. rewrite E1, E2, E3, He. f_equal.
  apply drop_app_le. lia.
Qed.

Lemma append_spec d l v new :
  hmac_ready mCrypto → log_holds mCrypto true (disk_fs d) l v → appendable l new → new ≠ [] →
  ∃ d' l', append_to_active mCrypto d l new = Ret (d', l') ∧ sl_mLastIndex l' = sl_mLastIndex l ∧
    log_holds mCrypto true (disk_fs d') (with_last (sl_mLastIndex l' + Z.of_nat (length new)) l')
      (lv_with_entries v (lv_entries v ++ new)).
Proof.
  intros Hr (first0 & ps & active & es & Hl & ->) [Hk Hc Hfm Hfd] Hne. pose proof Hl as Hl0. open_rep Hl.
  destruct (shouldRoll_spec active new Ris_active) as (r & Hroll & Hiff). destruct r.
  - assert (Hes : es ≠ []).
    { intros ->. assert (Hfit : true = false); [|done]. apply Hiff. destruct Rlimits as [E1 E2].
      apply (empty_fits true (disk_fs d)); [done|by rewrite E2|by rewrite E1]. }
    destruct (roll_spec true d l first0 ps active es Hl0 Hes) as [Heq Hrep].
    set (l1 := with_segments _ _ _) in *. set (d1 := issue (roll_ops l active) d) in *.
    destruct (append_no_roll d1 l1 first0 (ps ++ [(seg_closed active, es)]) (fresh_segment l) [] new)
      as (ms & Ha & _ & Hfin); [done|done|done|done|done| |].
    { split; simpl; lia. }
    unfold append_to_active in Ha |- *. rewrite Ractive, Hroll. cbn [mbind result_mbind]. rewrite Heq. cbn [mbind result_mbind].
    destruct (shouldRoll_spec (fresh_segment l) new eq_refl) as (r & Hr2 & Hiff2). simpl sl_mActiveSegment in Ha |- *.
    cbv iota beta in Ha. rewrite Hr2 in Ha. rewrite (proj2 Hiff2) in Ha by (split; simpl; lia).
    cbn [mbind result_mbind] in Ha. simpl sl_mActiveSegment in Ha. cbv iota beta in Ha |- *. rewrite Ha.
    eexists _, _. split; [done|]. split; [done|]. eexists first0, _, _, _. split; [exact Hfin|].
    symmetry. eapply (view_append true _ l first0 ps active es); [done| |done..].
    unfold all_entries. rewrite part_entries_app, part_entries_one. done.
  - destruct (append_no_roll d l first0 ps active es new) as (ms & Ha & _ & Hfin); [done..|by apply Hiff|].
    rewrite Ha. eexists _, _. split; [done|]. split; [done|]. eexists first0, _, _, _. split; [exact Hfin|].
    symmetry. eapply (view_append true _ l first0 ps active es); [done| |done..].
    unfold all_entries. by rewrite app_assoc.
Qed.

Lemma appendEntries_holds d l v new :
  hmac_ready mCrypto → log_holds mCrypto true (disk_fs d) l v → appendable l new →
  ∃ d' l', SegmentLog_appendEntries mCrypto d l new = Ret (d', l', true) ∧
    log_holds mCrypto true (disk_fs d') l' (lv_with_entries v (lv_entries v ++ new)).
Proof.
  intros Hr Hl Ha. destruct new as [|e new].
  - exists d, l. split; [done|]. rewrite app_nil_r. by destruct v.
  - destruct (append_spec d l v (e :: new) Hr Hl Ha) as (d' & l' & Heq & _ & Hh); [done|].
    unfold SegmentLog_appendEntries. destruct (ap_contiguous _ _ Ha) as [Hi _].
    rewrite (proj2 (Z.eqb_eq _ _)) by done. cbn [negb]. rewrite Heq. cbn [mbind result_mbind]. eauto.
Qed.

Lemma appendEntry_holds d l v e :
  hmac_ready mCrypto → log_holds mCrypto true (disk_fs d) l v → appendable l [e] →
  ∃ d' l', SegmentLog_appendEntry mCrypto d l e = Ret (d', l', true) ∧
    log_holds mCrypto true (disk_fs d') l' (lv_with_entries v (lv_entries v ++ [e])).
Proof.
  intros Hr Hl Ha. destruct (append_spec d l v [e] Hr Hl Ha) as (d' & l' & Heq & _ & Hh); [done|].
  unfold SegmentLog_appendEntry. destruct (ap_contiguous _ _ Ha) as [Hi _].
  rewrite (proj2 (Z.eqb_eq _ _)) by done. cbn [negb]. rewrite Heq. cbn [mbind result_mbind]. eauto.
Qed.

(** ** Dropping a prefix *)
Lemma prefix_end b fs i ps k :
  Forall (closed_part mCrypto b fs) ps → chained i ps → Forall (λ s, seg_mLastIndex s < k) ps.*1 → i ≤ k →
  chain_end i ps ≤ k.
Proof.
  intros Hp Hc Hl Hi. destruct ps as [|[s es] ps _] using rev_ind; [by rewrite chain_end_nil|].
  apply Forall_app in Hp as [_ [[_ Hr] _]%Forall_cons]. apply chained_app in Hc as [_ (Hs & _)].
  rewrite fmap_app in Hl. apply Forall_app in Hl as [_ [Hl _]%Forall_cons]. simpl in *.
  rewrite (seg_rep_last _ _ _ _ _ Hr) in Hl. rewrite chain_end_app, chain_end_cons, chain_end_nil. lia.
Qed.

Lemma chained_inj i ps (p q : part) :
  chained i ps → p ∈ ps → q ∈ ps → seg_mFirstIndex p.1 = seg_mFirstIndex q.1 → p = q.
Proof.
  revert i. induction ps as [|[s es] ps IH]; intros i Hc Hp Hq He; [set_solver|].
  destruct Hc as (Hs & Hne & Hc). assert (0 < length es)%nat by (destruct es; [done|simpl; lia]).
  apply elem_of_cons in Hp as [->|Hp], Hq as [->|Hq]; [done| | |by apply (IH _ Hc)].
  - pose proof (part_first _ _ _ Hc Hq). simpl in *. lia.
  - pose proof (part_first _ _ _ Hc Hp). simpl in *. lia.
Qed.

Lemma elem_of_live ps active n :
  n ∈ live ps active ↔ n = seg_name active ∨ ∃ p, p ∈ ps ∧ n = seg_name p.1.
Proof.
  unfold live. rewrite elem_of_cons, list_elem_of_fmap. split; intros [|(p & ? & ?)]; eauto.
Qed.

(** The segments let go of join those that were let go of before. *)
Lemma directory_prefix b fs first0 pre post active :
  Forall (closed_part mCrypto b fs) (pre ++ post) → chained first0 (pre ++ post) → 1 ≤ first0 →
  seg_mIsActive active = true →
  directory fs first0 (live (pre ++ post) active) → directory fs (chain_end first0 pre) (live post active).
Proof.
  intros Hp Hc H1f Ha [D1 D2 D3]. pose proof (chain_end_le first0 pre) as Hle.
  assert (Hclass : ∀ f l, l < chain_end first0 pre → is_Some (fs !! SegmentFile (ClosedName f l) PMeta) →
    l < first0 ∧ f ≤ l ∨ ∃ p, p ∈ pre ++ post ∧ seg_mFirstIndex p.1 = f ∧ seg_mLastIndex p.1 = l ∧ first0 ≤ f).
  { intros f l Hl Hs. destruct (D2 _ Hs) as [Hin|(f' & l' & [= <- <-] & ? & ?)]; [|left; lia]. right.
    apply elem_of_live in Hin as [Hx|(p & Hin & Hx)]; [by rewrite (seg_name_active _ Ha) in Hx|].
    rewrite (closed_name _ _ _ _ Hp Hin) in Hx. injection Hx as -> ->. exists p.
    pose proof (part_first _ _ _ Hc Hin). split_and!; [done|done|done|lia]. }
  split; [done| |].
  - intros n Hs. destruct (D2 n Hs) as [Hin|(f & l & -> & ? & ?)]; [|right; exists f, l; split_and!; [done|lia|lia|lia]].
    apply elem_of_live in Hin as [->|(p & Hin & ->)]; [left; apply elem_of_live; by left|].
    pose proof (closed_name _ _ _ _ Hp Hin) as Hn. apply elem_of_app in Hin as [Hin|Hin].
    + right. rewrite Hn. apply Forall_app in Hp as [Hp _]. apply chained_app in Hc as [Hc _].
      pose proof (part_last _ _ _ _ _ Hp Hc Hin). pose proof (part_first _ _ _ Hc Hin).
      eexists _, _. split_and!; [done|lia|lia|lia].
    + left. apply elem_of_live. right. by exists p.
  - intros f l l' Hl Hl' Hs Hs'.
    destruct (Hclass f l Hl Hs) as [[? ?]|(p & Hin & Ef & El & ?)], (Hclass f l' Hl' Hs') as [[? ?]|(q & Hin' & Ef' & El' & ?)];
      [by apply (D3 f)|lia|lia|].
    assert (p = q) as -> by (apply (chained_inj _ _ _ _ Hc Hin Hin'); lia). lia.
Qed.

Lemma truncatePrefix_holds b d l v k :
  log_holds mCrypto b (disk_fs d) l v → k ≤ lv_last v →
  ∃ d' l', SegmentLog_truncatePrefix d l k = Ret (d', l') ∧
    log_holds mCrypto b (disk_fs d') l' (lv_truncatePrefix v k).
Proof.
  intros (first0 & ps & active & es & Hl & ->) Hk. rewrite (view_last _ _ _ _ _ _ _ _ Hl) in Hk.
  unfold SegmentLog_truncatePrefix, lv_truncatePrefix. simpl lv_first.
  destruct (Z.leb_spec k (sl_mFirstIndex l)) as [|Hkf]; [eexists _, _; split; [done|]; by exists first0, ps, active, es|].
  pose proof Hl as Hl0. open_rep Hl.
  destruct (persist_spec d first_index k) as (d' & -> & Hf & Hs & Ho & Hn). cbn [mbind result_mbind].
  destruct (erase_prefix_spec k ps.*1) as (pre1 & post1 & Hsplit & Herase & Hpre & Hpost).
  apply fmap_app_inv in Hsplit as (pre & post & -> & -> & ->).
  change (sl_mClosedSegments (with_first k l)) with (sl_mClosedSegments l). rewrite Rclosed, Herase.
  pose proof Rparts as [Hppre Hppost]%Forall_app. pose proof Rchain as [Hcpre Hcpost]%chained_app.
  pose proof (prefix_end _ _ _ _ _ Hppre Hcpre Hpre ltac:(lia)) as Hend. pose proof (chain_end_le first0 pre).
  set (l' := with_segments post.*1 (sl_mActiveSegment (with_first k l)) (with_first k l)).
  assert (Hrep : log_rep mCrypto b (disk_fs d') l' (chain_end first0 pre) post active es).
  { split; simpl; try done.
    - apply (closed_part_frame _ _ (disk_fs d)); [done|]. intros p q _. apply Hs.
    - by rewrite Ractive_first, chain_end_app.
    - apply (seg_rep_frame _ _ (disk_fs d)); [done|]. intros q. apply Hs.
    - lia.
    - destruct post as [|[s ses] post]; [by left|]. exact Hpost.
    - unfold field_is. by rewrite Ho.
    - unfold field_is. by rewrite Ho.
    - apply (directory_same (disk_fs d)); [|done|intros n; apply Hs]. by apply (directory_prefix b). }
  assert (Hview : view_of l' (chain_end first0 pre) post es =
    mk_LogView k (drop (Z.to_nat (k - sl_mFirstIndex l)) (lv_entries (view_of l first0 (pre ++ post) es)))
      (lv_term (view_of l first0 (pre ++ post) es)) (lv_vote (view_of l first0 (pre ++ post) es))).
  { unfold view_of. simpl. f_equal. rewrite drop_drop. unfold all_entries. rewrite part_entries_app, <- app_assoc.
    unfold chain_end in *. rewrite (drop_app_ge (part_entries pre)) by lia. f_equal. lia. }
  exists d', l'. split; [|by exists (chain_end first0 pre), post, active, es].
  unfold l'. destruct post as [|p post]; [|done]. simpl. rewrite Ractive. rewrite (proj2 (Z.ltb_ge _ _)) by lia. done.
Qed.
End segment_log.
