(* ===== verification/SegmentLogCut.v ===== *)
(** * Dropping a suffix of a segmented log *)
From Stdlib Require Import Ascii String.
From stdpp Require Import pretty.
From S2P Require Import Prelude Protobuf Crypto Numeric RaftLog Disk DiskProps Segment SegmentProps SegmentOps SegmentLog.
From S2P Require Import SegmentLogProps SegmentLogOps.
Open Scope Z_scope.

Section segment_log.
Context `{Proto LogEntry} `{OpenSSL}.
Context (mCrypto : CryptoUtil).

Definition held (b : bool) (fs : FS) (s : Segment) : Prop := ∃ es, seg_rep mCrypto b fs s es.

Definition same_fields (fs fs' : FS) : Prop := ∀ f, fs' !! FieldFile f = fs !! FieldFile f.
Definition no_new_names (fs fs' : FS) : Prop := ∀ n, is_Some (fs' !! n) → is_Some (fs !! n) ∨ name_ok n.

Lemma drop_all b d ds now :
  Forall (held b (disk_fs d)) ds → NoDup (seg_name <$> ds) → (∀ f, 0 ≤ now f) →
  ∃ d', foldM (λ d s, dropSegment d s (now (seg_mFirstIndex s))) d ds = Ret d' ∧
    (∀ m p, disk_fs d' !! SegmentFile m p =
       if decide (m ∈ seg_name <$> ds) then None else disk_fs d !! SegmentFile m p) ∧
    same_fields (disk_fs d) (disk_fs d') ∧ no_new_names (disk_fs d) (disk_fs d').
Proof.
  intros Hh Hnd Hnow. revert d Hh. induction ds as [|s ds IH]; intros d Hh.
  { exists d. split_and!; [done| |done|by left]. intros m p. by rewrite decide_False by set_solver. }
  apply Forall_cons in Hh as [[es Hs] Hh]. rewrite fmap_cons in Hnd. apply NoDup_cons in Hnd as [Hni Hnd].
  destruct (dropSegment_spec mCrypto b d s es (now (seg_mFirstIndex s)) Hs) as [Heq Hfs].
  destruct (seg_rep_files _ _ _ _ _ Hs) as (cd & cm & Hd & Hm).
  set (d1 := issue _ d) in *. change (replay (disk_fs d) _) with (disk_fs d1) in Hfs.
  assert (Hother : ∀ n, disk_fs d1 !! n =
    if decide (n = DroppedFile (seg_name s) PMeta (now (seg_mFirstIndex s))) then Some cm
    else if decide (n = DroppedFile (seg_name s) PData (now (seg_mFirstIndex s))) then Some cd
    else if decide (n = SegmentFile (seg_name s) PMeta ∨ n = SegmentFile (seg_name s) PData) then None
    else disk_fs d !! n).
  { intros n. unfold d1, drop_ops. rewrite disk_fs_issue. by rewrite (replay_rename_pair _ _ _ _ _ _ Hd Hm) by congruence. }
  destruct (IH Hnd d1) as (d2 & Hd2 & Hseg & Hfld & Hnew).
  { apply Forall_forall. intros t Ht. rewrite Forall_forall in Hh. destruct (Hh t Ht) as [ts Hrt]. exists ts.
    apply (seg_rep_frame _ _ (disk_fs d)); [done|]. intros q. rewrite Hfs, decide_False; [done|].
    intros He. apply Hni. rewrite <- He. apply list_elem_of_fmap. eauto. }
  exists d2. split_and!.
  - simpl. rewrite Heq. exact Hd2.
  - intros m p. rewrite Hseg, Hfs, fmap_cons. repeat case_decide; set_solver.
  - intros f. rewrite Hfld, Hother. by rewrite !decide_False by naive_solver.
  - intros n Hn. apply Hnew in Hn as [Hn|]; [|by right]. rewrite Hother in Hn.
    repeat case_decide; subst; [right; apply Hnow|right; apply Hnow|by destruct Hn|by left].
Qed.

Lemma new_active_spec b d l :
  page_aligned (sl_mSegmentDataSizeLimit l) → page_aligned (sl_mSegmentMetaSizeLimit l) → 0 ≤ sl_mLastIndex l →
  ∃ d', new_active d l = Ret (d', with_segments (sl_mClosedSegments l) (Some (fresh_segment l)) l) ∧
    seg_rep mCrypto b (disk_fs d') (fresh_segment l) [] ∧
    (∀ m p, m ≠ InProgress (sl_mLastIndex l + 1) → disk_fs d' !! SegmentFile m p = disk_fs d !! SegmentFile m p) ∧
    same_fields (disk_fs d) (disk_fs d') ∧ no_new_names (disk_fs d) (disk_fs d').
Proof.
  intros Hd Hm Hl.
  destruct (create_spec mCrypto d (sl_mLastIndex l + 1) _ _ Hd Hm) as (Hc & Hr & Ho); [lia|].
  fold (fresh_segment l) in Hc, Hr, Ho. exists (issue (create_ops (fresh_segment l)) d). rewrite disk_fs_issue.
  split_and!.
  - unfold new_active. fold (fresh_segment l). rewrite Hc. done.
  - destruct b; [done|]. by apply (seg_rep_weaken _ true).
  - intros m p Hne. apply Ho; intros Hx; injection Hx as Hx _; by apply Hne.
  - intros f. by apply Ho.
  - intros n Hn. destruct (decide (n = seg_data (fresh_segment l))) as [->|H1n]; [right; simpl; lia|].
    destruct (decide (n = seg_meta (fresh_segment l))) as [->|H2n]; [right; simpl; lia|]. rewrite Ho in Hn by done. by left.
Qed.

(** What [truncateSuffix] ends with: the segments in [ds] are dropped, those of
    [ps] stay, and a new active segment follows. *)
Lemma rebuild b d l first0 ps ds now :
  sl_mClosedSegments l = ps.*1 → sl_mActiveSegment l = None →
  Forall (closed_part mCrypto b (disk_fs d)) ps → chained first0 ps → chain_end first0 ps = sl_mLastIndex l + 1 →
  Forall (held b (disk_fs d)) ds → NoDup (seg_name <$> ds) → (∀ f, 0 ≤ now f) →
  (∀ s p, s ∈ ds → p ∈ ps → seg_name s ≠ seg_name p.1) →
  1 ≤ first0 → first0 ≤ sl_mFirstIndex l →
  match ps with [] => sl_mFirstIndex l = first0 | (s, _) :: _ => sl_mFirstIndex l ≤ seg_mLastIndex s end →
  field_is (disk_fs d) current_term (sl_mCurrentTerm l) → field_is (disk_fs d) vote_for (sl_mVoteFor l) →
  field_is (disk_fs d) first_index (sl_mFirstIndex l) →
  directory (disk_fs d) first0 ((seg_name <$> ds) ++ (seg_name ∘ fst <$> ps)) →
  page_aligned (sl_mSegmentDataSizeLimit l) → page_aligned (sl_mSegmentMetaSizeLimit l) →
  ∃ d' l', (d ← foldM (λ d s, dropSegment d s (now (seg_mFirstIndex s))) d ds; ensure_active d l) = Ret (d', l') ∧
    log_rep mCrypto b (disk_fs d') l' first0 ps (fresh_segment l) [] ∧
    sl_mFirstIndex l' = sl_mFirstIndex l ∧ sl_mCurrentTerm l' = sl_mCurrentTerm l ∧ sl_mVoteFor l' = sl_mVoteFor l.
Proof.
  intros Hcl Hact Hps Hch Hend Hds Hnd Hnow Hdisj Hf0 Hfi Hreach Ht Hv Hf [D1 D2 D3] Hdl Hml.
  destruct (drop_all b d ds now Hds Hnd Hnow) as (d1 & -> & Hseg1 & Hfld1 & Hnew1). cbn [mbind result_mbind].
  unfold ensure_active. rewrite Hact. pose proof (chain_end_le first0 ps).
  destruct (new_active_spec b d1 l Hdl Hml) as (d2 & -> & Hrep & Hseg2 & Hfld2 & Hnew2); [lia|].
  assert (Hseg : ∀ m p, m ≠ InProgress (sl_mLastIndex l + 1) → disk_fs d2 !! SegmentFile m p =
    if decide (m ∈ seg_name <$> ds) then None else disk_fs d !! SegmentFile m p).
  { intros m p Hm. by rewrite Hseg2, Hseg1. }
  eexists d2, _. split; [done|]. split; [|done]. split; simpl; try done.
  - apply (closed_part_frame _ _ (disk_fs d)); [done|]. intros p q Hin. pose proof (closed_name _ _ _ _ _ Hps Hin) as Hnm.
    rewrite Hseg by (rewrite Hnm; by intros [=]). rewrite decide_False; [done|].
    intros (s & He & Hs)%list_elem_of_fmap. by apply (Hdisj s p Hs Hin).
  - lia.
  - destruct ps; [by right|done].
  - unfold field_is. by rewrite Hfld2, Hfld1.
  - unfold field_is. by rewrite Hfld2, Hfld1.
  - unfold field_is. by rewrite Hfld2, Hfld1.
  - split.
    + intros n Hn. apply Hnew2 in Hn as [Hn|]; [|done]. apply Hnew1 in Hn as [Hn|]; [|done]. by apply D1.
    + intros n Hn. destruct (decide (n = InProgress (sl_mLastIndex l + 1))) as [->|Hne]; [left; apply elem_of_live; by left|].
      rewrite Hseg in Hn by done. case_decide as Hin; [by destruct Hn|].
      destruct (D2 n Hn) as [[?|(p & -> & Hp)%list_elem_of_fmap]%elem_of_app|?]; [done| |by right].
      left. apply elem_of_live. right. by exists p.
    + intros f x x' Hx Hx'. rewrite !Hseg by done. repeat case_decide; try (by intros [? [=]] || by intros ? [? [=]]).
      by apply D3.
Qed.

Lemma directory_raise fs f0 f0' names :
  directory fs f0 names → f0 ≤ f0' → (∀ f l, ClosedName f l ∈ names → f0' ≤ l) → directory fs f0' names.
Proof.
  intros [D1 D2 D3] Hf Hn.
  assert (Hlow : ∀ f l, l < f0' → is_Some (fs !! SegmentFile (ClosedName f l) PMeta) → l < f0).
  { intros f l Hl Hs. destruct (D2 _ Hs) as [Hin|(f' & l' & [= <- <-] & _ & ?)]; [|done]. specialize (Hn _ _ Hin). lia. }
  split; [done| |].
  - intros n Hs. destruct (D2 n Hs) as [?|(f & l & -> & ? & ?)]; [by left|]. right. exists f, l. split_and!; [done|lia..].
  - intros f l l' Hl Hl' Hs Hs'. apply (D3 f); eauto.
Qed.

Lemma directory_names fs f0 names names' :
  directory fs f0 names → (∀ n, n ∈ names → n ∈ names') → directory fs f0 names'.
Proof.
  intros [D1 D2 D3] Hn. split; [done| |done]. intros n Hs. destruct (D2 n Hs) as [?|?]; [left; auto|by right].
Qed.

(** The segments in use have names of their own. *)
Lemma live_NoDup b fs first0 ps active :
  Forall (closed_part mCrypto b fs) ps → chained first0 ps → seg_mIsActive active = true → NoDup (live ps active).
Proof.
  intros Hp Hc Ha. unfold live. apply NoDup_cons. split.
  - rewrite (seg_name_active _ Ha). intros (p & He & Hin)%list_elem_of_fmap. simpl in He.
    rewrite (closed_name _ _ _ _ _ Hp Hin) in He. discriminate He.
  - revert first0 Hc. induction ps as [|[s es] ps IH]; intros i Hc; [constructor|].
    pose proof Hp as Hp0. apply Forall_cons in Hp as [Hs Hp]. destruct Hc as (Hf & Hne & Hc). rewrite fmap_cons.
    apply NoDup_cons. split; [|by apply (IH Hp _ Hc)]. intros (q & He & Hin)%list_elem_of_fmap. simpl in He.
    assert (0 < length es)%nat by (destruct es; [done|simpl; lia]).
    rewrite (closed_name _ _ _ _ _ Hp Hin) in He. change s with (fst (s, es)) in He.
    rewrite (closed_name _ _ _ _ (s, es) Hp0 ltac:(left)) in He. injection He as He _.
    pose proof (part_first _ _ _ Hc Hin). simpl in *. lia.
Qed.

Lemma parts_held b fs ps : Forall (closed_part mCrypto b fs) ps → Forall (held b fs) ps.*1.
Proof.
  intros Hp. apply Forall_fmap. eapply Forall_impl; [exact Hp|]. intros p [_ Hr]. by exists p.2.
Qed.

(** Every part reaches into the log. *)
Lemma parts_reach b fs first0 ps k p :
  Forall (closed_part mCrypto b fs) ps → chained first0 ps →
  match ps with [] => True | (s, _) :: _ => k ≤ seg_mLastIndex s end → p ∈ ps → k ≤ seg_mLastIndex p.1.
Proof.
  destruct ps as [|[s es] ps]; [set_solver|]. intros Hp Hc Hk [->|Hin]%elem_of_cons; [done|].
  apply Forall_cons in Hp as [[_ Hs] Hp]. destruct Hc as (Hf & Hne & Hc). simpl in *.
  pose proof (seg_rep_last _ _ _ _ _ Hs). pose proof (part_first _ _ _ Hc Hin). pose proof (part_last _ _ _ _ _ _ Hp Hc Hin). lia.
Qed.

(** All segments go: the log starts over at its first index. *)
Lemma wipe b d l first0 ps active es l1 ds now :
  log_rep mCrypto b (disk_fs d) l first0 ps active es →
  sl_mClosedSegments l1 = [] → sl_mActiveSegment l1 = None → sl_mLastIndex l1 = sl_mFirstIndex l - 1 →
  sl_mFirstIndex l1 = sl_mFirstIndex l → sl_mCurrentTerm l1 = sl_mCurrentTerm l → sl_mVoteFor l1 = sl_mVoteFor l →
  sl_mSegmentDataSizeLimit l1 = sl_mSegmentDataSizeLimit l → sl_mSegmentMetaSizeLimit l1 = sl_mSegmentMetaSizeLimit l →
  ds ≡ₚ active :: ps.*1 → (∀ f, 0 ≤ now f) →
  ∃ d' l', (d ← foldM (λ d s, dropSegment d s (now (seg_mFirstIndex s))) d ds; ensure_active d l1) = Ret (d', l') ∧
    log_holds mCrypto b (disk_fs d') l' (mk_LogView (sl_mFirstIndex l) [] (sl_mCurrentTerm l) (sl_mVoteFor l)).
Proof.
  intros Hl Hc Ha E1 E2 E3 E4 E5 E6 Hperm Hnow. open_rep Hl.
  pose proof (live_NoDup _ _ _ _ _ Rparts Rchain Ris_active) as Hnd.
  assert (Hnames : seg_name <$> ds ≡ₚ live ps active) by (rewrite Hperm; simpl; unfold live; by rewrite <- list_fmap_compose).
  destruct (rebuild b d l1 (sl_mFirstIndex l) [] ds now) as (d' & l' & Heq & Hrep & F1 & F2 & F3); try done;
    rewrite ?E2, ?E3, ?E4, ?E5, ?E6; try done; try lia.
  - rewrite chain_end_nil. lia.
  - rewrite Hperm. constructor; [by eexists|]. by apply parts_held.
  - by rewrite Hnames.
  - intros s p _ Hp. by apply elem_of_nil in Hp.
  - rewrite app_nil_r. apply (directory_names _ _ (live ps active)); [|intros n; by rewrite Hnames].
    apply (directory_raise _ first0); [done|done|]. intros f x Hin. apply elem_of_live in Hin as [Hx|(p & Hin & Hx)].
    { by rewrite (seg_name_active _ Ris_active) in Hx. }
    rewrite (closed_name _ _ _ _ _ Rparts Hin) in Hx. injection Hx as -> ->.
    apply (parts_reach _ _ _ _ _ _ Rparts Rchain); [|done]. by destruct ps as [|[s ses] ps].
  - exists d', l'. split; [done|]. exists (sl_mFirstIndex l), [], (fresh_segment l1), []. split; [done|].
    unfold view_of. rewrite F1, F2, F3, E2, E3, E4. by rewrite (drop_nil (A := LogEntry)).
Qed.

(** The part of the log before [k] entries are dropped at the end. *)
Lemma view_cut l l' first0 (ps ps' : list part) es es' n :
  sl_mFirstIndex l' = sl_mFirstIndex l → sl_mCurrentTerm l' = sl_mCurrentTerm l → sl_mVoteFor l' = sl_mVoteFor l →
  all_entries ps' es' = take n (all_entries ps es) →
  view_of l' first0 ps' es' =
    lv_with_entries (view_of l first0 ps es)
      (take (n - Z.to_nat (sl_mFirstIndex l - first0)) (lv_entries (view_of l first0 ps es))).
Proof.
  intros E1 E2 E3 He. unfold view_of, lv_with_entries. simpl. rewrite E1, E2, E3, He. f_equal.
  by rewrite skipn_firstn_comm.
Qed.

(** Cutting within the active segment. *)
Lemma cut_active b d l first0 ps active es k :
  log_rep mCrypto b (disk_fs d) l first0 ps active es →
  seg_mFirstIndex active ≤ k < sl_mLastIndex l → sl_mFirstIndex l ≤ k →
  let n := Z.to_nat (k - seg_mFirstIndex active + 1) in
  let l' := with_segments (sl_mClosedSegments l) (Some (seg_cut active (take n es))) (with_last k l) in
  Segment_truncateSuffix d active k = Ret (issue (cut_ops active n (length es - n)) d, seg_cut active (take n es)) ∧
  log_rep mCrypto b (replay (disk_fs d) (cut_ops active n (length es - n))) l' first0 ps (seg_cut active (take n es)) (take n es).
Proof.
  intros Hl Hk Hkf n l'. open_rep Hl. pose proof (seg_rep_last _ _ _ _ _ Ractive_rep) as El.
  assert (Hn : (0 < n < length es)%nat) by lia.
  destruct (truncateSuffix_spec mCrypto b d active es n Ractive_rep Hn) as [Heq Hrep].
  assert (En : seg_name (seg_cut active (take n es)) = seg_name active) by (unfold seg_name; simpl; by rewrite Ris_active).
  assert (Hmove : move_ops active (seg_cut active (take n es)) = []) by (unfold move_ops; by rewrite decide_True).
  rewrite Hmove, app_nil_r in Heq, Hrep.
  replace (seg_mFirstIndex active + Z.of_nat n - 1) with k in Heq by lia.
  assert (Hlen : Z.of_nat (length (take n es)) = k - seg_mFirstIndex active + 1) by (rewrite length_take; lia).
  destruct (seg_rep_files _ _ _ _ _ Ractive_rep) as (cd & cm & Hd & Hm).
  assert (Hfs : ∀ f, f ≠ seg_meta active → replay (disk_fs d) (cut_ops active n (length es - n)) !! f = disk_fs d !! f).
  { intros f Hf. unfold replay, cut_ops. simpl. by rewrite lookup_alter_ne. }
  assert (Hpres : ∀ f, is_Some (replay (disk_fs d) (cut_ops active n (length es - n)) !! f) → is_Some (disk_fs d !! f)).
  { intros f. destruct (decide (f = seg_meta active)) as [->|Hf]; [intros _; by eexists|by rewrite Hfs]. }
  split; [exact Heq|]. split; simpl; try done.
  - apply (closed_part_frame _ _ (disk_fs d)); [done|]. intros p q Hin. apply Hfs. intros Hx. injection Hx as Hx _.
    revert Hx. apply (part_name_ne _ _ _ _ _ _ _ Rparts Rchain Hin). left.
    by rewrite (seg_name_active _ Ris_active), Ractive_first.
  - lia.
  - destruct ps as [|[s ses] ps]; [by left|done].
  - unfold field_is. by rewrite Hfs.
  - unfold field_is. by rewrite Hfs.
  - unfold field_is. by rewrite Hfs.
  - replace (live ps (seg_cut active (take n es))) with (live ps active) by (unfold live; by rewrite En).
    apply (directory_change (disk_fs d) _ first0 _ (live ps active)); [done|intros f ?; left; by apply Hpres| | |done].
    + intros f Hs. destruct (decide (f ∈ live ps active)); [by left|right; split; [by apply Hpres|done]].
    + intros f x Hx Hs. split; [by apply Hpres|done].
Qed.

(** Cutting within a closed segment, which may keep all its entries. *)
Definition closed_cut_ops (s : Segment) (es : list LogEntry) (n : nat) : list DiskOp :=
  if decide (n = length es) then []
  else cut_ops s n (length es - n) ++ move_ops s (seg_cut s (take n es)).

(** Only the files of the segment change, and if its name does the old ones are
    gone. *)
Record cut_effect (fs fs' : FS) (m m' : SegmentName) : Prop := {
  ce_other f : (∀ p, f ≠ SegmentFile m p) → (∀ p, f ≠ SegmentFile m' p) → fs' !! f = fs !! f;
  ce_gone p : m' ≠ m → fs' !! SegmentFile m p = None;
  ce_there p : is_Some (fs !! SegmentFile m p) }.

Lemma cut_presence fs fs' m m' f :
  cut_effect fs fs' m m' → is_Some (fs' !! f) →
  is_Some (fs !! f) ∧ (f = SegmentFile m PMeta → m' = m) ∨ ∃ p, f = SegmentFile m' p.
Proof.
  intros [Ho Hg Ht] Hf. destruct f as [n p|n p ts|fd|fd]; try (left; split; [|done]; by rewrite Ho in Hf).
  destruct (decide (n = m')) as [->|H1n]; [right; by exists p|]. destruct (decide (n = m)) as [->|H2n].
  - rewrite Hg in Hf by congruence. by destruct Hf.
  - left. split; [rewrite Ho in Hf; [done|congruence..]|]. intros [= ->]. done.
Qed.

Lemma cut_closed b d s es n :
  seg_rep mCrypto b (disk_fs d) s es → seg_mIsActive s = false → (0 < n ≤ length es)%nat →
  ∃ s', Segment_truncateSuffix d s (seg_mFirstIndex s + Z.of_nat n - 1) = Ret (issue (closed_cut_ops s es n) d, s') ∧
    seg_rep mCrypto b (replay (disk_fs d) (closed_cut_ops s es n)) s' (take n es) ∧
    seg_mFirstIndex s' = seg_mFirstIndex s ∧ seg_mIsActive s' = false ∧
    cut_effect (disk_fs d) (replay (disk_fs d) (closed_cut_ops s es n)) (seg_name s) (seg_name s').
Proof.
  intros Hr Ha Hn. pose proof (seg_rep_last _ _ _ _ _ Hr) as El. unfold closed_cut_ops. case_decide as Hd.
  - subst n. exists s. rewrite take_ge, issue_nil by done. unfold Segment_truncateSuffix.
    rewrite (proj2 (Z.leb_le _ _)) by lia. split_and!; [done..|]. destruct (seg_rep_files _ _ _ _ _ Hr) as (cd & cm & ? & ?).
    split; [done|done|]. intros []; by eexists.
  - destruct (truncateSuffix_spec mCrypto b d s es n Hr) as [Heq Hrep]; [lia|]. exists (seg_cut s (take n es)).
    split_and!; [done|done|done|done|].
    assert (Hne : seg_name (seg_cut s (take n es)) ≠ seg_name s).
    { unfold seg_name. simpl. rewrite Ha, El, length_take. intros [=]. lia. }
    unfold move_ops. rewrite decide_False by congruence.
    destruct (seg_rep_files _ _ _ _ _ Hr) as (cd & cm & Hcd & Hcm).
    set (fs1 := replay (disk_fs d) (cut_ops s n (length es - n))).
    assert (Hfs1 : ∀ g, g ≠ seg_meta s → fs1 !! g = disk_fs d !! g).
    { intros g Hg. unfold fs1, replay, cut_ops. simpl. by rewrite lookup_alter_ne. }
    assert (Hcm1 : ∃ cm', fs1 !! SegmentFile (seg_name s) PMeta = Some cm').
    { unfold fs1, replay, cut_ops, seg_meta. simpl. rewrite lookup_alter_eq, Hcm. by eexists. }
    destruct Hcm1 as [cm' Hcm1].
    assert (Hcd1 : fs1 !! SegmentFile (seg_name s) PData = Some cd) by (rewrite Hfs1; [done|by intros [=]]).
    assert (Hfs2 := λ g, replay_rename_pair fs1 (SegmentFile (seg_name s)) (SegmentFile (seg_name (seg_cut s (take n es))))
      cd cm' g Hcd1 Hcm1).
    split.
    + intros f H1f H2f. rewrite replay_app. fold fs1. rewrite Hfs2 by congruence.
      rewrite !decide_False by naive_solver. apply Hfs1. apply H1f.
    + intros p _. rewrite replay_app. fold fs1. rewrite Hfs2 by congruence. destruct p; repeat case_decide; naive_solver.
    + intros []; by eexists.
Qed.

(** ** All of [truncateSuffix] *)
Lemma truncate_closed b d l first0 pre s ses post active es k now :
  log_rep mCrypto b (disk_fs d) l first0 (pre ++ (s, ses) :: post) active es → (∀ f, 0 ≤ now f) →
  seg_mFirstIndex s ≤ k < seg_mFirstIndex s + Z.of_nat (length ses) → seg_mFirstIndex s = chain_end first0 pre →
  (∀ t, t ∈ pre.*1 → seg_mFirstIndex t < seg_mFirstIndex s) → (∀ t, t ∈ post.*1 → k < seg_mFirstIndex t) →
  k < seg_mFirstIndex active → sl_mFirstIndex l ≤ k →
  let l1 := with_segments (pre.*1 ++ [s]) None (with_last k l) in
  ∃ d' l',
    ('(d, s') ← Segment_truncateSuffix d s k;
     d ← foldM (λ d s, dropSegment d s (now (seg_mFirstIndex s))) d (active :: rev post.*1);
     ensure_active d (store_segment l1 false s')) = Ret (d', l') ∧
    log_holds mCrypto b (disk_fs d') l'
      (lv_with_entries (view_of l first0 (pre ++ (s, ses) :: post) es)
         (take (Z.to_nat (k - sl_mFirstIndex l + 1)) (lv_entries (view_of l first0 (pre ++ (s, ses) :: post) es)))).
Proof.
  intros Hl Hnow Hk Hfs Hpre Hpost Hka Hkf l1. pose proof Hl as Hl0. open_rep Hl.
  pose proof Rparts as [Hppre [[Hsa Hsr] Hppost]%Forall_cons]%Forall_app. simpl in Hsa, Hsr.
  pose proof Rchain as [Hcpre (_ & Hne & Hcpost)]%chained_app. pose proof (chain_end_le first0 pre).
  set (n := Z.to_nat (k - seg_mFirstIndex s + 1)).
  assert (Hn : (0 < n ≤ length ses)%nat) by (unfold n; lia).
  destruct (cut_closed b d s ses n Hsr Hsa Hn) as (s' & Heq & Hrep & Ef & Ea & Heff).
  replace (seg_mFirstIndex s + Z.of_nat n - 1) with k in Heq by (unfold n; lia). rewrite Heq. cbn [mbind result_mbind].
  set (d1 := issue (closed_cut_ops s ses n) d) in *. change (replay (disk_fs d) _) with (disk_fs d1) in *.
  assert (Hlen : length (take n ses) = n) by (rewrite length_take; lia).
  pose proof (seg_rep_last _ _ _ _ _ Hrep) as El'. rewrite Hlen in El'. assert (Elk : seg_mLastIndex s' = k) by (unfold n in *; lia).
  assert (Hns : seg_name s = ClosedName (seg_mFirstIndex s) (seg_mLastIndex s)) by by apply seg_name_closed.
  assert (Hns' : seg_name s' = ClosedName (seg_mFirstIndex s) k) by (rewrite seg_name_closed, Ef, Elk; done).
  assert (Hpostf : ∀ p, p ∈ post → k < seg_mFirstIndex p.1) by (intros p Hin; apply Hpost, list_elem_of_fmap; eauto).
  assert (Hpref : ∀ p, p ∈ pre → seg_mFirstIndex p.1 < seg_mFirstIndex s) by (intros p Hin; apply Hpre, list_elem_of_fmap; eauto).
  pose proof (ce_other _ _ _ _ Heff) as Hother.
  assert (Hkeep : ∀ m p, m ≠ seg_name s → m ≠ seg_name s' → disk_fs d1 !! SegmentFile m p = disk_fs d !! SegmentFile m p).
  { intros m p H1m H2m. apply Hother; congruence. }
  assert (Hfld : ∀ f, disk_fs d1 !! FieldFile f = disk_fs d !! FieldFile f) by (intros f; by apply Hother).
  assert (Hstore : store_segment l1 false s' = with_segments ((pre ++ [(s', take n ses)]).*1) None (with_last k l)).
  { unfold store_segment, l1. simpl. rewrite (smap_insert_same s s') by done. by rewrite fmap_app. }
  rewrite Hstore. pose proof (live_NoDup _ _ _ _ _ Rparts Rchain Ris_active) as Hnd.
  unfold live in Hnd. rewrite fmap_app, fmap_cons in Hnd.
  assert (Hperm : seg_name <$> active :: rev post.*1 ≡ₚ seg_name active :: (seg_name ∘ fst <$> post)).
  { rewrite <- (Permutation_rev post.*1), fmap_cons. by rewrite <- list_fmap_compose. }
  destruct (rebuild b d1 (with_segments ((pre ++ [(s', take n ses)]).*1) None (with_last k l)) first0
              (pre ++ [(s', take n ses)]) (active :: rev post.*1) now) as (d' & l' & Hfin & Hrep' & F1 & F2 & F3);
    simpl; try done.
  - apply Forall_app. split; [|by constructor].
    apply (closed_part_frame _ _ (disk_fs d)); [done|]. intros p q Hin. pose proof (Hpref p Hin).
    rewrite Hkeep; [done|..]; rewrite (closed_name _ _ _ _ _ Hppre Hin), ?Hns, ?Hns'; intros [=]; lia.
  - apply chained_app. split; [done|]. simpl. split_and!; [lia| |done]. intros Hx. rewrite Hx in Hlen. simpl in Hlen. lia.
  - rewrite chain_end_app, chain_end_cons, chain_end_nil, Hlen. unfold n. lia.
  - apply Forall_cons. split.
    + exists es. apply (seg_rep_frame _ _ (disk_fs d)); [done|]. intros q.
      rewrite Hkeep; [done|..]; rewrite (seg_name_active _ Ris_active), ?Hns, ?Hns'; by intros [=].
    + apply Forall_forall. intros t. rewrite <- (Permutation_rev post.*1). intros (p & -> & Hin)%list_elem_of_fmap. pose proof (Hpostf p Hin).
      rewrite Forall_forall in Hppost. destruct (Hppost p Hin) as [_ Hr]. exists p.2.
      apply (seg_rep_frame _ _ (disk_fs d)); [done|]. intros q. rewrite <- Forall_forall in Hppost.
      rewrite Hkeep; [done|..]; rewrite (closed_name _ _ _ _ _ Hppost Hin), ?Hns, ?Hns'; intros [=]; lia.
  - rewrite Hperm. apply NoDup_cons in Hnd as [Hni Hnd]. apply NoDup_app in Hnd as (_ & _ & [_ Hnd]%NoDup_cons).
    constructor; [|done]. intros Hx. apply Hni. set_solver.
  - intros t p Ht Hp He. apply elem_of_app in Hp.
    assert (Hkn : seg_name p.1 = ClosedName (seg_mFirstIndex p.1) (seg_mLastIndex p.1) ∧ seg_mFirstIndex p.1 ≤ seg_mFirstIndex s).
    { destruct Hp as [Hin| ->%list_elem_of_singleton]; [|simpl; rewrite Hns', Ef, Elk; split; [done|lia]].
      split; [apply (closed_name _ _ _ _ _ Hppre Hin)|]. pose proof (Hpref p Hin). lia. }
    destruct Hkn as [Hpn Hpf]. rewrite Hpn in He. apply elem_of_cons in Ht as [->|Ht].
    { by rewrite (seg_name_active _ Ris_active) in He. }
    rewrite <- (Permutation_rev post.*1) in Ht. apply list_elem_of_fmap in Ht as (q & -> & Hin).
    rewrite (closed_name _ _ _ _ _ Hppost Hin) in He. injection He as He _. pose proof (Hpostf q Hin). lia.
  - destruct pre as [|[s0 ses0] pre]; [simpl; lia|done].
  - unfold field_is. by rewrite Hfld.
  - unfold field_is. by rewrite Hfld.
  - unfold field_is. by rewrite Hfld.
  - change (directory (disk_fs d1) first0 ((seg_name <$> active :: rev post.*1) ++ (seg_name ∘ fst <$> pre ++ [(s', take n ses)]))).
    set (names := _ ++ _).
    assert (Hmem : ∀ m, m = seg_name active ∨ (∃ p, p ∈ post ∧ m = seg_name p.1) ∨ (∃ p, p ∈ pre ∧ m = seg_name p.1) ∨
      m = seg_name s' → m ∈ names).
    { intros m Hm. unfold names. rewrite Hperm, fmap_app, !elem_of_app, elem_of_cons, !list_elem_of_fmap.
      destruct Hm as [|[(p & ? & ->)|[(p & ? & ->)| ->]]]; [by left; left|left; right; by exists p|right; left; by exists p|].
      right. right. exists (s', take n ses). split; [done|]. by left. }
    apply (directory_change (disk_fs d) _ first0 _ (live (pre ++ (s, ses) :: post) active)); [done| | | |done].
    + intros f Hf. destruct (cut_presence _ _ _ _ f Heff Hf) as [[? _]|[p ->]]; [by left|right].
      rewrite Hns'. simpl. lia.
    + intros m Hm. destruct (cut_presence _ _ _ _ _ Heff Hm) as [[Hs Hne']|[p Hx]].
      2:{ injection Hx as -> _. left. apply Hmem. by do 3 right. }
      destruct (decide (m ∈ live (pre ++ (s, ses) :: post) active)) as [Hin|]; [left|by right]. apply Hmem.
      apply elem_of_live in Hin as [->|(p & Hin & ->)]; [by left|].
      apply elem_of_app in Hin as [Hin|[->|Hin]%elem_of_cons].
      * right. right. left. by exists p.
      * do 3 right. symmetry. by apply Hne'.
      * right. left. by exists p.
    + intros f x Hx Hm. destruct (cut_presence _ _ _ _ _ Heff Hm) as [[Hs _]|[p Hy]]; [done|].
      injection Hy as Hy _. rewrite Hns' in Hy. injection Hy as -> ->. lia.
  - exists d', l'. split; [done|]. eexists first0, (pre ++ [(s', take n ses)]), _, []. split; [exact Hrep'|].
    symmetry. replace (Z.to_nat (k - sl_mFirstIndex l + 1)) with
      (Z.to_nat (k - first0 + 1) - Z.to_nat (sl_mFirstIndex l - first0))%nat by lia.
    apply view_cut; try done. unfold all_entries. rewrite !part_entries_app, part_entries_one, app_nil_r.
    change (part_entries ((s, ses) :: post)) with (ses ++ part_entries post). unfold chain_end in Hfs.
    rewrite <- !app_assoc, take_app_ge by lia. f_equal. rewrite take_app_le by lia. f_equal. unfold n. lia.
Qed.

(** The first critical section when the active segment goes. *)
Lemma select_closed l first0 pre s ses post active k :
  sl_mActiveSegment l = Some active → sl_mClosedSegments l = (pre ++ (s, ses) :: post).*1 →
  seg_mFirstIndex s ≤ k → (∀ t, t ∈ pre.*1 → seg_mFirstIndex t < seg_mFirstIndex s) →
  (∀ t, t ∈ post.*1 → k < seg_mFirstIndex t) → chain_end first0 (pre ++ (s, ses) :: post) = seg_mFirstIndex active →
  k < seg_mFirstIndex active →
  select_dropped l k = Ret (with_segments (pre.*1 ++ [s]) None l, active :: rev post.*1, Some s, false).
Proof.
  intros Ha Hc Hs Hpre Hpost Hend Hk. unfold select_dropped. rewrite Ha, (proj2 (Z.leb_gt _ _)) by done.
  rewrite Hc, fmap_app, fmap_cons, rev_app_distr. cbn [rev]. rewrite <- app_assoc. cbn [app fst].
  rewrite find_last_kept_some by (done || intros t Ht; apply Hpost; by rewrite (Permutation_rev post.*1)).
  rewrite smap_erase_all, filter_app, filter_cons, (filter_keeps_all _ pre.*1), (filter_drops_all _ post.*1).
  - rewrite decide_True; [by rewrite length_app, Nat.add_comm|].
    apply Forall_cons. split; [lia|]. rewrite <- (Permutation_rev post.*1). apply Forall_forall. intros t Ht.
    specialize (Hpost t Ht). lia.
  - apply Forall_forall. intros t Ht Hx. rewrite Forall_forall in Hx. apply (Hx t); [|done]. right.
    by rewrite <- (Permutation_rev post.*1).
  - intros t Ht. specialize (Hpre t Ht). apply Forall_cons. split; [lia|]. rewrite <- (Permutation_rev post.*1).
    apply Forall_forall. intros u Hu. specialize (Hpost u Hu). lia.
Qed.

Lemma select_none l active k :
  sl_mActiveSegment l = Some active → k < seg_mFirstIndex active →
  (∀ t, t ∈ sl_mClosedSegments l → k < seg_mFirstIndex t) →
  select_dropped l k =
    Ret (with_first (sl_mLastIndex l + 1) (with_segments [] None l), active :: rev (sl_mClosedSegments l), None, false).
Proof.
  intros Ha Hk Hc. unfold select_dropped. rewrite Ha, (proj2 (Z.leb_gt _ _)) by done.
  rewrite find_last_kept_none by (intros t Ht; apply Hc; by rewrite (Permutation_rev (sl_mClosedSegments l))).
  rewrite smap_erase_all, filter_drops_all; [done|].
  apply Forall_forall. intros t Ht Hx. rewrite Forall_forall in Hx. apply (Hx t); [|done]. right.
  by rewrite <- (Permutation_rev (sl_mClosedSegments l)).
Qed.

Lemma truncateSuffix_holds b d l v k now :
  log_holds mCrypto b (disk_fs d) l v → lv_first v - 1 ≤ k → (∀ f, 0 ≤ now f) →
  ∃ d' l', SegmentLog_truncateSuffix now d l k = Ret (d', l') ∧
    log_holds mCrypto b (disk_fs d') l' (lv_truncateSuffix v k).
Proof.
  intros (first0 & ps & active & es & Hl & ->) Hk Hnow. unfold SegmentLog_truncateSuffix, lv_truncateSuffix.
  rewrite (view_last _ _ _ _ _ _ _ _ Hl). simpl lv_first in *.
  destruct (Z.leb_spec (sl_mLastIndex l) k) as [|Hkl]; [eexists _, _; split; [done|]; by exists first0, ps, active, es|].
  pose proof Hl as Hl0. open_rep Hl. set (lk := with_last k l). pose proof (chain_end_le first0 ps).
  destruct (Z.leb_spec (seg_mFirstIndex active) k) as [Hka|Hka].
  - unfold select_dropped. change (sl_mActiveSegment lk) with (sl_mActiveSegment l).
    rewrite Ractive, (proj2 (Z.leb_le _ _)) by done. cbn [mbind result_mbind]. change (sl_mFirstIndex lk) with (sl_mFirstIndex l).
    change (sl_mLastIndex lk) with k. destruct (Z.leb_spec (sl_mFirstIndex l) k) as [Hfk|Hfk].
    + rewrite (proj2 (Z.ltb_ge _ _)) by done.
      destruct (cut_active b d l first0 ps active es k Hl0) as [Heq Hrep]; [lia|done|]. rewrite Heq. cbn [mbind result_mbind].
      eexists _, _. split; [done|]. eexists first0, ps, _, _. split; [exact Hrep|]. symmetry.
      replace (Z.to_nat (k - sl_mFirstIndex l + 1)) with
        (Z.to_nat (k - first0 + 1) - Z.to_nat (sl_mFirstIndex l - first0))%nat by lia.
      apply view_cut; try done. unfold all_entries, chain_end in *. rewrite take_app_ge by lia. do 2 f_equal. lia.
    + rewrite (proj2 (Z.ltb_lt _ _)) by done. replace (k + 1) with (sl_mFirstIndex l) by lia. cbn [mbind result_mbind].
      assert (ps = []) as ->.
      { destruct ps as [|[s ses] ps]; [done|]. exfalso. apply Forall_cons in Rparts as [[_ Hs] _]. simpl in Hs.
        pose proof (seg_rep_last _ _ _ _ _ Hs). destruct Rchain as (Hf & _). rewrite chain_end_cons in Ractive_first.
        pose proof (chain_end_le (first0 + Z.of_nat (length ses)) ps). lia. }
      apply (wipe b d l first0 [] active es); try done. simpl. lia.
  - destruct (decide (first0 ≤ k)) as [Hfk|Hfk].
    + destruct (chain_split first0 ps k Rchain) as (pre & s & ses & post & -> & Hs & Hfs & Hpre & Hpost); [lia|].
      rewrite (select_closed lk first0 pre s ses post active k) by (done || lia). cbn [mbind result_mbind].
      set (l1 := with_segments _ _ _). change (sl_mFirstIndex l1) with (sl_mFirstIndex l). change (sl_mLastIndex l1) with k.
      destruct (Z.leb_spec (sl_mFirstIndex l) k) as [Hfk'|Hfk'].
      * rewrite (proj2 (Z.ltb_ge _ _)) by done.
        destruct (truncate_closed b d l first0 pre s ses post active es k now) as (d' & l' & Heq & Hh); try done; try lia.
        exists d', l'. split; [|exact Hh]. apply bind_Ret in Heq as ([d1 s'] & Ht & Heq). rewrite Ht. exact Heq.
      * rewrite (proj2 (Z.ltb_lt _ _)) by done. replace (k + 1) with (sl_mFirstIndex l) by lia. cbn [mbind result_mbind].
        assert (pre = []) as ->.
        { destruct pre as [|[s0 ses0] pre]; [done|]. exfalso. pose proof (Hpre s0 ltac:(left)).
          apply Forall_cons in Rparts as [[_ Hs0] _]. simpl in Hs0, Rreach. pose proof (seg_rep_last _ _ _ _ _ Hs0).
          destruct Rchain as (Hf & _). rewrite chain_end_cons in Hfs.
          pose proof (chain_end_le (first0 + Z.of_nat (length ses0)) pre). lia. }
        apply (wipe b d l first0 ((s, ses) :: post) active es); try done; [|simpl; lia|].
        -- simpl. unfold smap_erase. rewrite filter_cons_False; [done|]. naive_solver.
        -- rewrite fmap_cons. simpl. rewrite <- (Permutation_rev post.*1). by rewrite Permutation_app_comm.
    + rewrite (select_none lk active k); [|done|done|].
      2:{ change (sl_mClosedSegments lk) with (sl_mClosedSegments l). rewrite Rclosed. intros t (ts & Hin)%elem_of_firsts.
          pose proof (chained_first _ _ _ _ Rchain Hin). lia. }
      cbn [mbind result_mbind]. rewrite (proj2 (Z.ltb_lt _ _)) by lia. replace (k + 1) with (sl_mFirstIndex l) by lia.
      apply (wipe b d l first0 ps active es); try done; simpl; [lia|lia|].
      change (sl_mClosedSegments lk) with (sl_mClosedSegments l). rewrite Rclosed. by rewrite <- (Permutation_rev ps.*1).
Qed.
End segment_log.
