(* ===== verification/SegmentLogInit.v ===== *)
(** * Start-up of a segmented log

    [init] on the directory of a represented log gives the log back, in
    whatever order the system lists the files. *)
From Stdlib Require Import Ascii String.
From stdpp Require Import pretty.
From S2P Require Import Prelude Protobuf Crypto Numeric RaftLog Disk DiskProps Segment SegmentProps SegmentOps SegmentLog.
From S2P Require Import SegmentLogProps SegmentLogOps SegmentLogCut.
Open Scope Z_scope.

(** ** Sorted lists of segments *)
Definition first_lt (s t : Segment) : Prop := seg_mFirstIndex s < seg_mFirstIndex t.

Lemma smap_insert_perm s m :
  (∀ t, t ∈ m → seg_mFirstIndex t ≠ seg_mFirstIndex s) → smap_insert s m ≡ₚ s :: m.
Proof.
  induction m as [|t m IH]; intros Hm; [done|]. simpl. pose proof (Hm t ltac:(left)).
  destruct (_ <? _); [done|]. rewrite (proj2 (Z.eqb_neq _ _)) by congruence.
  rewrite IH by (intros u Hu; apply Hm; by right). apply Permutation_swap.
Qed.

Lemma smap_insert_sorted s m :
  StronglySorted first_lt m → (∀ t, t ∈ m → seg_mFirstIndex t ≠ seg_mFirstIndex s) →
  StronglySorted first_lt (smap_insert s m).
Proof.
  induction m as [|t m IH]; intros Hs Hm; [by repeat constructor|]. pose proof (Hm t ltac:(left)).
  apply StronglySorted_inv in Hs as [Hs Hall]. simpl. destruct (Z.ltb_spec (seg_mFirstIndex s) (seg_mFirstIndex t)) as [Hlt|Hge].
  - constructor; [by constructor|]. constructor; [done|]. eapply Forall_impl; [exact Hall|]. unfold first_lt. intros u ?; simpl in *; lia.
  - rewrite (proj2 (Z.eqb_neq _ _)) by congruence. constructor; [apply IH; [done|intros u Hu; apply Hm; by right]|].
    rewrite smap_insert_perm by (intros u Hu; apply Hm; by right). constructor; [unfold first_lt; lia|done].
Qed.

Lemma sorted_filter (P : Segment → Prop) `{∀ s, Decision (P s)} m :
  StronglySorted first_lt m → StronglySorted first_lt (filter P m).
Proof.
  induction 1 as [|s m _ IH Hall]; [constructor|]. rewrite filter_cons. case_decide; [|done]. constructor; [done|].
  rewrite Forall_forall in *. intros t [_ Ht]%list_elem_of_filter. by apply Hall.
Qed.

Lemma sorted_ext l1 l2 :
  StronglySorted first_lt l1 → StronglySorted first_lt l2 → (∀ s, s ∈ l1 ↔ s ∈ l2) → l1 = l2.
Proof.
  intros Hs1. revert l2. induction Hs1 as [|s l1 Hs1 IH Hall1]; intros l2 Hs2 He.
  - destruct l2 as [|t l2]; [done|]. exfalso. apply (not_elem_of_nil t), He. by left.
  - destruct Hs2 as [|t l2 Hs2 Hall2]; [exfalso; apply (not_elem_of_nil s), He; by left|].
    rewrite Forall_forall in Hall1, Hall2. unfold first_lt in *.
    assert (s = t) as ->.
    { pose proof (proj1 (He s) ltac:(left)) as [|Hin]%elem_of_cons; [done|].
      pose proof (proj2 (He t) ltac:(left)) as [|Hin']%elem_of_cons; [done|].
      specialize (Hall1 _ Hin'). specialize (Hall2 _ Hin). lia. }
    f_equal. apply IH; [done|]. intros u. specialize (He u). rewrite !elem_of_cons in He.
    split; intros Hu.
    + destruct (proj1 He (or_intror Hu)) as [->|]; [|done]. specialize (Hall1 _ Hu). lia.
    + destruct (proj2 He (or_intror Hu)) as [->|]; [|done]. specialize (Hall2 _ Hu). lia.
Qed.

(** ** Listing *)

(** A segment name below 2^64, as [std::stoull] reads it back. *)
Definition name_in_u64 (n : SegmentName) : Prop :=
  match n with InProgress f => 0 ≤ f < two64 | ClosedName f l => 0 ≤ f < two64 ∧ 0 ≤ l < two64 end.

Definition found_closed (n : FileName) : option Segment :=
  match n with SegmentFile (ClosedName f l) PMeta => Some (Segment_found_closed f l) | _ => None end.

Lemma list_file_spec dir n closed active :
  name_ok n → (∀ m, n = SegmentFile m PMeta → name_in_u64 m) →
  list_file (path dir n) (closed, active) =
    match n with
    | SegmentFile (ClosedName f l) PMeta =>
        cassert (negb (smap_contains f closed));; Ret (smap_insert (Segment_found_closed f l) closed, active)
    | SegmentFile (InProgress f) PMeta =>
        cassert (match active with Some _ => false | None => true end);; Ret (closed, Some (Segment_found_active f))
    | _ => Ret (closed, active)
    end.
Proof.
  intros Hok Hu. unfold list_file. rewrite closed_search, active_search by done.
  destruct n as [m p|m p ts|f|f]; try done.
  destruct m as [f|f l], p; try done; cbn [closed_caps active_caps]; specialize (Hu _ eq_refl); simpl in Hu.
  - by rewrite stoull_pretty by lia.
  - rewrite (stoull_pretty f), (stoull_pretty l) by lia. done.
Qed.

(** What has been listed after the names [ns]. *)
Record listed (ns : list FileName) (closed : list Segment) (active : option Segment) : Prop := {
  ls_sorted : StronglySorted first_lt closed;
  ls_closed s : s ∈ closed ↔ ∃ n, n ∈ ns ∧ found_closed n = Some s;
  ls_active s : active = Some s ↔ ∃ f, SegmentFile (InProgress f) PMeta ∈ ns ∧ s = Segment_found_active f }.

(** Names that do not contend for a place. *)
Definition no_clash (ns : list FileName) : Prop :=
  (∀ f l l', SegmentFile (ClosedName f l) PMeta ∈ ns → SegmentFile (ClosedName f l') PMeta ∈ ns → l = l') ∧
  (∀ f f', SegmentFile (InProgress f) PMeta ∈ ns → SegmentFile (InProgress f') PMeta ∈ ns → f = f').

Lemma no_clash_sub ns ns' : (∀ n, n ∈ ns → n ∈ ns') → no_clash ns' → no_clash ns.
Proof.
  intros Hsub [Hc Ha]. split.
  - intros f l l' Hl Hl'. apply (Hc f); by apply Hsub.
  - intros f f' Hf Hf'. apply Ha; by apply Hsub.
Qed.

Lemma listed_step dir ns n closed active :
  listed ns closed active → n ∉ ns → no_clash (n :: ns) →
  name_ok n → (∀ m, n = SegmentFile m PMeta → name_in_u64 m) →
  ∃ closed' active', list_file (path dir n) (closed, active) = Ret (closed', active') ∧ listed (n :: ns) closed' active'.
Proof.
  intros [Ls Lc La] Hn [Hc Ha] Hok Hu. rewrite list_file_spec by done.
  assert (Hskip : found_closed n = None → (∀ f, n ≠ SegmentFile (InProgress f) PMeta) → listed (n :: ns) closed active).
  { intros Hf Hi. split; [done| |].
    - intros s. rewrite Lc. split; intros (m & Hm & Hs); exists m; (split; [|done]); [by right|].
      apply elem_of_cons in Hm as [->|]; [congruence|done].
    - intros s. rewrite La. split; intros (f & Hm & Hs); exists f; (split; [|done]); [by right|].
      apply elem_of_cons in Hm as [Hm|]; [by destruct (Hi f)|done]. }
  destruct n as [[f|f l] []|m p ts|f|f]; try (exists closed, active; split; [done|by apply Hskip]).
  - destruct active as [s|].
    { exfalso. destruct (proj1 (La s) eq_refl) as (f' & Hin & _). apply Hn.
      by rewrite (Ha f f' ltac:(by left) ltac:(by right)). }
    exists closed, (Some (Segment_found_active f)). split; [done|]. split; [done| |].
    + intros s. rewrite Lc. split; intros (m & Hm & Hs); exists m; (split; [|done]); [by right|].
      apply elem_of_cons in Hm as [->|]; done.
    + intros s. split.
      * intros [= <-]. exists f. split; [by left|done].
      * intros (f' & Hin & ->). by rewrite (Ha f f' ltac:(by left) Hin).
  - assert (Hno : ∀ t, t ∈ closed → seg_mFirstIndex t ≠ f).
    { intros t Ht He. apply Lc in Ht as ([[|f' l'] []| | |] & Hin & [= <-]). simpl in He. subst f'. apply Hn.
      by rewrite (Hc f l l' ltac:(by left) ltac:(by right)). }
    assert (Hcon : smap_contains f closed = false).
    { apply not_true_is_false. unfold smap_contains. intros (t & Ht & He)%existsb_exists.
      apply list_elem_of_In in Ht. apply (Hno t Ht). lia. }
    rewrite Hcon. eexists _, active. split; [done|]. split.
    + by apply smap_insert_sorted.
    + intros s. rewrite smap_insert_perm by done. rewrite elem_of_cons, Lc. split.
      * intros [->|(m & Hm & Hs)]; [eexists; split; [by left|done]|exists m; split; [by right|done]].
      * intros (m & [->|Hm]%elem_of_cons & Hs); [left; by injection Hs|right; by exists m].
    + intros s. rewrite La. split; intros (f' & Hm & Hs); exists f'; (split; [|done]); [by right|].
      apply elem_of_cons in Hm as [Hm|]; done.
Qed.

Lemma listSegments_spec dir ns :
  NoDup ns → no_clash ns → Forall (λ n, name_ok n ∧ ∀ m, n = SegmentFile m PMeta → name_in_u64 m) ns →
  ∃ closed active, listSegments (path dir <$> ns) = Ret (closed, active) ∧ listed ns closed active.
Proof.
  intros Hnd Hcl Hok. unfold listSegments.
  assert (Hgen : ∀ rest done_ closed active, listed done_ closed active → NoDup (rest ++ done_) → no_clash (rest ++ done_) →
    Forall (λ n, name_ok n ∧ ∀ m, n = SegmentFile m PMeta → name_in_u64 m) rest →
    ∃ closed' active', foldM (λ acc p, list_file p acc) (closed, active) (path dir <$> rest) = Ret (closed', active') ∧
      ∃ all, all ≡ₚ rest ++ done_ ∧ listed all closed' active').
  { intros rest. induction rest as [|n rest IH]; intros done_ closed active Hl Hd Hc Hf.
    { eexists _, _. split; [done|]. by exists done_. }
    apply Forall_cons in Hf as [[Hn Hu] Hf]. simpl in Hd. apply NoDup_cons in Hd as [Hni Hd].
    destruct (listed_step dir done_ n closed active Hl) as (c1 & a1 & Heq & Hl1); [set_solver| |done|done|].
    { apply (no_clash_sub _ (n :: rest ++ done_)); [set_solver|done]. }
    cbn [foldM fmap list_fmap]. rewrite Heq. cbn [mbind result_mbind].
    destruct (IH (n :: done_) c1 a1 Hl1) as (c2 & a2 & Heq2 & all & Hall & Hl2); [|  |done|].
    - rewrite <- Permutation_middle. by apply NoDup_cons.
    - apply (no_clash_sub _ (n :: rest ++ done_)); [|done]. intros m. by rewrite <- Permutation_middle.
    - exists c2, a2. split; [done|]. exists all. split; [|done]. rewrite Hall. symmetry. apply Permutation_middle. }
  destruct (Hgen ns [] [] None) as (c & a & Heq & all & Hall & [L1 L2 L3]); rewrite ?app_nil_r in *; try done.
  { split; [constructor| |].
    - intros s. split; [by intros ?%elem_of_nil|intros (n & ?%elem_of_nil & _); done].
    - intros s. split; [done|intros (n & ?%elem_of_nil & _); done]. }
  exists c, a. split; [done|]. split; [done| |].
  - intros s. rewrite L2. split; intros (n & Hin & ?); exists n; [by rewrite <- Hall|by rewrite Hall].
  - intros s. rewrite L3. split; intros (n & Hin & ?); exists n; [by rewrite <- Hall|by rewrite Hall].
Qed.

Section segment_log.
Context `{Proto LogEntry} `{OpenSSL}.
Context (mCrypto : CryptoUtil).

Definition as_found (s : Segment) : Segment := Segment_found_closed (seg_mFirstIndex s) (seg_mLastIndex s).

(** ** Recovering the segments *)
Lemma recover_as_found b fs p :
  closed_part mCrypto b fs p → recoverActiveOrClosedSegment fs (as_found p.1) = Ret p.1.
Proof.
  intros [Ha Hr]. apply (recover_rep mCrypto b fs _ _ p.2); [done| |done|by rewrite Ha|by right].
  by rewrite (seg_name_closed _ Ha).
Qed.

Lemma recover_retained fs k x retained rest :
  Forall (λ s, seg_mFirstIndex s ≤ seg_mLastIndex s ∧ seg_mLastIndex s < k) retained →
  foldM (recover_closed fs k) ([], x) (retained ++ rest) = foldM (recover_closed fs k) ([], x) rest.
Proof.
  induction 1 as [|s retained [Hle Hlt] _ IH]; [done|]. simpl.
  rewrite (proj2 (Z.leb_le (seg_mFirstIndex s) (seg_mLastIndex s)) Hle), (proj2 (Z.leb_le _ k)) by lia.
  rewrite (proj2 (Z.ltb_lt _ k)) by lia. exact IH.
Qed.

Lemma recover_next fs k kept x s0 s prev :
  last kept = Some prev → seg_mFirstIndex s0 ≤ seg_mLastIndex s0 → seg_mFirstIndex s0 = seg_mLastIndex prev + 1 →
  recoverActiveOrClosedSegment fs s0 = Ret s → recover_closed fs k (kept, x) s0 = Ret (kept ++ [s], seg_mLastIndex s).
Proof.
  intros Hl Hle He Hr. unfold recover_closed. rewrite (proj2 (Z.leb_le _ _) Hle), Hl, (proj2 (Z.eqb_eq _ _) He). simpl.
  by rewrite Hr.
Qed.

Lemma recover_head fs k x s0 s :
  seg_mFirstIndex s0 ≤ seg_mLastIndex s0 → seg_mFirstIndex s0 ≤ k → k ≤ seg_mLastIndex s0 →
  recoverActiveOrClosedSegment fs s0 = Ret s → recover_closed fs k ([], x) s0 = Ret ([s], seg_mLastIndex s).
Proof.
  intros Hle Hk Hk' Hr. unfold recover_closed.
  rewrite (proj2 (Z.leb_le _ _) Hle), (proj2 (Z.leb_le _ _) Hk), (proj2 (Z.ltb_ge _ _) Hk'). simpl. by rewrite Hr.
Qed.

Lemma recover_live b fs k i ps kept x :
  Forall (closed_part mCrypto b fs) ps → chained i ps → x = i - 1 →
  (∃ prev, last kept = Some prev ∧ seg_mLastIndex prev = i - 1) →
  foldM (recover_closed fs k) (kept, x) (as_found <$> ps.*1) = Ret (kept ++ ps.*1, chain_end i ps - 1).
Proof.
  intros Hp. revert i kept x. induction Hp as [|p ps Hp Hps IH]; intros i kept x Hc Hx (prev & Hl & He).
  { by rewrite app_nil_r, chain_end_nil, Hx. }
  destruct p as [s es]. destruct Hc as (Hf & Hne & Hc). pose proof Hp as [_ Hr]. simpl in Hr.
  pose proof (seg_rep_last _ _ _ _ _ Hr) as El. assert (0 < length es)%nat by (destruct es; [done|simpl; lia]).
  rewrite !fmap_cons. cbn [foldM fst]. pose proof (recover_as_found _ _ _ Hp) as Hrec. cbn [fst] in Hrec.
  rewrite (recover_next fs k kept x (as_found s) s prev) by (done || simpl; lia). cbn [mbind result_mbind].
  rewrite (IH (i + Z.of_nat (length es))); [|done|lia|].
  - rewrite <- app_assoc, chain_end_cons. done.
  - exists s. rewrite last_snoc. split; [done|lia].
Qed.

Lemma recover_all b fs k i ps :
  Forall (closed_part mCrypto b fs) ps → chained i ps → i ≤ k →
  match ps with [] => True | (s, _) :: _ => k ≤ seg_mLastIndex s end →
  foldM (recover_closed fs k) ([], 0) (as_found <$> ps.*1) =
    Ret (ps.*1, match ps with [] => 0 | _ => chain_end i ps - 1 end).
Proof.
  destruct ps as [|[s es] ps]; [done|]. intros Hps Hc Hi Hk. pose proof Hps as [Hp Hps']%Forall_cons.
  destruct Hc as (Hf & Hne & Hc). pose proof Hp as [_ Hr]. simpl in Hr. pose proof (seg_rep_last _ _ _ _ _ Hr) as El.
  rewrite !fmap_cons. cbn [foldM fst]. pose proof (recover_as_found _ _ _ Hp) as Hrec. cbn [fst] in Hrec.
  assert (0 < length es)%nat by (destruct es; [done|simpl; lia]).
  rewrite (recover_head fs k 0 (as_found s) s) by (done || simpl; lia). cbn [mbind result_mbind].
  rewrite (recover_live b fs k (i + Z.of_nat (length es)) ps [s]); [|done|done|lia|].
  - by rewrite chain_end_cons.
  - exists s. split; [done|lia].
Qed.

(** ** What the listing finds in the directory of a log *)
Lemma directory_no_clash b fs first0 ps active ns :
  Forall (closed_part mCrypto b fs) ps → chained first0 ps → seg_mIsActive active = true →
  directory fs first0 (live ps active) → (∀ n, n ∈ ns → is_Some (fs !! n)) → no_clash ns.
Proof.
  intros Hp Hc Ha [D1 D2 D3] Hns. split.
  - intros f l l' Hl Hl'. apply Hns in Hl, Hl'.
    assert (Hclass : ∀ x, is_Some (fs !! SegmentFile (ClosedName f x) PMeta) →
      x < first0 ∧ f ≤ x ∨ ∃ p, p ∈ ps ∧ seg_mFirstIndex p.1 = f ∧ seg_mLastIndex p.1 = x ∧ first0 ≤ f).
    { intros x Hs. destruct (D2 _ Hs) as [Hin|(f' & l0 & Hx & ? & ?)]; [right|injection Hx as <- <-; left; lia].
      apply elem_of_live in Hin as [Hx|(p & Hin & Hx)]; [by rewrite (seg_name_active _ Ha) in Hx|].
      rewrite (closed_name _ _ _ _ _ Hp Hin) in Hx. injection Hx as -> ->. exists p.
      pose proof (part_first _ _ _ Hc Hin). split_and!; [done|done|done|lia]. }
    destruct (Hclass l Hl) as [[? ?]|(p & Hin & Ef & El & ?)], (Hclass l' Hl') as [[? ?]|(q & Hin' & Ef' & El' & ?)];
      [by apply (D3 f)|lia|lia|].
    assert (p = q) as -> by (apply (chained_inj _ _ _ _ Hc Hin Hin'); lia). lia.
  - intros f f' Hf Hf'. apply Hns in Hf, Hf'.
    assert (Hact : ∀ x, is_Some (fs !! SegmentFile (InProgress x) PMeta) → x = seg_mFirstIndex active).
    { intros x Hs. destruct (D2 _ Hs) as [Hin|(? & ? & [=] & _)].
      apply elem_of_live in Hin as [Hx|(p & Hin & Hx)]; [by rewrite (seg_name_active _ Ha) in Hx; injection Hx|].
      by rewrite (closed_name _ _ _ _ _ Hp Hin) in Hx. }
    by rewrite (Hact f Hf), (Hact f' Hf').
Qed.

Lemma seg_rep_there b fs s es p : seg_rep mCrypto b fs s es → is_Some (fs !! SegmentFile (seg_name s) p).
Proof. intros (cd & cm & ? & ?)%seg_rep_files. destruct p; by eexists. Qed.

(** The closed segments found are the retained ones followed by those in use. *)
Lemma listed_log b fs l first0 ps active es ns closed found :
  log_rep mCrypto b fs l first0 ps active es → (∀ n, n ∈ ns ↔ is_Some (fs !! n)) → listed ns closed found →
  ∃ retained, closed = retained ++ (as_found <$> ps.*1) ∧
    Forall (λ s, seg_mFirstIndex s ≤ seg_mLastIndex s ∧ seg_mLastIndex s < first0) retained ∧
    found = Some (Segment_found_active (seg_mFirstIndex active)).
Proof.
  intros Hl Hns [Ls Lc La]. open_rep Hl. pose proof (closed_name mCrypto b fs ps) as Hcn.
  assert (Hps : StronglySorted first_lt (as_found <$> ps.*1)).
  { clear -Rchain. revert first0 Rchain. induction ps as [|[s es] ps IH]; intros i Hc; [constructor|].
    destruct Hc as (Hf & Hne & Hc). assert (0 < length es)%nat by (destruct es; [done|simpl; lia]).
    rewrite !fmap_cons. constructor; [by apply (IH _ Hc)|]. apply Forall_forall.
    intros t (u & -> & (us & Hin)%elem_of_firsts)%list_elem_of_fmap. unfold first_lt. simpl.
    pose proof (chained_first _ _ _ _ Hc Hin). lia. }
  assert (Hin_ps : ∀ s, s ∈ as_found <$> ps.*1 → s ∈ closed ∧ first0 ≤ seg_mFirstIndex s ≤ seg_mLastIndex s).
  { intros s (t & -> & (p & -> & Hin)%list_elem_of_fmap)%list_elem_of_fmap. split.
    - apply Lc. exists (SegmentFile (seg_name p.1) PMeta). rewrite (Hcn p Rparts Hin). split; [|done]. apply Hns.
      rewrite <- (Hcn p Rparts Hin). rewrite Forall_forall in Rparts. apply (seg_rep_there b _ _ p.2), (Rparts p Hin).
    - simpl. pose proof (part_last _ _ _ _ _ _ Rparts Rchain Hin). pose proof (part_first _ _ _ Rchain Hin). lia. }
  exists (filter (λ s, seg_mLastIndex s < first0) closed). split_and!.
  - apply sorted_ext; [done| |].
    + apply StronglySorted_app. split_and!; [|by apply sorted_filter|done].
      intros s t [Hlt Hs]%list_elem_of_filter [_ Ht]%Hin_ps. unfold first_lt.
      apply Lc in Hs as ([[|f x] []| | |] & Hn & [= <-]). simpl in *.
      apply Hns in Hn. destruct (dir_segments _ _ _ Rdir _ Hn) as [Hx|(f' & l' & Hx & ? & ?)]; [|injection Hx as <- <-; lia].
      apply elem_of_live in Hx as [Hx|(p & Hin & Hx)]; [by rewrite (seg_name_active _ Ris_active) in Hx|].
      rewrite (Hcn p Rparts Hin) in Hx. injection Hx as -> ->. pose proof (part_last _ _ _ _ _ _ Rparts Rchain Hin).
      pose proof (part_first _ _ _ Rchain Hin). lia.
    + intros s. rewrite elem_of_app, list_elem_of_filter. split; [|intros [[_ ?]|?%Hin_ps]; tauto].
      intros Hs. destruct (decide (seg_mLastIndex s < first0)); [by left|right].
      apply Lc in Hs as ([[|f x] []| | |] & Hn & [= <-]). simpl in *. apply Hns in Hn.
      destruct (dir_segments _ _ _ Rdir _ Hn) as [Hx|(f' & l' & Hx & ? & ?)]; [|injection Hx as <- <-; lia].
      apply elem_of_live in Hx as [Hx|(p & Hin & Hx)]; [by rewrite (seg_name_active _ Ris_active) in Hx|].
      rewrite (Hcn p Rparts Hin) in Hx. injection Hx as -> ->. apply list_elem_of_fmap. exists p.1. split; [done|].
      apply list_elem_of_fmap. by exists p.
  - apply Forall_forall. intros s [Hlt Hs]%list_elem_of_filter. split; [|done].
    apply Lc in Hs as ([[|f x] []| | |] & Hn & [= <-]). simpl in *. apply Hns in Hn.
    destruct (dir_segments _ _ _ Rdir _ Hn) as [Hx|(f' & l' & Hx & ? & ?)]; [|injection Hx as <- <-; lia].
    apply elem_of_live in Hx as [Hx|(p & Hin & Hx)]; [by rewrite (seg_name_active _ Ris_active) in Hx|].
    rewrite (Hcn p Rparts Hin) in Hx. injection Hx as -> ->. pose proof (part_last _ _ _ _ _ _ Rparts Rchain Hin). lia.
  - apply La. exists (seg_mFirstIndex active). split; [|done]. apply Hns.
    rewrite <- (seg_name_active _ Ris_active). by apply (seg_rep_there b _ _ es).
Qed.

Lemma recover_field_spec d f v :
  field_is (disk_fs d) f v → 0 ≤ v < two64 → recover_field d f = Ret (d, v).
Proof.
  intros Hf Hv. unfold field_is in Hf. unfold recover_field, fileExists, getFileContent. rewrite !Hf. cbn [mbind result_mbind]. by rewrite stoull_pretty.
Qed.

(** The directory iterator yields the names of the files, each once. *)
Definition lists_files (readdir : FS → list FileName) : Prop :=
  ∀ fs, NoDup (readdir fs) ∧ ∀ n, n ∈ readdir fs ↔ is_Some (fs !! n).

Lemma directory_names_ok b fs l first0 ps active es n :
  log_rep mCrypto b fs l first0 ps active es → sl_mLastIndex l + 1 < two64 → is_Some (fs !! n) →
  name_ok n ∧ ∀ m, n = SegmentFile m PMeta → name_in_u64 m.
Proof.
  intros Hl Hb Hn. destruct (log_rep_last _ _ _ _ _ _ _ _ Hl) as [El Hfl]. open_rep Hl.
  split; [by apply (dir_named _ _ _ Rdir)|]. intros m ->. pose proof (chain_end_le first0 ps).
  assert (He : chain_end first0 ps ≤ sl_mLastIndex l + 1).
  { unfold chain_end, all_entries in *. rewrite length_app in El. lia. }
  destruct (dir_segments _ _ _ Rdir _ Hn) as [Hin|(f & x & -> & ? & ?)]; [|simpl; lia].
  apply elem_of_live in Hin as [->|(p & Hin & ->)]; [rewrite (seg_name_active _ Ris_active); simpl; lia|].
  rewrite (closed_name _ _ _ _ _ Rparts Hin). simpl. pose proof (part_first _ _ _ Rchain Hin).
  pose proof (part_last _ _ _ _ _ _ Rparts Rchain Hin). lia.
Qed.

(** What [recoverSegments] makes of the listing. *)
Lemma recoverSegments_spec b fs l first0 ps active es retained :
  log_rep mCrypto b fs l first0 ps active es →
  Forall (λ s, seg_mFirstIndex s ≤ seg_mLastIndex s ∧ seg_mLastIndex s < first0) retained →
  recoverSegments fs
    (mk_SegmentLog (sl_mSegmentDataSizeLimit l) (sl_mSegmentMetaSizeLimit l) (sl_mFirstIndex l) 0 (sl_mCurrentTerm l)
       (sl_mVoteFor l) (retained ++ (as_found <$> ps.*1)) (Some (Segment_found_active (seg_mFirstIndex active)))) =
  Ret (if seg_mLastIndex active <? sl_mFirstIndex l
       then with_last 0 (with_segments [] None l) else l).
Proof.
  intros Hl Hret. pose proof (log_rep_last _ _ _ _ _ _ _ _ Hl) as [El Hfl]. open_rep Hl.
  unfold recoverSegments. simpl. rewrite recover_retained.
  2:{ eapply Forall_impl; [exact Hret|]. intros s [? ?]. simpl. lia. }
  rewrite (recover_all b fs _ first0 ps Rparts Rchain Rhead) by (by destruct ps as [|[s ses] ps]). simpl.
  assert (Hcheck : match last ps.*1 with
                   | None => seg_mFirstIndex active <=? sl_mFirstIndex l
                   | Some prev => seg_mFirstIndex active =? seg_mLastIndex prev + 1
                   end = true).
  { destruct ps as [|[s ses] ps _] using rev_ind.
    - rewrite chain_end_nil in Ractive_first. simpl. lia.
    - rewrite fmap_app. change ([(s, ses)].*1) with [s]. rewrite last_snoc. apply Forall_app in Rparts as [_ [[_ Hs] _]%Forall_cons]. simpl in Hs.
      pose proof (seg_rep_last _ _ _ _ _ Hs). apply chained_app in Rchain as [_ (Hf & _)].
      rewrite chain_end_app, chain_end_cons, chain_end_nil in Ractive_first. lia. }
  rewrite Hcheck. simpl.
  rewrite (recover_rep mCrypto b fs active _ es Ractive_rep); [|by rewrite (seg_name_active _ Ris_active)|done|done|by left].
  simpl. destruct (Z.ltb_spec (seg_mLastIndex active) (sl_mFirstIndex l)) as [Hlt|Hge].
  - destruct ps as [|p ps].
    + unfold with_last, with_segments. simpl. done.
    + exfalso. pose proof (parts_reach _ _ _ _ _ (sl_mFirstIndex l) p Rparts Rchain) as Hr. destruct p as [s ses].
      specialize (Hr Rreach ltac:(left)). pose proof (part_last _ _ _ _ _ (s, ses) Rparts Rchain ltac:(left)).
      pose proof (seg_rep_last _ _ _ _ _ Ractive_rep). lia.
  - unfold with_last, with_segments. simpl. rewrite <- Rclosed, <- Rlast, <- Ractive. by destruct l.
Qed.

Lemma init_holds b fs l v dir readdir :
  log_holds mCrypto b fs l v → lists_files readdir →
  lv_last v + 1 < two64 → 0 ≤ lv_term v < two64 → 0 ≤ lv_vote v < two64 →
  ∃ d' l', SegmentLog_init dir readdir (sl_mSegmentDataSizeLimit l) (sl_mSegmentMetaSizeLimit l) (boot fs) = Ret (d', l') ∧
    log_holds mCrypto b (disk_fs d') l' v.
Proof.
  intros (first0 & ps & active & es & Hl & ->) Hdir Hb Ht Hv. rewrite (view_last _ _ _ _ _ _ _ _ Hl) in Hb. simpl in Ht, Hv.
  pose proof (log_rep_last _ _ _ _ _ _ _ _ Hl) as [El Hfl]. pose proof (λ n, directory_names_ok _ _ _ _ _ _ _ n Hl Hb) as Hok.
  destruct (Hdir fs) as [Hnd Hin]. pose proof Hl as Hl0. open_rep Hl.
  unfold SegmentLog_init. rewrite (recover_field_spec (boot fs) _ _ Rterm Ht). cbn [mbind result_mbind].
  rewrite (recover_field_spec (boot fs) _ _ Rvote Hv). cbn [mbind result_mbind].
  rewrite (recover_field_spec (boot fs) _ _ Rfirst) by lia. cbn [mbind result_mbind boot disk_fs].
  destruct (listSegments_spec dir (readdir fs) Hnd) as (closed & found & Heq & Hls).
  { apply (directory_no_clash b fs first0 ps active); try done. intros n. apply Hin. }
  { apply Forall_forall. intros n Hn. apply Hok. by apply Hin. }
  unfold path in Heq. rewrite Heq. cbn [mbind result_mbind].
  destruct (listed_log _ _ _ _ _ _ _ _ _ _ Hl0 Hin Hls) as (retained & -> & Hret & ->).
  rewrite (recoverSegments_spec _ _ _ _ _ _ _ _ Hl0 Hret). cbn [mbind result_mbind].
  destruct (Z.ltb_spec (seg_mLastIndex active) (sl_mFirstIndex l)) as [Hlt|Hge].
  - assert (ps = [] ∧ es = [] ∧ sl_mFirstIndex l = first0) as (-> & -> & Ef).
    { destruct ps as [|[s ses] ps]; [destruct Rreach as [|[? ?]]; [lia|done]|]. exfalso.
      pose proof (part_last _ _ _ _ _ (s, ses) Rparts Rchain ltac:(left)). simpl in *.
      pose proof (seg_rep_last _ _ _ _ _ Ractive_rep). lia. }
    simpl. unfold ensure_active. simpl. set (l0 := with_last _ _).
    destruct (new_active_spec mCrypto b (boot fs) l0) as (d' & -> & Hrep & Hseg & Hfld & Hnew); [done|done|simpl; lia|].
    rewrite chain_end_nil in Ractive_first.
    eexists d', _. split; [done|]. exists first0, [], (fresh_segment l0), []. split; [|done]. split; simpl; try done; try lia.
    + by rewrite chain_end_nil; lia.
    + right. done.
    + unfold field_is. by rewrite Hfld.
    + unfold field_is. by rewrite Hfld.
    + unfold field_is. by rewrite Hfld.
    + destruct Rdir as [D1 D2 D3].
      assert (Hlive : live [] (fresh_segment l0) = live [] active).
      { unfold live. simpl. rewrite (seg_name_active _ Ris_active). unfold seg_name. simpl. do 2 f_equal. lia. }
      rewrite Hlive. split.
      * intros n Hn. apply Hnew in Hn as [?|?]; [by apply D1|done].
      * intros n Hn. destruct (decide (n = InProgress (sl_mLastIndex l0 + 1))) as [->|Hne].
        { left. rewrite <- Hlive. by left. }
        rewrite Hseg in Hn by done. by apply D2.
      * intros f x x'. rewrite !Hseg by done. apply D3.
  - rewrite (proj2 (Z.eqb_neq (sl_mLastIndex l) 0)) by lia. unfold ensure_active. rewrite Ractive.
    eexists _, _. split; [done|]. exists first0, ps, active, es. done.
Qed.
End segment_log.
