(* ===== verification/SegmentRun.v ===== *)
(** * Running a segmented log

    What a client can observe of a log, sequences of operations and restarts with
    their effect on the view, and a crash during an append. *)
From Stdlib Require Import Ascii String.
From stdpp Require Import pretty.
From S2P Require Import Prelude Protobuf Crypto Numeric RaftLog Disk DiskProps Segment SegmentProps SegmentOps SegmentCrash.
From S2P Require Import SegmentLog SegmentLogProps SegmentLogOps SegmentLogCut SegmentLogInit.
Open Scope Z_scope.

(** ** What a client can observe *)
Section segment_log.
Context `{Proto LogEntry} `{OpenSSL}.
Context (mCrypto : CryptoUtil).

(** The answers of a log that holds the sequence [v]. *)
Definition term_of_view (v : LogView) (i : Z) : option Z :=
  if i =? lv_first v - 1 then Some 0 else le_term <$> lv_lookup v i.

Record observed (fs : FS) (l : SegmentLog) (v : LogView) : Prop := {
  ob_first : sl_mFirstIndex l = lv_first v;
  ob_last : sl_mLastIndex l = lv_last v;
  ob_term : sl_mCurrentTerm l = lv_term v;
  ob_vote : sl_mVoteFor l = lv_vote v;
  ob_getTerm i : SegmentLog_getTerm fs l i = Ret (term_of_view v i);
  ob_getEntry recent i : SegmentLog_getEntry mCrypto fs l recent i = Ret (lv_lookup v i);
  ob_getEntries recent start maxLen maxBatch es : lv_first v ≤ start ≤ lv_last v + 1 →
    ∃ n, SegmentLog_getEntries mCrypto fs l recent start maxLen maxBatch es =
        Ret (Z.of_nat n, if start =? lv_last v + 1 then es else take n (drop (Z.to_nat (start - lv_first v)) (lv_entries v))) ∧
      (start = lv_last v + 1 → n = O) ∧
      (start ≤ lv_last v → (n ≤ length (drop (Z.to_nat (start - lv_first v)) (lv_entries v)))%nat) ∧
      (start ≤ lv_last v → 0 < maxBatch → (∀ e, lv_lookup v start = Some e → ByteSizeLong e ≤ maxLen) → (0 < n)%nat) }.

Lemma lookup_view l first0 ps es i :
  first0 ≤ sl_mFirstIndex l → sl_mFirstIndex l ≤ i →
  lv_lookup (view_of l first0 ps es) i = all_entries ps es !! Z.to_nat (i - first0).
Proof.
  intros Hf Hi. unfold lv_lookup, view_of. simpl. rewrite (proj2 (Z.ltb_ge _ _)) by done.
  rewrite lookup_drop. f_equal. lia.
Qed.

Lemma lookup_drop_head {A} (xs ys rest : list A) k n :
  drop n xs = drop k ys ++ rest → (k < length ys)%nat → xs !! n = ys !! k.
Proof.
  intros He Hk. rewrite <- (Nat.add_0_r n), <- lookup_drop, He, lookup_app_l by (rewrite length_drop; lia).
  by rewrite lookup_drop, Nat.add_0_r.
Qed.

Lemma lv_lookup_out v i : view_wf v → i < lv_first v ∨ lv_last v < i → lv_lookup v i = None.
Proof.
  intros [Hf _] Hi. unfold lv_lookup, lv_last in *. destruct (Z.ltb_spec i (lv_first v)); [done|].
  apply lookup_ge_None. lia.
Qed.

Lemma getSegment_out l i :
  i < sl_mFirstIndex l ∨ sl_mLastIndex l < i → getSegment l i = Ret None.
Proof.
  intros Hi. unfold getSegment. destruct (isEmpty _ _); [done|].
  destruct (Z.ltb_spec i (sl_mFirstIndex l)), (Z.ltb_spec (sl_mLastIndex l) i); try done; lia.
Qed.

Lemma batch_prefix maxLen n es : ∃ k, batch maxLen n es = take k es ∧ (k ≤ n)%nat ∧ (k ≤ length es)%nat.
Proof.
  revert maxLen es. induction n as [|n IH]; intros maxLen es; simpl; [by exists 0%nat; split_and!; [|lia|lia]|].
  destruct es as [|e es]; [exists 0%nat; split_and!; simpl; [done|lia|lia]|].
  destruct (_ <? _); [exists 0%nat; split_and!; simpl; [done|lia|lia]|].
  destruct (IH (maxLen - ByteSizeLong e) es) as (k & -> & ? & ?). exists (S k). split_and!; simpl; [done|lia|lia].
Qed.

Lemma holds_observed b fs l v : hmac_ready mCrypto → log_holds mCrypto b fs l v → observed fs l v.
Proof.
  intros Hr Hh. pose proof (log_holds_wf _ _ _ _ _ Hh) as Hwf. destruct Hh as (first0 & ps & active & es & Hl & ->).
  pose proof (lr_head _ _ _ _ _ _ _ _ Hl) as Hf0. pose proof (view_last _ _ _ _ _ _ _ _ Hl) as Elast.
  assert (Hseg : ∀ i, sl_mFirstIndex l ≤ i ≤ sl_mLastIndex l →
    ∃ s ses k rest e, getSegment l i = Ret (Some s) ∧ seg_rep mCrypto b fs s ses ∧ i = seg_mFirstIndex s + Z.of_nat k ∧
      ses !! k = Some e ∧ lv_lookup (view_of l first0 ps es) i = Some e ∧
      drop (Z.to_nat (i - sl_mFirstIndex l)) (lv_entries (view_of l first0 ps es)) = drop k ses ++ rest).
  { intros i Hi. destruct (getSegment_spec _ _ _ _ _ _ _ _ i Hl Hi) as (s & ses & k & rest & Hg & Hs & Hik & Hk & Hd).
    destruct (lookup_lt_is_Some_2 ses k Hk) as [e He]. exists s, ses, k, rest, e. split_and!; try done.
    - rewrite lookup_view by lia. rewrite (lookup_drop_head _ _ _ _ _ Hd Hk). done.
    - unfold view_of. simpl. rewrite drop_drop, <- Hd. f_equal. lia. }
  split; try done.
  - intros i. unfold SegmentLog_getTerm, term_of_view. change (lv_first (view_of l first0 ps es)) with (sl_mFirstIndex l).
    destruct (_ =? _); [done|]. destruct (decide (sl_mFirstIndex l ≤ i ≤ sl_mLastIndex l)) as [Hi|Hi].
    + destruct (Hseg i Hi) as (s & ses & k & rest & e & -> & Hs & -> & He & -> & _). simpl.
      by rewrite (Segment_getTerm_rep _ _ _ _ _ _ _ Hs He).
    + rewrite getSegment_out by lia. rewrite lv_lookup_out; [done|done|]. rewrite Elast. simpl. lia.
  - intros recent i. unfold SegmentLog_getEntry. destruct (decide (sl_mFirstIndex l ≤ i ≤ sl_mLastIndex l)) as [Hi|Hi].
    + destruct (Hseg i Hi) as (s & ses & k & rest & e & -> & Hs & -> & He & -> & _). simpl.
      by rewrite (Segment_getEntry_rep _ _ _ _ _ _ _ _ Hr Hs He).
    + rewrite getSegment_out by lia. rewrite lv_lookup_out; [done|done|]. rewrite Elast. simpl. lia.
  - intros recent start maxLen maxBatch es0. rewrite Elast. simpl lv_first. intros Hst. unfold SegmentLog_getEntries.
    destruct (Z.ltb_spec (sl_mLastIndex l) start) as [Hlt|Hle].
    + rewrite !(proj2 (Z.eqb_eq start (sl_mLastIndex l + 1))) by lia. exists 0%nat. split_and!; [done|done|lia|lia].
    + rewrite (proj2 (Z.eqb_neq _ _)) by lia. destruct (Hseg start) as (s & ses & k & rest & e & -> & Hs & -> & He & Hlook & Hd); [lia|].
      cbn [mbind result_mbind]. rewrite Hd. pose proof (lookup_lt_Some _ _ _ He) as Hk.
      rewrite (Segment_getEntries_rep _ _ _ _ ses) by (done || lia).
      replace (Z.to_nat (seg_mFirstIndex s + Z.of_nat k - seg_mFirstIndex s)) with k by lia.
      destruct (batch_prefix maxLen (Z.to_nat (Z.min maxBatch (Z.of_nat (length (drop k ses))))) (drop k ses)) as (n & Hb & ? & Hn).
      exists n. rewrite Hb, length_take, Nat.min_l by done. rewrite take_app_le by done.
      split_and!; [done|lia|rewrite length_app; lia|]. intros _ Hmax Hsize. specialize (Hsize e Hlook).
      destruct n as [|n]; [|lia]. exfalso. rewrite (drop_S _ _ _ He) in Hb. revert Hb.
      replace (Z.to_nat (Z.min maxBatch _)) with (S (pred (Z.to_nat (Z.min maxBatch (Z.of_nat (length (e :: drop (S k) ses)))))))
        by (simpl; lia). cbn [batch]. by rewrite (proj2 (Z.ltb_ge _ _)).
Qed.

(** ** Runs *)
Inductive StoreOp :=
  | StAppend (e : LogEntry) | StAppendAll (es : list LogEntry)
  | StTruncatePrefix (firstIndexKept : Z) | StTruncateSuffix (lastIndexKept : Z)
  | StSetTerm (term : Z) | StSetVote (vote : Z)
  | StRestart.

Context (dir : string) (readdir : FS → list FileName) (now : Z → Z) (dl ml : Z).

(** [Log.h] asserts that an append succeeds.  A restart starts from what is on
    the disk. *)
Definition run_StoreOp (st : Disk * SegmentLog) (op : StoreOp) : result (Disk * SegmentLog) :=
  let '(d, l) := st in
  match op with
  | StAppend e => '(d, l, ok) ← SegmentLog_appendEntry mCrypto d l e; cassert ok;; Ret (d, l)
  | StAppendAll es => '(d, l, ok) ← SegmentLog_appendEntries mCrypto d l es; cassert ok;; Ret (d, l)
  | StTruncatePrefix i => SegmentLog_truncatePrefix d l i
  | StTruncateSuffix i => SegmentLog_truncateSuffix now d l i
  | StSetTerm t => SegmentLog_setCurrentTerm d l t
  | StSetVote n => SegmentLog_setVoteFor d l n
  | StRestart => SegmentLog_init dir readdir dl ml (boot (disk_fs d))
  end.

(** The operations Raft makes: entries continue the log, a batch fits a segment,
    and only what is in the log is truncated. *)
Definition batch_ok (v : LogView) (es : list LogEntry) : Prop :=
  contiguous (lv_last v + 1) es ∧ Forall (entry_keyed mCrypto) es ∧
  Z.of_nat (length es) * sizeof_LogMeta ≤ ml ∧ total_bytes es ≤ dl.

Definition allowed (v : LogView) (op : StoreOp) : Prop :=
  match op with
  | StAppend e => batch_ok v [e]
  | StAppendAll es => batch_ok v es
  | StTruncatePrefix i => i ≤ lv_last v
  | StTruncateSuffix i => lv_first v - 1 ≤ i
  | StSetTerm _ | StSetVote _ => True
  | StRestart => lv_last v + 1 < two64 ∧ 0 ≤ lv_term v < two64 ∧ 0 ≤ lv_vote v < two64
  end.

Definition view_StoreOp (v : LogView) (op : StoreOp) : LogView :=
  match op with
  | StAppend e => lv_with_entries v (lv_entries v ++ [e])
  | StAppendAll es => lv_with_entries v (lv_entries v ++ es)
  | StTruncatePrefix i => lv_truncatePrefix v i
  | StTruncateSuffix i => lv_truncateSuffix v i
  | StSetTerm t => mk_LogView (lv_first v) (lv_entries v) t (lv_vote v)
  | StSetVote n => mk_LogView (lv_first v) (lv_entries v) (lv_term v) n
  | StRestart => v
  end.

Fixpoint allowed_all (v : LogView) (ops : list StoreOp) : Prop :=
  match ops with
  | [] => True
  | op :: ops => allowed v op ∧ allowed_all (view_StoreOp v op) ops
  end.

(** The sizes of new segments never change. *)
Definition limits_are (l : SegmentLog) : Prop :=
  sl_mSegmentDataSizeLimit l = dl ∧ sl_mSegmentMetaSizeLimit l = ml.

Lemma new_active_limits d l d' l' : new_active d l = Ret (d', l') → limits_are l → limits_are l'.
Proof. unfold new_active. intros Hn Hl. inv_ret. exact Hl. Qed.

Lemma ensure_active_limits d l d' l' : ensure_active d l = Ret (d', l') → limits_are l → limits_are l'.
Proof.
  unfold ensure_active. destruct (sl_mActiveSegment l); [by intros [= _ <-]|]. apply new_active_limits.
Qed.

Lemma append_limits d l es d' l' : append_to_active mCrypto d l es = Ret (d', l') → limits_are l → limits_are l'.
Proof.
  unfold append_to_active. destruct (sl_mActiveSegment l) as [a|] eqn:Ea; [|done]. intros Ha Hl.
  apply bind_Ret in Ha as (roll & _ & Ha). apply bind_Ret in Ha as ([d1 l1] & Hr & Ha).
  assert (Hl1 : limits_are l1).
  { destruct roll; [|by injection Hr as _ <-]. unfold rollActiveSegment in Hr. rewrite Ea in Hr.
    apply bind_Ret in Hr as ([d2 s] & _ & Hr). by apply (new_active_limits _ _ _ _ Hr). }
  destruct (sl_mActiveSegment l1) as [a1|]; [|done]. apply bind_Ret in Ha as ([d2 s2] & _ & Ha). by injection Ha as _ <-.
Qed.

Lemma truncatePrefix_limits d l i d' l' : SegmentLog_truncatePrefix d l i = Ret (d', l') → limits_are l → limits_are l'.
Proof.
  unfold SegmentLog_truncatePrefix. intros Ht Hl. split_if Ht; [by injection Ht as _ <-|].
  apply bind_Ret in Ht as (d1 & _ & Ht). cbv zeta in Ht. destruct (erase_prefix _ _); [|by injection Ht as _ <-].
  destruct (sl_mActiveSegment _) as [a|]; [|done]. split_if Ht; [|by injection Ht as _ <-].
  by apply (new_active_limits _ _ _ _ Ht).
Qed.

Lemma truncateSuffix_limits d l i d' l' : SegmentLog_truncateSuffix now d l i = Ret (d', l') → limits_are l → limits_are l'.
Proof.
  unfold SegmentLog_truncateSuffix. intros Ht Hl. split_if Ht; [by injection Ht as _ <-|].
  apply bind_Ret in Ht as ([[[l1 ds] ls] ia] & Hs & Ht). apply bind_Ret in Ht as ([[d2 l2] ds2] & Hm & Ht).
  apply bind_Ret in Ht as (d3 & _ & Ht). apply (ensure_active_limits _ _ _ _ Ht).
  assert (Hl1 : limits_are l1).
  { unfold select_dropped in Hs. destruct (sl_mActiveSegment _) as [a|]; [|done]. split_if Hs; [by injection Hs as <- _ _ _|].
    destruct (find_last_kept _ _) as [tl0 ls0]. injection Hs as <- _ _ _. by destruct (Nat.eqb _ _). }
  destruct ls as [s|]; [|by injection Hm as _ <- _]. split_if Hm.
  - apply bind_Ret in Hm as ([d4 s4] & _ & Hm). injection Hm as _ <- _. by destruct ia.
  - injection Hm as _ <- _. by destruct ia.
Qed.

Lemma init_limits d d' l' : SegmentLog_init dir readdir dl ml d = Ret (d', l') → limits_are l'.
Proof.
  unfold SegmentLog_init. intros Hi.
  do 3 (apply bind_Ret in Hi as ([? ?] & _ & Hi)). apply bind_Ret in Hi as ([c a] & _ & Hi). apply bind_Ret in Hi as (l1 & Hr & Hi).
  apply (ensure_active_limits _ _ _ _ Hi). unfold recoverSegments in Hr. apply bind_Ret in Hr as ([c1 x] & _ & Hr).
  assert (Hl1 : limits_are l1).
  { simpl in Hr. destruct a as [s|]; [|by injection Hr as <-]. inv_ret. split_if Hr; by inv_ret. }
  by destruct (_ =? 0).
Qed.

Lemma recover_field_missing d f :
  disk_fs d !! FieldFile f = None →
  ∃ d', recover_field d f = Ret (d', initial_value f) ∧ field_is (disk_fs d') f (initial_value f) ∧
    (∀ n p, disk_fs d' !! SegmentFile n p = disk_fs d !! SegmentFile n p) ∧
    (∀ f', f' ≠ f → disk_fs d' !! FieldFile f' = disk_fs d !! FieldFile f') ∧
    (∀ n, is_Some (disk_fs d' !! n) → is_Some (disk_fs d !! n) ∨ name_ok n).
Proof.
  intros Hn. unfold recover_field, fileExists. rewrite Hn.
  destruct (persist_spec d f (initial_value f)) as (d' & -> & Hrest). simpl. by exists d'.
Qed.

(** The first start, in an empty directory. *)
Lemma init_empty :
  lists_files readdir → page_aligned dl → page_aligned ml →
  ∃ d l, SegmentLog_init dir readdir dl ml (boot ∅) = Ret (d, l) ∧
    log_holds mCrypto true (disk_fs d) l (mk_LogView 1 [] 0 0).
Proof.
  intros Hdir Hdl Hml. unfold SegmentLog_init.
  destruct (recover_field_missing (boot ∅) current_term) as (d1 & -> & T1 & S1 & F1 & N1); [done|]. cbn [mbind result_mbind].
  destruct (recover_field_missing d1 vote_for) as (d2 & -> & T2 & S2 & F2 & N2); [by rewrite F1|]. cbn [mbind result_mbind].
  destruct (recover_field_missing d2 first_index) as (d3 & -> & T3 & S3 & F3 & N3); [by rewrite F2, F1|]. cbn [mbind result_mbind].
  assert (Hseg : ∀ n p, disk_fs d3 !! SegmentFile n p = None) by (intros n p; by rewrite S3, S2, S1).
  assert (Hok : ∀ n, is_Some (disk_fs d3 !! n) → name_ok n).
  { intros n [Hn|]%N3; [|done]. apply N2 in Hn as [Hn|]; [|done]. apply N1 in Hn as [[? [=]]|]; done. }
  destruct (Hdir (disk_fs d3)) as [Hnd Hin].
  assert (Hno : ∀ m, SegmentFile m PMeta ∉ readdir (disk_fs d3)).
  { intros m [x Hx]%Hin. by rewrite Hseg in Hx. }
  destruct (listSegments_spec dir (readdir (disk_fs d3)) Hnd) as (closed & found & Heq & [Ls Lc La]).
  { split; intros *; intros []%Hno. }
  { apply Forall_forall. intros n Hn. split; [by apply Hok, Hin|]. intros m ->. by apply Hno in Hn. }
  unfold path in Heq. rewrite Heq. cbn [mbind result_mbind].
  assert (closed = []) as ->.
  { destruct closed as [|s closed]; [done|]. destruct (proj1 (Lc s) ltac:(left)) as ([[|f x] []| | |] & Hn & [=]).
    by apply Hno in Hn. }
  assert (found = None) as ->.
  { destruct found as [s|]; [|done]. destruct (proj1 (La s) eq_refl) as (f & Hn & _). by apply Hno in Hn. }
  simpl. unfold ensure_active. simpl. set (l0 := with_last _ _).
  destruct (new_active_spec mCrypto true d3 l0) as (d' & -> & Hrep & Hs & Hf & Hn); [done|done|done|].
  eexists d', _. split; [done|]. exists 1, [], (fresh_segment l0), []. split; [|done]. split; simpl; try done.
  - by right.
  - unfold field_is. by rewrite Hf, F3, F2.
  - unfold field_is. by rewrite Hf, F3.
  - unfold field_is. by rewrite Hf.
  - split.
    + intros n [Hn'|]%Hn; [by apply Hok|done].
    + intros n Hm. destruct (decide (n = InProgress 1)) as [->|Hne]; [by left; left|].
      rewrite Hs, Hseg in Hm by done. by destruct Hm.
    + intros f x x' _ _ Hm. rewrite Hs, Hseg in Hm by done. by destruct Hm.
Qed.

Lemma run_StoreOp_holds d l v op :
  hmac_ready mCrypto → lists_files readdir → (∀ f, 0 ≤ now f) →
  log_holds mCrypto true (disk_fs d) l v → limits_are l → allowed v op →
  ∃ d' l', run_StoreOp (d, l) op = Ret (d', l') ∧ log_holds mCrypto true (disk_fs d') l' (view_StoreOp v op) ∧ limits_are l'.
Proof.
  intros Hr Hdir Hnow Hh [E1 E2] Ha. pose proof (conj E1 E2 : limits_are l) as Hlim.
  assert (Hbatch : ∀ es, batch_ok v es → appendable mCrypto l es).
  { intros es (Hc & Hk & Hm & Hd). split; rewrite ?E1, ?E2; try done.
    destruct Hh as (first0 & ps & active & es0 & Hl & ->). by rewrite (view_last _ _ _ _ _ _ _ _ Hl) in Hc. }
  destruct op as [e|es|i|i|t|n|]; cbn [run_StoreOp view_StoreOp allowed] in *.
  - destruct (appendEntry_holds mCrypto d l v e Hr Hh (Hbatch _ Ha)) as (d' & l' & Heq & Hh'). rewrite Heq. simpl.
    eexists _, _. split_and!; [done|done|]. unfold SegmentLog_appendEntry in Heq. split_if Heq; [by injection Heq as _ <-|].
    apply bind_Ret in Heq as ([d1 l1] & Hap & Heq). injection Heq as _ <-. by apply (append_limits _ _ _ _ _ Hap).
  - destruct (appendEntries_holds mCrypto d l v es Hr Hh (Hbatch _ Ha)) as (d' & l' & Heq & Hh'). rewrite Heq. simpl.
    eexists _, _. split_and!; [done|done|]. unfold SegmentLog_appendEntries in Heq. destruct es as [|e es]; [by injection Heq as _ <-|].
    split_if Heq; [by injection Heq as _ <-|]. apply bind_Ret in Heq as ([d1 l1] & Hap & Heq). injection Heq as _ <-.
    by apply (append_limits _ _ _ _ _ Hap).
  - destruct (truncatePrefix_holds mCrypto true d l v i Hh Ha) as (d' & l' & Heq & Hh'). rewrite Heq.
    eexists _, _. split_and!; [done|done|]. by apply (truncatePrefix_limits _ _ _ _ _ Heq).
  - destruct (truncateSuffix_holds mCrypto true d l v i now Hh Ha Hnow) as (d' & l' & Heq & Hh'). rewrite Heq.
    eexists _, _. split_and!; [done|done|]. by apply (truncateSuffix_limits _ _ _ _ _ Heq).
  - destruct (setCurrentTerm_holds mCrypto true d l v t Hh) as (d' & l' & Heq & Hh'). rewrite Heq.
    eexists _, _. split_and!; [done|done|]. unfold SegmentLog_setCurrentTerm in Heq. inv_ret. done.
  - destruct (setVoteFor_holds mCrypto true d l v n Hh) as (d' & l' & Heq & Hh'). rewrite Heq.
    eexists _, _. split_and!; [done|done|]. unfold SegmentLog_setVoteFor in Heq. inv_ret. done.
  - destruct Ha as (Hb & Ht & Hv). rewrite <- E1, <- E2.
    destruct (init_holds mCrypto true (disk_fs d) l v dir readdir Hh Hdir Hb Ht Hv) as (d' & l' & Heq & Hh').
    rewrite Heq. eexists _, _. split_and!; [done|done|]. rewrite E1, E2 in Heq. by apply (init_limits _ _ _ Heq).
Qed.

Lemma run_StoreOps_holds ops d l v :
  hmac_ready mCrypto → lists_files readdir → (∀ f, 0 ≤ now f) →
  log_holds mCrypto true (disk_fs d) l v → limits_are l → allowed_all v ops →
  ∃ d' l', foldM run_StoreOp (d, l) ops = Ret (d', l') ∧
    log_holds mCrypto true (disk_fs d') l' (foldl view_StoreOp v ops) ∧ limits_are l'.
Proof.
  intros Hr Hdir Hnow. revert d l v. induction ops as [|op ops IH]; intros d l v Hh Hlim Ha; [by exists d, l|].
  destruct Ha as [Ha Has]. destruct (run_StoreOp_holds d l v op Hr Hdir Hnow Hh Hlim Ha) as (d1 & l1 & Heq & Hh1 & Hlim1).
  destruct (IH _ _ _ Hh1 Hlim1 Has) as (d2 & l2 & Heq2 & Hrest). exists d2, l2. cbn [foldM]. rewrite Heq. done.
Qed.

(** A crash at any point of an append that does not roll: the next start has the
    old entries and a prefix of the new ones. *)
Lemma append_crash_holds fs l v active new :
  hmac_ready mCrypto → log_holds mCrypto true fs l v → sl_mActiveSegment l = Some active →
  appendable mCrypto l new → new ≠ [] → shouldRoll active new = Ret false →
  ∃ d' l', SegmentLog_appendEntries mCrypto (boot fs) l new = Ret (d', l', true) ∧
    ∀ img, crash_image fs (disk_trace d') img →
      ∃ n l1, (n ≤ length new)%nat ∧
        log_holds mCrypto false img l1 (lv_with_entries v (lv_entries v ++ take n new)) ∧
        sl_mSegmentDataSizeLimit l1 = sl_mSegmentDataSizeLimit l ∧ sl_mSegmentMetaSizeLimit l1 = sl_mSegmentMetaSizeLimit l.
Proof.
  intros Hr (first0 & ps & a & es & Hl & ->) Ha [Hk Hc _ _] Hne Hroll. pose proof (lr_active _ _ _ _ _ _ _ _ Hl) as Ha'.
  rewrite Ha in Ha'. injection Ha' as <-. pose proof (lr_is_active _ _ _ _ _ _ _ _ Hl) as Hact.
  pose proof (lr_last _ _ _ _ _ _ _ _ Hl) as El. pose proof (lr_active_rep _ _ _ _ _ _ _ _ Hl) as Hrep.
  assert (Hfit : fits active new).
  { destruct (shouldRoll_spec active new Hact) as (r & Hr' & Hiff). rewrite Hroll in Hr'. injection Hr' as <-. by apply Hiff. }
  destruct (append_no_roll mCrypto (boot fs) l first0 ps active es new Hr Hk Hl Hne Hc Hfit) as (ms & Happ & Hms & _).
  assert (Heq : ∃ l', SegmentLog_appendEntries mCrypto (boot fs) l new =
    Ret (issue (append_ops active (total_bytes es) (Z.of_nat (length es)) new ms) (boot fs), l', true)).
  { unfold SegmentLog_appendEntries. destruct new as [|e new]; [done|]. destruct Hc as [Hi _].
    rewrite (proj2 (Z.eqb_eq _ _)) by done. cbn [negb]. rewrite Happ. by eexists. }
  destruct Heq as [l' Heq]. eexists _, l'. split; [exact Heq|]. clear Heq. intros img Himg. cbn [issue disk_trace boot app] in Himg. rewrite El in Hc.
  destruct (append_crash mCrypto fs active es new ms img Hrep Hact Hc Hfit Hms Himg) as (n & Hn & Hrep' & Hother).
  exists n, (log_grown l active (take n new)). split_and!; [done| |done|done].
  eexists first0, ps, _, _. split.
  - apply (log_rep_grown mCrypto true false fs img l first0 ps active es); [done|by right|done|done].
  - symmetry. eapply (view_append mCrypto true fs l first0 ps active es); [done| |done..].
    unfold all_entries. by rewrite app_assoc.
Qed.
Lemma append_outside b d s e :
  seg_rep mCrypto b (disk_fs d) s [] → seg_mIsActive s = true → le_index e = seg_mLastIndex s + 1 →
  seg_mDataSizeLimit s < ByteSizeLong e → Segment_appendEntries mCrypto d s [e] = Fail UndefinedBehaviour.
Proof.
  intros (bytes & metas & [Hf _] & [_ _ _ Hoff _ _ _ _] & _) Ha Hi Hbig. unfold Segment_appendEntries. rewrite Ha.
  cbn [cassert foldM mbind result_mbind append_one]. rewrite Z.add_0_r, Hi, Z.eqb_refl. cbn [cassert mbind result_mbind].
  unfold mapped_write, seg_data in *. rewrite Hf, Hoff. change (total_bytes []) with 0.
  unfold ByteSizeLong in Hbig. rewrite (proj2 (Z.leb_gt _ (seg_mDataSizeLimit s))) by lia. by rewrite andb_false_r.
Qed.

(** An entry that no segment can hold: rolling does not help, and it is written
    behind the end of the mapping of the new segment. *)
Lemma oversized_append d l first0 ps active es e :
  log_rep mCrypto true (disk_fs d) l first0 ps active es → es ≠ [] →
  le_index e = sl_mLastIndex l + 1 → sl_mSegmentDataSizeLimit l < ByteSizeLong e →
  SegmentLog_appendEntry mCrypto d l e = Fail UndefinedBehaviour.
Proof.
  intros Hl Hne Hi Hbig. unfold SegmentLog_appendEntry. rewrite (proj2 (Z.eqb_eq _ _) Hi). cbn [negb].
  destruct (roll_spec mCrypto true d l first0 ps active es Hl Hne) as [Hroll Hrep]. pose proof Hl as Hl0. open_rep Hl0.
  unfold append_to_active. rewrite Ractive. destruct (shouldRoll_spec active [e] Ris_active) as (roll & -> & Hiff).
  assert (0 ≤ seg_mDataOffset active).
  { destruct Ractive_rep as (bytes & metas & _ & [_ _ _ -> _ _ _ _] & _). apply total_bytes_nonneg. }
  destruct roll.
  2:{ destruct (proj1 Hiff eq_refl) as [_ Hf]. rewrite total_bytes_cons in Hf. pose proof (total_bytes_nonneg []). lia. }
  cbn [mbind result_mbind]. rewrite Hroll. cbn [mbind result_mbind with_segments sl_mActiveSegment].
  rewrite (append_outside true _ (fresh_segment l) e); [done|apply Hrep|done| |done]. simpl. lia.
Qed.
End segment_log.
