(* ===== verification/SegmentMeta.v ===== *)
(** * Crashes while the term and the vote are stored

    Each of the two is replaced by writing a temporary file and renaming it.  The
    process may be killed in between, or the machine may fail: then the renames,
    which nothing makes durable, may be lost. *)
From Stdlib Require Import Ascii String.
From stdpp Require Import pretty.
From S2P Require Import Prelude Protobuf Crypto Numeric RaftLog Disk DiskProps Segment SegmentProps SegmentOps SegmentCrash.
From S2P Require Import SegmentLog SegmentLogProps SegmentLogOps SegmentLogCut SegmentLogInit SegmentRun.
Open Scope Z_scope.

(** ** What is stored *)

(** [setCurrentTerm] and [setVoteFor], with values of 64 bits. *)
Definition meta_op (op : StoreOp) : bool :=
  match op with StSetTerm t => (0 <=? t) && (t <? two64) | StSetVote n => (0 <=? n) && (n <? two64) | _ => false end.

Definition stores (op : StoreOp) : Field * Z :=
  match op with StSetTerm t => (current_term, t) | StSetVote n => (vote_for, n) | _ => (first_index, 1) end.

(** What storing some values asks of the disk. *)
Definition store_op (w : Field * Z) : list DiskOp :=
  [WriteText (TmpFile w.1) (pretty w.2); Rename (TmpFile w.1) (FieldFile w.1)].

Definition store_ops (ws : list (Field * Z)) : list DiskOp := mjoin (store_op <$> ws).

Lemma store_ops_app w ws : store_ops (w :: ws) = store_op w ++ store_ops ws.
Proof. done. Qed.

Lemma store_ops_cons w ws :
  store_ops (w :: ws) = WriteText (TmpFile w.1) (pretty w.2) :: Rename (TmpFile w.1) (FieldFile w.1) :: store_ops ws.
Proof. done. Qed.

Lemma take_store_nil k : take k (store_ops []) = [].
Proof. by destruct k. Qed.

Definition is_tmp (n : FileName) : bool := match n with TmpFile _ => true | _ => false end.

(** Equal but for the temporary files. *)
Definition same_files (fs img : FS) : Prop := ∀ n, is_tmp n = false → img !! n = fs !! n.

Lemma same_files_trans fs1 fs2 fs3 : same_files fs1 fs2 → same_files fs2 fs3 → same_files fs1 fs3.
Proof. intros H1 H2 n Hn. by rewrite H2, H1. Qed.

Lemma same_files_write fs f s : same_files fs (exec_op fs (WriteText (TmpFile f) s)).
Proof. intros n Hn. simpl. rewrite lookup_insert_ne; [done|]. by intros <-. Qed.

(** Operations do the same to them. *)
Lemma same_files_stores fs img ws : same_files fs img → same_files (replay fs (store_ops ws)) (replay img (store_ops ws)).
Proof.
  revert fs img. induction ws as [|w ws IH]; intros fs img Hs; [done|]. rewrite store_ops_app, !replay_app.
  apply IH. intros n Hn. unfold store_op. rewrite !lookup_field_written.
  destruct (decide (n = FieldFile w.1)); [done|]. destruct (decide (n = TmpFile w.1)); [done|]. by apply Hs.
Qed.

Lemma opened_stores k ws : Forall (λ n, is_tmp n = true) (opened (take k (store_ops ws))).
Proof.
  revert k. induction ws as [|w ws IH]; intros k; [by rewrite take_store_nil|]. rewrite store_ops_cons.
  destruct k as [|[|k]]; [constructor|by repeat constructor|]. simpl. constructor; [done|apply IH].
Qed.

Lemma same_but_files ns fs img : Forall (λ n, is_tmp n = true) ns → same_but ns fs img → same_files fs img.
Proof. rewrite Forall_forall. intros Hall Hs n Hn. apply Hs. intros Hin%Hall. congruence. Qed.

(** ** The machine fails *)

(** A field holds what it held, or a value that was stored. *)
Definition holds_stored (fs : FS) (ws : list (Field * Z)) (img : FS) : Prop :=
  (∀ n p, img !! SegmentFile n p = fs !! SegmentFile n p) ∧ (∀ n p t, img !! DroppedFile n p t = fs !! DroppedFile n p t) ∧
  ∀ f, img !! FieldFile f = fs !! FieldFile f ∨ ∃ v, (f, v) ∈ ws ∧ field_is img f v.

Lemma holds_stored_same fs ws img : same_files fs img → holds_stored fs ws img.
Proof. intros Hs. split_and!; intros; [by apply Hs..|left; by apply Hs]. Qed.

Lemma holds_stored_files fs ws img img' : holds_stored fs ws img → same_files img img' → holds_stored fs ws img'.
Proof.
  intros (Hs & Hd & Hf) Hsame. split_and!; intros; [rewrite Hsame by done; apply Hs|rewrite Hsame by done; apply Hd|].
  unfold field_is. rewrite Hsame by done. apply Hf.
Qed.

Lemma survive_stores ws k surv fs : survive (take k (store_ops ws)) surv → holds_stored fs ws (replay fs surv).
Proof.
  revert k surv fs. induction ws as [|w ws IH]; intros k surv fs Hs.
  { rewrite take_store_nil in Hs. apply survive_nil_inv in Hs as ->. by apply holds_stored_same. }
  rewrite store_ops_cons in Hs. destruct k as [|k]; [apply survive_nil_inv in Hs as ->; by apply holds_stored_same|].
  cbn [take] in Hs. inversion Hs as [|? ? surv1 Hs1|? ? frags surv1 Hm|]; subst; [|done]. clear Hs.
  destruct k as [|k]; [apply survive_nil_inv in Hs1 as ->; apply holds_stored_same, same_files_write|]. cbn [take] in Hs1.
  inversion Hs1 as [|? ? surv2 Hs2|? ? frags surv2 Hm|? ? ? surv2 Hs2]; subst; [|done|]; clear Hs1.
  - specialize (IH k surv2 (replay fs (store_op w)) Hs2).
    destruct IH as (H1 & H2 & H3). split_and!; intros.
    + change (replay fs _) with (replay (replay fs (store_op w)) surv2).
      unfold store_op in H1. by rewrite H1, lookup_field_written, !decide_False.
    + change (replay fs _) with (replay (replay fs (store_op w)) surv2).
      unfold store_op in H2. by rewrite H2, lookup_field_written, !decide_False.
    + destruct (H3 f) as [Hf|(v & Hv & Hf)]; [|right; exists v; split; [by constructor|exact Hf]].
      unfold store_op in Hf. rewrite lookup_field_written in Hf. case_decide as Hw.
      * injection Hw as ->. right. exists w.2. destruct w. split; [by constructor|exact Hf].
      * rewrite decide_False in Hf by done. by left.
  - specialize (IH k _ (exec_op fs (WriteText (TmpFile w.1) (pretty w.2))) Hs2). destruct IH as (H1 & H2 & H3).
    split_and!; intros; [etrans; [apply H1|by apply same_files_write]|etrans; [apply H2|by apply same_files_write]|].
    destruct (H3 f) as [Hf|(v & Hv & Hf)]; [left|right; exists v; split; [by constructor|exact Hf]].
    etrans; [exact Hf|by apply same_files_write].
Qed.

(** All renames lost. *)
Lemma survive_no_rename ws : ∃ surv, survive (store_ops ws) surv ∧ ∀ fs, same_files fs (replay fs surv).
Proof.
  induction ws as [|w ws (surv & Hs & Hf)]; [exists []; split; [constructor|done]|].
  exists (WriteText (TmpFile w.1) (pretty w.2) :: surv). split; [rewrite store_ops_cons; by repeat constructor|].
  intros fs. eapply same_files_trans; [apply same_files_write|apply Hf].
Qed.

(** ** The process is killed *)
Lemma replay_stores_take ws k fs :
  ∃ n, (n ≤ length ws)%nat ∧ same_files (replay fs (store_ops (take n ws))) (replay fs (take k (store_ops ws))).
Proof.
  revert k fs. induction ws as [|w ws IH]; intros k fs; [exists O; by rewrite take_store_nil|].
  rewrite store_ops_cons. destruct k as [|[|k]]; [exists O; split; [simpl; lia|done]|exists O; split; [simpl; lia|apply same_files_write]|].
  destruct (IH k (replay fs (store_op w))) as (n & Hn & Hs).
  exists (S n). split; [simpl; lia|exact Hs].
Qed.

Lemma process_stores fs ws img : process_image fs (store_ops ws) img →
  ∃ n, (n ≤ length ws)%nat ∧ same_files (replay fs (store_ops (take n ws))) img.
Proof.
  intros (k & frags & Hf & Hs). assert (frags = []) as ->.
  { destruct (store_ops ws !! k) as [op|] eqn:Ek; [|done]. destruct frags as [|fr frags]; [done|].
    apply Forall_cons in Hf as [Hf _]. apply list_elem_of_lookup_2 in Ek. unfold store_ops in Ek.
    apply list_elem_of_join in Ek as (l & Hin & (w & -> & _)%list_elem_of_fmap).
    apply elem_of_cons in Hin as [->|[->|[]%elem_of_nil]%elem_of_cons]; by destruct fr. }
  rewrite app_nil_r in Hs. destruct (replay_stores_take ws k fs) as (n & Hn & Hk). exists n. split; [done|].
  eapply same_files_trans; [exact Hk|]. eapply same_but_files; [|exact Hs].
  assert (Ho : option_list (store_ops ws !! k) = take 1 (drop k (store_ops ws))).
  { destruct (store_ops ws !! k) as [op|] eqn:Ek; [by rewrite (drop_S _ _ _ Ek)|]. rewrite drop_ge; [done|by apply lookup_ge_None]. }
  pose proof (opened_stores (S k) ws) as Hall. rewrite Forall_forall in *. intros m Hm. apply Hall. rewrite Ho in Hm.
  unfold opened in *. replace (S k) with (k + 1)%nat by lia. rewrite <- take_take_drop, omap_app. apply elem_of_app. by right.
Qed.

(** ** The log *)
Section segment_log.
Context `{Proto LogEntry} `{OpenSSL}.
Context (mCrypto : CryptoUtil) (dir : string) (readdir : FS → list FileName) (now : Z → Z) (dl ml : Z).
Abbreviation run_StoreOp := (run_StoreOp mCrypto dir readdir now dl ml).
Abbreviation holds := (log_holds mCrypto true).

Lemma run_stores d l v metas : holds (disk_fs d) l v → Forall (λ op, meta_op op = true) metas →
  ∃ l', foldM run_StoreOp (d, l) metas = Ret (issue (store_ops (stores <$> metas)) d, l') ∧
    holds (replay (disk_fs d) (store_ops (stores <$> metas))) l' (foldl view_StoreOp v metas) ∧
    (limits_are dl ml l → limits_are dl ml l').
Proof.
  intros Hh Hall. revert d l v Hh. induction Hall as [|op metas Hop _ IH]; intros d l v Hh.
  { exists l. cbn [foldM fmap list_fmap]. unfold store_ops. simpl. rewrite issue_nil. by split_and!. }
  assert (Hone : ∃ l1, run_StoreOp (d, l) op = Ret (issue (store_ops [stores op]) d, l1) ∧
    holds (disk_fs (issue (store_ops [stores op]) d)) l1 (view_StoreOp v op) ∧ (limits_are dl ml l → limits_are dl ml l1)).
  { destruct op as [| | | |t|n|]; try done; simpl.
    - destruct (setCurrentTerm_holds mCrypto true d l v t Hh) as (d1 & l1 & Heq & Hh1).
      unfold SegmentLog_setCurrentTerm, persist in *. rewrite setFileContentWithSync_spec in *. simpl in *. injection Heq as <- <-.
      by eexists.
    - destruct (setVoteFor_holds mCrypto true d l v n Hh) as (d1 & l1 & Heq & Hh1).
      unfold SegmentLog_setVoteFor, persist in *. rewrite setFileContentWithSync_spec in *. simpl in *. injection Heq as <- <-.
      by eexists. }
  destruct Hone as (l1 & Heq & Hh1 & Hl1). destruct (IH _ _ _ Hh1) as (l' & Hrun & Hh' & Hl').
  exists l'. cbn [foldM]. rewrite Heq. cbn [mbind result_mbind]. rewrite Hrun, issue_app. split_and!; [done| |auto].
  by rewrite disk_fs_issue, <- replay_app in Hh'.
Qed.

Lemma holds_same_files fs img l v : holds fs l v → same_files fs img → holds img l v.
Proof.
  intros (first0 & ps & active & es & Hl & ->) Hs. exists first0, ps, active, es. split; [|done].
  apply (log_rep_fields mCrypto true fs _ l); try done; [by intros; apply Hs| |unfold field_is; rewrite Hs by done; apply Hl..].
  intros n Hn. destruct (is_tmp n) eqn:Et; [right; by destruct n|left]. by rewrite <- Hs.
Qed.

Lemma holds_stored_log fs img l v ws : holds fs l v → holds_stored fs ws img → (∀ x, (first_index, x) ∉ ws) →
  ∃ l1 t n, (t = lv_term v ∨ (current_term, t) ∈ ws) ∧ (n = lv_vote v ∨ (vote_for, n) ∈ ws) ∧
    holds img l1 (mk_LogView (lv_first v) (lv_entries v) t n) ∧
    sl_mSegmentDataSizeLimit l1 = sl_mSegmentDataSizeLimit l ∧ sl_mSegmentMetaSizeLimit l1 = sl_mSegmentMetaSizeLimit l.
Proof.
  intros (first0 & ps & active & es & Hl & ->) (Hs & Hd & Hf) Hno.
  assert (Hfield : ∀ f x, field_is fs f x → ∃ y, field_is img f y ∧ (y = x ∨ (f, y) ∈ ws)).
  { intros f x Hx. destruct (Hf f) as [He|(y & Hy & He)]; [exists x; split; [unfold field_is; by rewrite He|by left]|exists y; split; [done|by right]]. }
  destruct (Hfield current_term _ (lr_term _ _ _ _ _ _ _ _ Hl)) as (t & Ht & Htw).
  destruct (Hfield vote_for _ (lr_vote _ _ _ _ _ _ _ _ Hl)) as (n & Hn & Hnw).
  destruct (Hfield first_index _ (lr_first _ _ _ _ _ _ _ _ Hl)) as (i & Hi & [->|Hiw]); [|by destruct (Hno i)].
  exists (with_meta t n l), t, n. split_and!; [exact Htw|exact Hnw| |done|done]. exists first0, ps, active, es. split; [|done].
  apply (log_rep_fields mCrypto true fs _ l); try done. intros m Hm. destruct m as [a p|a p ts|f|f]; [|..|by right].
  - left. by rewrite <- Hs.
  - left. by rewrite <- Hd.
  - right. done.
Qed.

(** Values that were stored, as those after some of the operations. *)
Lemma stored_term v metas t : (current_term, t) ∈ stores <$> metas → Forall (λ op, meta_op op = true) metas →
  ∃ i, (i ≤ length metas)%nat ∧ lv_term (foldl view_StoreOp v (take i metas)) = t ∧ 0 ≤ t < two64.
Proof.
  intros Hin Hall. apply list_elem_of_fmap in Hin as (op & Hop & (i & Hi)%list_elem_of_lookup). exists (S i).
  pose proof (lookup_lt_Some _ _ _ Hi). split; [lia|]. rewrite (take_S_r _ _ _ Hi), foldl_app. simpl.
  rewrite Forall_lookup in Hall. specialize (Hall _ _ Hi). destruct op as [| | | |t'|n|]; try done. injection Hop as ->.
  split; [done|]. apply andb_true_iff in Hall as [Hlo%Z.leb_le Hhi%Z.ltb_lt]. lia.
Qed.

Lemma stored_vote v metas n : (vote_for, n) ∈ stores <$> metas → Forall (λ op, meta_op op = true) metas →
  ∃ i, (i ≤ length metas)%nat ∧ lv_vote (foldl view_StoreOp v (take i metas)) = n ∧ 0 ≤ n < two64.
Proof.
  intros Hin Hall. apply list_elem_of_fmap in Hin as (op & Hop & (i & Hi)%list_elem_of_lookup). exists (S i).
  pose proof (lookup_lt_Some _ _ _ Hi). split; [lia|]. rewrite (take_S_r _ _ _ Hi), foldl_app. simpl.
  rewrite Forall_lookup in Hall. specialize (Hall _ _ Hi). destruct op as [| | | |t'|n'|]; try done. injection Hop as ->.
  split; [done|]. apply andb_true_iff in Hall as [Hlo%Z.leb_le Hhi%Z.ltb_lt]. lia.
Qed.

Lemma stores_no_first metas x : Forall (λ op, meta_op op = true) metas → (first_index, x) ∉ stores <$> metas.
Proof. rewrite Forall_forall. intros Hall (op & Hop & Hin%Hall)%list_elem_of_fmap. by destruct op. Qed.

(** Storing keeps the numbers a restart can read. *)
Lemma view_stores_bounds v metas : Forall (λ op, meta_op op = true) metas → allowed mCrypto dl ml v StRestart →
  allowed mCrypto dl ml (foldl view_StoreOp v metas) StRestart.
Proof.
  intros Hall. revert v. induction Hall as [|op metas Hop _ IH]; intros v Hv; [done|]. simpl. apply IH.
  destruct Hv as (Hb & Ht & Hn). destruct op as [| | | |t|n|]; try done; apply andb_true_iff in Hop as [Hlo%Z.leb_le Hhi%Z.ltb_lt].
  - split_and!; [exact Hb|simpl; lia..].
  - split_and!; [exact Hb|simpl; lia..].
Qed.
End segment_log.
