(* ===== verification/SegmentTheorems.v ===== *)
(** * Main theorems of the segmented log

    Runs of operations and restarts against the abstract log, crashes during an
    append, the verdict of the HMAC; and the places where a crash or a large
    batch leaves a directory the process cannot start from. *)
From Stdlib Require Import Ascii String.
From stdpp Require Import pretty.
From S2P Require Import Prelude Protobuf Crypto Numeric RaftLog Disk DiskProps Segment SegmentProps SegmentOps SegmentCrash.
From S2P Require Import SegmentLog SegmentLogProps SegmentLogOps SegmentLogCut SegmentLogInit SegmentRun SegmentMeta.
Import (hints) XorSSL.
Open Scope Z_scope.

(** ** A concrete directory, for the examples *)
Module SampleStore.
#[export] Instance SpecialTag_packed : Packed SpecialTag.
Proof. apply (packed_via (λ t, (tag_identifier t, tag_payload t)) (λ '(x, y), mk_SpecialTag x y)). by intros []. Defined.
#[export] Instance LogEntry_packed : Packed LogEntry.
Proof.
  apply (packed_via
    (λ e, (le_term e, le_index e, le_noop e, le_checksum e, le_payload e, le_secret_key_version e, le_specialTag e))
    (λ '(t, i, n, c, p, v, tag), mk_LogEntry t i n c p v tag)). by intros [].
Defined.

Definition entry_bytes : Proto LogEntry :=
  packed_Proto LogEntry (mk_LogEntry 0 0 false 0 EmptyString 0 None).

(** Without encryption, and with one key. *)
Definition plain : CryptoUtil := CryptoUtil_new.
Definition key32 : string := "0123456789abcdef0123456789abcdef".
Definition keyed : CryptoUtil := mk_CryptoUtil true [1] {[1 := key32]} 1.

Lemma keyed_ready : hmac_ready keyed.
Proof.
  intros _. split; [done|]. intros v ->%list_elem_of_singleton. by exists key32.
Qed.

Definition logDir : string := "/log".
Definition readdir (fs : FS) : list FileName := (map_to_list fs).*1.

Lemma readdir_lists : lists_files readdir.
Proof.
  intros fs. split; [apply NoDup_fst_map_to_list|]. intros n. unfold readdir. rewrite list_elem_of_fmap. split.
  - intros ([m c] & -> & Hin%elem_of_map_to_list). by exists c.
  - intros [c Hc]. exists (n, c). split; [done|]. by apply elem_of_map_to_list.
Qed.

Definition now (first : Z) : Z := 1000.
Definition e (i t : Z) : LogEntry := mk_LogEntry t i false 0 "payload" 0 None.
Definition batch_of (i n t : Z) : list LogEntry := (λ k, e k t) <$> seqZ i n.

(** 64 records and 32 kB of data a segment. *)
Definition dl : Z := 32768.
Definition ml : Z := 4096.

Lemma now_nonneg (f : Z) : 0 ≤ now f.
Proof. done. Qed.
Lemma dl_pages : page_aligned dl.
Proof. done. Qed.
Lemma ml_pages : page_aligned ml.
Proof. done. Qed.

Definition v0 : LogView := mk_LogView 1 [] 0 0.

Definition run (c : CryptoUtil) (st : Disk * SegmentLog) (ops : list StoreOp) : result (Disk * SegmentLog) :=
  foldM (run_StoreOp (H := entry_bytes) c logDir readdir now dl ml) st ops.

Definition get (r : result (Disk * SegmentLog)) : Disk * SegmentLog :=
  match r with
  | Ret st => st
  | Fail _ => (boot ∅, mk_SegmentLog 0 0 0 0 0 0 [] None)
  end.

(** The first start, and what a few operations make of it. *)
Definition started : Disk * SegmentLog := get (SegmentLog_init logDir readdir dl ml (boot ∅)).
Definition after (c : CryptoUtil) (ops : list StoreOp) : Disk * SegmentLog := get (run c started ops).

Definition returns {A} (r : result A) : bool := match r with Ret _ => true | Fail _ => false end.

Lemma get_ret (r : result (Disk * SegmentLog)) : returns r = true → r = Ret ((get r).1, (get r).2).
Proof. by destruct r as [[d l]|]. Qed.

Lemma started_eq : SegmentLog_init logDir readdir dl ml (boot ∅) = Ret (started.1, started.2).
Proof. apply get_ret. by vm_compute. Qed.

(** [new] goes into the active segment. *)
Definition takes (l : SegmentLog) (new : list LogEntry) : bool :=
  match sl_mActiveSegment l with
  | Some active => match shouldRoll (H := entry_bytes) active new with Ret false => true | _ => false end
  | None => false
  end.

Lemma takes_active l new : takes l new = true →
  ∃ active, sl_mActiveSegment l = Some active ∧ shouldRoll (H := entry_bytes) active new = Ret false.
Proof.
  unfold takes. destruct (sl_mActiveSegment l) as [active|]; [|done].
  destruct (shouldRoll active new) as [[]|] eqn:E; try done. by exists active.
Qed.

(** For every number of disk operations that are done when [op] is cut short:
    the first and last index after the restart, or how it fails. *)
Definition restart (fs : FS) : result (Z * Z) :=
  '(_, l) ← SegmentLog_init logDir readdir dl ml (boot fs); Ret (sl_mFirstIndex l, sl_mLastIndex l).

Definition crash_points (c : CryptoUtil) (st : Disk * SegmentLog) (op : StoreOp) : list (result (Z * Z)) :=
  let '(d, l) := st in
  match run_StoreOp (H := entry_bytes) c logDir readdir now dl ml (boot (disk_fs d), l) op with
  | Ret (d', _) => (λ k, restart (replay (disk_fs d) (take k (disk_trace d')))) <$> seq 0 (S (length (disk_trace d')))
  | Fail f => [Fail f]
  end.
End SampleStore.
Import SampleStore.

(** What a run of allowed operations from an empty directory has made. *)
Lemma reached `{Proto LogEntry} `{OpenSSL} (mCrypto : CryptoUtil) dir readdir now dl ml ops d0 l0 d l :
  hmac_ready mCrypto → lists_files readdir → (∀ f, 0 ≤ now f) → page_aligned dl → page_aligned ml →
  allowed_all mCrypto dl ml (mk_LogView 1 [] 0 0) ops →
  SegmentLog_init dir readdir dl ml (boot ∅) = Ret (d0, l0) →
  foldM (run_StoreOp mCrypto dir readdir now dl ml) (d0, l0) ops = Ret (d, l) →
  log_holds mCrypto true (disk_fs d) l (foldl view_StoreOp (mk_LogView 1 [] 0 0) ops) ∧ limits_are dl ml l.
Proof.
  intros Hr Hdir Hnow Hdl Hml Ha Hi Hrun.
  destruct (init_empty mCrypto dir readdir dl ml Hdir Hdl Hml) as (d0' & l0' & Hi' & Hh). rewrite Hi in Hi'. injection Hi' as <- <-.
  pose proof (init_limits _ _ _ _ _ _ _ Hi) as Hlim.
  destruct (run_StoreOps_holds mCrypto dir readdir now dl ml ops d0 l0 _ Hr Hdir Hnow Hh Hlim Ha) as (d1 & l1 & Hrun' & Hh' & Hlim').
  rewrite Hrun in Hrun'. by injection Hrun' as <- <-.
Qed.

(** ** Operations and restarts *)

(** C13. From an empty directory, every sequence of appends, truncations, changes
    of term and vote and restarts that Raft can make (entries continue the log, a
    batch fits a segment, only what is there is truncated) runs without a failed
    assertion, and afterwards the log answers every query - indices, term, vote,
    the term and the entry at any index, batches of entries - as the abstract
    sequence does.  A restart forgets nothing, in whatever order the system lists
    the files. *)
Theorem segment_log_refines `{Proto LogEntry} `{OpenSSL} (mCrypto : CryptoUtil) dir readdir now dl ml
    (ops : list StoreOp) :
  hmac_ready mCrypto → lists_files readdir → (∀ f, 0 ≤ now f) → page_aligned dl → page_aligned ml →
  allowed_all mCrypto dl ml (mk_LogView 1 [] 0 0) ops →
  ∃ d0 l0 d l, SegmentLog_init dir readdir dl ml (boot ∅) = Ret (d0, l0) ∧
    foldM (run_StoreOp mCrypto dir readdir now dl ml) (d0, l0) ops = Ret (d, l) ∧
    observed mCrypto (disk_fs d) l (foldl view_StoreOp (mk_LogView 1 [] 0 0) ops).
Proof.
  intros Hr Hdir Hnow Hdl Hml Ha. destruct (init_empty mCrypto dir readdir dl ml Hdir Hdl Hml) as (d0 & l0 & Hi & Hh).
  pose proof (init_limits _ _ _ _ _ _ _ Hi) as Hlim.
  destruct (run_StoreOps_holds mCrypto dir readdir now dl ml ops d0 l0 _ Hr Hdir Hnow Hh Hlim Ha) as (d & l & Hrun & Hh' & _).
  exists d0, l0, d, l. split_and!; [done|done|]. by apply (holds_observed _ true).
Qed.

(** Two segments; a prefix and most of a suffix go; restarts in between. *)
Definition sample_ops : list StoreOp :=
  [StAppendAll (batch_of 1 40 1); StAppendAll (batch_of 41 40 1); StSetTerm 2; StTruncatePrefix 30; StRestart;
   StTruncateSuffix 35; StAppend (e 36 2); StSetVote 3; StRestart].

Ltac batch_ok_tac := split_and!; [by repeat split|by repeat (constructor; [by left|])|by vm_compute|by vm_compute].

Lemma sample_ops_allowed : allowed_all (H := entry_bytes) keyed dl ml v0 sample_ops.
Proof. cbn [allowed_all sample_ops allowed]. split_and!; try done; try batch_ok_tac; try by vm_compute. Qed.

Lemma sample_run_eq :
  run keyed (started.1, started.2) sample_ops = Ret ((after keyed sample_ops).1, (after keyed sample_ops).2).
Proof. apply get_ret. by vm_compute. Qed.

Lemma segment_log_refines_witness :
  allowed_all (H := entry_bytes) keyed dl ml v0 sample_ops ∧
  ∃ d0 l0 d l, SegmentLog_init logDir readdir dl ml (boot ∅) = Ret (d0, l0) ∧
    run keyed (d0, l0) sample_ops = Ret (d, l) ∧
    observed (H := entry_bytes) keyed (disk_fs d) l (foldl (view_StoreOp) v0 sample_ops).
Proof.
  split; [exact sample_ops_allowed|].
  apply (segment_log_refines (H := entry_bytes) keyed logDir readdir now dl ml sample_ops keyed_ready readdir_lists);
    [done|done|done|exact sample_ops_allowed].
Defined.

(** ** Crashes during an append *)

(** C14. Let the process crash at any point of an append that does not start a new
    segment, any part of what was not yet synced having reached the disk: the
    next start succeeds and has all the old entries, followed by a prefix of the
    new ones.  (The machine may fail, too; what the directory held before the append
    is on the disk.) *)
Theorem append_crash_recovers `{Proto LogEntry} `{OpenSSL} (mCrypto : CryptoUtil) dir readdir now dl ml
    (ops : list StoreOp) d0 l0 d l active new :
  hmac_ready mCrypto → lists_files readdir → (∀ f, 0 ≤ now f) → page_aligned dl → page_aligned ml →
  allowed_all mCrypto dl ml (mk_LogView 1 [] 0 0) ops →
  SegmentLog_init dir readdir dl ml (boot ∅) = Ret (d0, l0) →
  foldM (run_StoreOp mCrypto dir readdir now dl ml) (d0, l0) ops = Ret (d, l) →
  let v := foldl view_StoreOp (mk_LogView 1 [] 0 0) ops in
  batch_ok mCrypto dl ml v new → new ≠ [] →
  sl_mActiveSegment l = Some active → shouldRoll active new = Ret false →
  lv_last v + Z.of_nat (length new) + 1 < two64 → 0 ≤ lv_term v < two64 → 0 ≤ lv_vote v < two64 →
  ∃ d' l', SegmentLog_appendEntries mCrypto (boot (disk_fs d)) l new = Ret (d', l', true) ∧
    ∀ img, crash_image (disk_fs d) (disk_trace d') img →
      ∃ n d2 l2, (n ≤ length new)%nat ∧ SegmentLog_init dir readdir dl ml (boot img) = Ret (d2, l2) ∧
        observed mCrypto (disk_fs d2) l2 (lv_with_entries v (lv_entries v ++ take n new)).
Proof.
  intros Hr Hdir Hnow Hdl Hml Ha Hi Hrun v (Hc & Hk & Hfm & Hfd) Hne Hact Hroll Hb Ht Hv.
  destruct (reached mCrypto dir readdir now dl ml ops d0 l0 d l Hr Hdir Hnow Hdl Hml Ha Hi Hrun) as [Hh' [E1 E2]]. fold v in Hh'.
  assert (Hap : appendable mCrypto l new).
  { split; rewrite ?E1, ?E2; try done. by rewrite <- (ob_last _ _ _ _ (holds_observed _ _ _ _ _ Hr Hh')) in Hc. }
  destruct (append_crash_holds mCrypto (disk_fs d) l v active new Hr Hh' Hact Hap Hne Hroll) as (d' & l' & Heq & Himg).
  exists d', l'. split; [done|]. intros img Hcrash. destruct (Himg img Hcrash) as (n & l2 & Hn & Hh2 & F1 & F2).
  destruct (init_holds mCrypto false img l2 _ dir readdir Hh2 Hdir) as (d3 & l3 & Hi3 & Hh3); [|done|done|].
  { rewrite lv_last_app, length_take. lia. }
  exists n, d3, l3. rewrite F1, F2, E1, E2 in Hi3. split_and!; [done|done|]. by apply (holds_observed _ false).
Qed.

Lemma sample_fits : takes (after keyed sample_ops).2 (batch_of 37 3 2) = true.
Proof. by vm_compute. Qed.

Lemma sample_batch : batch_ok (H := entry_bytes) keyed dl ml (foldl view_StoreOp v0 sample_ops) (batch_of 37 3 2).
Proof. batch_ok_tac. Qed.

Lemma sample_batch_nonempty : batch_of 37 3 2 ≠ [].
Proof. discriminate. Qed.

Lemma sample_bounds : let v := foldl view_StoreOp v0 sample_ops in
  lv_last v + 3 + 1 < two64 ∧ 0 ≤ lv_term v < two64 ∧ 0 ≤ lv_vote v < two64.
Proof. by vm_compute. Qed.

Lemma append_crash_recovers_witness :
  ∃ d' l', SegmentLog_appendEntries (H := entry_bytes) keyed (boot (disk_fs (after keyed sample_ops).1))
             (after keyed sample_ops).2 (batch_of 37 3 2) = Ret (d', l', true) ∧
    ∀ img, crash_image (disk_fs (after keyed sample_ops).1) (disk_trace d') img →
      ∃ n d2 l2, (n ≤ 3)%nat ∧ SegmentLog_init logDir readdir dl ml (boot img) = Ret (d2, l2) ∧
        observed (H := entry_bytes) keyed (disk_fs d2) l2
          (lv_with_entries (foldl view_StoreOp v0 sample_ops)
             (lv_entries (foldl view_StoreOp v0 sample_ops) ++ take n (batch_of 37 3 2))).
Proof.
  destruct (takes_active (after keyed sample_ops).2 (batch_of 37 3 2) sample_fits) as (active & Hact & Hroll).
  exact (append_crash_recovers (H := entry_bytes) keyed logDir readdir now dl ml sample_ops started.1 started.2
    (after keyed sample_ops).1 (after keyed sample_ops).2 active (batch_of 37 3 2) keyed_ready readdir_lists
    now_nonneg dl_pages ml_pages sample_ops_allowed started_eq sample_run_eq sample_batch sample_batch_nonempty
    Hact Hroll (proj1 sample_bounds) (proj1 (proj2 sample_bounds)) (proj2 (proj2 sample_bounds))).
Defined.

(** ** Crashes while the term and the vote are stored *)

(** C15. What becomes of the term and the vote in a crash.  From a log that operations
    and restarts have made, and that is on the disk, let a server store any terms and
    votes of 64 bits, one after the other; the calls return.  If the process is
    killed at any point, the next start finds exactly the term and the vote after
    some of the calls, and all else as it was, and after the last call has returned
    those after all of them: a restarted server does not vote twice in a term.  If
    the machine fails at any point, the next start succeeds, too, and finds a term
    and a vote each of which is that after some of the calls, maybe not the same
    ones, and all else as it was.  It may have forgotten all of them, though the
    calls have returned: the directory is never synced. *)
Theorem term_and_vote_crash `{Proto LogEntry} `{OpenSSL} (mCrypto : CryptoUtil) dir readdir now dl ml
    (ops : list StoreOp) d0 l0 d l metas :
  hmac_ready mCrypto → lists_files readdir → (∀ f, 0 ≤ now f) → page_aligned dl → page_aligned ml →
  allowed_all mCrypto dl ml (mk_LogView 1 [] 0 0) ops →
  SegmentLog_init dir readdir dl ml (boot ∅) = Ret (d0, l0) →
  foldM (run_StoreOp mCrypto dir readdir now dl ml) (d0, l0) ops = Ret (d, l) →
  let v := foldl view_StoreOp (mk_LogView 1 [] 0 0) ops in
  allowed mCrypto dl ml v StRestart → Forall (λ op, meta_op op = true) metas →
  let finds img v' := ∃ d2 l2, SegmentLog_init dir readdir dl ml (boot img) = Ret (d2, l2) ∧ observed mCrypto (disk_fs d2) l2 v' in
  ∃ d' l', foldM (run_StoreOp mCrypto dir readdir now dl ml) (boot (disk_fs d), l) metas = Ret (d', l') ∧
    (∀ img, process_image (disk_fs d) (disk_trace d') img →
      ∃ n, (n ≤ length metas)%nat ∧ finds img (foldl view_StoreOp v (take n metas))) ∧
    finds (disk_fs d') (foldl view_StoreOp v metas) ∧
    (∀ img, crash_image (disk_fs d) (disk_trace d') img →
      ∃ i j, (i ≤ length metas)%nat ∧ (j ≤ length metas)%nat ∧
        finds img (mk_LogView (lv_first v) (lv_entries v) (lv_term (foldl view_StoreOp v (take i metas)))
                     (lv_vote (foldl view_StoreOp v (take j metas))))) ∧
    ∃ img, crash_image (disk_fs d) (disk_trace d') img ∧ finds img v.
Proof.
  intros Hr Hdir Hnow Hdl Hml Ha Hi Hrun v Hv Hmeta finds.
  destruct (reached mCrypto dir readdir now dl ml ops d0 l0 d l Hr Hdir Hnow Hdl Hml Ha Hi Hrun) as [Hh Hlim]. fold v in Hh.
  assert (Hfinds : ∀ img l1 v1, log_holds mCrypto true img l1 v1 → limits_are dl ml l1 → allowed mCrypto dl ml v1 StRestart → finds img v1).
  { intros img l1 v1 Hh1 [E1 E2] (B1 & B2 & B3). destruct (init_holds mCrypto true img l1 v1 dir readdir Hh1 Hdir) as (d3 & l3 & Hi3 & Hh3); [done..|].
    rewrite E1, E2 in Hi3. exists d3, l3. split; [done|]. by apply (holds_observed _ true). }
  assert (Hstored : ∀ ms, Forall (λ op, meta_op op = true) ms → ∃ l1,
    log_holds mCrypto true (replay (disk_fs d) (store_ops (stores <$> ms))) l1 (foldl view_StoreOp v ms) ∧ limits_are dl ml l1).
  { intros ms Hms. destruct (run_stores mCrypto dir readdir now dl ml (boot (disk_fs d)) l v ms Hh Hms) as (l1 & _ & H1 & H2). eauto. }
  destruct (run_stores mCrypto dir readdir now dl ml (boot (disk_fs d)) l v metas Hh Hmeta) as (l' & Heq & Hh' & Hlim').
  eexists _, l'. split; [exact Heq|]. unfold issue. simpl. split_and!.
  - intros img (n & Hn & Himg)%process_stores. rewrite length_fmap in Hn. exists n. split; [done|].
    assert (Hms : Forall (λ op, meta_op op = true) (take n metas)) by by apply Forall_take.
    destruct (Hstored _ Hms) as (l1 & Hh1 & Hl1). rewrite <- fmap_take in Himg.
    apply (Hfinds img l1); [by eapply holds_same_files|done|by apply view_stores_bounds].
  - apply (Hfinds _ l'); [done|auto|by apply view_stores_bounds].
  - intros img (k & surv & Hs & Himg). apply (survive_stores _ _ _ (disk_fs d)) in Hs.
    eapply holds_stored_files in Hs; [|eapply same_but_files; [apply opened_stores|exact Himg]].
    destruct (holds_stored_log mCrypto _ _ l v _ Hh Hs (λ x, stores_no_first metas x Hmeta)) as (l1 & t & n & Ht & Hn & Hh1 & F1 & F2).
    destruct Hv as (B1 & B2 & B3).
    assert (∃ i, (i ≤ length metas)%nat ∧ lv_term (foldl view_StoreOp v (take i metas)) = t ∧ 0 ≤ t < two64) as (i & Hil & <- & Hti)
      by (destruct Ht as [->|Ht]; [exists O; split_and!; [lia|done|lia|lia]|by apply stored_term]).
    assert (∃ j, (j ≤ length metas)%nat ∧ lv_vote (foldl view_StoreOp v (take j metas)) = n ∧ 0 ≤ n < two64) as (j & Hjl & <- & Hnj)
      by (destruct Hn as [->|Hn]; [exists O; split_and!; [lia|done|lia|lia]|by apply stored_vote]).
    exists i, j. split_and!; [done|done|]. apply (Hfinds img l1); [done|by split; [rewrite F1|rewrite F2]; apply Hlim|exact (conj B1 (conj Hti Hnj))].
  - destruct (survive_no_rename (stores <$> metas)) as (surv & Hs & Hsame). exists (replay (disk_fs d) surv). split.
    + exists (length (store_ops (stores <$> metas))), surv. rewrite take_ge by done. by split.
    + apply (Hfinds _ l); [by eapply holds_same_files|done|done].
Qed.

Lemma sample_restarts : allowed (H := entry_bytes) keyed dl ml (foldl view_StoreOp v0 sample_ops) StRestart.
Proof. by vm_compute. Qed.

Definition sample_metas : list StoreOp := [StSetTerm 7; StSetVote 5].

Lemma sample_metas_ok : Forall (λ op, meta_op op = true) sample_metas.
Proof. by repeat constructor. Qed.

Lemma term_and_vote_crash_witness :
  ∃ d' l', run keyed (boot (disk_fs (after keyed sample_ops).1), (after keyed sample_ops).2) sample_metas = Ret (d', l') ∧
    (∀ img, process_image (disk_fs (after keyed sample_ops).1) (disk_trace d') img →
      ∃ n d2 l2, (n ≤ 2)%nat ∧ SegmentLog_init logDir readdir dl ml (boot img) = Ret (d2, l2) ∧
        observed (H := entry_bytes) keyed (disk_fs d2) l2 (foldl view_StoreOp (foldl view_StoreOp v0 sample_ops) (take n sample_metas))) ∧
    ∃ img d2 l2, crash_image (disk_fs (after keyed sample_ops).1) (disk_trace d') img ∧
      SegmentLog_init logDir readdir dl ml (boot img) = Ret (d2, l2) ∧
      observed (H := entry_bytes) keyed (disk_fs d2) l2 (foldl view_StoreOp v0 sample_ops).
Proof.
  destruct (term_and_vote_crash (H := entry_bytes) keyed logDir readdir now dl ml sample_ops started.1 started.2
    (after keyed sample_ops).1 (after keyed sample_ops).2 sample_metas keyed_ready readdir_lists
    now_nonneg dl_pages ml_pages sample_ops_allowed started_eq sample_run_eq sample_restarts sample_metas_ok)
    as (d' & l' & Heq & Hkill & _ & _ & (img & Himg & (d2 & l2 & Hi2 & Ho2))).
  exists d', l'. split; [exact Heq|]. split; [|exists img, d2, l2; split; [exact Himg|]; split; [exact Hi2|exact Ho2]].
  intros img' Hk. destruct (Hkill img' Hk) as (n & Hn & d3 & l3 & Hi3 & Ho3). exists n, d3, l3.
  split; [exact Hn|]. split; [exact Hi3|exact Ho3].
Defined.

(** ** The HMAC of an entry *)

(** Whatever [mRecentUsedSecKeyIndex] holds, [verifyHMAC] lets an entry pass
    exactly if HMACs are off, the entry has none, or its digest is what one of
    the known keys gives for the index and the bytes. *)
Theorem hmac_verdict `{OpenSSL} (mCrypto : CryptoUtil) fs s recent m bytes :
  hmac_ready mCrypto → String.length (meta_digest m) = 32%nat → read_entry_bytes fs s m = Ret bytes →
  (∃ stored, verifyHMAC mCrypto fs s recent m = Ret stored) ↔
    isEnabled mCrypto = false ∨ meta_digest m = zero_digest ∨
    ∃ v, v ∈ mDescendingSecKeyVersions mCrypto ∧
      hmac mCrypto (hmac_message (meta_index m) bytes) v = Ret (meta_digest m).
Proof. exact (verifyHMAC_spec mCrypto fs s recent m bytes). Qed.

(** Two keys, the digest made with the older one. *)
Definition two_keys : CryptoUtil :=
  mk_CryptoUtil true [2; 1] {[1 := key32; 2 := "another key, also of 32 bytes!!!"]} 2.

Lemma two_keys_ready : hmac_ready two_keys.
Proof.
  intros _. split; [done|]. intros v [->|[->|[]%elem_of_nil]%elem_of_cons]%elem_of_cons; eexists; done.
Qed.

Definition one_segment : Segment := mk_Segment 4096 7 4096 64 1 1 true.
Definition one_file : FS := {[seg_data one_segment := DataContent 4096 (write_bytes ∅ 0 "payload")]}.
Definition signed (digest : string) : LogMeta := mk_LogMeta 0 7 1 1 digest.

Lemma hmac_verdict_witness :
  (∃ stored, verifyHMAC two_keys one_file one_segment 0 (signed key32) = Ret stored) ↔
    isEnabled two_keys = false ∨ key32 = zero_digest ∨
    ∃ v, v ∈ [2; 1] ∧ hmac two_keys (hmac_message 1 "payload") v = Ret key32.
Proof. exact (hmac_verdict two_keys one_file one_segment 0 (signed key32) "payload" two_keys_ready eq_refl eq_refl). Defined.

(** The older key is found, and remembered; a digest of no key is refused. *)
Example older_key_found : verifyHMAC two_keys one_file one_segment 0 (signed key32) = Ret (Some 1).
Proof. by vm_compute. Qed.
Example no_key_refused : verifyHMAC two_keys one_file one_segment 0 (signed (zeros 31 +:+ "1")) = Fail AssertFailure.
Proof. by vm_compute. Qed.

(** ** What the log does not survive *)

(** C39. An entry that is larger than a segment is not refused.  On a log that any
    operations and restarts have made, with an active segment that is not empty, the
    next entry, when its serialized form exceeds the size of a segment, makes the
    segment roll and is written behind the end of the mapping of the new one.  (A
    batch has the same fate; see [oversized_batch].) *)
Theorem oversized_entry_undefined `{Proto LogEntry} `{OpenSSL} (mCrypto : CryptoUtil) dir readdir now dl ml
    (ops : list StoreOp) d0 l0 d l active entry :
  hmac_ready mCrypto → lists_files readdir → (∀ f, 0 ≤ now f) → page_aligned dl → page_aligned ml →
  allowed_all mCrypto dl ml (mk_LogView 1 [] 0 0) ops →
  SegmentLog_init dir readdir dl ml (boot ∅) = Ret (d0, l0) →
  foldM (run_StoreOp mCrypto dir readdir now dl ml) (d0, l0) ops = Ret (d, l) →
  sl_mActiveSegment l = Some active → isEmpty (seg_mFirstIndex active) (seg_mLastIndex active) = false →
  le_index entry = sl_mLastIndex l + 1 → dl < ByteSizeLong entry →
  SegmentLog_appendEntry mCrypto d l entry = Fail UndefinedBehaviour.
Proof.
  intros Hr Hdir Hnow Hdl Hml Ha Hi Hrun Hact Hne Hidx Hbig.
  destruct (reached mCrypto dir readdir now dl ml ops d0 l0 d l Hr Hdir Hnow Hdl Hml Ha Hi Hrun) as [Hh [E1 E2]].
  destruct Hh as (first0 & ps & a & es & Hl & _). pose proof (lr_active _ _ _ _ _ _ _ _ Hl) as Ea.
  rewrite Hact in Ea. injection Ea as <-. apply (oversized_append mCrypto d l first0 ps active es entry Hl); [|done|lia].
  intros ->. pose proof (seg_rep_last _ _ _ _ _ (lr_active_rep _ _ _ _ _ _ _ _ Hl)) as El.
  unfold isEmpty in Hne. apply Z.eqb_neq in Hne. simpl in El. lia.
Qed.

(** One page a segment, and a payload of more than that. *)
Fixpoint long (n : nat) : string := match n with O => EmptyString | S n => String "x" (long n) end.
Definition small_ops : list StoreOp := [StAppend (e 1 1)].
Definition started1 : Disk * SegmentLog := get (SegmentLog_init logDir readdir 4096 4096 (boot ∅)).
Definition after1 : Disk * SegmentLog :=
  get (foldM (run_StoreOp (H := entry_bytes) plain logDir readdir now 4096 4096) started1 small_ops).
Definition active1 : Segment := default (Segment_new_active 1 0 0) (sl_mActiveSegment after1.2).
Definition huge : LogEntry := mk_LogEntry 1 2 false 0 (long 5000) 0 None.

Lemma plain_ready : hmac_ready plain.
Proof. done. Qed.
Lemma small_ops_allowed : allowed_all (H := entry_bytes) plain 4096 4096 v0 small_ops.
Proof. cbn [allowed_all small_ops allowed]. split; [|done]. batch_ok_tac. Qed.
Lemma started1_eq : SegmentLog_init logDir readdir 4096 4096 (boot ∅) = Ret (started1.1, started1.2).
Proof. apply get_ret. by vm_compute. Qed.
Lemma after1_eq : foldM (run_StoreOp (H := entry_bytes) plain logDir readdir now 4096 4096) (started1.1, started1.2) small_ops =
  Ret (after1.1, after1.2).
Proof. apply get_ret. by vm_compute. Qed.
Lemma active1_eq : sl_mActiveSegment after1.2 = Some active1.
Proof. by vm_compute. Qed.
Lemma huge_size : 4096 < ByteSizeLong (H := entry_bytes) huge.
Proof. by vm_compute. Qed.

Lemma oversized_entry_undefined_witness :
  4096 < ByteSizeLong (H := entry_bytes) huge ∧
  SegmentLog_appendEntry (H := entry_bytes) plain after1.1 after1.2 huge = Fail UndefinedBehaviour.
Proof.
  split; [exact huge_size|].
  exact (oversized_entry_undefined (H := entry_bytes) plain logDir readdir now 4096 4096 small_ops started1.1 started1.2
    after1.1 after1.2 active1 huge plain_ready readdir_lists now_nonneg ml_pages ml_pages small_ops_allowed
    started1_eq after1_eq active1_eq eq_refl eq_refl huge_size).
Defined.

(** A batch that fits no segment, entry by entry. *)
Definition failure {A} (r : result A) : option fault := match r with Ret _ => None | Fail f => Some f end.

Example oversized_batch :
  failure (run plain started [StAppendAll (batch_of 1 3 1); StAppendAll (batch_of 4 65 1)]) = Some UndefinedBehaviour.
Proof. by vm_compute. Qed.

Definition filled : list StoreOp := [StAppendAll (batch_of 1 40 1); StAppendAll (batch_of 41 40 1)].

(** Starting a new segment is not atomic.  Of the crash points of an append
    that rolls, two leave a directory the next start gives up on: between the
    renames of the data file and the meta file, and between creating the meta
    file of the new segment and giving it a size. *)
Example roll_crash :
  take 8 (crash_points plain (after plain [StAppendAll (batch_of 1 40 1)]) (StAppendAll (batch_of 41 40 1))) =
    [Ret (1, 40); Fail AssertFailure; Ret (1, 40); Ret (1, 40); Ret (1, 40); Fail AssertFailure; Ret (1, 40); Ret (1, 40)].
Proof. by vm_compute. Qed.

(** Truncating a suffix that spans segments cuts the last segment kept before
    it renames the later ones away.  With segments 1-40 and 41-80, and entries up
    to 20 kept: after a crash in between, the segments in the directory do not
    follow each other (or their names do not fit), and no start succeeds. *)
Example truncate_suffix_crash :
  crash_points plain (after plain filled) (StTruncateSuffix 20) =
    [Ret (1, 80); Fail AssertFailure; Fail AssertFailure; Fail AssertFailure; Fail AssertFailure; Fail AssertFailure;
     Ret (1, 20); Ret (1, 20); Ret (1, 20); Fail AssertFailure; Ret (1, 20)].
Proof. by vm_compute. Qed.

(** Truncating a prefix past the last entry leaves the old active segment in the
    directory, and a start that finds two of them gives up. *)
Example truncate_past_end_no_restart :
  failure (run plain started [StAppendAll (batch_of 1 3 1); StTruncatePrefix 10]) = None ∧
  failure (run plain started [StAppendAll (batch_of 1 3 1); StTruncatePrefix 10; StRestart]) = Some AssertFailure.
Proof. by vm_compute. Qed.
