(* ===== verification/RaftCore.v ===== *)
(** * The Raft core

    src/src/infra/raft/v2/RaftCore.{h,cpp} over any log that implements the
    interface of RaftLog.v: the handlers of the six kinds of events, the three
    timers and the commit rule, which the main loop runs one after the other on
    one thread.

    A handler is a function from the core to the core and the list of its
    outputs (RPCs sent, replies to RPCs, replies to clients), and fails where
    the code aborts.  What is read from outside is an argument: [env_now], the
    clock, read once per handler, and [env_rand], the value of [rand()].
    Metrics, traces and the test points are left out.  A loop over [mPeers]
    runs in the order of [map_to_list]; the order only affects the order of the
    RPCs of one round. *)
From S2P Require Import Prelude RaftLog.
Open Scope Z_scope.

(** ** RaftConstants.h, RaftInterface.h *)
Definition kMinElectionTimeoutInMillis : Z := 1000.
Definition kMaxElectionTimeoutInMillis : Z := kMinElectionTimeoutInMillis * 2.
Definition kHeartBeatIntervalInMillis : Z := 20.
Definition kBadID : Z := 0.

Inductive RaftRole := Leader | Follower | Candidate | Syncer.

#[export] Instance RaftRole_eq_dec : EqDecision RaftRole.
Proof. solve_decision. Defined.

Record MemberInfo := mk_MemberInfo { member_mId : Z; member_mAddress : string }.

Record MemberOffsetInfo := mk_MemberOffsetInfo {
  offset_mId : Z; offset_mAddress : string; offset_mOffset : Z }.

Record ClientRequest := mk_ClientRequest {
  cr_mEntry : LogEntry; cr_mRequestHandle : option Z }.

Record SyncRequest := mk_SyncRequest {
  sync_mEntries : list LogEntry; sync_mStartIndex : Z; sync_mEndIndex : Z;
  sync_mFinishMeta : option Z }.

(** ** raft.proto *)
Record AE_Request := mk_AE_Request {
  ae_term : Z; ae_leader_id : Z; ae_prev_log_index : Z; ae_prev_log_term : Z;
  ae_entries : list LogEntry; ae_commit_index : Z }.

Record AE_Response := mk_AE_Response {
  aer_term : Z; aer_success : bool; aer_id : Z; aer_saved_term : Z;
  aer_saved_prev_log_index : Z; aer_last_log_index : Z; aer_match_index : Z }.

Record RV_Request := mk_RV_Request {
  rv_term : Z; rv_candidate_id : Z; rv_last_log_index : Z; rv_last_log_term : Z }.

Record RV_Response := mk_RV_Response {
  rvr_term : Z; rvr_vote_granted : bool; rvr_id : Z; rvr_saved_term : Z }.

Inductive Status := StatusOK | StatusCANCELLED.

#[export] Instance Status_eq_dec : EqDecision Status.
Proof. solve_decision. Defined.

(** ** Peer *)
Record Peer := mk_Peer {
  peer_mId : Z;
  peer_mAddress : string;
  mRequestVoteDone : bool;
  mHaveVote : bool;
  mMatchIndex : Z;
  mNextIndex : Z;
  mSuppressBulkData : bool;
  mLastRequestTimeInNano : Z;
  mNextRequestTimeInNano : Z;
  mLastResponseTimeInNano : Z }.

Definition Peer_default : Peer := mk_Peer 0 EmptyString false false 0 1 true 0 0 0.

Definition Peer_set_vote (p : Peer) (done have : bool) : Peer :=
  mk_Peer (peer_mId p) (peer_mAddress p) done have (mMatchIndex p) (mNextIndex p)
    (mSuppressBulkData p) (mLastRequestTimeInNano p) (mNextRequestTimeInNano p)
    (mLastResponseTimeInNano p).
Definition Peer_set_progress (p : Peer) (match_ next : Z) (suppress : bool) : Peer :=
  mk_Peer (peer_mId p) (peer_mAddress p) (mRequestVoteDone p) (mHaveVote p) match_ next
    suppress (mLastRequestTimeInNano p) (mNextRequestTimeInNano p) (mLastResponseTimeInNano p).
Definition Peer_set_request_times (p : Peer) (last next : Z) : Peer :=
  mk_Peer (peer_mId p) (peer_mAddress p) (mRequestVoteDone p) (mHaveVote p) (mMatchIndex p)
    (mNextIndex p) (mSuppressBulkData p) last next (mLastResponseTimeInNano p).
Definition Peer_set_response_time (p : Peer) (t : Z) : Peer :=
  mk_Peer (peer_mId p) (peer_mAddress p) (mRequestVoteDone p) (mHaveVote p) (mMatchIndex p)
    (mNextIndex p) (mSuppressBulkData p) (mLastRequestTimeInNano p) (mNextRequestTimeInNano p) t.

(** ** RaftCore: state *)
Record RaftConf := mk_RaftConf {
  mMaxBatchSize : Z; mMaxLenInBytes : Z; mMaxDecrStep : Z; mMaxTailedEntryNum : Z }.

Record RaftCore (L : Type) := mk_RaftCore {
  mConf : RaftConf;
  mPeers : gmap Z Peer;
  mClients : gset Z;
  mSelfInfo : MemberInfo;
  mLeaderId : Z;
  mElectionTimePointInNano : Z;
  mCommitIndex : Z;
  mBeginIndex : Z;
  mRaftRole : RaftRole;
  core_mLog : L;
  mPendingClientRequests : list (Z * option Z) }.
Arguments mk_RaftCore {L}. Arguments mConf {L}. Arguments mPeers {L}. Arguments mClients {L}.
Arguments mSelfInfo {L}. Arguments mLeaderId {L}. Arguments mElectionTimePointInNano {L}.
Arguments mCommitIndex {L}. Arguments mBeginIndex {L}. Arguments mRaftRole {L}.
Arguments core_mLog {L}. Arguments mPendingClientRequests {L}.

(** What leaves the core during a handler. *)
Inductive RaftAction :=
  | SendAppendEntries (peerId : Z) (request : AE_Request)
  | SendRequestVote (peerId : Z) (request : RV_Request)
  | ReplyAppendEntries (tag : Z) (status : Status) (response : AE_Response)
  | ReplyRequestVote (tag : Z) (status : Status) (response : RV_Response)
  | FillResultAndReply (handle : Z) (code : Z) (message : string) (leaderId : option Z).

(** What arrives: requests with the tag of the call to reply to, responses with
    the peer they were asked of and the status of the RPC. *)
Inductive RaftEvent :=
  | AppendEntriesRequestEvent (tag : Z) (request : AE_Request)
  | AppendEntriesResponseEvent (peerId : Z) (status : Status) (response : AE_Response)
  | RequestVoteRequestEvent (tag : Z) (request : RV_Request)
  | RequestVoteResponseEvent (peerId : Z) (status : Status) (response : RV_Response)
  | ClientRequestsEvent (requests : list ClientRequest)
  | SyncRequestsEvent (request : SyncRequest).

Record RaftEnv := mk_RaftEnv { env_now : Z; env_rand : Z }.

Definition RandomUtil_randomRange (rand start end_ : Z) : Z := start + rand `mod` (end_ - start + 1).

(** be careful that precedence of '>>' is less than '+' *)
Definition getMajorityNumber (totalNum : Z) : Z := Z.shiftr totalNum 1 + 1.

Definition uint64_max : Z := two64 - 1.

(** The order of [getClusterMembers]. *)
Definition member_le (a b : MemberInfo) : Prop := member_mId a ≤ member_mId b.
#[export] Instance member_le_dec : RelDecision member_le.
Proof. intros a b. unfold member_le. apply _. Defined.

(** The loop that pops the pending requests up to the commit index: those
    popped and those left. *)
Fixpoint pop_committed (commitIndex : Z) (pending : list (Z * option Z))
    : list (Z * option Z) * list (Z * option Z) :=
  match pending with
  | [] => ([], [])
  | p :: rest =>
      if commitIndex <? fst p then ([], pending)
      else let '(done, kept) := pop_committed commitIndex rest in (p :: done, kept)
  end.

Section RaftCore.
Context `{Log L}.
Implicit Types (c : RaftCore L).

(** *** Updates of one member *)
Definition set_mPeers c v := mk_RaftCore (mConf c) v (mClients c) (mSelfInfo c) (mLeaderId c)
  (mElectionTimePointInNano c) (mCommitIndex c) (mBeginIndex c) (mRaftRole c) (core_mLog c)
  (mPendingClientRequests c).
Definition set_mLeaderId c v := mk_RaftCore (mConf c) (mPeers c) (mClients c) (mSelfInfo c) v
  (mElectionTimePointInNano c) (mCommitIndex c) (mBeginIndex c) (mRaftRole c) (core_mLog c)
  (mPendingClientRequests c).
Definition set_mElectionTimePoint c v := mk_RaftCore (mConf c) (mPeers c) (mClients c)
  (mSelfInfo c) (mLeaderId c) v (mCommitIndex c) (mBeginIndex c) (mRaftRole c) (core_mLog c)
  (mPendingClientRequests c).
Definition set_mCommitIndex c v := mk_RaftCore (mConf c) (mPeers c) (mClients c) (mSelfInfo c)
  (mLeaderId c) (mElectionTimePointInNano c) v (mBeginIndex c) (mRaftRole c) (core_mLog c)
  (mPendingClientRequests c).
Definition set_mBeginIndex c v := mk_RaftCore (mConf c) (mPeers c) (mClients c) (mSelfInfo c)
  (mLeaderId c) (mElectionTimePointInNano c) (mCommitIndex c) v (mRaftRole c) (core_mLog c)
  (mPendingClientRequests c).
Definition set_mRaftRole c v := mk_RaftCore (mConf c) (mPeers c) (mClients c) (mSelfInfo c)
  (mLeaderId c) (mElectionTimePointInNano c) (mCommitIndex c) (mBeginIndex c) v (core_mLog c)
  (mPendingClientRequests c).
Definition set_mLog c (v : L) : RaftCore L := mk_RaftCore (mConf c) (mPeers c) (mClients c) (mSelfInfo c)
  (mLeaderId c) (mElectionTimePointInNano c) (mCommitIndex c) (mBeginIndex c) (mRaftRole c) v
  (mPendingClientRequests c).
Definition set_mPending c v := mk_RaftCore (mConf c) (mPeers c) (mClients c) (mSelfInfo c)
  (mLeaderId c) (mElectionTimePointInNano c) (mCommitIndex c) (mBeginIndex c) (mRaftRole c)
  (core_mLog c) v.

(** [mPeers[id]]: a missing peer is inserted. *)
Definition peer_at c (id : Z) : Peer := default Peer_default (mPeers c !! id).
Definition update_peer c (id : Z) (p : Peer) : RaftCore L :=
  set_mPeers c (<[id := p]> (mPeers c)).

Definition core_term c : Z := getCurrentTerm (core_mLog c).
Definition core_vote c : Z := getVote (core_mLog c).
Definition core_id c : Z := member_mId (mSelfInfo c).

(** *** Getters *)
Definition getLeaderHint c : option Z :=
  let leaderId := mLeaderId c in if negb (leaderId =? 0) then Some leaderId else None.

Definition getClusterMembers c : list MemberInfo :=
  let cluster := mSelfInfo c ::
    map (λ kv, mk_MemberInfo (fst kv) (peer_mAddress (snd kv))) (map_to_list (mPeers c)) in
  merge_sort member_le cluster.

Definition RaftCore_getEntry c (index : Z) : result (option LogEntry) :=
  (if bool_decide (mRaftRole c ≠ Syncer) then cassert (index <=? mCommitIndex c) else Ret tt);;
  Ret (getEntry (core_mLog c) index).

Definition RaftCore_getEntries c (startIndex size : Z) : result (list LogEntry) :=
  cassert (startIndex + size - 1 <=? mCommitIndex c);;
  getEntries (core_mLog c) startIndex (mMaxLenInBytes (mConf c)) size.

Definition RaftCore_truncatePrefix c (firstIndexKept : Z) : result (RaftCore L) :=
  cassert (firstIndexKept <=? mCommitIndex c);;
  Ret (set_mLog c (truncatePrefix (core_mLog c) firstIndexKept)).

Definition getMemberOffsets c : Z * list MemberOffsetInfo :=
  (mCommitIndex c,
   map (λ kv, mk_MemberOffsetInfo (peer_mId (snd kv)) (peer_mAddress (snd kv)) (mMatchIndex (snd kv)))
     (map_to_list (mPeers c))).

Definition termOfLogEntryAt c (index : Z) : result Z :=
  match getTerm (core_mLog c) index with Some t => Ret t | None => Fail AssertFailure end.

Definition updateElectionTimePoint (env : RaftEnv) c : RaftCore L :=
  let timeIntervalInNano :=
    RandomUtil_randomRange (env_rand env) (kMinElectionTimeoutInMillis * 1000 * 1000)
      (kMaxElectionTimeoutInMillis * 1000 * 1000) in
  set_mElectionTimePoint c (env_now env + timeIntervalInNano).

(** *** Sending AE_req and RV_req *)

(** [*mClients[peer.mId]]: an id without a client is a null pointer. *)
Definition client_of c (peerId : Z) : result unit :=
  if bool_decide (peerId ∈ mClients c) then Ret tt else Fail UndefinedBehaviour.

Definition appendEntries_peer (env : RaftEnv) (acc : RaftCore L * list RaftAction)
    (p : Z * Peer) : result (RaftCore L * list RaftAction) :=
  let '(c, acts) := acc in
  let '(key, peer) := p in
  if env_now env <? mNextRequestTimeInNano peer then Ret (c, acts)
  else
    let currentTerm := getCurrentTerm (core_mLog c) in
    let prevLogIndex := mNextIndex peer - 1 in
    prevLogTerm ← termOfLogEntryAt c prevLogIndex;
    entries ← (if negb (mSuppressBulkData peer)
               then getEntries (core_mLog c) (mNextIndex peer) (mMaxLenInBytes (mConf c))
                      (mMaxBatchSize (mConf c))
               else Ret []);
    let batchSize := Z.of_nat (length entries) in
    let commitIndex := Z.min (mCommitIndex c) (prevLogIndex + batchSize) in
    let request := mk_AE_Request currentTerm (core_id c) prevLogIndex prevLogTerm entries
                     commitIndex in
    client_of c (peer_mId peer);;
    Ret (update_peer c key (Peer_set_request_times peer (env_now env) uint64_max),
         acts ++ [SendAppendEntries (peer_mId peer) request]).

Definition appendEntries_round (env : RaftEnv) c : result (RaftCore L * list RaftAction) :=
  if negb (bool_decide (mRaftRole c = Leader)) then Ret (c, [])
  else foldM (appendEntries_peer env) (c, []) (map_to_list (mPeers c)).

Definition requestVote_peer (env : RaftEnv) (acc : RaftCore L * list RaftAction)
    (p : Z * Peer) : result (RaftCore L * list RaftAction) :=
  let '(c, acts) := acc in
  let '(key, peer) := p in
  if mRequestVoteDone peer || (env_now env <? mNextRequestTimeInNano peer) then Ret (c, acts)
  else
    let currentTerm := getCurrentTerm (core_mLog c) in
    let lastLogIndex := getLastLogIndex (core_mLog c) in
    lastLogTerm ← termOfLogEntryAt c lastLogIndex;
    let request := mk_RV_Request currentTerm (core_id c) lastLogIndex lastLogTerm in
    client_of c (peer_mId peer);;
    Ret (update_peer c key (Peer_set_request_times peer (env_now env) uint64_max),
         acts ++ [SendRequestVote (peer_mId peer) request]).

Definition requestVote (env : RaftEnv) c : result (RaftCore L * list RaftAction) :=
  if negb (bool_decide (mRaftRole c = Candidate)) then Ret (c, [])
  else foldM (requestVote_peer env) (c, []) (map_to_list (mPeers c)).

(** *** Stepping down *)

(** The replies to the pending client requests. *)
Definition pending_replies (pending : list (Z * option Z)) (code : Z) (message : string)
    (leaderId : Z) : list RaftAction :=
  omap (λ p, match snd p with
             | Some handle => Some (FillResultAndReply handle code message (Some leaderId))
             | None => None
             end) pending.

Definition stepDown (env : RaftEnv) (newTerm : Z) c : result (RaftCore L * list RaftAction) :=
  let currentTerm := getCurrentTerm (core_mLog c) in
  cassert (currentTerm <=? newTerm);;
  let prevRole := mRaftRole c in
  let c := set_mRaftRole c Follower in
  c ← (if currentTerm <? newTerm then
         let c := set_mLog c (setVoteFor (setCurrentTerm (core_mLog c) newTerm) 0) in
         Ret (set_mLeaderId c 0)
       else
         cassert (bool_decide (prevRole = Candidate));; Ret c);
  if bool_decide (prevRole = Leader) then
    let acts := pending_replies (mPendingClientRequests c) 301 "LeaderStepDown" (mLeaderId c) in
    Ret (updateElectionTimePoint env (set_mPending c []), acts)
  else Ret (c, []).

(** *** AE_req *)

(** The loop over the entries of the request: [index] runs along, the log may
    be truncated at the first conflict, the entries to append are collected. *)
Definition receive_entry (acc : L * Z * list LogEntry) (entry : LogEntry) (commitIndex : Z)
    : result (L * Z * list LogEntry) :=
  let '(log, index, entries) := acc in
  let index := index + 1 in
  cassert (le_index entry =? index);;
  if le_index entry <? getFirstLogIndex log then Ret (log, index, entries)
  else if le_index entry <=? getLastLogIndex log then
    t ← Log_getLogTerm log (le_index entry);
    if le_term entry =? t then Ret (log, index, entries)
    else
      cassert (commitIndex <? le_index entry);;
      let lastIndexKept := le_index entry - 1 in
      Ret (truncateSuffix log lastIndexKept, index, entries ++ [entry])
  else Ret (log, index, entries ++ [entry]).

Definition receive_entries (log : L) (prevLogIndex commitIndex : Z) (entries : list LogEntry)
    : result (L * Z * list LogEntry) :=
  foldM (λ acc entry, receive_entry acc entry commitIndex) (log, prevLogIndex, []) entries.

Definition handleAppendEntriesRequest (env : RaftEnv) c (request : AE_Request)
    : result (Status * AE_Response * RaftCore L * list RaftAction) :=
  let currentTerm := getCurrentTerm (core_mLog c) in
  let resp term success last match_ :=
    mk_AE_Response term success (core_id c) (ae_term request) (ae_prev_log_index request)
      last match_ in
  let last0 := getLastLogIndex (core_mLog c) in
  if ae_term request <? currentTerm then Ret (StatusOK, resp currentTerm false last0 0, c, [])
  else if bool_decide (mRaftRole c = Syncer) then
    Ret (StatusCANCELLED, resp (ae_term request) false last0 0, c, [])
  else
    '(c, acts) ← (if (currentTerm <? ae_term request) ||
                     ((ae_term request =? currentTerm) && bool_decide (mRaftRole c = Candidate))
                  then stepDown env (ae_term request) c else Ret (c, []));
    let c := updateElectionTimePoint env c in
    c ← (if mLeaderId c =? 0 then Ret (set_mLeaderId c (ae_leader_id request))
         else cassert (mLeaderId c =? ae_leader_id request);; Ret c);
    logIsOk ← (if ae_prev_log_index request <? getFirstLogIndex (core_mLog c) then Ret true
               else if ae_prev_log_index request <=? getLastLogIndex (core_mLog c) then
                 t ← termOfLogEntryAt c (ae_prev_log_index request);
                 Ret (t =? ae_prev_log_term request)
               else Ret false);
    if negb logIsOk then Ret (StatusOK, resp (ae_term request) false last0 0, c, acts)
    else
      '(log, _, entries) ← receive_entries (core_mLog c) (ae_prev_log_index request)
                             (mCommitIndex c) (ae_entries request);
      log ← Log_appendAll log entries;
      let c := set_mLog c log in
      let response := resp (ae_term request) true (getLastLogIndex log)
        (ae_prev_log_index request + Z.of_nat (length (ae_entries request))) in
      c ← (if mCommitIndex c <? ae_commit_index request then
             let c := set_mCommitIndex c (ae_commit_index request) in
             cassert (mCommitIndex c <=? getLastLogIndex (core_mLog c));; Ret c
           else Ret c);
      Ret (StatusOK, response, updateElectionTimePoint env c, acts).

(** *** AE_resp *)
Definition handleAppendEntriesResponse (env : RaftEnv) c (response : AE_Response)
    : result (RaftCore L * list RaftAction) :=
  let currentTerm := getCurrentTerm (core_mLog c) in
  if negb (currentTerm =? aer_saved_term response) then Ret (c, [])
  else
    cassert (bool_decide (mRaftRole c = Leader));;
    if currentTerm <? aer_term response then stepDown env (aer_term response) c
    else
      let id := aer_id response in
      let peer := peer_at c id in
      let c := update_peer c id peer in
      if negb (aer_saved_prev_log_index response =? mNextIndex peer - 1) then Ret (c, [])
      else if aer_success response then
        cassert (mMatchIndex peer <=? aer_match_index response);;
        Ret (update_peer c id (Peer_set_progress peer (aer_match_index response)
                                 (aer_match_index response + 1) false), [])
      else
        cassert (mMatchIndex peer <=? aer_last_log_index response);;
        cassert (mMatchIndex peer + 1 <? mNextIndex peer);;
        let next :=
          if aer_last_log_index response + 1 <? mNextIndex peer
          then aer_last_log_index response + 1
          else mNextIndex peer -
               Z.min (Z.shiftr (mNextIndex peer - mMatchIndex peer) 1) (mMaxDecrStep (mConf c)) in
        Ret (update_peer c id (Peer_set_progress peer (mMatchIndex peer) next
                                 (mSuppressBulkData peer)), []).

(** *** RV_req *)
Definition handleRequestVoteRequest (env : RaftEnv) c (request : RV_Request)
    : result (Status * RV_Response * RaftCore L * list RaftAction) :=
  let currentTerm := getCurrentTerm (core_mLog c) in
  let resp term granted := mk_RV_Response term granted (core_id c) (rv_term request) in
  if bool_decide (mRaftRole c = Syncer) then
    Ret (StatusCANCELLED, resp currentTerm false, c, [])
  else if rv_term request <? currentTerm then Ret (StatusOK, resp currentTerm false, c, [])
  else
    let term := if currentTerm <? rv_term request then rv_term request else currentTerm in
    '(c, acts) ← (if currentTerm <? rv_term request then stepDown env (rv_term request) c
                  else Ret (c, []));
    let lastLogIndex := getLastLogIndex (core_mLog c) in
    lastLogTerm ← termOfLogEntryAt c lastLogIndex;
    let logIsOk := (lastLogTerm <? rv_last_log_term request) ||
      ((rv_last_log_term request =? lastLogTerm) && (lastLogIndex <=? rv_last_log_index request)) in
    let voteFor := getVote (core_mLog c) in
    if logIsOk && ((voteFor =? 0) || (voteFor =? rv_candidate_id request)) then
      let c := set_mLog c (setVoteFor (core_mLog c) (rv_candidate_id request)) in
      Ret (StatusOK, resp term true, updateElectionTimePoint env c, acts)
    else Ret (StatusOK, resp term false, c, acts).

(** *** RV_resp *)
Definition handleRequestVoteResponse (env : RaftEnv) c (response : RV_Response)
    : result (RaftCore L * list RaftAction) :=
  let currentTerm := getCurrentTerm (core_mLog c) in
  if negb (currentTerm =? rvr_saved_term response) || negb (bool_decide (mRaftRole c = Candidate))
  then Ret (c, [])
  else if currentTerm <? rvr_term response then stepDown env (rvr_term response) c
  else
    let peer := peer_at c (rvr_id response) in
    let have := if rvr_vote_granted response then true else mHaveVote peer in
    Ret (update_peer c (rvr_id response) (Peer_set_vote peer true have), []).

(** *** Cli_req *)
Definition admit_request (currentTerm : Z) (acc : Z * list (Z * option Z) * list LogEntry)
    (r : ClientRequest) : Z * list (Z * option Z) * list LogEntry :=
  let '(lastLogIndex, pending, entries) := acc in
  let entry := cr_mEntry r in
  if (le_term entry =? currentTerm) && (le_index entry =? lastLogIndex + 1) then
    (lastLogIndex + 1, pending ++ [(le_index entry, cr_mRequestHandle r)], entries ++ [entry])
  else acc.

Definition handleClientRequests c (requests : list ClientRequest)
    : RaftCore L * list RaftAction :=
  if negb (bool_decide (mRaftRole c = Leader)) then
    (c, omap (λ r, match cr_mRequestHandle r with
                   | Some h => Some (FillResultAndReply h 301 "NotLeaderAnyMore" (Some (mLeaderId c)))
                   | None => None
                   end) requests)
  else
    let currentTerm := getCurrentTerm (core_mLog c) in
    let lastLogIndex := getLastLogIndex (core_mLog c) in
    let '(_, pending, entries) :=
      foldl (admit_request currentTerm) (lastLogIndex, mPendingClientRequests c, []) requests in
    (** the result of [appendEntries] is ignored *)
    let '(_, log) := appendEntries (core_mLog c) entries in
    (set_mLog (set_mPending c pending) log, []).

(** *** Sync requests of a Syncer *)
Definition handleSyncRequest c (request : SyncRequest) : result (RaftCore L) :=
  if negb (bool_decide (mRaftRole c = Syncer)) then Ret c
  else
    match sync_mFinishMeta request with
    | Some beginIndex => Ret (set_mBeginIndex (set_mRaftRole c Follower) beginIndex)
    | None =>
        cassert (sync_mStartIndex request =? getLastLogIndex (core_mLog c) + 1);;
        match last (sync_mEntries request) with
        | None => Fail AssertFailure
        | Some back =>
            log ← Log_appendAll (core_mLog c) (sync_mEntries request);
            cassert (getLastLogIndex log =? sync_mEndIndex request);;
            let log := setCurrentTerm log (le_term back) in
            Ret (set_mCommitIndex (set_mLog c log) (getLastLogIndex log))
        end
    end.

(** *** Commit index *)

(** The element at position [size >> 1] of the values in descending order. *)
Definition majority_value (xs : list Z) : option Z :=
  merge_sort descending xs !! Nat.div2 (length xs).

Definition advanceCommitIndex c : result (RaftCore L * list RaftAction) :=
  if negb (bool_decide (mRaftRole c = Leader)) then Ret (c, [])
  else
    let indices := getLastLogIndex (core_mLog c) ::
      map (λ kv, mMatchIndex (snd kv)) (map_to_list (mPeers c)) in
    match majority_value indices with
    | None => Fail UndefinedBehaviour
    | Some majorityIndex =>
        if majorityIndex <=? mCommitIndex c then Ret (c, [])
        else
          t ← termOfLogEntryAt c majorityIndex;
          if negb (t =? getCurrentTerm (core_mLog c)) then Ret (c, [])
          else
            let c := set_mCommitIndex c majorityIndex in
            cassert (mCommitIndex c <=? getLastLogIndex (core_mLog c));;
            let '(done, kept) := pop_committed (mCommitIndex c) (mPendingClientRequests c) in
            Ret (set_mPending c kept, pending_replies done 200 "Success" (mLeaderId c))
    end.

(** *** Elections *)
Definition vote_count c : Z :=
  1 + Z.of_nat (length (filter (λ kv, mHaveVote (snd kv) = true) (map_to_list (mPeers c)))).

Definition becomeLeader (env : RaftEnv) c : result (RaftCore L) :=
  if negb (bool_decide (mRaftRole c = Candidate)) then Ret c
  else
    let voteNum := vote_count c in
    let quorumNum := getMajorityNumber (Z.of_nat (size (mPeers c)) + 1) in
    if voteNum <? quorumNum then Ret c
    else
      let c := set_mRaftRole c Leader in
      let lastLogIndex := getLastLogIndex (core_mLog c) in
      let c := set_mPeers c ((λ p, Peer_set_request_times
                                (Peer_set_progress p 0 (lastLogIndex + 1) true)
                                (mLastRequestTimeInNano p) (env_now env)) <$> mPeers c) in
      let entry := mk_LogEntry (getCurrentTerm (core_mLog c)) (lastLogIndex + 1) true
                     (env_now env) EmptyString (getLatestSecKeyVersion (core_mLog c)) None in
      log ← Log_append (core_mLog c) entry;
      Ret (set_mLog c log).

Definition electionTimeout (env : RaftEnv) c : RaftCore L :=
  if bool_decide (mRaftRole c = Leader) || bool_decide (mRaftRole c = Syncer) then c
  else if env_now env <? mElectionTimePointInNano c then c
  else
    let currentTerm := getCurrentTerm (core_mLog c) in
    let c := set_mRaftRole c Candidate in
    let c := set_mLog c (setVoteFor (setCurrentTerm (core_mLog c) (currentTerm + 1)) (core_id c)) in
    let c := set_mLeaderId c 0 in
    let c := updateElectionTimePoint env c in
    set_mPeers c ((λ p, Peer_set_request_times (Peer_set_vote p false false)
                          (mLastRequestTimeInNano p) (env_now env)) <$> mPeers c).

Definition leadershipTimeout (env : RaftEnv) c : result (RaftCore L * list RaftAction) :=
  if negb (bool_decide (mRaftRole c = Leader)) then Ret (c, [])
  else
    let nowInNano := env_now env in
    let timePoints := nowInNano ::
      map (λ kv, mLastResponseTimeInNano (snd kv)) (map_to_list (mPeers c)) in
    match majority_value timePoints with
    | None => Fail UndefinedBehaviour
    | Some t =>
        let timeElapseInNano := nowInNano -ᵤ t in
        if timeElapseInNano <? kMaxElectionTimeoutInMillis * 1000000 then Ret (c, [])
        else stepDown env (getCurrentTerm (core_mLog c) + 1) c
    end.

(** *** Events *)

(** "turn on switch": the peer may be sent the next request. *)
Definition turn_on_switch (env : RaftEnv) c (peerId : Z) : RaftCore L :=
  let peer := peer_at c peerId in
  update_peer c peerId (Peer_set_request_times peer (mLastRequestTimeInNano peer)
    (Z.max (mLastRequestTimeInNano peer + kHeartBeatIntervalInMillis * 1000 * 1000) (env_now env))).

Definition handle_event (env : RaftEnv) c (event : RaftEvent)
    : result (RaftCore L * list RaftAction) :=
  match event with
  | AppendEntriesRequestEvent tag request =>
      '(s, response, c, acts) ← handleAppendEntriesRequest env c request;
      Ret (c, acts ++ [ReplyAppendEntries tag s response])
  | AppendEntriesResponseEvent peerId status response =>
      let c := turn_on_switch env c peerId in
      let peer := peer_at c peerId in
      if bool_decide (status = StatusOK) then
        handleAppendEntriesResponse env
          (update_peer c peerId (Peer_set_response_time peer (env_now env))) response
      else
        Ret (update_peer c peerId (Peer_set_progress peer (mMatchIndex peer) (mNextIndex peer) true), [])
  | RequestVoteRequestEvent tag request =>
      '(s, response, c, acts) ← handleRequestVoteRequest env c request;
      Ret (c, acts ++ [ReplyRequestVote tag s response])
  | RequestVoteResponseEvent peerId status response =>
      let c := turn_on_switch env c peerId in
      let peer := peer_at c peerId in
      if bool_decide (status = StatusOK) then
        handleRequestVoteResponse env
          (update_peer c peerId (Peer_set_response_time peer (env_now env))) response
      else Ret (c, [])
  | ClientRequestsEvent requests => Ret (handleClientRequests c requests)
  | SyncRequestsEvent request => c ← handleSyncRequest c request; Ret (c, [])
  end.

(** [receiveMessage]: the first queue has priority; the queues left and what
    handling the event gives. *)
Definition receiveMessage (env : RaftEnv) c (aeRv client : list RaftEvent)
    : result (RaftCore L * list RaftAction * list RaftEvent * list RaftEvent) :=
  match aeRv, client with
  | event :: aeRv, _ => '(c, acts) ← handle_event env c event; Ret (c, acts, aeRv, client)
  | [], event :: client => '(c, acts) ← handle_event env c event; Ret (c, acts, [], client)
  | [], [] => Ret (c, [], [], [])
  end.

(** One iteration of [raftLoopMain]. *)
Definition raftLoop_iteration (env : RaftEnv) c (aeRv client : list RaftEvent)
    : result (RaftCore L * list RaftAction * list RaftEvent * list RaftEvent) :=
  '(c, a1) ← appendEntries_round env c;
  '(c, a2) ← requestVote env c;
  '(c, a3, aeRv, client) ← receiveMessage env c aeRv client;
  '(c, a4) ← advanceCommitIndex c;
  c ← becomeLeader env c;
  let c := electionTimeout env c in
  '(c, a5) ← leadershipTimeout env c;
  Ret (c, a1 ++ a2 ++ a3 ++ a4 ++ a5, aeRv, client).

(** *** Initialisation *)
Definition initConfigurableVars (conf : RaftConf) : result RaftConf :=
  cassert (negb (mMaxBatchSize conf =? 0) && negb (mMaxLenInBytes conf =? 0) &&
           negb (mMaxDecrStep conf =? 0) && negb (mMaxTailedEntryNum conf =? 0));;
  Ret conf.

(** [initClusterConf], from the nodes of the cluster and their addresses. *)
Definition initClusterConf (nodes : gmap Z string) (selfId : Z)
    : result (MemberInfo * gmap Z Peer) :=
  let self := match nodes !! selfId with
              | Some addr => mk_MemberInfo selfId addr
              | None => mk_MemberInfo kBadID EmptyString
              end in
  cassert (negb (member_mId self =? kBadID));;
  Ret (self, map_imap (λ id addr, Some (mk_Peer id addr false false 0 1 true 0 0 0))
               (delete selfId nodes)).

(** The core after its constructor: what survives a restart is the log with
    its term and vote. *)
Definition RaftCore_init (conf : RaftConf) (nodes : gmap Z string) (selfId : Z) (role : RaftRole)
    (log : L) (electionTimePoint : Z) : result (RaftCore L) :=
  conf ← initConfigurableVars conf;
  '(self, peers) ← initClusterConf nodes selfId;
  Ret (mk_RaftCore conf peers (dom peers) self kBadID electionTimePoint 0 1 role log []).
End RaftCore.
