(* ===== verification/RaftHandlers.v ===== *)
(** * What the handlers of the Raft core do to term, vote and role

    Every handler is summarised by the relations [quiet] and [outcome]: which
    node it belongs to, the ids of the peers and the votes collected stay; the
    term never decreases; the vote of a term never changes once it is cast; a
    node leaves its role only as stated. *)
From S2P Require Import Prelude RaftLog RaftCore.
Open Scope Z_scope.

Section effects.
Context `{LogMeta L}.
Implicit Types (c : RaftCore L).

(** What the election reads of a peer. *)
Definition peer_sig (p : Peer) : Z * bool := (peer_mId p, mHaveVote p).

Definition same_frame c c' : Prop :=
  mSelfInfo c' = mSelfInfo c ∧ peer_sig <$> mPeers c' = peer_sig <$> mPeers c.

(** Nothing the election depends on has changed. *)
Definition quiet c c' : Prop :=
  same_frame c c' ∧ core_term c' = core_term c ∧ core_vote c' = core_vote c ∧
  mRaftRole c' = mRaftRole c.

(** A follower of the same term, without having voted anew. *)
Definition yielded c c' : Prop :=
  same_frame c c' ∧ core_term c' = core_term c ∧ core_vote c' = core_vote c ∧
  mRaftRole c = Candidate ∧ mRaftRole c' = Follower.

(** A follower of a later term that has not voted in it. *)
Definition newterm c c' : Prop :=
  same_frame c c' ∧ core_term c < core_term c' ∧ core_vote c' = 0 ∧ mRaftRole c' = Follower.

Definition outcome c c' : Prop := quiet c c' ∨ yielded c c' ∨ newterm c c'.

(** Messages to nodes are none of the outputs. *)
Definition local_action (a : RaftAction) : Prop :=
  match a with FillResultAndReply _ _ _ _ => True | _ => False end.

Lemma same_frame_refl c : same_frame c c.
Proof. done. Qed.

Lemma quiet_refl c : quiet c c.
Proof. done. Qed.

Ltac frames :=
  unfold outcome, quiet, yielded, newterm, same_frame in *; destruct_or?; destruct_and?;
  first [left; split_and!; first [congruence | lia]
        |right; left; split_and!; first [congruence | lia]
        |right; right; split_and!; first [congruence | lia]
        |split_and!; first [congruence | lia]].

Lemma quiet_trans c1 c2 c3 : quiet c1 c2 → quiet c2 c3 → quiet c1 c3.
Proof. intros; frames. Qed.

Lemma outcome_quiet c1 c2 c3 : outcome c1 c2 → quiet c2 c3 → outcome c1 c3.
Proof. intros; frames. Qed.

Lemma quiet_outcome c1 c2 c3 : quiet c1 c2 → outcome c2 c3 → outcome c1 c3.
Proof. intros; frames. Qed.

Lemma updateElectionTimePoint_quiet env c : quiet c (updateElectionTimePoint env c).
Proof. done. Qed.

(** Updating an existing peer without touching its id or its vote. *)
Lemma update_peer_quiet c id p :
  is_Some (mPeers c !! id) → peer_sig p = peer_sig (peer_at c id) → quiet c (update_peer c id p).
Proof.
  intros [q Hq] Hp. split_and!; try done. split; [done|]. simpl.
  rewrite fmap_insert, Hp. unfold peer_at. rewrite Hq. simpl.
  apply insert_id. by rewrite lookup_fmap, Hq.
Qed.

Lemma pending_replies_local pending code msg l :
  Forall local_action (pending_replies pending code msg l).
Proof.
  apply Forall_forall. intros a Ha.
  apply list_elem_of_omap in Ha as ([i [h|]] & _ & Hh); simpl in Hh; by simplify_eq.
Qed.

Lemma stepDown_outcome env t c c' acts :
  stepDown env t c = Ret (c', acts) →
  outcome c c' ∧ Forall local_action acts ∧ core_term c' = t ∧ mRaftRole c' = Follower ∧
  core_term c ≤ t ∧ core_id c' = core_id c.
Proof.
  unfold stepDown. intros Hs. inv_ret. apply Z.leb_le in H1.
  assert (Hx : outcome c x ∧ core_term x = t ∧ mRaftRole x = Follower ∧ core_id x = core_id c).
  { destruct (Z.ltb_spec (getCurrentTerm (core_mLog c)) t); inv_ret.
    - split; [right; right; split_and!; try done|split; [|done]];
        unfold core_term, core_vote; simpl; by autorewrite with raft_log.
    - apply bool_decide_eq_true in H4. split; [right; left; by split_and!|].
      split; [unfold core_term; simpl; lia|done]. }
  destruct Hx as (Ho & Ht & Hr & Hi).
  clear H2. case_bool_decide; inv_ret; split_and!; try done; apply pending_replies_local.
Qed.

(** *** Requests to append entries *)
Lemma receive_entries_meta log prev commit es log' i es' :
  receive_entries log prev commit es = Ret (log', i, es') →
  getCurrentTerm log' = getCurrentTerm log ∧ getVote log' = getVote log.
Proof.
  unfold receive_entries. intros Hr.
  apply (foldM_ind (λ x, getCurrentTerm x.1.1 = getCurrentTerm log ∧ getVote x.1.1 = getVote log)) in Hr;
    [done| |done].
  intros [[l k] acc] e [[l' k'] acc'] [IH1 IH2] _ He. simpl in *. inv_ret.
  split_if He; [by inv_ret|]. split_if He; [|by inv_ret]. inv_ret.
  split_if He; inv_ret; [done|]. by autorewrite with raft_log.
Qed.

Lemma Log_appendAll_meta log es log' :
  Log_appendAll log es = Ret log' →
  getCurrentTerm log' = getCurrentTerm log ∧ getVote log' = getVote log.
Proof.
  unfold Log_appendAll. pose proof (term_appendEntries log es) as Ht.
  pose proof (vote_appendEntries log es) as Hv.
  destruct (appendEntries log es) as [ok l]. intros. inv_ret. done.
Qed.

Lemma handleAppendEntriesRequest_outcome env c req s resp c' acts :
  handleAppendEntriesRequest env c req = Ret (s, resp, c', acts) →
  outcome c c' ∧ Forall local_action acts ∧ aer_id resp = core_id c ∧
  aer_saved_term resp = ae_term req.
Proof.
  unfold handleAppendEntriesRequest. intros Hh.
  split_if Hh; [inv_ret; split; [by left|done]|].
  split_if Hh; [inv_ret; split; [by left|done]|].
  apply bind_Ret in Hh as ([c1 acts1] & Hstep & Hh).
  apply bind_Ret in Hh as (c2 & Hlead & Hh). apply bind_Ret in Hh as (logOk & _ & Hh).
  assert (Hc1 : outcome c c1 ∧ Forall local_action acts1).
  { split_if Hstep; [apply stepDown_outcome in Hstep; tauto|]. inv_ret. split; [by left|done]. }
  destruct Hc1 as [Ho Hl].
  assert (Hq : quiet c1 c2) by (split_if Hlead; inv_ret; done).
  destruct logOk; simpl in Hh; [|inv_ret; split_and!; try done; by eapply outcome_quiet].
  apply bind_Ret in Hh as ([[log1 k] es] & Hre & Hh). apply bind_Ret in Hh as (log2 & Hap & Hh).
  apply bind_Ret in Hh as (c3 & Hco & Hh). inv_ret.
  apply receive_entries_meta in Hre as [Ht1 Hv1]. apply Log_appendAll_meta in Hap as [Ht2 Hv2].
  assert (Hs : quiet c2 (set_mLog c2 log2)).
  { split_and!; try done; unfold core_term, core_vote; simpl; congruence. }
  split_and!; try done. eapply outcome_quiet; [exact Ho|].
  eapply quiet_trans; [exact Hq|]. eapply quiet_trans; [exact Hs|].
  split_if Hco; inv_ret; done.
Qed.

(** *** Responses *)
Definition known_peer c (id : Z) : Prop := is_Some (mPeers c !! id).

Lemma known_peer_frame c c' id : same_frame c c' → known_peer c id → known_peer c' id.
Proof.
  intros [_ Hf] [p Hp]. apply (f_equal (lookup id)) in Hf. rewrite !lookup_fmap, Hp in Hf.
  unfold known_peer. destruct (mPeers c' !! id); [eauto|done].
Qed.

Lemma peer_at_update c id p : peer_at (update_peer c id p) id = p.
Proof. unfold peer_at. simpl. by rewrite lookup_insert_eq. Qed.

Lemma handleAppendEntriesResponse_outcome env c resp c' acts :
  known_peer c (aer_id resp) → handleAppendEntriesResponse env c resp = Ret (c', acts) →
  outcome c c' ∧ Forall local_action acts.
Proof.
  intros Hk. unfold handleAppendEntriesResponse. intros Hh.
  split_if Hh; [inv_ret; split; [by left|done]|]. apply cassert_bind in Hh as [_ Hh].
  split_if Hh; [apply stepDown_outcome in Hh; tauto|].
  set (peer := peer_at c (aer_id resp)) in *.
  assert (Hq : quiet c (update_peer c (aer_id resp) peer)) by (by apply update_peer_quiet).
  assert (Hk' : known_peer (update_peer c (aer_id resp) peer) (aer_id resp)).
  { eapply known_peer_frame; [apply Hq|done]. }
  split_if Hh; [inv_ret; split; [by left|done]|].
  split_if Hh; inv_ret; (split; [left|done]); (eapply quiet_trans; [exact Hq|]);
    apply update_peer_quiet; try done; by rewrite peer_at_update.
Qed.

(** A vote request: the vote is cast only when the term had none, or again for
    the same candidate; a grant is for the term the node is then in. *)
Lemma handleRequestVoteRequest_outcome env c req s resp c' acts :
  handleRequestVoteRequest env c req = Ret (s, resp, c', acts) →
  Forall local_action acts ∧ rvr_id resp = core_id c ∧ rvr_saved_term resp = rv_term req ∧
  same_frame c c' ∧
  ∃ c1, outcome c c1 ∧ mRaftRole c' = mRaftRole c1 ∧ core_term c' = core_term c1 ∧
    ((rvr_vote_granted resp = false ∧ core_vote c' = core_vote c1) ∨
     (rvr_vote_granted resp = true ∧ core_term c1 = rv_term req ∧
      core_vote c' = rv_candidate_id req ∧
      (core_vote c1 = 0 ∨ core_vote c1 = rv_candidate_id req))).
Proof.
  unfold handleRequestVoteRequest. intros Hh.
  split_if Hh; [inv_ret; split_and!; try done; exists c'; split; [by left|by auto]|].
  split_if Hh; [inv_ret; split_and!; try done; exists c'; split; [by left|by auto]|].
  apply Z.ltb_ge in E0.
  apply bind_Ret in Hh as ([c1 acts1] & Hstep & Hh). apply bind_Ret in Hh as (llt & _ & Hh).
  assert (Hc1 : outcome c c1 ∧ Forall local_action acts1 ∧ core_term c1 = rv_term req).
  { split_if Hstep.
    - apply stepDown_outcome in Hstep as (? & ? & ? & _). done.
    - inv_ret. apply Z.ltb_ge in E1. split_and!; [by left|done|]. unfold core_term. lia. }
  destruct Hc1 as (Ho & Hl & Ht).
  assert (Hfr : same_frame c c1) by (destruct Ho as [(? & _)|[(? & _)|(? & _)]]; done).
  split_if Hh; injection Hh as <- <- <- <-; simpl; (split_and!; [done..|]); exists c1;
    (split; [done|]).
  - split; [done|]. split; [unfold core_term; simpl; by autorewrite with raft_log|].
    right. apply andb_true_iff in E1 as [_ Hv].
    apply orb_true_iff in Hv. rewrite !Z.eqb_eq in Hv.
    split_and!; try done. unfold core_vote; simpl. by autorewrite with raft_log.
  - split; [done|]. split; [done|]. by left.
Qed.

(** A vote response: at most the responder's vote is added. *)
Lemma handleRequestVoteResponse_outcome env c resp c' acts :
  known_peer c (rvr_id resp) → handleRequestVoteResponse env c resp = Ret (c', acts) →
  Forall local_action acts ∧
  (outcome c c' ∨
   mSelfInfo c' = mSelfInfo c ∧ core_term c' = core_term c ∧ core_vote c' = core_vote c ∧
   mRaftRole c' = mRaftRole c ∧ rvr_saved_term resp = core_term c ∧
   rvr_vote_granted resp = true ∧
   ∃ p, mPeers c !! rvr_id resp = Some p ∧
     peer_sig <$> mPeers c' = <[rvr_id resp := (peer_mId p, true)]> (peer_sig <$> mPeers c)).
Proof.
  intros [p Hp]. unfold handleRequestVoteResponse. intros Hh.
  split_if Hh; [inv_ret; split; [done|left; by left]|].
  apply orb_false_iff in E as [E%negb_false_iff%Z.eqb_eq _].
  split_if Hh; [apply stepDown_outcome in Hh; tauto|]. inv_ret. split; [done|].
  unfold peer_at. rewrite Hp; simpl. destruct (rvr_vote_granted resp).
  - right. split_and!; try done. exists p. split; [done|]. simpl. by rewrite fmap_insert.
  - left. left. apply update_peer_quiet; [by eexists|]. unfold peer_at. by rewrite Hp.
Qed.

(** *** Clients, sync requests *)
Lemma handleClientRequests_quiet c reqs c' acts :
  handleClientRequests c reqs = (c', acts) → quiet c c' ∧ Forall local_action acts.
Proof.
  unfold handleClientRequests. case_bool_decide; simpl.
  - destruct (foldl _ _ _) as [[x pending] es].
    pose proof (term_appendEntries (core_mLog c) es) as Ht.
    pose proof (vote_appendEntries (core_mLog c) es) as Hv.
    destruct (appendEntries (core_mLog c) es) as [b l]. intros [= <- <-].
    split; [|done]. by split_and!.
  - intros [= <- <-]. split; [done|]. apply Forall_forall. intros a Ha.
    apply list_elem_of_omap in Ha as ([e [h|]] & _ & Hh); simpl in Hh; by simplify_eq.
Qed.

Lemma handleSyncRequest_not_syncer c req c' :
  mRaftRole c ≠ Syncer → handleSyncRequest c req = Ret c' → c' = c.
Proof.
  intros Hr. unfold handleSyncRequest. rewrite bool_decide_eq_false_2 by done. simpl. by intros [= <-].
Qed.

(** *** Timers *)
Lemma advanceCommitIndex_quiet c c' acts :
  advanceCommitIndex c = Ret (c', acts) → quiet c c' ∧ Forall local_action acts.
Proof.
  unfold advanceCommitIndex. intros Hh. split_if Hh; [by inv_ret|].
  destruct (majority_value _) as [m|]; [|done]. split_if Hh; [by inv_ret|].
  apply bind_Ret in Hh as (t & _ & Hh). split_if Hh; [by inv_ret|].
  apply cassert_bind in Hh as [_ Hh]. simpl in Hh.
  destruct (pop_committed _ _). inv_ret. split; [done|apply pending_replies_local].
Qed.

Lemma leadershipTimeout_outcome env c c' acts :
  leadershipTimeout env c = Ret (c', acts) → outcome c c' ∧ Forall local_action acts.
Proof.
  unfold leadershipTimeout. intros Hh. split_if Hh; [inv_ret; split; [by left|done]|].
  destruct (majority_value _) as [m|]; [|done].
  split_if Hh; [inv_ret; split; [by left|done]|]. apply stepDown_outcome in Hh. tauto.
Qed.

(** Becoming leader takes a majority of the votes of this term. *)
Lemma becomeLeader_outcome env c c' :
  becomeLeader env c = Ret c' →
  quiet c c' ∨
  (same_frame c c' ∧ core_term c' = core_term c ∧ core_vote c' = core_vote c ∧
   mRaftRole c = Candidate ∧ mRaftRole c' = Leader ∧
   getMajorityNumber (Z.of_nat (size (mPeers c)) + 1) ≤ vote_count c).
Proof.
  unfold becomeLeader. intros Hh. split_if Hh; [inv_ret; by left|].
  apply negb_false_iff, bool_decide_eq_true in E.
  split_if Hh; [inv_ret; by left|]. apply Z.ltb_ge in E0.
  apply bind_Ret in Hh as (log & Hap & Hh). inv_ret. right.
  unfold Log_append in Hap.
  match type of Hap with context [appendEntry ?l ?e] =>
    pose proof (term_appendEntry l e) as Ht; pose proof (vote_appendEntry l e) as Hv;
    destruct (appendEntry l e) as [b l'] end.
  inv_ret. split_and!; try done.
  split; [done|]. simpl. rewrite <- map_fmap_compose. apply map_fmap_ext. done.
Qed.

(** An election starts a new term with the own vote and no other. *)
Lemma electionTimeout_outcome env c c' :
  electionTimeout env c = c' →
  quiet c c' ∨
  (mSelfInfo c' = mSelfInfo c ∧ core_term c < core_term c' ∧ core_vote c' = core_id c ∧
   mRaftRole c' = Candidate ∧
   peer_sig <$> mPeers c' = (λ p, (peer_mId p, false)) <$> mPeers c).
Proof.
  unfold electionTimeout. destruct (_ || _) eqn:E; [intros <-; by left|].
  destruct (_ <? _); [intros <-; by left|]. intros <-. right.
  split_and!; try done; unfold core_term, core_vote; simpl; autorewrite with raft_log; try done; [lia|].
  rewrite <- map_fmap_compose. apply map_fmap_ext. done.
Qed.

(** *** Rounds of requests *)
Definition sends_AE c (a : RaftAction) : Prop :=
  ∃ k p req, mPeers c !! k = Some p ∧ a = SendAppendEntries (peer_mId p) req.

Definition sends_RV c (a : RaftAction) : Prop :=
  ∃ k p req, mPeers c !! k = Some p ∧ a = SendRequestVote (peer_mId p) req ∧
             rv_candidate_id req = core_id c ∧ rv_term req = core_term c.

Lemma appendEntries_round_quiet env c c' acts :
  appendEntries_round env c = Ret (c', acts) → quiet c c' ∧ Forall (sends_AE c) acts.
Proof.
  unfold appendEntries_round. intros Hh. split_if Hh; [by inv_ret|].
  apply (foldM_ind (λ x, quiet c x.1 ∧ Forall (sends_AE c) x.2)) in Hh; [done| |done].
  clear. intros [c1 a1] [k p] [c2 a2] [Hq Ha] Hin%elem_of_map_to_list Hs. simpl in *.
  split_if Hs; [by inv_ret|]. apply bind_Ret in Hs as (t & _ & Hs).
  apply bind_Ret in Hs as (es & _ & Hs). apply bind_Ret in Hs as (_ & _ & Hs). inv_ret.
  assert (Hp : is_Some (mPeers c1 !! k) ∧ peer_sig (peer_at c1 k) = peer_sig p).
  { destruct Hq as ([_ Hf] & _). apply (f_equal (lookup k)) in Hf.
    rewrite !lookup_fmap, Hin in Hf. unfold peer_at.
    destruct (mPeers c1 !! k); [|done]. split; [eauto|]. simpl in *. congruence. }
  destruct Hp as [Hk Hsig]. split.
  - eapply quiet_trans; [exact Hq|]. by apply update_peer_quiet.
  - apply Forall_app. split; [done|]. repeat constructor. repeat eexists. exact Hin.
Qed.

Lemma requestVote_quiet env c c' acts :
  requestVote env c = Ret (c', acts) →
  quiet c c' ∧ Forall (sends_RV c) acts ∧ (acts ≠ [] → mRaftRole c = Candidate).
Proof.
  unfold requestVote. intros Hh. split_if Hh; [by inv_ret|].
  apply negb_false_iff, bool_decide_eq_true in E.
  apply (foldM_ind (λ x, quiet c x.1 ∧ Forall (sends_RV c) x.2)) in Hh; [naive_solver| |done].
  clear. intros [c1 a1] [k p] [c2 a2] [Hq Ha] Hin%elem_of_map_to_list Hs. simpl in *.
  split_if Hs; [by inv_ret|]. apply bind_Ret in Hs as (t & _ & Hs).
  apply bind_Ret in Hs as (_ & _ & Hs). inv_ret.
  assert (Hp : is_Some (mPeers c1 !! k) ∧ peer_sig (peer_at c1 k) = peer_sig p).
  { destruct Hq as ([_ Hf] & _). apply (f_equal (lookup k)) in Hf.
    rewrite !lookup_fmap, Hin in Hf. unfold peer_at.
    destruct (mPeers c1 !! k); [|done]. split; [eauto|]. simpl in *. congruence. }
  destruct Hp as [Hk Hsig]. split.
  - eapply quiet_trans; [exact Hq|]. by apply update_peer_quiet.
  - apply Forall_app. split; [done|]. repeat constructor.
    exists k, p. eexists. split; [done|]. split; [done|]. simpl.
    destruct Hq as ([Hi _] & Ht & _). unfold core_id, core_term in *. by rewrite Hi, Ht.
Qed.
End effects.
