(* ===== verification/RaftCluster.v ===== *)
(** * A cluster of Raft nodes

    Nodes that run the handlers of RaftCore.v in any order, a network that may
    lose, delay, reorder and duplicate messages, and crashes after which a node
    restarts from its persistent log, term and vote.  The fixed order in which
    the main loop calls the handlers is one of the schedules.

    The history variables [cl_votes] and [cl_leaders] record every vote and
    every leadership; the code does not have them and no step reads them. *)
From S2P Require Import Prelude RaftLog RaftCore RaftHandlers.
Open Scope Z_scope.

(** Messages: source, destination, content. *)
Inductive Msg :=
  | MsgAEReq (src dst : Z) (req : AE_Request)
  | MsgAEResp (src dst : Z) (status : Status) (resp : AE_Response)
  | MsgRVReq (src dst : Z) (req : RV_Request)
  | MsgRVResp (src dst : Z) (status : Status) (resp : RV_Response).

(** The call tag of a request event is the node that sent the request. *)
Definition msgs_of (n : Z) (acts : list RaftAction) : list Msg :=
  omap (λ a, match a with
             | SendAppendEntries p req => Some (MsgAEReq n p req)
             | SendRequestVote p req => Some (MsgRVReq n p req)
             | ReplyAppendEntries tag s resp => Some (MsgAEResp n tag s resp)
             | ReplyRequestVote tag s resp => Some (MsgRVResp n tag s resp)
             | FillResultAndReply _ _ _ _ => None
             end) acts.

(** What a node can do next. *)
Inductive Input :=
  | RunAppendEntries | RunRequestVote | RunAdvanceCommitIndex | RunBecomeLeader
  | RunElectionTimeout | RunLeadershipTimeout
  | RunTruncatePrefix (firstIndexKept : Z)
  | RunEvent (event : RaftEvent).

Section cluster.
Context `{LogMeta L}.
Context (conf : RaftConf) (addresses : gmap Z string).
Implicit Types (c : RaftCore L).

Definition members : gset Z := dom addresses.

Definition run_input (env : RaftEnv) c (i : Input) : result (RaftCore L * list RaftAction) :=
  match i with
  | RunAppendEntries => appendEntries_round env c
  | RunRequestVote => requestVote env c
  | RunAdvanceCommitIndex => advanceCommitIndex c
  | RunBecomeLeader => c ← becomeLeader env c; Ret (c, [])
  | RunElectionTimeout => Ret (electionTimeout env c, [])
  | RunLeadershipTimeout => leadershipTimeout env c
  | RunTruncatePrefix k => c ← RaftCore_truncatePrefix c k; Ret (c, [])
  | RunEvent e => handle_event env c e
  end.

Record Cluster := mk_Cluster {
  cl_nodes : gmap Z (RaftCore L);
  cl_net : list Msg;
  cl_votes : list (Z * Z * Z);     (* term, voter, candidate *)
  cl_leaders : list (Z * Z) }.     (* term, leader *)

Definition vote_record (n : Z) c : list (Z * Z * Z) :=
  if core_vote c =? 0 then [] else [(core_term c, n, core_vote c)].
Definition leader_record (n : Z) c : list (Z * Z) :=
  if bool_decide (mRaftRole c = Leader) then [(core_term c, n)] else [].

(** Node [n] is now [c] and has produced [acts]. *)
Definition put (s : Cluster) (n : Z) c (acts : list RaftAction) : Cluster :=
  mk_Cluster (<[n := c]> (cl_nodes s)) (cl_net s ++ msgs_of n acts)
    (cl_votes s ++ vote_record n c) (cl_leaders s ++ leader_record n c).

(** Events come from messages on the network, from a failed RPC to another
    member, or from clients. *)
Definition enabled (s : Cluster) (n : Z) (i : Input) : Prop :=
  match i with
  | RunEvent (AppendEntriesRequestEvent tag req) => MsgAEReq tag n req ∈ cl_net s
  | RunEvent (RequestVoteRequestEvent tag req) => MsgRVReq tag n req ∈ cl_net s
  | RunEvent (AppendEntriesResponseEvent p st resp) =>
      MsgAEResp p n st resp ∈ cl_net s ∨ (st ≠ StatusOK ∧ p ∈ members ∧ p ≠ n)
  | RunEvent (RequestVoteResponseEvent p st resp) =>
      MsgRVResp p n st resp ∈ cl_net s ∨ (st ≠ StatusOK ∧ p ∈ members ∧ p ≠ n)
  | _ => True
  end.

(** What a crash may leave of term and vote: the last state, or a new term
    written without the vote that goes with it, the old vote being there still
    or reset already.  This is what the segmented log gives when a process is
    killed (SegmentTheorems.v, [term_and_vote_crash]); when the machine fails, it
    may forget both, and then a node may vote twice. *)
Definition crash_log (l l' : L) : Prop :=
  (getCurrentTerm l' = getCurrentTerm l ∧ getVote l' = getVote l) ∨
  (getCurrentTerm l < getCurrentTerm l' ∧ (getVote l' = getVote l ∨ getVote l' = 0)).

Inductive step : Cluster → Cluster → Prop :=
  | step_run s n c env i c' acts :
      cl_nodes s !! n = Some c → enabled s n i → run_input env c i = Ret (c', acts) →
      step s (put s n c' acts)
  | step_restart s n c log tp c' :
      cl_nodes s !! n = Some c → crash_log (core_mLog c) log →
      RaftCore_init conf addresses n Follower log tp = Ret c' →
      step s (put s n c' []).

(** A fresh cluster: every member has started and nobody has voted. *)
Definition initial_cluster (s : Cluster) : Prop :=
  dom (cl_nodes s) = members ∧ cl_net s = [] ∧ cl_votes s = [] ∧ cl_leaders s = [] ∧
  map_Forall (λ n c, ∃ log tp, RaftCore_init conf addresses n Follower log tp = Ret c ∧
                               getVote log = 0) (cl_nodes s).

Inductive reachable : Cluster → Prop :=
  | reachable_init s : initial_cluster s → reachable s
  | reachable_step s s' : reachable s → step s s' → reachable s'.

(** ** Summary of one handler *)
Record advances c c' (granted : Z → Prop) : Prop := {
  adv_self : core_id c' = core_id c;
  adv_ids : peer_mId <$> mPeers c' = peer_mId <$> mPeers c;
  adv_role : mRaftRole c ≠ Syncer → mRaftRole c' ≠ Syncer;
  adv_term : core_term c < core_term c' ∨
    core_term c' = core_term c ∧ (core_vote c = 0 ∨ core_vote c' = core_vote c);
  adv_candidate : mRaftRole c' = Candidate →
    (mRaftRole c = Candidate ∧ core_term c' = core_term c ∧
     ∀ k p', mPeers c' !! k = Some p' → mHaveVote p' = true →
       granted k ∨ ∃ p, mPeers c !! k = Some p ∧ mHaveVote p = true) ∨
    (core_vote c' = core_id c ∧ ∀ k p', mPeers c' !! k = Some p' → mHaveVote p' = false);
  adv_leader : mRaftRole c' = Leader →
    core_term c' = core_term c ∧
    (mRaftRole c = Leader ∨
     mRaftRole c = Candidate ∧
     getMajorityNumber (Z.of_nat (size (mPeers c)) + 1) ≤ vote_count c) }.

Lemma sig_ids c c' :
  peer_sig <$> mPeers c' = peer_sig <$> mPeers c → peer_mId <$> mPeers c' = peer_mId <$> mPeers c.
Proof.
  intros Hs. apply (f_equal (fmap fst)) in Hs. by rewrite <- !map_fmap_compose in Hs.
Qed.

Lemma sig_have c c' k p' :
  peer_sig <$> mPeers c' = peer_sig <$> mPeers c → mPeers c' !! k = Some p' →
  ∃ p, mPeers c !! k = Some p ∧ peer_sig p = peer_sig p'.
Proof.
  intros Hs Hk. apply (f_equal (lookup k)) in Hs. rewrite !lookup_fmap, Hk in Hs.
  destruct (mPeers c !! k); [|done]. simpl in Hs. injection Hs as Hs1 Hs2.
  eexists; split; [done|]. unfold peer_sig. congruence.
Qed.

Lemma quiet_advances c c' G : quiet c c' → advances c c' G.
Proof.
  intros ([Hi Hs] & Ht & Hv & Hr). split; unfold core_id in *; try congruence.
  - by apply sig_ids.
  - auto.
  - intros Hc. left. split_and!; [congruence|done|]. intros k p' Hk Hh. right.
    destruct (sig_have _ _ _ _ Hs Hk) as (p & Hp & [= _ Hsig]). exists p. split; congruence.
  - intros Hl. split; [done|]. left. congruence.
Qed.

Lemma outcome_advances c c' G : outcome c c' → advances c c' G.
Proof.
  intros [Hq|[([Hi Hs] & Ht & Hv & Hr & Hr')|([Hi Hs] & Ht & Hv & Hr')]].
  - by apply quiet_advances.
  - split; unfold core_id in *; try congruence; [by apply sig_ids|auto].
  - split; unfold core_id in *; try congruence; [by apply sig_ids|auto].
Qed.

Lemma quiet_advances_l c1 c2 c3 G : quiet c1 c2 → advances c2 c3 G → advances c1 c3 G.
Proof.
  intros ([Hi Hs] & Ht & Hv & Hr) [A1 A2 A3 A4 A5 A6]. split.
  - unfold core_id in *. congruence.
  - rewrite A2. by apply sig_ids.
  - rewrite <- Hr. done.
  - rewrite <- Ht, <- Hv. done.
  - intros Hc. destruct (A5 Hc) as [(B1 & B2 & B3)|[B1 B2]].
    + left. split_and!; try congruence. intros k p' Hk Hh.
      destruct (B3 k p' Hk Hh) as [?|(p & Hp & Hp')]; [by left|right].
      destruct (sig_have _ _ _ _ Hs Hp) as (q & Hq & [= _ Hsig]). exists q. split; congruence.
    + right. split; [|done]. unfold core_id in *. congruence.
  - intros Hl. destruct (A6 Hl) as (B1 & B2). split; [congruence|].
    destruct B2 as [?|[B2 B3]]; [left; congruence|right]. split; [congruence|].
    assert (Hsz : size (mPeers c2) = size (mPeers c1)).
    { rewrite <- (map_size_fmap peer_sig (mPeers c2)), Hs. apply map_size_fmap. }
    assert (Hvc : vote_count c2 = vote_count c1); [|congruence].
    unfold vote_count. do 2 f_equal.
    assert (Hcnt : ∀ m : gmap Z Peer,
      length (filter (λ kv : Z * Peer, mHaveVote kv.2 = true) (map_to_list m)) =
      length (filter (λ kv : Z * (Z * bool), kv.2.2 = true) (map_to_list (peer_sig <$> m)))).
    { intros m. rewrite map_to_list_fmap.
      induction (map_to_list m) as [|[k p] l IH]; [done|]. cbn [fmap list_fmap].
      rewrite !filter_cons. repeat case_decide; simpl in *; congruence. }
    rewrite !Hcnt, Hs. done.
Qed.

(** ** Nodes and messages of the cluster *)

(** The peers of node [n], with their ids. *)
Definition peer_ids (n : Z) : gmap Z Z := map_imap (λ k _, Some k) (delete n addresses).

Definition node_ok (n : Z) c : Prop :=
  n ∈ members ∧ n ≠ 0 ∧ core_id c = n ∧ peer_mId <$> mPeers c = peer_ids n ∧ mRaftRole c ≠ Syncer.

Definition between (src dst : Z) : Prop := src ∈ members ∧ dst ∈ members ∧ src ≠ dst ∧ src ≠ 0.

Definition msg_ok (votes : list (Z * Z * Z)) (m : Msg) : Prop :=
  match m with
  | MsgAEReq src dst _ => between src dst
  | MsgAEResp src dst _ resp => between src dst ∧ aer_id resp = src
  | MsgRVReq src dst req => between src dst ∧ rv_candidate_id req = src
  | MsgRVResp src dst _ resp =>
      between src dst ∧ rvr_id resp = src ∧
      (rvr_vote_granted resp = true → (rvr_saved_term resp, src, dst) ∈ votes)
  end.

Lemma msg_ok_mono votes votes' m : votes ⊆ votes' → msg_ok votes m → msg_ok votes' m.
Proof. destruct m; simpl; naive_solver. Qed.

Lemma peer_ids_Some n k x : peer_ids n !! k = Some x ↔ x = k ∧ k ∈ members ∧ k ≠ n.
Proof.
  unfold peer_ids, members. rewrite map_lookup_imap, elem_of_dom.
  destruct (decide (k = n)) as [->|Hne].
  - rewrite lookup_delete_eq. simpl. split; [done|naive_solver].
  - rewrite lookup_delete_ne by done. destruct (addresses !! k); simpl; split.
    + intros [= <-]. eauto.
    + intros (-> & _). done.
    + done.
    + intros (_ & [? ?] & _). done.
Qed.

Lemma node_peer n c k :
  node_ok n c → is_Some (mPeers c !! k) ↔ k ∈ members ∧ k ≠ n.
Proof.
  intros (_ & _ & _ & Hids & _). apply (f_equal (lookup k)) in Hids. rewrite lookup_fmap in Hids.
  split.
  - intros [p Hp]. rewrite Hp in Hids. symmetry in Hids. apply peer_ids_Some in Hids. tauto.
  - intros Hk. assert (Hx : peer_ids n !! k = Some k) by (apply peer_ids_Some; tauto).
    rewrite Hx in Hids. destruct (mPeers c !! k); [eauto|done].
Qed.

Lemma node_peer_id n c k p : node_ok n c → mPeers c !! k = Some p → peer_mId p = k ∧ k ∈ members ∧ k ≠ n.
Proof.
  intros Hn Hp. pose proof Hn as (_ & _ & _ & Hids & _).
  apply (f_equal (lookup k)) in Hids. rewrite lookup_fmap, Hp in Hids.
  symmetry in Hids. apply peer_ids_Some in Hids. done.
Qed.

Lemma local_msgs n acts : Forall local_action acts → msgs_of n acts = [].
Proof. intros Ha. induction Ha as [|[] l Hl _ IH]; simpl in *; try done. Qed.

Lemma msgs_of_app n a b : msgs_of n (a ++ b) = msgs_of n a ++ msgs_of n b.
Proof. apply omap_app. Qed.

Lemma turn_on_switch_quiet env c k :
  known_peer c k → quiet c (turn_on_switch env c k).
Proof. intros Hk. apply update_peer_quiet; done. Qed.

(** The three updates that precede the handler of a response. *)
Lemma response_prelude_quiet env c k :
  known_peer c k →
  quiet c (update_peer (turn_on_switch env c k) k
             (Peer_set_response_time (peer_at (turn_on_switch env c k) k) (env_now env))).
Proof.
  intros Hk. eapply quiet_trans; [by apply turn_on_switch_quiet|].
  apply update_peer_quiet; [|done]. eapply known_peer_frame; [by apply turn_on_switch_quiet|done].
Qed.

Lemma vote_request_advances env c req s resp c' acts G :
  handleRequestVoteRequest env c req = Ret (s, resp, c', acts) → advances c c' G.
Proof.
  intros (_ & _ & _ & [Hi Hs] & c1 & Ho & Hr & Ht & Hv)%handleRequestVoteRequest_outcome.
  assert (Hq : mRaftRole c1 ≠ Follower → quiet c c1).
  { destruct Ho as [?|[(_ & _ & _ & _ & ?)|(_ & _ & _ & ?)]]; [done|congruence..]. }
  assert (Hor : mRaftRole c ≠ Syncer → mRaftRole c1 ≠ Syncer) by apply (outcome_advances _ _ (λ _, False) Ho).
  split.
  - unfold core_id. congruence.
  - by apply sig_ids.
  - rewrite Hr. done.
  - destruct Ho as [(_ & ? & ? & _)|[(_ & ? & ? & _)|(_ & ? & _)]]; [right|right|left; lia];
      (split; [lia|]); destruct Hv as [[_ ?]|(_ & _ & ? & [?|?])]; first [left; congruence|right; congruence].
  - rewrite Hr. intros Hc. destruct Hq as ([_ Hs1] & Ht1 & _ & Hr1); [congruence|].
    left. split_and!; [congruence..|]. intros k p' Hk Hh. right.
    destruct (sig_have _ _ _ _ Hs Hk) as (p & Hp & [= _ Hsig]). exists p. split; congruence.
  - rewrite Hr. intros Hl. destruct Hq as ([_ Hs1] & Ht1 & _ & Hr1); [congruence|].
    split; [congruence|]. left. congruence.
Qed.

Lemma elem_of_vote_record n c t x :
  (t, n, x) ∈ vote_record n c ↔ t = core_term c ∧ x = core_vote c ∧ core_vote c ≠ 0.
Proof.
  unfold vote_record. destruct (Z.eqb_spec (core_vote c) 0).
  - split; [set_solver|tauto].
  - rewrite list_elem_of_singleton. split; [by intros [= -> ->]|]. by intros (-> & -> & _).
Qed.

(** What one step of a node has to do: advance the node, given the votes cast
    for it so far, and send messages that are in order. *)
Definition step_ok (votes : list (Z * Z * Z)) (n : Z) c c' (acts : list RaftAction) : Prop :=
  advances c c' (λ k, (core_term c, k, n) ∈ votes) ∧
  Forall (msg_ok (votes ++ vote_record n c')) (msgs_of n acts).

Lemma quiet_step_ok votes n c c' acts : quiet c c' → Forall local_action acts → step_ok votes n c c' acts.
Proof.
  intros Hq Ha. unfold step_ok. rewrite (local_msgs n acts Ha). split; [by apply quiet_advances|done].
Qed.

Lemma outcome_step_ok votes n c c' acts :
  outcome c c' → Forall local_action acts → step_ok votes n c c' acts.
Proof.
  intros Hq Ha. unfold step_ok. rewrite (local_msgs n acts Ha). split; [by apply outcome_advances|done].
Qed.

Lemma appendEntries_step_ok votes n c env c' acts :
  node_ok n c → appendEntries_round env c = Ret (c', acts) → step_ok votes n c c' acts.
Proof.
  intros Hn [Hq Ha]%appendEntries_round_quiet. split; [by apply quiet_advances|].
  apply Forall_forall. intros m Hm. apply list_elem_of_omap in Hm as (a & Hin & Hm).
  rewrite Forall_forall in Ha. destruct (Ha _ Hin) as (k & q & req & Hq' & ->). simplify_eq.
  destruct (node_peer_id _ _ _ _ Hn Hq') as (-> & ? & ?). destruct Hn as (? & ? & _). by split_and!.
Qed.

Lemma requestVote_step_ok votes n c env c' acts :
  node_ok n c → requestVote env c = Ret (c', acts) → step_ok votes n c c' acts.
Proof.
  intros Hn (Hq & Ha & _)%requestVote_quiet. split; [by apply quiet_advances|].
  apply Forall_forall. intros m Hm. apply list_elem_of_omap in Hm as (a & Hin & Hm).
  rewrite Forall_forall in Ha. destruct (Ha _ Hin) as (k & q & req & Hq' & -> & Hc & _). simplify_eq.
  destruct (node_peer_id _ _ _ _ Hn Hq') as (-> & ? & ?). destruct Hn as (? & ? & Hid & _).
  split; [by split_and!|]. simpl. congruence.
Qed.

Lemma becomeLeader_step_ok votes n c env c' :
  becomeLeader env c = Ret c' → step_ok votes n c c' [].
Proof.
  intros Hb. split; [|done].
  apply becomeLeader_outcome in Hb as [Hq|([Hi Hs] & Ht & Hv & Hrc & Hrl & Hm)]; [by apply quiet_advances|].
  split; unfold core_id in *; try congruence; [by apply sig_ids|auto|]. intros _. split; [done|]. right. done.
Qed.

Lemma electionTimeout_step_ok votes n c env : step_ok votes n c (electionTimeout env c) [].
Proof.
  split; [|done]. set (c' := electionTimeout env c).
  destruct (electionTimeout_outcome env c c' eq_refl) as [Hq|(Hi & Ht & Hv & Hrc & Hs)];
    [by apply quiet_advances|].
  split; unfold core_id in *; try congruence; [|auto|].
  - apply (f_equal (fmap fst)) in Hs. by rewrite <- !map_fmap_compose in Hs.
  - intros _. right. split; [done|]. intros k p' Hk. apply (f_equal (lookup k)) in Hs.
    rewrite !lookup_fmap, Hk in Hs. destruct (mPeers c !! k); [|done].
    simpl in Hs. by injection Hs as _ ->.
Qed.

Lemma AEReq_step_ok votes n c env tag req c' acts :
  node_ok n c → msg_ok votes (MsgAEReq tag n req) →
  handle_event env c (AppendEntriesRequestEvent tag req) = Ret (c', acts) → step_ok votes n c c' acts.
Proof.
  intros (? & ? & Hcid & _) (? & ? & ? & ?) Hr.
  apply bind_Ret in Hr as ([[[st resp] c1] a1] & Hh & [= <- <-]).
  apply handleAppendEntriesRequest_outcome in Hh as (Ho & Hl & Hid & _).
  split; [by apply outcome_advances|]. rewrite msgs_of_app, (local_msgs n a1 Hl). simpl.
  constructor; [|done]. split; [by split_and!|congruence].
Qed.

Lemma RVReq_step_ok votes n c env tag req c' acts :
  node_ok n c → msg_ok votes (MsgRVReq tag n req) →
  handle_event env c (RequestVoteRequestEvent tag req) = Ret (c', acts) → step_ok votes n c c' acts.
Proof.
  intros (? & ? & Hcid & _) ((? & ? & ? & ?) & Hc) Hr.
  apply bind_Ret in Hr as ([[[st resp] c1] a1] & Hh & [= <- <-]).
  split; [by eapply vote_request_advances|].
  apply handleRequestVoteRequest_outcome in Hh as (Hl & Hid & Hsv & _ & c2 & _ & _ & Ht & Hv).
  rewrite msgs_of_app, (local_msgs n a1 Hl). simpl.
  constructor; [|done]. split; [by split_and!|]. split; [congruence|]. intros Hg.
  destruct Hv as [[? _]|(_ & Ht2 & Hv & _)]; [congruence|].
  apply elem_of_app. right. apply elem_of_vote_record. rewrite Hsv, Hv, Hc. split_and!; congruence.
Qed.

Lemma AEResp_step_ok votes n c env p st resp c' acts :
  node_ok n c → p ∈ members → p ≠ n → (st = StatusOK → aer_id resp = p) →
  handle_event env c (AppendEntriesResponseEvent p st resp) = Ret (c', acts) →
  step_ok votes n c c' acts.
Proof.
  intros Hn Hpm Hpn Hid Hr. assert (Hk : known_peer c p) by (by apply (node_peer n)).
  simpl in Hr. case_bool_decide as Hst.
  - pose proof (response_prelude_quiet env c p Hk) as Hq.
    apply handleAppendEntriesResponse_outcome in Hr as [Ho Hl];
      [|rewrite Hid by done; by eapply known_peer_frame; [apply Hq|]].
    apply outcome_step_ok; [|done]. by eapply quiet_outcome.
  - injection Hr as <- <-. apply quiet_step_ok; [|done].
    eapply quiet_trans; [by apply turn_on_switch_quiet|]. apply update_peer_quiet; [|done].
    eapply known_peer_frame; [by apply turn_on_switch_quiet|done].
Qed.

(** The vote a response brings is one that was cast. *)
Lemma vote_response_advances env c resp c' acts (G : Z → Prop) :
  known_peer c (rvr_id resp) → handleRequestVoteResponse env c resp = Ret (c', acts) →
  (rvr_vote_granted resp = true → rvr_saved_term resp = core_term c → G (rvr_id resp)) →
  Forall local_action acts ∧ advances c c' G.
Proof.
  intros Hk Hr HG. apply handleRequestVoteResponse_outcome in Hr as [Hl Ho]; [|done]. split; [done|].
  destruct Ho as [Ho|(Hi & Ht & Hv & Hrr & Hsv & Hg & q & Hq & Hs)]; [by apply outcome_advances|].
  split; unfold core_id in *; try congruence.
  - apply (f_equal (fmap fst)) in Hs. rewrite fmap_insert, <- !map_fmap_compose in Hs. simpl in Hs.
    etransitivity; [exact Hs|]. apply insert_id. by rewrite lookup_fmap, Hq.
  - auto.
  - intros Hc. left. split_and!; [congruence|done|]. intros k p' Hkp Hh.
    destruct (decide (k = rvr_id resp)) as [->|Hne]; [left; auto|right].
    apply (f_equal (lookup k)) in Hs. rewrite lookup_insert_ne, !lookup_fmap, Hkp in Hs by done.
    destruct (mPeers c !! k) as [q'|]; [|done]. exists q'. split; [done|]. simpl in Hs.
    injection Hs as _ <-. done.
  - intros Hl'. split; [done|]. left. congruence.
Qed.

Lemma RVResp_step_ok votes n c env p st resp c' acts :
  node_ok n c → p ∈ members → p ≠ n →
  (st = StatusOK → rvr_id resp = p ∧
     (rvr_vote_granted resp = true → (rvr_saved_term resp, p, n) ∈ votes)) →
  handle_event env c (RequestVoteResponseEvent p st resp) = Ret (c', acts) →
  step_ok votes n c c' acts.
Proof.
  intros Hn Hpm Hpn Hid Hr. assert (Hk : known_peer c p) by (by apply (node_peer n)).
  simpl in Hr. case_bool_decide as Hst.
  - destruct (Hid Hst) as [Hri Hvg]. pose proof (response_prelude_quiet env c p Hk) as Hq.
    apply vote_response_advances with (G := λ k, (core_term c, k, n) ∈ votes) in Hr as [Hl Ha].
    + unfold step_ok. rewrite (local_msgs n acts Hl). split; [|done]. by eapply quiet_advances_l.
    + rewrite Hri. by eapply known_peer_frame; [apply Hq|].
    + intros Hg Hsv. rewrite (proj1 (proj2 Hq)) in Hsv. rewrite <- Hsv, Hri. auto.
  - injection Hr as <- <-. apply quiet_step_ok; [|done]. by apply turn_on_switch_quiet.
Qed.

Lemma run_input_step_ok s n c env i c' acts :
  node_ok n c → Forall (msg_ok (cl_votes s)) (cl_net s) → enabled s n i →
  run_input env c i = Ret (c', acts) → step_ok (cl_votes s) n c c' acts.
Proof.
  intros Hn Hnet Hen Hr. rewrite Forall_forall in Hnet.
  destruct i as [| | | | | |k|[tag req|p st resp|tag req|p st resp|reqs|req]]; simpl in Hr, Hen.
  - by eapply appendEntries_step_ok.
  - by eapply requestVote_step_ok.
  - apply advanceCommitIndex_quiet in Hr as [Hq Ha]. by apply quiet_step_ok.
  - apply bind_Ret in Hr as (c1 & Hb & [= <- <-]). by eapply becomeLeader_step_ok.
  - injection Hr as <- <-. apply electionTimeout_step_ok.
  - apply leadershipTimeout_outcome in Hr as [Ho Ha]. by apply outcome_step_ok.
  - apply bind_Ret in Hr as (c1 & Hb & [= <- <-]). apply quiet_step_ok; [|done].
    unfold RaftCore_truncatePrefix in Hb. apply cassert_bind in Hb as [_ [= <-]].
    split_and!; try done; unfold core_term, core_vote; simpl; by autorewrite with raft_log.
  - by eapply AEReq_step_ok; [|apply Hnet|].
  - destruct Hen as [Hm|(Hst & ? & ?)]; [|apply (AEResp_step_ok _ _ _ env p st resp); try done; by intros].
    destruct (Hnet _ Hm) as ((? & ? & ? & ?) & ?). apply (AEResp_step_ok _ _ _ env p st resp); try done; by intros.
  - by eapply RVReq_step_ok; [|apply Hnet|].
  - destruct Hen as [Hm|(Hst & ? & ?)]; [|apply (RVResp_step_ok _ _ _ env p st resp); try done; by intros].
    destruct (Hnet _ Hm) as ((? & ? & ? & ?) & ? & ?). apply (RVResp_step_ok _ _ _ env p st resp); try done; by intros.
  - destruct (handleClientRequests c reqs) as [c1 a1] eqn:Hh. injection Hr as <- <-.
    apply handleClientRequests_quiet in Hh as [Hq Hl]. by apply quiet_step_ok.
  - apply bind_Ret in Hr as (c1 & Hb & [= <- <-]).
    apply handleSyncRequest_not_syncer in Hb as ->; [by apply quiet_step_ok|apply Hn].
Qed.

(** ** The invariant *)
Record cluster_inv (s : Cluster) : Prop := {
  ci_dom : dom (cl_nodes s) = members;
  ci_node : map_Forall node_ok (cl_nodes s);
  ci_net : Forall (msg_ok (cl_votes s)) (cl_net s);
  ci_vote n c : cl_nodes s !! n = Some c → core_vote c ≠ 0 →
    (core_term c, n, core_vote c) ∈ cl_votes s;
  ci_votes t v x c : (t, v, x) ∈ cl_votes s → cl_nodes s !! v = Some c →
    t < core_term c ∨ t = core_term c ∧ core_vote c = x ∧ x ≠ 0;
  ci_unique t v x y : (t, v, x) ∈ cl_votes s → (t, v, y) ∈ cl_votes s → x = y;
  ci_candidate n c : cl_nodes s !! n = Some c → mRaftRole c = Candidate →
    core_vote c = n ∧
    ∀ k p, mPeers c !! k = Some p → mHaveVote p = true → (core_term c, k, n) ∈ cl_votes s;
  ci_leader n c : cl_nodes s !! n = Some c → mRaftRole c = Leader →
    (core_term c, n) ∈ cl_leaders s;
  ci_leaders t n : (t, n) ∈ cl_leaders s →
    ∃ Q : gset Z, Q ⊆ members ∧
      getMajorityNumber (Z.of_nat (size members)) ≤ Z.of_nat (size Q) ∧
      ∀ v, v ∈ Q → (t, v, n) ∈ cl_votes s }.

Lemma elem_of_vote_record_inv n c t v x :
  (t, v, x) ∈ vote_record n c → v = n ∧ t = core_term c ∧ x = core_vote c ∧ x ≠ 0.
Proof.
  unfold vote_record. destruct (Z.eqb_spec (core_vote c) 0); [set_solver|].
  intros [= -> -> ->]%list_elem_of_singleton. done.
Qed.

(** A node's vote in its new state agrees with every vote it has cast in that
    term. *)
Lemma recorded_vote_agrees s n c c' G x :
  cluster_inv s → cl_nodes s !! n = Some c → advances c c' G →
  (core_term c', n, x) ∈ cl_votes s → core_vote c' = x.
Proof.
  intros Hi Hn Ha Hx. destruct (ci_votes _ Hi _ _ _ _ Hx Hn) as [Hlt|(Heq & Hv & Hz)];
    destruct (adv_term _ _ _ Ha) as [?|[? [?|?]]]; try lia; congruence.
Qed.

Section put.
Context (s : Cluster) (n : Z) (c c' : RaftCore L) (acts : list RaftAction).
Context (Hi : cluster_inv s) (Hn : cl_nodes s !! n = Some c)
  (Ha : step_ok (cl_votes s) n c c' acts).

Lemma put_node_ok : node_ok n c'.
Proof.
  destruct Ha as [[A1 A2 A3 _ _ _] _]. destruct (ci_node _ Hi _ _ Hn) as (B1 & B2 & B3 & B4 & B5).
  split_and!; [done|done|congruence|congruence|auto].
Qed.

Lemma put_unique t v x y :
  (t, v, x) ∈ cl_votes (put s n c' acts) → (t, v, y) ∈ cl_votes (put s n c' acts) → x = y.
Proof.
  destruct Ha as [Hadv _]. simpl. rewrite !elem_of_app.
  intros [Hx|(-> & -> & -> & _)%elem_of_vote_record_inv] [Hy|Hy].
  - by eapply (ci_unique _ Hi).
  - apply elem_of_vote_record_inv in Hy as (-> & -> & -> & _).
    symmetry. by eapply recorded_vote_agrees.
  - by eapply recorded_vote_agrees.
  - by apply elem_of_vote_record_inv in Hy as (_ & _ & -> & _).
Qed.

Lemma put_votes t v x d :
  (t, v, x) ∈ cl_votes (put s n c' acts) → cl_nodes (put s n c' acts) !! v = Some d →
  t < core_term d ∨ t = core_term d ∧ core_vote d = x ∧ x ≠ 0.
Proof.
  destruct Ha as [Hadv _]. simpl. rewrite elem_of_app.
  intros [Hx|(-> & -> & -> & Hz)%elem_of_vote_record_inv] Hd.
  - apply lookup_insert_Some in Hd as [[<- <-]|[Hne Hd]]; [|by eapply (ci_votes _ Hi)].
    destruct (ci_votes _ Hi _ _ _ _ Hx Hn) as [?|(-> & ? & ?)];
      destruct (adv_term _ _ _ Hadv) as [?|[? Hvv]]; [left; lia|left; lia|left; lia|].
    right. split_and!; [lia| |done]. destruct Hvv; congruence.
  - rewrite lookup_insert_eq in Hd. injection Hd as <-. auto.
Qed.

Lemma put_candidate m d :
  cl_nodes (put s n c' acts) !! m = Some d → mRaftRole d = Candidate →
  core_vote d = m ∧ ∀ k p, mPeers d !! k = Some p → mHaveVote p = true →
    (core_term d, k, m) ∈ cl_votes (put s n c' acts).
Proof.
  destruct Ha as [Hadv _]. simpl. intros [[<- <-]|[Hne Hd]]%lookup_insert_Some Hr.
  - destruct (ci_node _ Hi _ _ Hn) as (_ & Hn0 & Hid & _).
    destruct (adv_candidate _ _ _ Hadv Hr) as [(Hrc & Ht & Hv)|[Hv Hf]].
    + destruct (ci_candidate _ Hi _ _ Hn Hrc) as [Hvn Hcv]. split.
      * destruct (adv_term _ _ _ Hadv) as [?|[_ [?|?]]]; [lia|congruence|congruence].
      * intros k p Hk Hh. apply elem_of_app. left. rewrite Ht.
        destruct (Hv k p Hk Hh) as [?|(q & Hq & Hqh)]; [done|by eapply Hcv].
    + split; [congruence|]. intros k p Hk Hh. rewrite (Hf _ _ Hk) in Hh. done.
  - destruct (ci_candidate _ Hi _ _ Hd Hr) as [Hv Hc]. split; [done|].
    intros k p Hk Hh. apply elem_of_app. left. by eapply Hc.
Qed.

(** The votes a candidate has counted, as a set of members. *)
Definition voters : gset Z :=
  {[n]} ∪ list_to_set (filter (λ kv : Z * Peer, mHaveVote kv.2 = true) (map_to_list (mPeers c))).*1.

Lemma elem_of_voters v :
  v ∈ voters ↔ v = n ∨ ∃ p, mPeers c !! v = Some p ∧ mHaveVote p = true.
Proof.
  unfold voters. rewrite elem_of_union, elem_of_singleton, elem_of_list_to_set, list_elem_of_fmap.
  split; (intros [?|Hv]; [by left|right]).
  - destruct Hv as ([k p] & -> & [Hh Hk]%list_elem_of_filter). apply elem_of_map_to_list in Hk. eauto.
  - destruct Hv as (p & Hp & Hh). exists (v, p). split; [done|]. apply list_elem_of_filter.
    split; [done|]. by apply elem_of_map_to_list.
Qed.

Lemma voters_size : Z.of_nat (size voters) = vote_count c.
Proof.
  unfold voters, vote_count. rewrite size_union.
  - rewrite size_singleton, size_list_to_set, length_fmap; [lia|].
    eapply sublist_NoDup; [apply (NoDup_fst_map_to_list (mPeers c))|].
    apply fmap_sublist, sublist_filter.
  - apply disjoint_singleton_l. rewrite elem_of_list_to_set, list_elem_of_fmap.
    intros ([k p] & -> & [_ Hk%elem_of_map_to_list]%list_elem_of_filter).
    destruct (node_peer_id _ _ _ _ (ci_node _ Hi _ _ Hn) Hk) as (_ & _ & Hne). done.
Qed.

Lemma peers_size : Z.of_nat (size (mPeers c)) + 1 = Z.of_nat (size members).
Proof.
  pose proof (ci_node _ Hi _ _ Hn) as Hok.
  assert (Hd : dom (mPeers c) = members ∖ {[n]}).
  { apply set_eq. intros k. rewrite elem_of_dom, (node_peer n c k Hok). set_solver. }
  assert (Hsz : size (mPeers c) = size (members ∖ {[n]})) by (rewrite <- Hd; symmetry; apply size_dom).
  rewrite Hsz. destruct Hok as (Hm & _).
  assert (Hu : size members = size ({[n]} ∪ members ∖ {[n]}))
    by (f_equal; by apply union_difference_singleton_L).
  rewrite size_union, size_singleton in Hu by set_solver. lia.
Qed.

Lemma put_leaders t m :
  (t, m) ∈ cl_leaders (put s n c' acts) →
  ∃ Q : gset Z, Q ⊆ members ∧
    getMajorityNumber (Z.of_nat (size members)) ≤ Z.of_nat (size Q) ∧
    ∀ v, v ∈ Q → (t, v, m) ∈ cl_votes (put s n c' acts).
Proof.
  destruct Ha as [Hadv _]. simpl. rewrite elem_of_app.
  assert (Hold : (t, m) ∈ cl_leaders s → ∃ Q : gset Z, Q ⊆ members ∧
    getMajorityNumber (Z.of_nat (size members)) ≤ Z.of_nat (size Q) ∧
    ∀ v, v ∈ Q → (t, v, m) ∈ cl_votes s ++ vote_record n c').
  { intros Hl. destruct (ci_leaders _ Hi _ _ Hl) as (Q & ? & ? & HQ). exists Q.
    split_and!; try done. intros v Hv. apply elem_of_app. left. auto. }
  intros [Hl|Hl]; [auto|]. unfold leader_record in Hl. case_bool_decide as Hr; [|set_solver].
  apply list_elem_of_singleton in Hl as [= -> ->].
  destruct (adv_leader _ _ _ Hadv Hr) as (Ht & [Hrl|(Hrc & Hmaj)]).
  { apply Hold. rewrite Ht. by eapply (ci_leader _ Hi). }
  rewrite peers_size in Hmaj. exists voters. rewrite voters_size. split_and!; [|done|].
  - intros v [->|(p & Hp & _)]%elem_of_voters; [apply (ci_node _ Hi _ _ Hn)|].
    by destruct (node_peer_id _ _ _ _ (ci_node _ Hi _ _ Hn) Hp) as (_ & ? & _).
  - destruct (ci_candidate _ Hi _ _ Hn Hrc) as [Hv Hc]. destruct (ci_node _ Hi _ _ Hn) as (_ & Hn0 & _).
    intros v [->|(p & Hp & Hh)]%elem_of_voters; apply elem_of_app; left; rewrite Ht; [|by eapply Hc].
    rewrite <- Hv at 2. apply (ci_vote _ Hi _ _ Hn). congruence.
Qed.

Lemma put_inv : cluster_inv (put s n c' acts).
Proof.
  pose proof put_node_ok as Hok. pose proof Ha as [_ Hmsgs]. split.
  - simpl. rewrite dom_insert_L, (ci_dom _ Hi). destruct Hok as (? & _). set_solver.
  - simpl. apply map_Forall_insert_2; [done|apply Hi].
  - simpl. apply Forall_app. split; [|done]. eapply Forall_impl; [apply Hi|].
    intros m. apply msg_ok_mono. set_solver.
  - simpl. intros m d [[<- <-]|[Hne Hd]]%lookup_insert_Some Hv; apply elem_of_app.
    + right. by apply elem_of_vote_record.
    + left. by eapply (ci_vote _ Hi).
  - apply put_votes.
  - apply put_unique.
  - apply put_candidate.
  - simpl. intros m d [[<- <-]|[Hne Hd]]%lookup_insert_Some Hl; apply elem_of_app.
    + right. unfold leader_record. rewrite bool_decide_eq_true_2 by done. set_solver.
    + left. by eapply (ci_leader _ Hi).
  - apply put_leaders.
Qed.
End put.

(** ** Reachable states *)

Lemma RaftCore_init_spec n role log tp c :
  RaftCore_init conf addresses n role log tp = Ret c →
  n ∈ members ∧ n ≠ 0 ∧ core_id c = n ∧ peer_mId <$> mPeers c = peer_ids n ∧
  mRaftRole c = role ∧ core_mLog c = log.
Proof.
  unfold RaftCore_init, initClusterConf. intros (conf' & _ & Hc)%bind_Ret.
  apply bind_Ret in Hc as ([self peers] & Hs & Hc). apply cassert_bind in Hs as [Hz Hs].
  destruct (addresses !! n) eqn:En; [|done]. inv_ret. simpl in *.
  apply negb_true_iff, Z.eqb_neq in Hz.
  split_and!; try done; [unfold members; apply elem_of_dom; eauto|].
  unfold peer_ids. apply map_eq. intros k. rewrite lookup_fmap, !map_lookup_imap.
  by destruct (delete n addresses !! k).
Qed.

Lemma step_inv s s' : cluster_inv s → step s s' → cluster_inv s'.
Proof.
  intros Hi Hstep. revert Hi.
  destruct Hstep as [s0 n c env i c' acts Hn Hen Hr|s0 n c log tp c' Hn Hcr Hc]; intros Hi.
  - eapply put_inv; [done|done|]. eapply run_input_step_ok; try done; apply Hi. done.
  - apply RaftCore_init_spec in Hc as (Hm & H0' & Hid & Hids & Hr & Hl).
    eapply put_inv; [done|done|]. split; [|done].
    destruct (ci_node _ Hi _ _ Hn) as (_ & _ & Bid & Bids & _).
    split; try congruence. unfold core_term, core_vote. rewrite Hl.
    destruct Hcr as [[Ht Hv]|[Ht _]]; [right|left]; auto.
Qed.

Lemma initial_cluster_inv s : initial_cluster s → cluster_inv s.
Proof.
  intros (Hd & Hnet & Hvotes & Hleaders & Hn).
  assert (Hc : ∀ n c, cl_nodes s !! n = Some c →
    node_ok n c ∧ core_vote c = 0 ∧ mRaftRole c = Follower).
  { intros n c Hc. destruct (Hn n c Hc) as (log & tp & Hi & Hv).
    apply RaftCore_init_spec in Hi as (? & ? & ? & ? & Hr & Hl).
    split_and!; try done; [by split_and!; try rewrite Hr|]. unfold core_vote. congruence. }
  split; rewrite ?Hnet, ?Hvotes, ?Hleaders; try done.
  - intros n c Hk. apply (Hc n c Hk).
  - intros n c Hk Hv. destruct (Hc n c Hk) as (_ & ? & _). congruence.
  - set_solver.
  - set_solver.
  - intros n c Hk Hv. destruct (Hc n c Hk) as (_ & _ & ?). congruence.
  - intros n c Hk Hv. destruct (Hc n c Hk) as (_ & _ & ?). congruence.
  - set_solver.
Qed.

Lemma reachable_inv s : reachable s → cluster_inv s.
Proof. induction 1; eauto using initial_cluster_inv, step_inv. Qed.

(** Two majorities of the members share a member. *)
Lemma majorities_meet (A B : gset Z) :
  A ⊆ members → B ⊆ members →
  getMajorityNumber (Z.of_nat (size members)) ≤ Z.of_nat (size A) →
  getMajorityNumber (Z.of_nat (size members)) ≤ Z.of_nat (size B) → ∃ v, v ∈ A ∧ v ∈ B.
Proof.
  intros HA HB. unfold getMajorityNumber. rewrite Z.shiftr_div_pow2 by lia. intros Sa Sb.
  destruct (decide (A ## B)) as [Hd|Hd].
  - exfalso. assert (size (A ∪ B) ≤ size members)%nat as Hs by (apply subseteq_size; set_solver).
    rewrite size_union in Hs by done. change (2 ^ 1) with 2 in *.
    Z.to_euclidean_division_equations. lia.
  - assert (Hne : A ∩ B ≠ ∅) by set_solver. apply set_choose_L in Hne as [v Hv]. set_solver.
Qed.

Lemma one_leader_per_term s t n1 n2 :
  cluster_inv s → (t, n1) ∈ cl_leaders s → (t, n2) ∈ cl_leaders s → n1 = n2.
Proof.
  intros Hi H1 H2. destruct (ci_leaders _ Hi _ _ H1) as (Q1 & S1 & M1 & V1).
  destruct (ci_leaders _ Hi _ _ H2) as (Q2 & S2 & M2 & V2).
  destruct (majorities_meet Q1 Q2) as (v & Hv1 & Hv2); try done.
  eapply (ci_unique _ Hi); eauto.
Qed.
End cluster.
