(* ===== verification/RaftReplication.v ===== *)
(** * Replication: what AE_req does to a log, and the commit rule

    Over any log that satisfies [LogSpec]: a successful AE_req leaves the
    receiver's log in agreement with every entry of the request, drops a suffix
    only behind a conflict, and never touches a committed entry; the leader's
    commit index is stored on a majority. *)
From S2P Require Import Prelude RaftLog RaftCore.
Open Scope Z_scope.

(** ** Views *)
Lemma lv_lookup_app_l v es i :
  lv_first v ≤ i ≤ lv_last v →
  lv_lookup (lv_with_entries v (lv_entries v ++ es)) i = lv_lookup v i.
Proof.
  intros Hi. unfold lv_lookup, lv_last in *; simpl. destruct (_ <? _); [done|].
  rewrite lookup_app_l; [done|]. lia.
Qed.

Lemma lv_lookup_app_r v es e :
  contiguous (lv_last v + 1) es → e ∈ es →
  lv_lookup (lv_with_entries v (lv_entries v ++ es)) (le_index e) = Some e.
Proof.
  intros Hc He. apply list_elem_of_lookup in He as [k Hk].
  assert (Hidx : ∀ es i k e, contiguous i es → es !! k = Some e → le_index e = i + Z.of_nat k).
  { clear. induction es as [|a es IH]; intros i k e Hc Hk; [done|]. destruct Hc as [Ha Hc].
    destruct k as [|k]; simpl in Hk; [injection Hk as <-; lia|]. rewrite (IH _ _ _ Hc Hk). lia. }
  rewrite (Hidx _ _ _ _ Hc Hk). unfold lv_lookup, lv_last; simpl.
  destruct (Z.ltb_spec (lv_first v + Z.of_nat (length (lv_entries v)) - 1 + 1 + Z.of_nat k) (lv_first v));
    [lia|].
  rewrite lookup_app_r by lia. rewrite <- Hk. f_equal. lia.
Qed.

Lemma lv_truncateSuffix_spec v i :
  view_wf v → lv_first v - 1 ≤ i ≤ lv_last v →
  lv_first (lv_truncateSuffix v i) = lv_first v ∧ lv_last (lv_truncateSuffix v i) = i ∧
  ∀ j, j ≤ i → lv_lookup (lv_truncateSuffix v i) j = lv_lookup v j.
Proof.
  intros Hwf Hi. unfold lv_truncateSuffix.
  destruct (Z.leb_spec (lv_last v) i); [split_and!; [done|lia|done]|].
  destruct (Z.ltb_spec i (lv_first v)).
  - unfold lv_last; simpl. split_and!; [lia|lia|]. intros j Hj. unfold lv_lookup; simpl.
    rewrite (proj2 (Z.ltb_lt _ _)), (proj2 (Z.ltb_lt _ _)) by lia. done.
  - unfold lv_last in *; simpl. rewrite length_take. split_and!; [done|lia|].
    intros j Hj. unfold lv_lookup; simpl. destruct (Z.ltb_spec j (lv_first v)); [done|].
    rewrite lookup_take_lt; [done|]. lia.
Qed.

Lemma contiguous_snoc i es e :
  contiguous i (es ++ [e]) ↔ contiguous i es ∧ le_index e = i + Z.of_nat (length es).
Proof.
  revert i; induction es as [|a es IH]; intros i; simpl.
  - rewrite Z.add_0_r. tauto.
  - rewrite IH. split; intros; destruct_and!; split_and!; try done; lia.
Qed.

Section replication.
Context `{LogSpec L}.
Implicit Types (c : RaftCore L) (l : L).

Lemma view_last_first l : log_inv l → lv_first (log_view l) - 1 ≤ lv_last (log_view l).
Proof. intros _. unfold lv_last. lia. Qed.

(** The loop over the entries of an AE_req: [l0] is the log it starts from,
    [seen] the entries already seen, [l], [idx] and [acc] its variables. *)
Record receiving (l0 : L) (commit : Z) (seen : list LogEntry) (l : L) (idx : Z)
    (acc : list LogEntry) : Prop := {
  rc_inv : log_inv l;
  rc_first : lv_first (log_view l) = lv_first (log_view l0);
  rc_last : lv_last (log_view l) ≤ lv_last (log_view l0);
  rc_acc : contiguous (lv_last (log_view l) + 1) acc;
  rc_idx : (acc = [] ∧ idx ≤ lv_last (log_view l)) ∨
           idx = lv_last (log_view l) + Z.of_nat (length acc);
  rc_prefix j : j ≤ lv_last (log_view l) → lv_lookup (log_view l) j = lv_lookup (log_view l0) j;
  rc_commit : lv_last (log_view l) < lv_last (log_view l0) → commit ≤ lv_last (log_view l);
  rc_below e : e ∈ seen → le_index e ≤ idx;
  rc_seen e : e ∈ seen → lv_first (log_view l0) ≤ le_index e →
    e ∈ acc ∨ le_index e ≤ lv_last (log_view l) ∧
              le_term <$> lv_lookup (log_view l) (le_index e) = Some (le_term e) }.

Section one_entry.
Context (l0 : L) (commit : Z) (seen : list LogEntry) (l : L) (idx : Z) (acc : list LogEntry)
  (e : LogEntry).
Context (R : receiving l0 commit seen l idx acc) (He : le_index e = idx + 1).

Lemma seen_snoc_below x : x ∈ seen ++ [e] → le_index x ≤ idx + 1.
Proof.
  intros [Hx| ->%list_elem_of_singleton]%elem_of_app; [|lia]. pose proof (rc_below _ _ _ _ _ _ R x Hx). lia.
Qed.

(** The entry is beyond the log. *)
Lemma receive_push :
  lv_last (log_view l) < le_index e → receiving l0 commit (seen ++ [e]) l (idx + 1) (acc ++ [e]).
Proof.
  destruct R as [R1 R2 R3 R4 R5 R6 R7 R8 R9]. intros Hgt.
  assert (Hlen : idx = lv_last (log_view l) + Z.of_nat (length acc)).
  { destruct R5 as [[-> ?]|?]; simpl; lia. }
  split; try done.
  - apply contiguous_snoc. split; [done|lia].
  - right. rewrite length_app. simpl. lia.
  - apply seen_snoc_below.
  - intros x [Hx| ->%list_elem_of_singleton]%elem_of_app Hf; [|left; set_solver].
    destruct (R9 x Hx Hf); [left; set_solver|by right].
Qed.

(** The entry is discarded, or already there. *)
Lemma receive_skip :
  le_index e ≤ lv_last (log_view l) →
  (lv_first (log_view l0) ≤ le_index e →
   le_term <$> lv_lookup (log_view l) (le_index e) = Some (le_term e)) →
  receiving l0 commit (seen ++ [e]) l (idx + 1) acc ∧ acc = [].
Proof.
  destruct R as [R1 R2 R3 R4 R5 R6 R7 R8 R9]. intros Hle Hm.
  assert (Hacc : acc = []).
  { destruct R5 as [[? _]|?]; [done|]. destruct acc; [done|simpl in *; lia]. }
  split; [|done]. split; try done.
  - left. split; [done|lia].
  - apply seen_snoc_below.
  - intros x [Hx| ->%list_elem_of_singleton]%elem_of_app Hf; [auto|]. right. auto.
Qed.

(** The entry conflicts: the log is cut before it. *)
Lemma receive_conflict :
  lv_first (log_view l) ≤ le_index e ≤ lv_last (log_view l) → commit < le_index e →
  receiving l0 commit (seen ++ [e]) (truncateSuffix l (le_index e - 1)) (idx + 1) [e].
Proof.
  destruct R as [R1 R2 R3 R4 R5 R6 R7 R8 R9]. intros Hin Hc.
  assert (Hpos : 0 ≤ le_index e - 1) by (destruct (log_view_wf l R1); lia).
  destruct (spec_truncateSuffix l (le_index e - 1) R1 Hpos) as [T1 T2].
  destruct (lv_truncateSuffix_spec (log_view l) (le_index e - 1)) as (F1 & F2 & F3);
    [by apply log_view_wf|lia|]. rewrite <- T2 in F1, F2, F3.
  split; try done.
  - congruence.
  - lia.
  - simpl. rewrite F2. split; [lia|done].
  - right. simpl. lia.
  - intros j Hj. rewrite F3 by lia. apply R6. lia.
  - intros _. lia.
  - apply seen_snoc_below.
  - intros x [Hx| ->%list_elem_of_singleton]%elem_of_app Hf; [|left; set_solver].
    pose proof (R8 x Hx) as Hb. destruct (R9 x Hx Hf) as [Ha|[Hx1 Hx2]].
    + destruct R5 as [[-> _]|?]; [set_solver|]. destruct acc; [set_solver|simpl in *; lia].
    + right. rewrite F2, F3 by lia. split; [lia|done].
Qed.

Lemma receive_entry_receiving l' idx' acc' :
  receive_entry (l, idx, acc) e commit = Ret (l', idx', acc') →
  receiving l0 commit (seen ++ [e]) l' idx' acc'.
Proof.
  intros Hr. unfold receive_entry in Hr. apply cassert_bind in Hr as [_ Hr].
  pose proof (rc_inv _ _ _ _ _ _ R) as R1. pose proof (rc_first _ _ _ _ _ _ R) as R2.
  rewrite (spec_first l R1), (spec_last l R1) in Hr. pose proof (view_last_first l R1).
  split_if Hr.
  { injection Hr as <- <- <-. apply Z.ltb_lt in E. apply receive_skip; [lia|]. intros. lia. }
  apply Z.ltb_ge in E. split_if Hr; [|injection Hr as <- <- <-; apply Z.leb_gt in E0; by apply receive_push].
  apply Z.leb_le in E0. apply bind_Ret in Hr as (t & Ht & Hr).
  unfold Log_getLogTerm in Ht. rewrite (spec_getTerm_in l _ R1) in Ht by done.
  destruct (lv_lookup (log_view l) (le_index e)) as [e0|] eqn:Elk; [|done].
  simpl in Ht. injection Ht as <-. split_if Hr.
  - injection Hr as <- <- <-. apply Z.eqb_eq in E1. apply receive_skip; [done|]. intros _.
    rewrite Elk. simpl. congruence.
  - apply cassert_bind in Hr as [Hc%Z.ltb_lt Hr]. injection Hr as <- <- <-.
    assert (Hacc : acc ++ [e] = [e]).
    { destruct (rc_idx _ _ _ _ _ _ R) as [[-> _]|?]; [done|]. destruct acc; [done|simpl in *; lia]. }
    rewrite Hacc. by apply receive_conflict.
Qed.
End one_entry.

Lemma receive_entries_receiving l0 prev commit es l idx acc :
  log_inv l0 → prev ≤ lv_last (log_view l0) →
  receive_entries l0 prev commit es = Ret (l, idx, acc) →
  receiving l0 commit es l idx acc.
Proof.
  intros Hi Hp. unfold receive_entries.
  assert (Hgen : ∀ es seen l1 i1 a1, receiving l0 commit seen l1 i1 a1 →
    foldM (λ acc entry, receive_entry acc entry commit) (l1, i1, a1) es = Ret (l, idx, acc) →
    receiving l0 commit (seen ++ es) l idx acc).
  { clear es. induction es as [|e es IH]; intros seen l1 i1 a1 R; cbn [foldM].
    - intros [= <- <- <-]. by rewrite app_nil_r.
    - intros ([[l2 i2] a2] & H1 & H2)%bind_Ret.
      rewrite (cons_middle e seen es), app_assoc. eapply IH; [|exact H2].
      assert (He : le_index e = i1 + 1).
      { unfold receive_entry in H1. by apply cassert_bind in H1 as [?%Z.eqb_eq _]. }
      by eapply receive_entry_receiving. }
  apply (Hgen es []). split; try done; [by left|lia|..]; intros x Hx; by apply not_elem_of_nil in Hx.
Qed.

(** What a successful append leaves: the receiver's log agrees with every
    entry of the request that it has not discarded, and what was committed
    is still there. *)
Lemma accept_entries l0 prev commit es l idx acc l' :
  log_inv l0 → prev ≤ lv_last (log_view l0) → commit ≤ lv_last (log_view l0) →
  receive_entries l0 prev commit es = Ret (l, idx, acc) → Log_appendAll l acc = Ret l' →
  log_inv l' ∧
  lv_first (log_view l') = lv_first (log_view l0) ∧
  (∀ j, lv_first (log_view l0) ≤ j ≤ commit → lv_lookup (log_view l') j = lv_lookup (log_view l0) j) ∧
  (∀ e, e ∈ es → lv_first (log_view l0) ≤ le_index e →
     le_term <$> lv_lookup (log_view l') (le_index e) = Some (le_term e)).
Proof.
  intros Hi Hp Hcm Hr Ha. pose proof (receive_entries_receiving _ _ _ _ _ _ _ Hi Hp Hr) as R.
  destruct R as [R1 R2 R3 R4 R5 R6 R7 R8 R9].
  destruct (spec_appendEntries l acc R1 R4) as (l2 & Happ & Hi2 & Hv2).
  unfold Log_appendAll in Ha. rewrite Happ in Ha. simpl in Ha. injection Ha as <-.
  split_and!; [done|by rewrite Hv2| |]; rewrite Hv2.
  - intros j Hj. assert (j ≤ lv_last (log_view l)).
    { destruct (decide (lv_last (log_view l) < lv_last (log_view l0))) as [Hlt|]; [specialize (R7 Hlt)|]; lia. }
    rewrite lv_lookup_app_l by lia. by apply R6.
  - intros e He Hf. destruct (R9 e He Hf) as [Hacc|[Hle Hm]].
    + by rewrite lv_lookup_app_r.
    + rewrite lv_lookup_app_l by lia. done.
Qed.

(** *** The whole handler *)

(** Changing term and vote leaves the entries. *)
Definition same_entries l l' : Prop :=
  log_inv l' ∧ lv_first (log_view l') = lv_first (log_view l) ∧
  lv_entries (log_view l') = lv_entries (log_view l).

Lemma same_entries_last l l' : same_entries l l' → lv_last (log_view l') = lv_last (log_view l).
Proof. intros (_ & Hf & He). unfold lv_last. by rewrite Hf, He. Qed.

Lemma same_entries_lookup l l' i : same_entries l l' → lv_lookup (log_view l') i = lv_lookup (log_view l) i.
Proof. intros (_ & Hf & He). unfold lv_lookup. by rewrite Hf, He. Qed.

Lemma stepDown_entries env t c c' acts :
  log_inv (core_mLog c) → stepDown env t c = Ret (c', acts) →
  same_entries (core_mLog c) (core_mLog c') ∧ mCommitIndex c' = mCommitIndex c.
Proof.
  intros Hi. unfold stepDown. intros Hs. apply cassert_bind in Hs as [_ Hs].
  apply bind_Ret in Hs as (c1 & Hc1 & Hs).
  assert (H1 : same_entries (core_mLog c) (core_mLog c1) ∧ mCommitIndex c1 = mCommitIndex c).
  { split_if Hc1.
    - inv_ret. simpl. destruct (spec_setCurrentTerm (core_mLog c) t Hi) as [Hi1 Hv1].
      destruct (spec_setVoteFor _ 0 Hi1) as [Hi2 Hv2]. split; [|done]. split_and!; [done|..];
        rewrite Hv2, Hv1; done.
    - apply cassert_bind in Hc1 as [_ [= <-]]. done. }
  split_if Hs; inv_ret; done.
Qed.

Lemma handleAppendEntriesRequest_accepts env c req s resp c' acts :
  log_inv (core_mLog c) → mCommitIndex c ≤ lv_last (log_view (core_mLog c)) →
  handleAppendEntriesRequest env c req = Ret (s, resp, c', acts) → aer_success resp = true →
  let v := log_view (core_mLog c) in let v' := log_view (core_mLog c') in
  log_inv (core_mLog c') ∧ lv_first v' = lv_first v ∧
  (∀ j, lv_first v ≤ j ≤ mCommitIndex c → lv_lookup v' j = lv_lookup v j) ∧
  (∀ e, e ∈ ae_entries req → lv_first v ≤ le_index e →
     le_term <$> lv_lookup v' (le_index e) = Some (le_term e)) ∧
  mCommitIndex c' = Z.max (mCommitIndex c) (ae_commit_index req) ∧
  aer_match_index resp = ae_prev_log_index req + Z.of_nat (length (ae_entries req)).
Proof.
  intros Hi Hcm Hh Hok. unfold handleAppendEntriesRequest in Hh.
  split_if Hh; [by inv_ret|]. split_if Hh; [by inv_ret|].
  apply bind_Ret in Hh as ([c1 acts1] & Hstep & Hh). apply bind_Ret in Hh as (c2 & Hlead & Hh).
  apply bind_Ret in Hh as (logOk & Hlog & Hh).
  assert (H1 : same_entries (core_mLog c) (core_mLog c1) ∧ mCommitIndex c1 = mCommitIndex c).
  { split_if Hstep; [by eapply stepDown_entries|]. by inv_ret. }
  assert (H2 : core_mLog c2 = core_mLog c1 ∧ mCommitIndex c2 = mCommitIndex c1).
  { split_if Hlead; inv_ret; done. }
  destruct H1 as [Hse Hc1], H2 as [Hl2 Hc2]. rewrite Hl2 in *.
  pose proof Hse as (Hi1 & Hf1 & He1). pose proof (same_entries_last _ _ Hse) as Hlast1.
  destruct logOk; simpl in Hh; [|by inv_ret].
  assert (Hprev : ae_prev_log_index req ≤ lv_last (log_view (core_mLog c1))).
  { rewrite (spec_first _ Hi1), (spec_last _ Hi1) in Hlog. pose proof (view_last_first _ Hi1).
    destruct (Z.ltb_spec (ae_prev_log_index req) (lv_first (log_view (core_mLog c1)))); [lia|].
    destruct (Z.leb_spec (ae_prev_log_index req) (lv_last (log_view (core_mLog c1)))); [done|by inv_ret]. }
  apply bind_Ret in Hh as ([[log1 k] es] & Hre & Hh). apply bind_Ret in Hh as (log2 & Hap & Hh).
  apply bind_Ret in Hh as (c3 & Hco & Hh). inv_ret. simpl in *.
  assert (Hcm1 : mCommitIndex c2 ≤ lv_last (log_view (core_mLog c1))) by lia.
  destruct (accept_entries _ _ _ _ _ _ _ _ Hi1 Hprev Hcm1 Hre Hap) as (Hi2 & Hf2 & Hpre & Hag).
  assert (H3 : core_mLog c3 = log2 ∧ mCommitIndex c3 = Z.max (mCommitIndex c) (ae_commit_index req)).
  { destruct (Z.ltb_spec (mCommitIndex c2) (ae_commit_index req)); inv_ret; simpl; (split; [done|]); lia. }
  subst v v'. destruct H3 as [-> ->]. split_and!; [done|congruence| | |done|done].
  - intros j Hj. rewrite Hpre by lia. by apply same_entries_lookup.
  - intros e Hin Hfe. apply Hag; [done|lia].
Qed.

(** *** The commit rule *)

Lemma filter_map_length {A} (f : A → Z) m (xs : list A) :
  length (filter (λ x, m ≤ x) (map f xs)) = length (filter (λ a, m ≤ f a) xs).
Proof.
  induction xs as [|x xs IH]; [done|]. simpl map. rewrite !filter_cons.
  destruct (decide (m ≤ f x)); simpl; by rewrite IH.
Qed.

(** At least half plus one of the values are not below their majority value. *)
Lemma majority_value_count xs m :
  majority_value xs = Some m →
  getMajorityNumber (Z.of_nat (length xs)) ≤ Z.of_nat (length (filter (λ x, m ≤ x) xs)).
Proof.
  unfold majority_value. intros Hm.
  assert (Hp : merge_sort descending xs ≡ₚ xs) by apply merge_sort_Permutation.
  assert (Hs : StronglySorted descending (merge_sort descending xs)).
  { apply StronglySorted_merge_sort; apply _. }
  remember (merge_sort descending xs) as ys eqn:Eys. clear Eys.
  assert (Hc : (S (Nat.div2 (length xs)) ≤ length (filter (λ x : Z, (m ≤ x)%Z) xs))%nat).
  { rewrite <- Hp in *. apply list_elem_of_split_length in Hm as (l1 & l2 & -> & Hl).
    rewrite filter_app, filter_cons_True by done.
    assert (Hall : filter (λ x, m ≤ x) l1 = l1).
    { apply filter_keeps_all. intros x Hx.
      apply (StronglySorted_app_1_elem_of descending l1 (m :: l2)); [done|done|left]. }
    rewrite Hall, Hl, length_app. simpl. lia. }
  unfold getMajorityNumber. rewrite Z.shiftr_div_pow2 by lia. change (2 ^ 1) with 2.
  pose proof (Nat.div2_odd (length xs)). destruct (Nat.odd (length xs)); simpl in *;
    Z.to_euclidean_division_equations; lia.
Qed.

(** When the leader moves its commit index, it only moves it forward, to an
    entry of its own term, and a majority of the cluster reports to hold it. *)
Lemma advanceCommitIndex_majority c c' acts :
  advanceCommitIndex c = Ret (c', acts) → mCommitIndex c' ≠ mCommitIndex c →
  mRaftRole c = Leader ∧ mCommitIndex c < mCommitIndex c' ≤ getLastLogIndex (core_mLog c) ∧
  getTerm (core_mLog c) (mCommitIndex c') = Some (getCurrentTerm (core_mLog c)) ∧
  getMajorityNumber (Z.of_nat (size (mPeers c)) + 1) ≤
    1 + Z.of_nat (length (filter (λ kv, mCommitIndex c' ≤ mMatchIndex (snd kv)) (map_to_list (mPeers c)))).
Proof.
  unfold advanceCommitIndex. intros Hh Hne. split_if Hh; [by inv_ret|].
  apply negb_false_iff, bool_decide_eq_true in E.
  destruct (majority_value _) as [m|] eqn:Em; [|done].
  split_if Hh; [by inv_ret|]. apply Z.leb_gt in E0.
  apply bind_Ret in Hh as (t & Ht & Hh). split_if Hh; [by inv_ret|].
  apply negb_false_iff, Z.eqb_eq in E1.
  apply cassert_bind in Hh as [Hle Hh]. apply Z.leb_le in Hle. simpl in *.
  destruct (pop_committed _ _) as [done kept]. injection Hh as <- <-. simpl in *.
  unfold termOfLogEntryAt in Ht. destruct (getTerm _ m) eqn:Eg; [|done]. inv_ret.
  apply majority_value_count in Em. simpl in Em. rewrite length_map, length_map_to_list in Em.
  split_and!; try done. rewrite filter_cons_True in Em by lia. simpl in Em.
  rewrite filter_map_length, Nat2Z.inj_succ in Em. unfold Z.succ in Em. lia.
Qed.

(** *** Client requests *)

Lemma admit_requests_spec t last pending es reqs last' pending' es' :
  foldl (admit_request t) (last, pending, es) reqs = (last', pending', es') →
  ∃ new, es' = es ++ (cr_mEntry <$> new) ∧
    pending' = pending ++ map (λ r, (le_index (cr_mEntry r), cr_mRequestHandle r)) new ∧
    new `sublist_of` reqs ∧ contiguous (last + 1) (cr_mEntry <$> new) ∧
    Forall (λ r, le_term (cr_mEntry r) = t) new.
Proof.
  revert last pending es. induction reqs as [|r reqs IH]; intros last pending es Hf.
  - simpl in Hf. injection Hf as <- <- <-. exists []. rewrite !app_nil_r. done.
  - simpl in Hf. destruct ((le_term (cr_mEntry r) =? t) && (le_index (cr_mEntry r) =? last + 1)) eqn:E.
    + apply andb_true_iff in E as [Et%Z.eqb_eq Ei%Z.eqb_eq].
      apply IH in Hf as (new & -> & -> & Hs & Hc & Ht). exists (r :: new).
      rewrite <- !app_assoc. simpl. split_and!; try done; [by constructor|by constructor].
    + apply IH in Hf as (new & -> & -> & Hs & Hc & Ht). exists new. split_and!; try done. by constructor.
Qed.

(** A leader appends a subsequence of the requests: entries of its own term
    that continue its log; every appended entry has its pending reply. *)
Lemma handleClientRequests_leader c reqs c' acts :
  log_inv (core_mLog c) → mRaftRole c = Leader → handleClientRequests c reqs = (c', acts) →
  ∃ new, new `sublist_of` reqs ∧ Forall (λ r, le_term (cr_mEntry r) = getCurrentTerm (core_mLog c)) new ∧
    log_inv (core_mLog c') ∧
    log_view (core_mLog c') = lv_with_entries (log_view (core_mLog c))
      (lv_entries (log_view (core_mLog c)) ++ (cr_mEntry <$> new)) ∧
    mPendingClientRequests c' = mPendingClientRequests c ++
      map (λ r, (le_index (cr_mEntry r), cr_mRequestHandle r)) new ∧ acts = [].
Proof.
  intros Hi Hr. unfold handleClientRequests. rewrite bool_decide_eq_true_2 by done. simpl.
  destruct (foldl _ _ _) as [[last pending] es] eqn:Ef. apply admit_requests_spec in Ef
    as (new & Hes & -> & Hs & Hc & Ht). simpl in Hes. subst es. rewrite (spec_last _ Hi) in Hc.
  destruct (spec_appendEntries _ _ Hi Hc) as (l' & -> & Hi' & Hv'). intros [= <- <-].
  exists new. by split_and!.
Qed.

(** Pending replies are in the order of their indices. *)
Definition pending_sorted (pending : list (Z * option Z)) : Prop := StronglySorted Z.lt pending.*1.

Lemma pop_committed_spec k pending :
  pending_sorted pending →
  pop_committed k pending = (filter (λ p, p.1 ≤ k) pending, filter (λ p, k < p.1) pending).
Proof.
  unfold pending_sorted. induction pending as [|[i h] rest IH]; intros Hs; [done|].
  simpl in Hs. apply StronglySorted_inv in Hs as [Hs Hall]. simpl.
  destruct (Z.ltb_spec k i) as [Hlt|Hge]; rewrite !filter_cons; simpl.
  - rewrite decide_False by lia. rewrite decide_True by lia.
    rewrite Forall_fmap in Hall. f_equal.
    + symmetry. apply filter_drops_all. eapply Forall_impl; [done|]. simpl. lia.
    + f_equal. symmetry. apply filter_keeps_all. intros x Hx. rewrite Forall_forall in Hall.
      specialize (Hall x Hx). simpl in Hall. lia.
  - rewrite decide_True by lia. rewrite decide_False by lia. by rewrite IH.
Qed.

(** When the commit index moves, exactly the requests it has reached are
    answered. *)
Lemma advanceCommitIndex_replies c c' acts :
  pending_sorted (mPendingClientRequests c) →
  advanceCommitIndex c = Ret (c', acts) → mCommitIndex c' ≠ mCommitIndex c →
  mPendingClientRequests c' = filter (λ p, mCommitIndex c' < p.1) (mPendingClientRequests c) ∧
  acts = pending_replies (filter (λ p, p.1 ≤ mCommitIndex c') (mPendingClientRequests c))
           200 "Success" (mLeaderId c).
Proof.
  unfold advanceCommitIndex. intros Hs Hh Hne. split_if Hh; [by inv_ret|].
  destruct (majority_value _) as [m|]; [|done]. split_if Hh; [by inv_ret|].
  apply bind_Ret in Hh as (t & _ & Hh). split_if Hh; [by inv_ret|].
  apply cassert_bind in Hh as [_ Hh]. simpl in Hh.
  rewrite (pop_committed_spec _ _ Hs) in Hh. injection Hh as <- <-. done.
Qed.

Lemma pending_sorted_grow b pend (new : list ClientRequest) :
  contiguous (b + 1) (cr_mEntry <$> new) → Forall (λ p, p.1 ≤ b) pend → pending_sorted pend →
  let pend' := pend ++ map (λ r, (le_index (cr_mEntry r), cr_mRequestHandle r)) new in
  pending_sorted pend' ∧ Forall (λ p, p.1 ≤ b + Z.of_nat (length (cr_mEntry <$> new))) pend'.
Proof.
  revert b pend. induction new as [|r new IH]; intros b pend Hc Hb Hs; simpl.
  - rewrite app_nil_r, Z.add_0_r. done.
  - destruct Hc as [Hr Hc].
    destruct (IH (b + 1) (pend ++ [(le_index (cr_mEntry r), cr_mRequestHandle r)])) as [I1 I2]; [done|..].
    + apply Forall_app_2; [eapply Forall_impl; [done|]; simpl; lia|]. repeat constructor. simpl. lia.
    + unfold pending_sorted. rewrite fmap_app. apply StronglySorted_app_2; [|done|repeat constructor].
      intros x1 x2 (p & -> & Hp)%list_elem_of_fmap Hx2. rewrite Forall_forall in Hb.
      specialize (Hb _ Hp). apply list_elem_of_singleton in Hx2. simpl in Hx2, Hb. lia.
    + rewrite <- app_assoc in I1, I2. split; [done|]. eapply Forall_impl; [done|].
      intros p. rewrite length_fmap. simpl. rewrite length_fmap. lia.
Qed.

Lemma pending_sorted_app c reqs c' acts :
  log_inv (core_mLog c) → mRaftRole c = Leader → handleClientRequests c reqs = (c', acts) →
  Forall (λ p, p.1 ≤ lv_last (log_view (core_mLog c))) (mPendingClientRequests c) →
  pending_sorted (mPendingClientRequests c) →
  pending_sorted (mPendingClientRequests c') ∧
  Forall (λ p, p.1 ≤ lv_last (log_view (core_mLog c'))) (mPendingClientRequests c').
Proof.
  intros Hi Hr. unfold handleClientRequests. rewrite bool_decide_eq_true_2 by done. simpl.
  destruct (foldl _ _ _) as [[last pending] es] eqn:Ef. apply admit_requests_spec in Ef
    as (new & Hes & -> & _ & Hc & _). simpl in Hes. subst es. rewrite (spec_last _ Hi) in Hc.
  destruct (spec_appendEntries _ _ Hi Hc) as (l' & -> & Hi' & Hv'). intros [= <- _] Hb Hs. simpl.
  rewrite Hv'. unfold lv_last at 1; simpl. clear Hv' Hi' l' Hr Hi.
  assert (Hl : lv_last (log_view (core_mLog c)) = lv_first (log_view (core_mLog c)) +
    Z.of_nat (length (lv_entries (log_view (core_mLog c)))) - 1) by done.
  rewrite length_app, Nat2Z.inj_add. set (b := lv_last _) in *.
  replace (lv_first _ + _ - 1) with (b + Z.of_nat (length (cr_mEntry <$> new))) by lia.
  by apply pending_sorted_grow.
Qed.
End replication.
