(* ===== verification/RaftSpec.v ===== *)
(** * Raft as an abstract state machine

    What src/src/infra/raft/v2/RaftCore does to terms, roles, logs and commit
    indices, in steps finer than its handlers: a handler is several steps, and a
    crash in the middle of one is the first few of them and a restart.  Messages
    are never removed: the network may lose, copy and reorder them.

    RaftSafety.v proves the specification safe, RaftRefine.v that the handlers
    and crashes of RaftCluster.v are sequences of its steps. *)
From S2P Require Import Prelude RaftLog RaftCore.
Open Scope Z_scope.

(** ** States *)
Record SNode := mk_SNode {
  sn_term : Z;
  sn_role : RaftRole;
  sn_log : list LogEntry;       (* from index 1 *)
  sn_commit : nat }.

Record SReq := mk_SReq {
  sr_term : Z; sr_cand : Z; sr_last : nat; sr_lastTerm : Z }.

Record SAppend := mk_SAppend {
  sa_term : Z; sa_leader : Z; sa_prev : nat; sa_prevTerm : Z; sa_entries : list LogEntry; sa_commit : nat }.

Record Spec := mk_Spec {
  sp_node : gmap Z SNode;
  sp_reqs : list SReq;
  sp_grants : list (Z * Z * Z);     (* term, voter, candidate *)
  sp_appends : list SAppend;
  sp_acks : list (Z * Z * nat) }.   (* term, node, index up to which it has the leader's log *)

Definition sp_put (n : Z) (a : SNode) (s : Spec) : Spec :=
  mk_Spec (<[n := a]> (sp_node s)) (sp_reqs s) (sp_grants s) (sp_appends s) (sp_acks s).
Definition sp_grant (t v c : Z) (s : Spec) : Spec :=
  mk_Spec (sp_node s) (sp_reqs s) (sp_grants s ++ [(t, v, c)]) (sp_appends s) (sp_acks s).
Definition sp_request (r : SReq) (s : Spec) : Spec :=
  mk_Spec (sp_node s) (sp_reqs s ++ [r]) (sp_grants s) (sp_appends s) (sp_acks s).
Definition sp_append (m : SAppend) (s : Spec) : Spec :=
  mk_Spec (sp_node s) (sp_reqs s) (sp_grants s) (sp_appends s ++ [m]) (sp_acks s).
Definition sp_ack (t v : Z) (i : nat) (s : Spec) : Spec :=
  mk_Spec (sp_node s) (sp_reqs s) (sp_grants s) (sp_appends s) (sp_acks s ++ [(t, v, i)]).

(** ** Logs *)
Definition last_term (log : list LogEntry) : Z := from_option le_term 0 (last log).

(** The term at an index; index 0 is before the first entry. *)
Definition term_at (log : list LogEntry) (i : nat) : option Z :=
  match i with O => Some 0 | S k => le_term <$> log !! k end.

Definition same_term (log : list LogEntry) (i : nat) (e : LogEntry) : Prop :=
  le_term <$> log !! i = Some (le_term e).

(** The first [j] entries of the request are in the log. *)
Definition matches_upto (log : list LogEntry) (m : SAppend) (j : nat) : Prop :=
  term_at log (sa_prev m) = Some (sa_prevTerm m) ∧
  ∀ k e, (k < j)%nat → sa_entries m !! k = Some e → same_term log (sa_prev m + k) e.

(** ** Steps *)
Section spec.
Context (members : gset Z).

Definition quorum (Q : gset Z) : Prop := Q ⊆ members ∧ (size members < 2 * size Q)%nat.

Inductive spec_step (s : Spec) : Spec → Prop :=
  (** A new election. *)
  | s_timeout n a t :
      sp_node s !! n = Some a → sn_role a ≠ Leader → sn_term a < t →
      spec_step s (sp_grant t n n (sp_put n (mk_SNode t Candidate (sn_log a) (sn_commit a)) s))
  (** A higher term, heard of or not. *)
  | s_newterm n a t :
      sp_node s !! n = Some a → sn_term a < t →
      spec_step s (sp_put n (mk_SNode t Follower (sn_log a) (sn_commit a)) s)
  (** Giving up, or restarting: the commit index is not stored. *)
  | s_yield n a k :
      sp_node s !! n = Some a → (k ≤ sn_commit a)%nat →
      spec_step s (sp_put n (mk_SNode (sn_term a) Follower (sn_log a) k) s)
  | s_ask n a :
      sp_node s !! n = Some a → sn_role a = Candidate →
      spec_step s (sp_request (mk_SReq (sn_term a) n (length (sn_log a)) (last_term (sn_log a))) s)
  | s_grant n a r :
      sp_node s !! n = Some a → r ∈ sp_reqs s → sr_term r = sn_term a →
      last_term (sn_log a) < sr_lastTerm r ∨
        (sr_lastTerm r = last_term (sn_log a) ∧ (length (sn_log a) ≤ sr_last r)%nat) →
      (∀ c, (sn_term a, n, c) ∈ sp_grants s → c = sr_cand r) →
      spec_step s (sp_grant (sn_term a) n (sr_cand r) s)
  (** The new leader appends an entry of its term. *)
  | s_lead n a Q e :
      sp_node s !! n = Some a → sn_role a = Candidate → quorum Q →
      (∀ v, v ∈ Q → (sn_term a, v, n) ∈ sp_grants s) → le_term e = sn_term a →
      spec_step s (sp_put n (mk_SNode (sn_term a) Leader (sn_log a ++ [e]) (sn_commit a)) s)
  | s_append n a es :
      sp_node s !! n = Some a → sn_role a = Leader → Forall (λ e, le_term e = sn_term a) es →
      spec_step s (sp_put n (mk_SNode (sn_term a) Leader (sn_log a ++ es) (sn_commit a)) s)
  | s_send n a prev pt k commit :
      sp_node s !! n = Some a → sn_role a = Leader → term_at (sn_log a) prev = Some pt →
      (commit ≤ sn_commit a)%nat →
      spec_step s (sp_append (mk_SAppend (sn_term a) n prev pt (take k (drop prev (sn_log a))) commit) s)
  (** At the first entry of the request that is not in the log: what follows in
      the log is cut, some of what follows in the request is appended. *)
  | s_store n a m j e k :
      sp_node s !! n = Some a → sn_role a = Follower → m ∈ sp_appends s → sa_term m = sn_term a →
      matches_upto (sn_log a) m j → sa_entries m !! j = Some e → ¬ same_term (sn_log a) (sa_prev m + j) e →
      spec_step s (sp_put n (mk_SNode (sn_term a) Follower
        (take (sa_prev m + j) (sn_log a) ++ take k (drop j (sa_entries m))) (sn_commit a)) s)
  | s_ack n a m :
      sp_node s !! n = Some a → sn_role a = Follower → m ∈ sp_appends s → sa_term m = sn_term a →
      matches_upto (sn_log a) m (length (sa_entries m)) →
      spec_step s (sp_ack (sn_term a) n (sa_prev m + length (sa_entries m)) s)
  | s_learn n a m :
      sp_node s !! n = Some a → sn_role a = Follower → m ∈ sp_appends s → sa_term m = sn_term a →
      matches_upto (sn_log a) m (length (sa_entries m)) →
      (sa_commit m ≤ sa_prev m + length (sa_entries m))%nat →
      spec_step s (sp_put n (mk_SNode (sn_term a) Follower (sn_log a) (sa_commit m)) s)
  (** An entry of the leader's own term that a majority has. *)
  | s_commit n a Q i e :
      sp_node s !! n = Some a → sn_role a = Leader → quorum Q →
      (∀ v, v ∈ Q → v = n ∨ ∃ i', (S i ≤ i')%nat ∧ (sn_term a, v, i') ∈ sp_acks s) →
      sn_log a !! i = Some e → le_term e = sn_term a →
      spec_step s (sp_put n (mk_SNode (sn_term a) Leader (sn_log a) (S i)) s).

(** Everybody has started with an empty log. *)
Definition spec_initial (s : Spec) : Prop :=
  dom (sp_node s) = members ∧ sp_reqs s = [] ∧ sp_grants s = [] ∧ sp_appends s = [] ∧ sp_acks s = [] ∧
  map_Forall (λ _ a, 0 ≤ sn_term a ∧ sn_role a = Follower ∧ sn_log a = [] ∧ sn_commit a = O) (sp_node s).

Definition spec_steps : Spec → Spec → Prop := rtc spec_step.
End spec.
