(* ===== verification/RaftSafety.v ===== *)
(** * Safety of the Raft specification

    The ghost state gives each term its leader, the log of that leader as far as
    it is known, and the log each candidate stood with.  Every log is a prefix of
    the log of the leader of its last entry's term; an entry of a leader's own
    term that a majority has, or still could have, is in the log of every later
    leader. *)
From S2P Require Import Prelude RaftLog RaftCore RaftSpec.
Open Scope Z_scope.

Record Ghost := mk_Ghost {
  g_log : gmap Z (list LogEntry);
  g_owner : gmap Z Z;
  g_cand : gmap (Z * Z) (list LogEntry) }.

(** Every prefix that ends with an entry of term [t] is one of the log of the
    leader of [t]. *)
Definition rooted (logs : gmap Z (list LogEntry)) (log : list LogEntry) : Prop :=
  ∀ k e, log !! k = Some e → ∃ ll, logs !! le_term e = Some ll ∧ take (S k) log `prefix_of` ll.

Lemma take_prefix_le {A} (i j : nat) (l : list A) : (i ≤ j)%nat → take i l `prefix_of` take j l.
Proof. intros Hij. rewrite <- (Nat.min_l i j Hij), <- take_take. apply prefix_take. Qed.

Lemma prefix_take_mono {A} n (l l' : list A) : l `prefix_of` l' → take n l `prefix_of` take n l'.
Proof. intros [z ->]. rewrite take_app. apply prefix_app_r, reflexivity. Qed.

Lemma prefix_take_eq {A} (l1 l2 : list A) n : l1 `prefix_of` l2 → (n ≤ length l1)%nat → take n l2 = take n l1.
Proof. intros [k ->] Hn. by rewrite take_app_le. Qed.

Lemma prefix_shorter {A} (l1 l2 l3 : list A) :
  l1 `prefix_of` l3 → l2 `prefix_of` l3 → (length l1 ≤ length l2)%nat → l1 `prefix_of` l2.
Proof.
  intros H1 H2 Hlen. destruct (prefix_weak_total _ _ _ H1 H2) as [?|[k Hk]]; [done|].
  rewrite Hk, length_app in Hlen. destruct k; [|simpl in Hlen; lia]. rewrite app_nil_r in Hk. by rewrite Hk.
Qed.

Lemma rooted_prefix logs l l' : rooted logs l → l' `prefix_of` l → rooted logs l'.
Proof.
  intros Hr Hp k e Hk. pose proof (prefix_lookup_Some _ _ _ _ Hk Hp) as Hk'. destruct (Hr k e Hk') as (ll & Hll & Ht).
  exists ll. split; [done|]. etrans; [|exact Ht]. rewrite (prefix_take_eq l' l); [done|done|].
  apply lookup_lt_Some in Hk. lia.
Qed.

Lemma rooted_mono logs logs' l :
  (∀ t ll, logs !! t = Some ll → ∃ ll', logs' !! t = Some ll' ∧ ll `prefix_of` ll') → rooted logs l → rooted logs' l.
Proof.
  intros Hm Hr k e Hk. destruct (Hr k e Hk) as (ll & Hll & Ht). destruct (Hm _ _ Hll) as (ll' & ? & ?).
  exists ll'. split; [done|]. by etrans.
Qed.

(** Two logs with an entry of the same term at an index agree up to it. *)
Lemma rooted_match logs l1 l2 k e1 e2 :
  rooted logs l1 → rooted logs l2 → l1 !! k = Some e1 → l2 !! k = Some e2 → le_term e1 = le_term e2 →
  take (S k) l1 = take (S k) l2.
Proof.
  intros H1 H2 Hk1 Hk2 Ht. destruct (H1 k e1 Hk1) as (ll & Hll & Hp1). destruct (H2 k e2 Hk2) as (ll' & Hll' & Hp2).
  rewrite Ht, Hll' in Hll. injection Hll as <-. apply lookup_lt_Some in Hk1, Hk2.
  assert (length (take (S k) l1) = length (take (S k) l2)) as Hlen by (rewrite !length_take; lia).
  apply prefix_length_eq; [apply (prefix_shorter _ _ ll'); [done|done|lia]|lia].
Qed.

Lemma rooted_term_at logs l1 l2 i t :
  rooted logs l1 → rooted logs l2 → term_at l1 i = Some t → term_at l2 i = Some t → take i l1 = take i l2.
Proof.
  intros H1 H2. destruct i as [|k]; [done|]. simpl. intros (e1 & Hk1 & ->)%fmap_Some (e2 & Hk2 & Ht)%fmap_Some.
  by apply (rooted_match logs l1 l2 k e1 e2).
Qed.

Lemma term_at_prefix l1 l2 i t : l1 `prefix_of` l2 → term_at l1 i = Some t → term_at l2 i = Some t.
Proof.
  intros Hp. destruct i as [|k]; [done|]. simpl. intros (e & Hk & ->)%fmap_Some.
  by rewrite (prefix_lookup_Some _ _ _ _ Hk Hp).
Qed.

Lemma prefix_drop {A} n (l1 l2 : list A) : (n ≤ length l1)%nat → l1 `prefix_of` l2 → drop n l1 `prefix_of` drop n l2.
Proof. intros Hn [z ->]. rewrite drop_app_le by done. by apply prefix_app_r. Qed.

Lemma term_at_length log i t : term_at log i = Some t → (i ≤ length log)%nat.
Proof. destruct i as [|k]; simpl; [lia|]. intros (e & Hk%lookup_lt_Some & _)%fmap_Some. lia. Qed.

Section safety.
Context (members : gset Z).
Implicit Types (s : Spec) (g : Ghost).

Lemma quorums_meet A B : quorum members A → quorum members B → ∃ v, v ∈ A ∧ v ∈ B.
Proof.
  intros [HA Sa] [HB Sb]. destruct (decide (A ## B)) as [Hd|Hd].
  - exfalso. assert (size (A ∪ B) ≤ size members)%nat as Hs by (apply subseteq_size; set_solver).
    rewrite size_union in Hs by done. lia.
  - assert (Hne : A ∩ B ≠ ∅) by set_solver. apply set_choose_L in Hne as [v Hv]. set_solver.
Qed.

(** [v] has the log of the leader of [t] up to index [i]. *)
Definition acked s g (v t : Z) (i : nat) : Prop :=
  (∃ j, (i ≤ j)%nat ∧ (t, v, j) ∈ sp_acks s) ∨
  g_owner g !! t = Some v ∧ ∃ ll, g_log g !! t = Some ll ∧ (i ≤ length ll)%nat.

(** The leader of [t] has an entry of its own term at index [S i]. *)
Definition own_entry g (t : Z) (i : nat) : Prop :=
  ∃ ll e, g_log g !! t = Some ll ∧ ll !! i = Some e ∧ le_term e = t.

Definition chosen s g (t : Z) (i : nat) : Prop :=
  own_entry g t i ∧ ∃ Q, quorum members Q ∧ ∀ v, v ∈ Q → acked s g v t (S i).

(** Chosen, or some members that have not seen a later term may still make it so. *)
Definition choosable s g (t : Z) (i : nat) : Prop :=
  own_entry g t i ∧ ∃ Q, quorum members Q ∧
    ∀ v, v ∈ Q → acked s g v t (S i) ∨ ∃ a, sp_node s !! v = Some a ∧ sn_term a ≤ t.

(** A prefix of what a leader up to term [b] has chosen. *)
Definition final s g (b : Z) (log : list LogEntry) : Prop :=
  log = [] ∨ ∃ t i ll, t ≤ b ∧ g_log g !! t = Some ll ∧ chosen s g t i ∧ log `prefix_of` take (S i) ll.

Record safe s g : Prop := {
  sf_dom : dom (sp_node s) = members;
  sf_grant t v c : (t, v, c) ∈ sp_grants s →
    (∃ a, sp_node s !! v = Some a ∧ t ≤ sn_term a) ∧ is_Some (g_cand g !! (t, c));
  sf_unique t v c c' : (t, v, c) ∈ sp_grants s → (t, v, c') ∈ sp_grants s → c = c';
  sf_req r : r ∈ sp_reqs s → ∃ C, g_cand g !! (sr_term r, sr_cand r) = Some C ∧
    sr_last r = length C ∧ sr_lastTerm r = last_term C;
  sf_cand t c C : g_cand g !! (t, c) = Some C →
    0 < t ∧ rooted (g_log g) C ∧ Forall (λ e, le_term e < t) C ∧ ∃ a, sp_node s !! c = Some a ∧ t ≤ sn_term a;
  sf_log t ll : g_log g !! t = Some ll → rooted (g_log g) ll ∧
    ∃ m C own Q, g_owner g !! t = Some m ∧ g_cand g !! (t, m) = Some C ∧ ll = C ++ own ∧
      Forall (λ e, le_term e = t) own ∧ quorum members Q ∧ ∀ v, v ∈ Q → (t, v, m) ∈ sp_grants s;
  sf_owner t m : g_owner g !! t = Some m → is_Some (g_log g !! t);
  sf_node n a : sp_node s !! n = Some a →
    0 ≤ sn_term a ∧ rooted (g_log g) (sn_log a) ∧ Forall (λ e, le_term e ≤ sn_term a) (sn_log a) ∧
    (sn_commit a ≤ length (sn_log a))%nat;
  sf_owned n a : sp_node s !! n = Some a → g_owner g !! sn_term a = Some n →
    g_log g !! sn_term a = Some (sn_log a) ∧ sn_role a ≠ Candidate;
  sf_leader n a : sp_node s !! n = Some a → sn_role a = Leader → g_owner g !! sn_term a = Some n;
  sf_candidate n a : sp_node s !! n = Some a → sn_role a = Candidate → g_cand g !! (sn_term a, n) = Some (sn_log a);
  sf_append m : m ∈ sp_appends s → ∃ ll, g_log g !! sa_term m = Some ll ∧ g_owner g !! sa_term m = Some (sa_leader m) ∧
    term_at ll (sa_prev m) = Some (sa_prevTerm m) ∧ sa_entries m `prefix_of` drop (sa_prev m) ll ∧
    (sa_commit m ≤ length ll)%nat ∧ final s g (sa_term m) (take (sa_commit m) ll);
  sf_ack t v i : (t, v, i) ∈ sp_acks s → (∃ ll, g_log g !! t = Some ll ∧ (i ≤ length ll)%nat) ∧
    ∃ a, sp_node s !! v = Some a ∧ t ≤ sn_term a;
  sf_kept v a t i ll : sp_node s !! v = Some a → g_log g !! t = Some ll → acked s g v t (S i) → choosable s g t i →
    take (S i) ll `prefix_of` sn_log a;
  sf_vote t t' v c i ll C : (t', v, c) ∈ sp_grants s → t < t' → g_log g !! t = Some ll → g_cand g !! (t', c) = Some C →
    acked s g v t (S i) → choosable s g t i → take (S i) ll `prefix_of` C;
  sf_commit n a : sp_node s !! n = Some a → final s g (sn_term a) (take (sn_commit a) (sn_log a)) }.

(** ** Consequences *)
Lemma chosen_choosable s g t i : chosen s g t i → choosable s g t i.
Proof. intros (Ho & Q & HQ & Ha). split; [done|]. exists Q. split; [done|]. intros v Hv. left. by apply Ha. Qed.

(** Leader completeness. *)
Lemma later_leader_has s g t t' i ll ll' :
  safe s g → t < t' → g_log g !! t = Some ll → g_log g !! t' = Some ll' → choosable s g t i →
  take (S i) ll `prefix_of` ll'.
Proof.
  intros Hs Hlt Hll Hll' Hc. destruct (sf_log _ _ Hs _ _ Hll') as (_ & m & C & own & Q' & _ & HC & -> & _ & HQ' & Hg).
  pose proof Hc as (_ & Q & HQ & HQa). destruct (quorums_meet _ _ HQ HQ') as (v & Hv & Hv').
  apply prefix_app_r. apply (sf_vote _ _ Hs t t' v m i); [by apply Hg|done|done|done| |done].
  destruct (HQa v Hv) as [?|(a & Ha & Hle)]; [done|]. exfalso.
  destruct (sf_grant _ _ Hs _ _ _ (Hg v Hv')) as [(a' & Ha' & ?) _]. simplify_eq. lia.
Qed.

(** What is final is in the log of every leader up to a later bound. *)
Lemma final_in_log s g b t l ll :
  safe s g → final s g b l → b ≤ t → g_log g !! t = Some ll → l `prefix_of` ll.
Proof.
  intros Hs [->|(t0 & i & ll0 & Hb & Hll0 & Hc & Hp)] Hle Hll; [by apply prefix_nil|]. etrans; [exact Hp|].
  destruct (decide (t0 = t)) as [->|Hne]; [simplify_eq; apply prefix_take|].
  apply (later_leader_has s g t0 t); [done|lia|done|done|by apply chosen_choosable].
Qed.

(** State machine safety in one state. *)
Lemma final_agree s g b1 b2 l1 l2 :
  safe s g → final s g b1 l1 → final s g b2 l2 → l1 `prefix_of` l2 ∨ l2 `prefix_of` l1.
Proof.
  intros Hs [->|(t1 & i1 & ll1 & _ & Hll1 & Hc1 & Hp1)] H2; [left; apply prefix_nil|].
  destruct H2 as [->|(t2 & i2 & ll2 & _ & Hll2 & Hc2 & Hp2)]; [right; apply prefix_nil|].
  destruct (decide (t1 ≤ t2)) as [Hle|Hgt].
  - apply (prefix_weak_total _ _ ll2); [|etrans; [exact Hp2|apply prefix_take]].
    apply (final_in_log s g t1 t2); [done| |done|done]. right. by exists t1, i1, ll1.
  - apply (prefix_weak_total _ _ ll1); [etrans; [exact Hp1|apply prefix_take]|].
    apply (final_in_log s g t2 t1); [done| |lia|done]. right. by exists t2, i2, ll2.
Qed.

Lemma prefix_both_lookup {A} (l1 l2 : list A) k :
  l1 `prefix_of` l2 ∨ l2 `prefix_of` l1 → (k < length l1)%nat → (k < length l2)%nat → l1 !! k = l2 !! k.
Proof. intros [[z ->]|[z ->]] H1 H2; [by rewrite lookup_app_l|by rewrite (lookup_app_l l2)]. Qed.

(** ** Monotonicity *)
Record grows s g s' g' : Prop := {
  gr_log t ll : g_log g !! t = Some ll → ∃ ll', g_log g' !! t = Some ll' ∧ ll `prefix_of` ll';
  gr_owner : g_owner g ⊆ g_owner g';
  gr_cand : g_cand g ⊆ g_cand g';
  gr_acks : sp_acks s ⊆ sp_acks s';
  gr_node v a : sp_node s !! v = Some a → ∃ a', sp_node s' !! v = Some a' ∧ sn_term a ≤ sn_term a' }.

Lemma own_entry_grows s g s' g' t i : grows s g s' g' → own_entry g t i → own_entry g' t i.
Proof.
  intros Hg (ll & e & Hll & Hi & Ht). destruct (gr_log _ _ _ _ Hg _ _ Hll) as (ll' & Hll' & Hp).
  exists ll', e. split_and!; [done|by eapply prefix_lookup_Some|done].
Qed.

Lemma acked_grows s g s' g' v t i : grows s g s' g' → acked s g v t i → acked s' g' v t i.
Proof.
  intros Hg [(j & Hj & Ha)|(Ho & ll & Hll & Hi)].
  - left. exists j. split; [done|]. by apply (gr_acks _ _ _ _ Hg).
  - right. split; [by eapply lookup_weaken; [|apply Hg]|]. destruct (gr_log _ _ _ _ Hg _ _ Hll) as (ll' & Hll' & Hp).
    exists ll'. split; [done|]. apply prefix_length in Hp. lia.
Qed.

Lemma chosen_grows s g s' g' t i : grows s g s' g' → chosen s g t i → chosen s' g' t i.
Proof.
  intros Hg (Ho & Q & HQ & Ha). split; [by eapply own_entry_grows|]. exists Q. split; [done|].
  intros v Hv. eapply acked_grows; [done|]. by apply Ha.
Qed.

Lemma final_grows s g s' g' b b' l : grows s g s' g' → b ≤ b' → final s g b l → final s' g' b' l.
Proof.
  intros Hg Hb [->|(t & i & ll & Ht & Hll & Hc & Hp)]; [by left|]. right.
  destruct (gr_log _ _ _ _ Hg _ _ Hll) as (ll' & Hll' & Hpp). exists t, i, ll'. split_and!; [lia|done|by eapply chosen_grows|].
  etrans; [exact Hp|]. by apply prefix_take_mono.
Qed.
End safety.
