(* ===== verification/RaftSteps.v ===== *)
(** * Every step of the Raft specification keeps it safe

    One lemma for each kind of change: to a node's term, role or commit index, to
    the messages, to a candidate, to a leader's log, to a follower's log. *)
From S2P Require Import Prelude RaftLog RaftCore RaftSpec RaftSafety.
Open Scope Z_scope.

Section steps.
Context (members : gset Z).
Implicit Types (s : Spec) (g : Ghost).
Notation safe := (safe members).
Notation choosable := (choosable members).
Notation final := (final members).

Lemma grows_messages s s' g : sp_node s' = sp_node s → sp_acks s ⊆ sp_acks s' → grows s g s' g.
Proof.
  intros En Ea. split; [|done|done|done|].
  - intros t ll Hll. by exists ll.
  - intros v a Ha. rewrite En. exists a. split; [done|lia].
Qed.

Lemma grows_refl s g : grows s g s g.
Proof. by apply grows_messages. Qed.

(** Nodes move on, ghosts and acknowledgements stay. *)
Lemma grows_put s g n a a' :
  sp_node s !! n = Some a → sn_term a ≤ sn_term a' → grows s g (sp_put n a' s) g.
Proof.
  intros Hn Ht. split; [|done..|].
  - intros t ll Hll. by exists ll.
  - intros v b Hb. simpl. destruct (decide (v = n)) as [->|Hne].
    + rewrite lookup_insert_eq. exists a'. split; [done|]. simplify_eq. lia.
    + rewrite lookup_insert_ne by done. exists b. split; [done|lia].
Qed.

(** What was not choosable does not become so. *)
Lemma choosable_back s g s' g' t i :
  safe s g → grows s g s' g' → own_entry g t i →
  (∀ v, acked s' g' v t (S i) → acked s g v t (S i) ∨ ∃ a, sp_node s !! v = Some a ∧ sn_term a ≤ t) →
  choosable s' g' t i → choosable s g t i.
Proof.
  intros Hs Hg Ho Hback (_ & Q & HQ & HQa). split; [done|]. exists Q. split; [done|]. intros v Hv.
  destruct (HQa v Hv) as [Ha|(a' & Ha' & Ht)]; [by apply Hback|]. right.
  assert (Hm : v ∈ members) by (by apply HQ). rewrite <- (sf_dom _ _ _ Hs) in Hm.
  apply elem_of_dom in Hm as [a Ha]. destruct (gr_node _ _ _ _ Hg _ _ Ha) as (a'' & Ha'' & ?).
  exists a. split; [done|]. simplify_eq. lia.
Qed.

Lemma dom_put s n a a' : sp_node s !! n = Some a → dom (<[n := a']> (sp_node s)) = dom (sp_node s).
Proof. intros Hn. rewrite dom_insert_L. apply elem_of_dom_2 in Hn. set_solver. Qed.

(** An acknowledgement is of a term the node has reached. *)
Lemma acked_term s g v t i a : safe s g → acked s g v t i → sp_node s !! v = Some a → t ≤ sn_term a.
Proof.
  intros Hs [(j & _ & Ha)|(Ho & ll & Hll & _)] Hv.
  - destruct (sf_ack _ _ _ Hs _ _ _ Ha) as (_ & b & Hb & ?). by simplify_eq.
  - destruct (sf_log _ _ _ Hs _ _ Hll) as (_ & m & C & own & Q & Hm & HC & _). simplify_eq.
    destruct (sf_cand _ _ _ Hs _ _ _ HC) as (_ & _ & _ & b & Hb & ?). by simplify_eq.
Qed.

Lemma acked_length s g v t i : safe s g → acked s g v t i → ∃ ll, g_log g !! t = Some ll ∧ (i ≤ length ll)%nat.
Proof.
  intros Hs [(j & Hj & Ha)|(_ & H)]; [|done].
  destruct (sf_ack _ _ _ Hs _ _ _ Ha) as ((ll & ? & ?) & _). exists ll. split; [done|lia].
Qed.

Lemma leader_log s g n a : safe s g → sp_node s !! n = Some a → sn_role a = Leader →
  g_log g !! sn_term a = Some (sn_log a).
Proof. intros Hs Hn Hl. apply (sf_owned _ _ _ Hs n a Hn). by apply (sf_leader _ _ _ Hs n a). Qed.

(** ** A node's term, role or commit index *)
Lemma put_same_log s g n a a' :
  safe s g → sp_node s !! n = Some a → sn_log a' = sn_log a → sn_term a ≤ sn_term a' →
  sn_role a' = Follower ∨ sn_role a' = sn_role a ∧ sn_term a' = sn_term a →
  (sn_commit a' ≤ length (sn_log a))%nat → final s g (sn_term a') (take (sn_commit a') (sn_log a)) →
  safe (sp_put n a' s) g.
Proof.
  intros Hs Hn Hl Ht Hr Hc Hf. pose proof (grows_put s g n a a' Hn Ht) as Hg.
  assert (Hnode : ∀ v b, (<[n := a']> (sp_node s)) !! v = Some b →
    ∃ b0, sp_node s !! v = Some b0 ∧ sn_log b = sn_log b0 ∧ sn_term b0 ≤ sn_term b ∧
      (sn_role b = Follower ∨ sn_role b = sn_role b0 ∧ sn_term b = sn_term b0) ∧
      (sn_commit b ≤ length (sn_log b0))%nat ∧ final s g (sn_term b) (take (sn_commit b) (sn_log b0))).
  { intros v b [[-> ->]|[Hne Hb]]%lookup_insert_Some; [by exists a|]. exists b. split_and!; [done|done|lia|by right|..].
    - apply (sf_node _ _ _ Hs v b Hb).
    - by apply (sf_commit _ _ _ Hs v b). }
  assert (Hch : ∀ t i, choosable (sp_put n a' s) g t i → choosable s g t i).
  { intros t i Hch. apply (choosable_back s g (sp_put n a' s) g); [done|done|apply Hch| |done]. intros v Ha. by left. }
  split; simpl; try apply Hs.
  - rewrite (dom_put s n a a' Hn). apply Hs.
  - intros t v c Hin. destruct (sf_grant _ _ _ Hs _ _ _ Hin) as [(b & Hb & ?) ?]. split; [|done].
    destruct (gr_node _ _ _ _ Hg _ _ Hb) as (b' & ? & ?). exists b'. split; [done|lia].
  - intros t c C HC. destruct (sf_cand _ _ _ Hs _ _ _ HC) as (? & ? & ? & b & Hb & ?). split_and!; try done.
    destruct (gr_node _ _ _ _ Hg _ _ Hb) as (b' & ? & ?). exists b'. split; [done|lia].
  - intros v b Hb. destruct (Hnode v b Hb) as (b0 & Hb0 & -> & ? & _ & ? & _). destruct (sf_node _ _ _ Hs _ _ Hb0) as (? & ? & HF & _).
    split_and!; [lia|done| |done]. eapply Forall_impl; [exact HF|]. simpl. lia.
  - intros v b Hb Ho. destruct (Hnode v b Hb) as (b0 & Hb0 & -> & ? & Hrole & _).
    destruct (decide (sn_term b = sn_term b0)) as [E|Hne].
    + rewrite E in *. destruct (sf_owned _ _ _ Hs _ _ Hb0 Ho). split; [done|]. destruct Hrole as [-> |[-> _]]; done.
    + exfalso. destruct (sf_owner _ _ _ Hs _ _ Ho) as [ll Hll].
      destruct (sf_log _ _ _ Hs _ _ Hll) as (_ & m & C & own & Q & Hm & HC & _). simplify_eq.
      destruct (sf_cand _ _ _ Hs _ _ _ HC) as (_ & _ & _ & b1 & Hb1 & ?). simplify_eq. lia.
  - intros v b Hb Hrole. destruct (Hnode v b Hb) as (b0 & Hb0 & _ & _ & [?|[Hr0 ->]] & _); [congruence|].
    apply (sf_leader _ _ _ Hs v b0 Hb0). congruence.
  - intros v b Hb Hrole. destruct (Hnode v b Hb) as (b0 & Hb0 & -> & _ & [?|[Hr0 ->]] & _); [congruence|].
    apply (sf_candidate _ _ _ Hs v b0 Hb0). congruence.
  - intros t v i Hin. destruct (sf_ack _ _ _ Hs _ _ _ Hin) as (? & b & Hb & ?). split; [done|].
    destruct (gr_node _ _ _ _ Hg _ _ Hb) as (b' & ? & ?). exists b'. split; [done|lia].
  - intros v b t i ll Hb Hll Ha Hc'. destruct (Hnode v b Hb) as (b0 & Hb0 & -> & _).
    apply (sf_kept _ _ _ Hs v b0 t i ll); [done..|by apply Hch].
  - intros t t' v c i ll C Hin Hlt Hll HC Ha Hc'. apply (sf_vote _ _ _ Hs t t' v c i ll C); [done..|by apply Hch].
  - intros v b Hb. destruct (Hnode v b Hb) as (b0 & Hb0 & -> & _ & _ & _ & Hfin). by eapply final_grows.
Qed.
(** ** Messages *)
Lemma ask_safe s g n a :
  safe s g → sp_node s !! n = Some a → sn_role a = Candidate →
  safe (sp_request (mk_SReq (sn_term a) n (length (sn_log a)) (last_term (sn_log a))) s) g.
Proof.
  intros Hs Hn Hc. split; simpl; try apply Hs. intros r [Hr|Hr]%elem_of_app; [by apply (sf_req _ _ _ Hs)|].
  apply list_elem_of_singleton in Hr as ->. simpl. exists (sn_log a). split; [|done]. by apply (sf_candidate _ _ _ Hs n a).
Qed.

Lemma send_safe s g n a prev pt k commit :
  safe s g → sp_node s !! n = Some a → sn_role a = Leader → term_at (sn_log a) prev = Some pt →
  (commit ≤ sn_commit a)%nat →
  safe (sp_append (mk_SAppend (sn_term a) n prev pt (take k (drop prev (sn_log a))) commit) s) g.
Proof.
  intros Hs Hn Hl Hpt Hc. split; simpl; try apply Hs. intros m [Hm|Hm]%elem_of_app; [by apply (sf_append _ _ _ Hs)|].
  apply list_elem_of_singleton in Hm as ->. simpl. destruct (sf_node _ _ _ Hs n a Hn) as (_ & _ & _ & Hlen).
  exists (sn_log a). split_and!; [by eapply leader_log|by apply (sf_leader _ _ _ Hs n a)|done|apply prefix_take|lia|].
  destruct (sf_commit _ _ _ Hs n a Hn) as [Hnil|(t & i & ll & ? & ? & ? & Hp)].
  - left. destruct (sn_log a) as [|e log]; [by rewrite take_nil|]. destruct commit; [done|].
    destruct (sn_commit a); [lia|done].
  - right. exists t, i, ll. split_and!; [done..|]. etrans; [by apply take_prefix_le|done].
Qed.

(** A request that a log matches: the log agrees with the leader's. *)
Lemma matches_agree s g n a m j :
  safe s g → sp_node s !! n = Some a → m ∈ sp_appends s → sa_term m = sn_term a →
  matches_upto (sn_log a) m j → (j ≤ length (sa_entries m))%nat →
  ∃ ll, g_log g !! sn_term a = Some ll ∧ sa_entries m `prefix_of` drop (sa_prev m) ll ∧
    take (sa_prev m + j) (sn_log a) = take (sa_prev m + j) ll ∧
    (sa_prev m + j ≤ length (sn_log a))%nat ∧ (sa_prev m + j ≤ length ll)%nat ∧
    final s g (sn_term a) (take (sa_commit m) ll).
Proof.
  intros Hs Hn Hm Ht [Hprev Hent] Hj. destruct (sf_append _ _ _ Hs m Hm) as (ll & Hll & _ & Hpt & He & _ & Hf). rewrite Ht in Hll, Hf.
  destruct (sf_node _ _ _ Hs n a Hn) as (_ & Hroot & _). destruct (sf_log _ _ _ Hs _ _ Hll) as (Hroot' & _).
  exists ll. split; [done|]. split; [done|]. destruct j as [|j].
  { rewrite Nat.add_0_r. split_and!; [by eapply rooted_term_at|by eapply term_at_length..|done]. }
  destruct (lookup_lt_is_Some_2 (sa_entries m) j) as [e Hje]; [lia|].
  pose proof (Hent j e ltac:(lia) Hje) as Hst. apply fmap_Some in Hst as (e' & Hlog & Hte).
  apply (prefix_lookup_Some _ _ _ _ Hje) in He. rewrite lookup_drop in He.
  rewrite Nat.add_succ_r. split_and!; [by eapply rooted_match|apply lookup_lt_Some in Hlog; lia|apply lookup_lt_Some in He; lia|done].
Qed.

Lemma grows_ack s g t v i : grows s g (sp_ack t v i s) g.
Proof. apply grows_messages; [done|]. simpl. set_solver. Qed.

Lemma acked_ack_inv s g t v i u x j :
  acked (sp_ack t v i s) g u x j → acked s g u x j ∨ u = v ∧ x = t ∧ (j ≤ i)%nat.
Proof.
  intros [(k & Hk & [Ha|Ha]%elem_of_app)|?]; [left; left; by exists k| |by left; right].
  apply list_elem_of_singleton in Ha. simplify_eq. by right.
Qed.

Lemma ack_safe s g n a m :
  safe s g → sp_node s !! n = Some a → m ∈ sp_appends s → sa_term m = sn_term a →
  matches_upto (sn_log a) m (length (sa_entries m)) →
  safe (sp_ack (sn_term a) n (sa_prev m + length (sa_entries m)) s) g.
Proof.
  intros Hs Hn Hm Ht Hmatch.
  destruct (matches_agree s g n a m _ Hs Hn Hm Ht Hmatch) as (ll & Hll & He & Heq & Hl1 & Hl2 & _); [lia|].
  set (p := (sa_prev m + length (sa_entries m))%nat) in *. pose proof (grows_ack s g (sn_term a) n p) as Hg.
  assert (Hch : ∀ t i, choosable (sp_ack (sn_term a) n p s) g t i → choosable s g t i).
  { intros t i Hch. apply (choosable_back s g _ g t i Hs Hg); [apply Hch| |done].
    intros v [?|(-> & -> & _)]%acked_ack_inv; [by left|right]. by exists a. }
  split; simpl; try apply Hs.
  - intros m0 Hm0. destruct (sf_append _ _ _ Hs m0 Hm0) as (ll0 & ? & ? & ? & ? & ? & Hf). exists ll0. split_and!; try done.
    by eapply final_grows.
  - intros t v i [Hin|Hin]%elem_of_app; [by apply (sf_ack _ _ _ Hs)|]. apply list_elem_of_singleton in Hin. simplify_eq.
    split; [by exists ll|]. by exists a.
  - intros v b t i ll0 Hb Hll0 [Ha|(-> & -> & Hi)]%acked_ack_inv Hc; [by eapply (sf_kept _ _ _ Hs v b t i ll0); [..|apply Hch]|].
    simplify_eq. transitivity (take p (sn_log a)); [|apply prefix_take]. rewrite Heq. by apply take_prefix_le.
  - intros t t' v c i ll0 C Hin Hlt Hll0 HC [Ha|(-> & -> & Hi)]%acked_ack_inv Hc; [by eapply (sf_vote _ _ _ Hs t t' v c i ll0 C); [..|apply Hch]|].
    destruct (sf_grant _ _ _ Hs _ _ _ Hin) as [(b & Hb & ?) _]. simplify_eq. lia.
  - intros v b Hb. apply (final_grows _ s g _ _ (sn_term b)); [done|lia|by apply (sf_commit _ _ _ Hs v)].
Qed.

(** ** Votes *)

Lemma last_rooted logs log : rooted logs log → log ≠ [] →
  ∃ ll e, last log = Some e ∧ logs !! last_term log = Some ll ∧ log `prefix_of` ll.
Proof.
  intros Hr Hne. destruct (last log) as [e|] eqn:Hl; [|by apply last_None in Hl].
  unfold last_term. rewrite Hl. rewrite last_lookup in Hl. destruct (Hr _ _ Hl) as (ll & Hll & Hp).
  exists ll, e. split_and!; [done|done|]. rewrite take_ge in Hp; [done|]. apply lookup_lt_Some in Hl. lia.
Qed.

Lemma log_terms s g t ll : safe s g → g_log g !! t = Some ll → Forall (λ e, le_term e ≤ t) ll.
Proof.
  intros Hs Hll. destruct (sf_log _ _ _ Hs _ _ Hll) as (_ & m & C & own & Q & _ & HC & -> & Hown & _).
  destruct (sf_cand _ _ _ Hs _ _ _ HC) as (_ & _ & HCt & _).
  apply Forall_app. split; eapply Forall_impl; [exact HCt| |exact Hown|]; simpl; lia.
Qed.

Lemma last_term_max s g log e : safe s g → rooted (g_log g) log → e ∈ log → le_term e ≤ last_term log.
Proof.
  intros Hs Hr He. destruct (last_rooted _ _ Hr) as (ll & _ & _ & Hll & Hp); [by intros ->; apply not_elem_of_nil in He|].
  pose proof (log_terms s g _ _ Hs Hll) as Ht. rewrite Forall_forall in Ht. apply Ht. destruct Hp as [z ->]. set_solver.
Qed.

(** What is chosen is in the log of a candidate that a voter
    which has it finds up to date. *)
Lemma up_to_date_has s g V C t i ll :
  safe s g → rooted (g_log g) V → rooted (g_log g) C →
  last_term V < last_term C ∨ last_term C = last_term V ∧ (length V ≤ length C)%nat →
  g_log g !! t = Some ll → choosable s g t i → take (S i) ll `prefix_of` V → take (S i) ll `prefix_of` C.
Proof.
  intros Hs HV HC Hup Hll Hch Hp. pose proof Hch as [(ll0 & e & Hll0 & Hi & Het) _].
  rewrite Hll in Hll0. injection Hll0 as <-.
  assert (Hsub : ∀ x, x ∈ take (S i) ll → x ∈ V) by (destruct Hp as [z ->]; set_solver).
  assert (He : e ∈ V) by (apply Hsub; apply list_elem_of_lookup; exists i; by rewrite lookup_take_lt by lia).
  assert (Hmax := last_term_max s g V e Hs HV He).
  assert (HVne : V ≠ []) by (by intros ->; apply not_elem_of_nil in He).
  destruct Hup as [Hlt|[Heq Hlen]].
  - assert (HCne : C ≠ []).
    { intros ->. unfold last_term in Hlt at 2. simpl in Hlt. destruct (last_rooted _ _ HV HVne) as (llv & _ & _ & Hllv & _).
      destruct (sf_log _ _ _ Hs _ _ Hllv) as (_ & m & C0 & own & Q & _ & HC0 & _). destruct (sf_cand _ _ _ Hs _ _ _ HC0). lia. }
    destruct (last_rooted _ _ HC HCne) as (llc & ec & Hec & Hllc & HpC).
    assert (Hpc : take (S i) ll `prefix_of` llc) by (apply (later_leader_has members s g t (last_term C)); [done|lia|done..]).
    destruct (prefix_weak_total _ _ _ Hpc HpC) as [?|HCp]; [done|]. exfalso.
    assert (Hec' : ec ∈ V) by (apply Hsub; destruct HCp as [z ->]; apply elem_of_app; left; by apply last_Some_elem_of).
    pose proof (last_term_max s g V ec Hs HV Hec') as Hle. unfold last_term in Hlt at 2. rewrite Hec in Hlt. simpl in Hlt. lia.
  - destruct (last_rooted _ _ HV HVne) as (llv & _ & _ & Hllv & HpV).
    assert (HCne : C ≠ []) by (intros ->; destruct V; [done|simpl in Hlen; lia]).
    destruct (last_rooted _ _ HC HCne) as (llc & _ & _ & Hllc & HpC). rewrite Heq, Hllv in Hllc. injection Hllc as <-.
    etrans; [exact Hp|]. by apply (prefix_shorter _ _ llv).
Qed.

Lemma grant_safe s g n a r :
  safe s g → sp_node s !! n = Some a → r ∈ sp_reqs s → sr_term r = sn_term a →
  last_term (sn_log a) < sr_lastTerm r ∨
    (sr_lastTerm r = last_term (sn_log a) ∧ (length (sn_log a) ≤ sr_last r)%nat) →
  (∀ c, (sn_term a, n, c) ∈ sp_grants s → c = sr_cand r) →
  safe (sp_grant (sn_term a) n (sr_cand r) s) g.
Proof.
  intros Hs Hn Hr Ht Hup Huniq. destruct (sf_req _ _ _ Hs r Hr) as (C & HC & El & Et). rewrite Ht in HC. rewrite El, Et in Hup.
  destruct (sf_node _ _ _ Hs n a Hn) as (_ & HV & _). destruct (sf_cand _ _ _ Hs _ _ _ HC) as (_ & HCr & _).
  split; simpl; try apply Hs.
  - intros t v c [Hin|Hin]%elem_of_app; [by apply (sf_grant _ _ _ Hs)|]. apply list_elem_of_singleton in Hin. simplify_eq.
    split; [|done]. exists a. split; [done|lia].
  - intros t v c c' [H1|H1]%elem_of_app [H2|H2]%elem_of_app; try apply list_elem_of_singleton in H1;
      try apply list_elem_of_singleton in H2; simplify_eq; [by eapply (sf_unique _ _ _ Hs)| |symmetry|done]; by apply Huniq.
  - intros t ll Hll. destruct (sf_log _ _ _ Hs _ _ Hll) as (? & m & C0 & own & Q & ? & ? & ? & ? & ? & HQ).
    split; [done|]. exists m, C0, own, Q. split_and!; try done. intros v Hv. apply elem_of_app. left. by apply HQ.
  - intros t t' v c i ll C0 [Hin|Hin]%elem_of_app Hlt Hll HC0 Ha Hch; [by apply (sf_vote _ _ _ Hs t t' v c i)|].
    apply list_elem_of_singleton in Hin. simplify_eq.
    apply (up_to_date_has s g (sn_log a) C t); [done..|]. by apply (sf_kept _ _ _ Hs n a t i).
Qed.
(** ** A new candidate *)
Definition g_stand (t n : Z) (C : list LogEntry) g : Ghost :=
  mk_Ghost (g_log g) (g_owner g) (<[(t, n) := C]> (g_cand g)).

Lemma not_stood s g n a t : safe s g → sp_node s !! n = Some a → sn_term a < t → g_cand g !! (t, n) = None.
Proof.
  intros Hs Hn Ht. destruct (g_cand g !! (t, n)) as [C|] eqn:HC; [|done].
  destruct (sf_cand _ _ _ Hs _ _ _ HC) as (_ & _ & _ & b & Hb & ?). simplify_eq. lia.
Qed.

Lemma grows_stand s g n a t :
  safe s g → sp_node s !! n = Some a → sn_term a < t →
  grows s g s (g_stand t n (sn_log a) g).
Proof.
  intros Hs Hn Ht. destruct (grows_refl s g) as [G1 G2 G3 G4 G5]. split; try done.
  simpl. apply insert_subseteq. by apply (not_stood s g n a).
Qed.

(** Standing, with the vote for oneself, at the old term still. *)
Lemma stand_safe s g n a t :
  safe s g → sp_node s !! n = Some a → sn_term a < t →
  safe (sp_grant t n n (sp_put n (mk_SNode t Candidate (sn_log a) (sn_commit a)) s)) (g_stand t n (sn_log a) g).
Proof.
  intros Hs Hn Ht. set (a' := mk_SNode t Candidate (sn_log a) (sn_commit a)). pose proof (not_stood s g n a t Hs Hn Ht) as Hnew.
  destruct (sf_node _ _ _ Hs n a Hn) as (Ht0 & Hroot & Hle & Hcl).
  assert (Hg : grows s g (sp_put n a' s) g) by (apply (grows_put s g n a); [done|simpl; lia]).
  assert (Hch : ∀ x i, choosable (sp_put n a' s) g x i → choosable s g x i).
  { intros x i Hc. apply (choosable_back s g (sp_put n a' s) g); [done|done|apply Hc| |done]. intros v Ha. by left. }
  assert (Hold : ∀ v b, sp_node s !! v = Some b → ∃ b', (<[n := a']> (sp_node s)) !! v = Some b' ∧ sn_term b ≤ sn_term b')
    by apply (gr_node _ _ _ _ Hg).
  split; simpl; try apply Hs.
  - rewrite (dom_put s n a a' Hn). apply Hs.
  - intros x v c [Hin|Hin]%elem_of_app.
    + destruct (sf_grant _ _ _ Hs _ _ _ Hin) as [(b & Hb & ?) [C HC]]. destruct (Hold v b Hb) as (b' & ? & ?).
      split; [exists b'; split; [done|lia]|]. exists C. rewrite lookup_insert_ne; [done|]. intros [=]. simplify_eq.
    + apply list_elem_of_singleton in Hin. simplify_eq. rewrite !lookup_insert_eq. split; [|done]. exists a'. split; [done|simpl; lia].
  - assert (Hno : ∀ c, (t, n, c) ∉ sp_grants s).
    { intros c Hin. destruct (sf_grant _ _ _ Hs _ _ _ Hin) as [(b & Hb & ?) _]. simplify_eq. lia. }
    intros x v c c'. rewrite !elem_of_app, !list_elem_of_singleton.
    intros [H1|H1] [H2|H2]; simplify_eq; [by eapply (sf_unique _ _ _ Hs)|by edestruct Hno..|done].
  - intros r Hr. destruct (sf_req _ _ _ Hs r Hr) as (C & HC & ?). exists C. split; [|done].
    rewrite lookup_insert_ne; [done|]. intros [= E1 E2]. rewrite <- E1, <- E2 in HC. congruence.
  - intros x c C [[[= <- <-] <-]|[Hne HC]]%lookup_insert_Some.
    + split_and!; [lia|done| |exists a'; split; [by rewrite lookup_insert_eq|simpl; lia]].
      eapply Forall_impl; [exact Hle|]. simpl. lia.
    + destruct (sf_cand _ _ _ Hs _ _ _ HC) as (? & ? & ? & b & Hb & ?). destruct (Hold c b Hb) as (b' & ? & ?).
      split_and!; try done. exists b'. split; [done|lia].
  - intros x ll Hll. destruct (sf_log _ _ _ Hs _ _ Hll) as (? & m & C & own & Q & ? & HC & ? & ? & ? & HQ).
    split; [done|]. exists m, C, own, Q. split_and!; try done.
    + rewrite lookup_insert_ne; [done|]. intros [= E1 E2]. rewrite <- E1, <- E2 in HC. congruence.
    + intros v Hv. apply elem_of_app. left. by apply HQ.
  - intros v b [[<- <-]|[Hne Hb]]%lookup_insert_Some; [|by apply (sf_node _ _ _ Hs v)]. split_and!; try done; [simpl; lia|].
    eapply Forall_impl; [exact Hle|]. simpl. lia.
  - intros v b [[<- <-]|[Hne Hb]]%lookup_insert_Some Ho; [|by apply (sf_owned _ _ _ Hs v)]. exfalso. simpl in Ho.
    destruct (sf_owner _ _ _ Hs _ _ Ho) as [ll Hll]. destruct (sf_log _ _ _ Hs _ _ Hll) as (_ & m & C & own & Q & Hm & HC & _).
    simplify_eq.
  - intros v b [[<- <-]|[Hne Hb]]%lookup_insert_Some Hr; [done|]. by apply (sf_leader _ _ _ Hs v).
  - intros v b [[<- <-]|[Hne Hb]]%lookup_insert_Some Hr; [by rewrite lookup_insert_eq|].
    rewrite lookup_insert_ne by congruence. by apply (sf_candidate _ _ _ Hs v).
  - intros x v i Hin. destruct (sf_ack _ _ _ Hs _ _ _ Hin) as (? & b & Hb & ?). split; [done|].
    destruct (Hold v b Hb) as (b' & ? & ?). exists b'. split; [done|lia].
  - intros v b x i ll [[<- <-]|[Hne Hb]]%lookup_insert_Some Hll Ha Hc; simpl.
    + by apply (sf_kept _ _ _ Hs n a x); [..|apply Hch].
    + by apply (sf_kept _ _ _ Hs v b x); [..|apply Hch].
  - intros x x' v c i ll C [Hin|Hin]%elem_of_app Hlt Hll HC Ha Hc; apply Hch in Hc.
    + apply lookup_insert_Some in HC as [[[= <- <-] <-]|[Hne HC]]; [|by apply (sf_vote _ _ _ Hs x x' v c i)].
      destruct (sf_grant _ _ _ Hs _ _ _ Hin) as [_ [C HC]]. congruence.
    + apply list_elem_of_singleton in Hin. simplify_eq. rewrite lookup_insert_eq in HC. injection HC as <-.
      by apply (sf_kept _ _ _ Hs n a x i).
  - intros v b [[<- <-]|[Hne Hb]]%lookup_insert_Some; [|by apply (sf_commit _ _ _ Hs v)].
    apply (final_grows _ s g s g (sn_term a) t); [apply grows_refl|lia|exact (sf_commit _ _ _ Hs n a Hn)].
Qed.
(** ** A longer log for the leader of a term *)
Definition g_extend (t m : Z) (ll : list LogEntry) g : Ghost :=
  mk_Ghost (<[t := ll]> (g_log g)) (<[t := m]> (g_owner g)) (g_cand g).

(** [ll'] is the log of [n], which leads its term; it extends what was known. *)
Section extend.
Context (s : Spec) (g : Ghost) (n : Z) (a : SNode) (es : list LogEntry).
Context (Hs : safe s g) (Hn : sp_node s !! n = Some a).
Context (Hes : Forall (λ e, le_term e = sn_term a) es).
Context (Hcand : ∃ C own Q, g_cand g !! (sn_term a, n) = Some C ∧ sn_log a = C ++ own ∧
  Forall (λ e, le_term e = sn_term a) own ∧ quorum members Q ∧ ∀ v, v ∈ Q → (sn_term a, v, n) ∈ sp_grants s).
Context (Hknown : g_log g !! sn_term a = None ∧ g_owner g !! sn_term a = None ∨
  g_log g !! sn_term a = Some (sn_log a) ∧ g_owner g !! sn_term a = Some n).

Let a' : SNode := mk_SNode (sn_term a) Leader (sn_log a ++ es) (sn_commit a).
Let s' : Spec := sp_put n a' s.
Let g' : Ghost := g_extend (sn_term a) n (sn_log a ++ es) g.

Lemma extend_log t : g_log g' !! t = if decide (t = sn_term a) then Some (sn_log a ++ es) else g_log g !! t.
Proof. unfold g'. simpl. case_decide as E; [by rewrite E, lookup_insert_eq|by rewrite lookup_insert_ne]. Qed.

Lemma extend_owner t : g_owner g' !! t = if decide (t = sn_term a) then Some n else g_owner g !! t.
Proof. unfold g'. simpl. case_decide as E; [by rewrite E, lookup_insert_eq|by rewrite lookup_insert_ne]. Qed.

Lemma extend_grows : grows s g s' g'.
Proof.
  destruct (grows_put s g n a a' Hn) as [_ _ _ _ G5]; [simpl; lia|]. split; [| | | |exact G5]; try done.
  - intros t ll Hll. rewrite extend_log. case_decide as E; [|by exists ll]. subst t. eexists. split; [done|].
    destruct Hknown as [[? _]|[? _]]; [congruence|]. simplify_eq. by apply prefix_app_r.
  - unfold g'. simpl. destruct Hknown as [[_ Ho]|[_ Ho]]; [by apply insert_subseteq|]. by rewrite insert_id.
Qed.

Lemma extend_rooted : rooted (g_log g') (sn_log a ++ es).
Proof.
  intros k e [Hk|[Hk He]]%lookup_app_Some.
  - destruct (sf_node _ _ _ Hs n a Hn) as (_ & Hr & _).
    assert (Hr' : rooted (g_log g') (sn_log a)) by (eapply rooted_mono; [apply extend_grows|done]).
    destruct (Hr' k e Hk) as (ll & Hll & Hp). exists ll. split; [done|]. rewrite take_app_le; [done|]. apply lookup_lt_Some in Hk. lia.
  - rewrite Forall_forall in Hes. rewrite (Hes e) by (by eapply list_elem_of_lookup_2). rewrite extend_log, decide_True by done.
    eexists. split; [done|]. apply prefix_take.
Qed.

(** What has become acknowledged is at the leader itself, and new. *)
Lemma extend_acked v t i : acked s' g' v t i → acked s g v t i ∨ v = n ∧ t = sn_term a.
Proof.
  intros [(j & Hj & Ha)|(Ho & ll & Hll & Hi)]; [left; left; by exists j|]. rewrite extend_owner in Ho. rewrite extend_log in Hll.
  case_decide as E; [right; by injection Ho|]. left. right. split; [done|]. by exists ll.
Qed.

Lemma extend_choosable t i :
  choosable s' g' t i → choosable s g t i ∨ t = sn_term a ∧ ∀ v, acked s' g' v t (S i) → v = n.
Proof.
  intros Hc. pose proof Hc as [(ll & e & Hll & Hi & Het) _]. rewrite extend_log in Hll.
  assert (Hback : own_entry g t i → choosable s g t i).
  { intros Ho. apply (choosable_back s g s' g' t i Hs extend_grows Ho); [|done].
    intros v [?|[-> ->]]%extend_acked; [by left|right]. exists a. split; [done|lia]. }
  case_decide as E; [|left; apply Hback; by exists ll, e]. rewrite E in *. injection Hll as <-.
  assert (Hnew : (∀ v j, (S i ≤ j)%nat → (sn_term a, v, j) ∉ sp_acks s) → ∀ v, acked s' g' v (sn_term a) (S i) → v = n).
  { intros Hno v [(j & Hj & Ha)|(Ho & _)]; [by destruct (Hno v j Hj)|].
    rewrite extend_owner, decide_True in Ho by done. by injection Ho. }
  destruct Hknown as [[Hl Ho]|[Hl Ho]].
  - right. split; [done|]. apply Hnew. intros v j _ Ha. destruct (sf_ack _ _ _ Hs _ _ _ Ha) as ((ll & ? & _) & _). congruence.
  - destruct (decide (i < length (sn_log a))%nat) as [Hlt|Hge].
    + left. apply Hback. exists (sn_log a), e. by rewrite lookup_app_l in Hi by done.
    + right. split; [done|]. apply Hnew. intros v j Hj Ha. destruct (sf_ack _ _ _ Hs _ _ _ Ha) as ((ll & ? & ?) & _). simplify_eq. lia.
Qed.

(** What is choosable and known before keeps its prefix. *)
Lemma extend_prefix t i ll : choosable s g t i → g_log g' !! t = Some ll →
  ∃ ll0, g_log g !! t = Some ll0 ∧ take (S i) ll = take (S i) ll0.
Proof.
  intros [(ll0 & e & Hll0 & Hi & _) _] Hll. exists ll0. split; [done|].
  destruct (gr_log _ _ _ _ extend_grows _ _ Hll0) as (ll1 & Hll1 & Hp). rewrite Hll in Hll1. injection Hll1 as <-.
  apply prefix_take_eq; [done|]. apply lookup_lt_Some in Hi. lia.
Qed.

Lemma extend_final b l : final s g b l → final s' g' b l.
Proof. apply final_grows; [apply extend_grows|lia]. Qed.

Lemma extend_safe : safe s' g'.
Proof.
  pose proof extend_grows as Hg. destruct (sf_node _ _ _ Hs n a Hn) as (Ht0 & Hroot & Hle & Hcl).
  assert (Hmono : ∀ l, rooted (g_log g) l → rooted (g_log g') l) by (intros l; apply rooted_mono, Hg).
  assert (Hin : ∀ v b, sp_node s' !! v = Some b → v = n ∧ b = a' ∨ v ≠ n ∧ sp_node s !! v = Some b).
  { unfold s'. simpl. intros v b [[<- <-]|[? ?]]%lookup_insert_Some; [by left|by right]. }
  split.
  - unfold s'. simpl. rewrite (dom_put s n a a' Hn). apply Hs.
  - intros t v c Hgr. destruct (sf_grant _ _ _ Hs _ _ _ Hgr) as [(b & Hb & ?) ?]. split; [|done].
    destruct (gr_node _ _ _ _ Hg _ _ Hb) as (b' & ? & ?). exists b'. split; [done|lia].
  - apply Hs.
  - apply Hs.
  - intros t c C HC. destruct (sf_cand _ _ _ Hs _ _ _ HC) as (? & ? & ? & b & Hb & ?). split_and!; [done|by apply Hmono|done|].
    destruct (gr_node _ _ _ _ Hg _ _ Hb) as (b' & ? & ?). exists b'. split; [done|lia].
  - intros t ll Hll. rewrite extend_log in Hll. case_decide as E.
    + injection Hll as <-. split; [apply extend_rooted|]. destruct Hcand as (C & own & Q & HC & El & Hown & HQ & HQg).
      exists n, C, (own ++ es), Q. rewrite extend_owner, decide_True, E by done. split_and!; try done; [by rewrite El, app_assoc|by apply Forall_app].
    + destruct (sf_log _ _ _ Hs _ _ Hll) as (Hr & m & C & own & Q & Hm & Hrest). split; [by apply Hmono|].
      exists m, C, own, Q. rewrite extend_owner, decide_False by done. done.
  - intros t m Hm. rewrite extend_owner in Hm. rewrite extend_log. case_decide; [done|]. by apply (sf_owner _ _ _ Hs t m).
  - intros v b [[-> ->]|[Hne Hb]]%Hin; simpl.
    + split_and!; [done|apply extend_rooted| |rewrite length_app; lia]. apply Forall_app. split; [done|].
      eapply Forall_impl; [exact Hes|]. simpl. lia.
    + destruct (sf_node _ _ _ Hs v b Hb) as (? & ? & ? & ?). split_and!; try done. by apply Hmono.
  - intros v b [[-> ->]|[Hne Hb]]%Hin Ho; simpl; [by rewrite extend_log, decide_True|].
    rewrite extend_owner in Ho. rewrite extend_log. case_decide as E; [congruence|]. by apply (sf_owned _ _ _ Hs v).
  - intros v b [[-> ->]|[Hne Hb]]%Hin Hr; simpl; [by rewrite extend_owner, decide_True|].
    pose proof (sf_leader _ _ _ Hs v b Hb Hr) as Ho. by apply (lookup_weaken _ _ _ _ Ho), (gr_owner _ _ _ _ Hg).
  - intros v b [[-> ->]|[Hne Hb]]%Hin Hr; [done|]. by apply (sf_candidate _ _ _ Hs v).
  - intros m Hm. destruct (sf_append _ _ _ Hs m Hm) as (ll & Hll & Ho & Hpt & He & Hc & Hf).
    destruct (gr_log _ _ _ _ Hg _ _ Hll) as (ll' & Hll' & Hp). exists ll'. pose proof (prefix_length _ _ Hp).
    split_and!; [done|by apply (lookup_weaken _ _ _ _ Ho), (gr_owner _ _ _ _ Hg)|by eapply term_at_prefix| |lia|rewrite (prefix_take_eq ll ll') by done; by apply extend_final].
    etrans; [exact He|]. apply prefix_drop; [by eapply term_at_length|done].
  - intros t v i Ha. destruct (sf_ack _ _ _ Hs _ _ _ Ha) as ((ll & Hll & Hi) & b & Hb & ?). split.
    + destruct (gr_log _ _ _ _ Hg _ _ Hll) as (ll' & ? & Hp%prefix_length). exists ll'. split; [done|lia].
    + destruct (gr_node _ _ _ _ Hg _ _ Hb) as (b' & ? & ?). exists b'. split; [done|lia].
  - intros v b t i ll Hb Hll Ha [Hc|[-> Hnew]]%extend_choosable.
    + destruct (extend_prefix t i ll Hc Hll) as (ll0 & Hll0 & ->).
      destruct (extend_acked _ _ _ Ha) as [Ha0|[-> ->]].
      * apply Hin in Hb as [[-> ->]|[_ Hb]]; [apply prefix_app_r|]; by apply (sf_kept _ _ _ Hs _ _ t i ll0 ltac:(done) Hll0).
      * apply Hin in Hb as [[_ ->]|[? _]]; [simpl|done]. destruct Hknown as [[? _]|[? _]]; [congruence|].
        simplify_eq. apply prefix_app_r, prefix_take.
    + assert (v = n) as -> by (by apply Hnew). apply Hin in Hb as [[_ ->]|[? _]]; [|done].
      rewrite extend_log, decide_True in Hll by done. injection Hll as <-. apply prefix_take.
  - intros t t' v c i ll C Hgr Hlt Hll HC Ha [Hc|[-> Hnew]]%extend_choosable.
    + destruct (extend_prefix t i ll Hc Hll) as (ll0 & Hll0 & ->).
      destruct (extend_acked _ _ _ Ha) as [Ha0|[-> ->]]; [by apply (sf_vote _ _ _ Hs t t' v c i)|].
      destruct (sf_grant _ _ _ Hs _ _ _ Hgr) as [(b & Hb & ?) _]. simplify_eq. lia.
    + assert (v = n) as -> by (by apply Hnew). destruct (sf_grant _ _ _ Hs _ _ _ Hgr) as [(b & Hb & ?) _]. simplify_eq. lia.
  - intros v b [[-> ->]|[Hne Hb]]%Hin; simpl.
    + rewrite take_app_le by done. by apply extend_final, (sf_commit _ _ _ Hs n a).
    + by apply extend_final, (sf_commit _ _ _ Hs v).
Qed.
End extend.
(** ** A follower's log *)
Section store.
Context (s : Spec) (g : Ghost) (n : Z) (a : SNode) (m : SAppend) (j k : nat) (e : LogEntry).
Context (Hs : safe s g) (Hn : sp_node s !! n = Some a) (Hf : sn_role a = Follower).
Context (Hm : m ∈ sp_appends s) (Ht : sa_term m = sn_term a) (Hup : matches_upto (sn_log a) m j).
Context (He : sa_entries m !! j = Some e) (Hconf : ¬ same_term (sn_log a) (sa_prev m + j) e).

Let log' : list LogEntry := take (sa_prev m + j) (sn_log a) ++ take k (drop j (sa_entries m)).
Let a' : SNode := mk_SNode (sn_term a) Follower log' (sn_commit a).
Let s' : Spec := sp_put n a' s.

(** The new log is the leader's, up to some point not before the conflict. *)
Lemma stored_log : ∃ ll q, g_log g !! sn_term a = Some ll ∧ log' = take q ll ∧ (sa_prev m + j ≤ q)%nat ∧
  (sa_prev m + j ≤ length (sn_log a))%nat ∧ take (sa_prev m + j) (sn_log a) = take (sa_prev m + j) ll ∧
  ll !! (sa_prev m + j)%nat = Some e.
Proof.
  destruct (matches_agree s g n a m j Hs Hn Hm Ht Hup) as (ll & Hll & [z Hz] & Heq & Hl1 & Hl2 & _).
  { apply lookup_lt_Some in He. lia. }
  set (p := sa_prev m) in *. exists ll, (p + j + min k (length (sa_entries m) - j))%nat. split_and!; [done| |lia|done|done|].
  - unfold log'. rewrite Heq.
    assert (Hd : drop (p + j) ll = drop j (sa_entries m) ++ z).
    { rewrite <- drop_drop, Hz, drop_app_le; [done|]. apply lookup_lt_Some in He. lia. }
    rewrite <- (take_take_drop ll (p + j)), Hd, take_app_le by (rewrite length_drop; lia). f_equal.
    destruct (decide (k ≤ length (sa_entries m) - j)%nat); [by rewrite Nat.min_l|].
    rewrite Nat.min_r by lia. rewrite !take_ge by (rewrite length_drop; lia). done.
  - rewrite <- lookup_drop, Hz. apply lookup_app_l_Some. done.
Qed.

(** What the old log and the leader's share stays. *)
Lemma stored_keeps P ll : g_log g !! sn_term a = Some ll → P `prefix_of` sn_log a → P `prefix_of` ll → P `prefix_of` log'.
Proof.
  intros Hll HP1 HP2. destruct stored_log as (ll' & q & Hll' & -> & Hq & Hlen & _ & Hlle). simplify_eq.
  assert (length P ≤ sa_prev m + j)%nat.
  { destruct (decide (length P ≤ sa_prev m + j)%nat); [done|]. exfalso. apply Hconf. unfold same_term.
    destruct (lookup_lt_is_Some_2 P (sa_prev m + j)) as [x Hx]; [lia|].
    rewrite (prefix_lookup_Some _ _ _ _ Hx HP1). rewrite (prefix_lookup_Some _ _ _ _ Hx HP2) in Hlle. by simplify_eq. }
  apply (prefix_shorter _ _ ll); [done|apply prefix_take|]. rewrite length_take. apply prefix_length in HP2. lia.
Qed.

Lemma store_not_owner : g_owner g !! sn_term a ≠ Some n.
Proof.
  intros Ho. destruct (sf_owned _ _ _ Hs n a Hn Ho) as [Hll _].
  destruct stored_log as (ll & q & Hll' & _ & _ & _ & _ & Hlle). simplify_eq. apply Hconf. unfold same_term. by rewrite Hlle.
Qed.

Lemma store_kept t i ll : g_log g !! t = Some ll → acked s g n t (S i) → choosable s g t i → take (S i) ll `prefix_of` log'.
Proof.
  intros Hll Ha Hc. pose proof (acked_term s g n t (S i) a Hs Ha Hn) as Hle.
  destruct stored_log as (ll' & _ & Hll' & _). apply (stored_keeps _ ll'); [done|by apply (sf_kept _ _ _ Hs n a t)|].
  destruct (decide (t = sn_term a)) as [->|]; [simplify_eq; apply prefix_take|].
  apply (later_leader_has members s g t (sn_term a)); [done|lia|done..].
Qed.

Lemma store_commit : take (sn_commit a) log' = take (sn_commit a) (sn_log a).
Proof.
  destruct stored_log as (ll & _ & Hll & _). destruct (sf_node _ _ _ Hs n a Hn) as (_ & _ & _ & Hlen).
  pose proof (sf_commit _ _ _ Hs n a Hn) as Hfin.
  assert (Hp : take (sn_commit a) (sn_log a) `prefix_of` log').
  { apply (stored_keeps _ ll Hll); [apply prefix_take|]. by apply (final_in_log members s g (sn_term a) (sn_term a)). }
  rewrite (prefix_take_eq _ _ _ Hp) by (rewrite length_take; lia). by rewrite take_take, Nat.min_id.
Qed.

Lemma store_safe : safe s' g.
Proof.
  destruct stored_log as (ll & q & Hll & Hlog & Hq & _ & Heq & _).
  assert (Hg : grows s g s' g) by (apply (grows_put s g n a); [done|simpl; lia]).
  assert (Hin : ∀ v b, sp_node s' !! v = Some b → v = n ∧ b = a' ∨ v ≠ n ∧ sp_node s !! v = Some b).
  { unfold s'. simpl. intros v b [[<- <-]|[? ?]]%lookup_insert_Some; [by left|by right]. }
  assert (Hch : ∀ t i, choosable s' g t i → choosable s g t i).
  { intros t i Hc. apply (choosable_back s g s' g); [done|done|apply Hc| |done]. intros v Ha. by left. }
  assert (Hold : ∀ v b, sp_node s !! v = Some b → ∃ b', sp_node s' !! v = Some b' ∧ sn_term b ≤ sn_term b')
    by apply (gr_node _ _ _ _ Hg).
  split; try apply Hs.
  - unfold s'. simpl. rewrite (dom_put s n a a' Hn). apply Hs.
  - intros t v c Hgr. destruct (sf_grant _ _ _ Hs _ _ _ Hgr) as [(b & Hb & ?) ?]. split; [|done].
    destruct (Hold v b Hb) as (b' & ? & ?). exists b'. split; [done|lia].
  - intros t c C HC. destruct (sf_cand _ _ _ Hs _ _ _ HC) as (? & ? & ? & b & Hb & ?). split_and!; try done.
    destruct (Hold c b Hb) as (b' & ? & ?). exists b'. split; [done|lia].
  - intros v b [[-> ->]|[Hne Hb]]%Hin; [simpl|by apply (sf_node _ _ _ Hs v)].
    destruct (sf_node _ _ _ Hs n a Hn) as (? & _ & _ & Hlen). split_and!; [done|..].
    + rewrite Hlog. eapply rooted_prefix; [apply (sf_log _ _ _ Hs _ _ Hll)|apply prefix_take].
    + rewrite Hlog. apply Forall_take. by apply (log_terms s g).
    + pose proof store_commit as Hc. apply (f_equal length) in Hc. rewrite !length_take in Hc. lia.
  - intros v b [[-> ->]|[Hne Hb]]%Hin; [intros Ho; by destruct store_not_owner|by apply (sf_owned _ _ _ Hs v)].
  - intros v b [[-> ->]|[Hne Hb]]%Hin Hr; [done|by apply (sf_leader _ _ _ Hs v)].
  - intros v b [[-> ->]|[Hne Hb]]%Hin Hr; [done|by apply (sf_candidate _ _ _ Hs v)].
  - intros t v i Ha. destruct (sf_ack _ _ _ Hs _ _ _ Ha) as (? & b & Hb & ?). split; [done|].
    destruct (Hold v b Hb) as (b' & ? & ?). exists b'. split; [done|lia].
  - intros v b t i ll0 [[-> ->]|[Hne Hb]]%Hin Hll0 Ha Hc; apply Hch in Hc.
    + by apply (store_kept t i).
    + by apply (sf_kept _ _ _ Hs v b t).
  - intros t t' v c i ll0 C Hgr Hlt Hll0 HC Ha Hc. by apply (sf_vote _ _ _ Hs t t' v c i); [..|apply Hch].
  - intros v b [[-> ->]|[Hne Hb]]%Hin; [simpl|by apply (sf_commit _ _ _ Hs v)].
    rewrite store_commit. by apply (sf_commit _ _ _ Hs n a).
Qed.
End store.

(** ** Every step *)

(** A candidate with a quorum is the first leader of its term. *)
Lemma no_leader_yet s g n a Q :
  safe s g → sp_node s !! n = Some a → sn_role a = Candidate → quorum members Q →
  (∀ v, v ∈ Q → (sn_term a, v, n) ∈ sp_grants s) → g_log g !! sn_term a = None ∧ g_owner g !! sn_term a = None.
Proof.
  intros Hs Hn Hr HQ HQg.
  assert (Hno : g_log g !! sn_term a = None).
  { destruct (g_log g !! sn_term a) as [ll|] eqn:Hll; [|done]. exfalso.
    destruct (sf_log _ _ _ Hs _ _ Hll) as (_ & m & C & own & Q' & Hm & _ & _ & _ & HQ' & HQg').
    destruct (quorums_meet _ _ _ HQ HQ') as (v & Hv & Hv').
    assert (n = m) as -> by (by eapply (sf_unique _ _ _ Hs); [apply HQg|apply HQg']).
    by destruct (sf_owned _ _ _ Hs m a Hn Hm). }
  split; [done|]. destruct (g_owner g !! sn_term a) eqn:Ho; [|done].
  destruct (sf_owner _ _ _ Hs _ _ Ho). congruence.
Qed.

Lemma final_prefix s g b l l' : final s g b l → l' `prefix_of` l → final s g b l'.
Proof.
  intros [->|(t & i & ll & ? & ? & ? & Hp)] Hl; [left; by apply prefix_nil_inv|].
  right. exists t, i, ll. split_and!; try done. by etrans.
Qed.

Lemma step_safe s s' g : safe s g → spec_step members s s' → ∃ g', safe s' g' ∧ grows s g s' g'.
Proof.
  intros Hs Hstep. destruct Hstep as [n a t Hn Hr Ht|n a t Hn Ht|n a c Hn Hc|n a Hn Hr|n a r Hn Hr Ht Hup Hu|n a Q e Hn Hr HQ HQg He
    |n a es Hn Hr Hes|n a prev pt k commit Hn Hr Hpt Hc|n a m j e k Hn Hr Hm Ht Hup He Hconf|n a m Hn Hr Hm Ht Hup
    |n a m Hn Hr Hm Ht Hup Hc|n a Q i e Hn Hr HQ HQa Hi He];
    pose proof (sf_node _ _ _ Hs n a Hn) as (Ht0 & Hroot & Hle & Hlen); pose proof (sf_commit _ _ _ Hs n a Hn) as Hfin.
  - exists (g_stand t n (sn_log a) g). split; [by apply stand_safe|].
    destruct (grows_stand s g n a t Hs Hn Ht) as [G1 G2 G3 G4 _].
    destruct (grows_put s g n a (mk_SNode t Candidate (sn_log a) (sn_commit a)) Hn) as [_ _ _ _ G5]; [simpl; lia|]. by split.
  - exists g. split; [|apply (grows_put s g n a); [done|simpl; lia]].
    apply (put_same_log s g n a); simpl; try done; [lia|by left|]. by eapply final_grows; [apply grows_refl| |]; [|done]; lia.
  - exists g. split; [|apply (grows_put s g n a); [done|simpl; lia]].
    apply (put_same_log s g n a); simpl; try done; [by left|lia|]. by apply (final_prefix _ _ _ _ _ Hfin), take_prefix_le.
  - exists g. split; [by apply ask_safe|by apply grows_messages].
  - exists g. split; [by apply grant_safe|by apply grows_messages].
  - exists (g_extend (sn_term a) n (sn_log a ++ [e]) g). split.
    + apply extend_safe; [done|done|by constructor| |by left; eapply no_leader_yet].
      exists (sn_log a), [], Q. rewrite app_nil_r. split_and!; try done. by apply (sf_candidate _ _ _ Hs n a).
    + apply extend_grows; [done|by left; eapply no_leader_yet].
  - exists (g_extend (sn_term a) n (sn_log a ++ es) g).
    assert (Hll : g_log g !! sn_term a = Some (sn_log a) ∧ g_owner g !! sn_term a = Some n)
      by (split; [by eapply leader_log|by apply (sf_leader _ _ _ Hs n a)]).
    split; [|apply extend_grows; [done|by right]]. apply extend_safe; [done..| |by right].
    destruct Hll as [Hll Ho]. destruct (sf_log _ _ _ Hs _ _ Hll) as (_ & x & C & own & Q & Hx & Hrest). simplify_eq. by exists C, own, Q.
  - exists g. split; [by apply send_safe|by apply grows_messages].
  - exists g. split; [by apply (store_safe s g n a m j k e)|apply (grows_put s g n a); [done|simpl; lia]].
  - exists g. split; [by apply ack_safe|]. by apply grows_ack.
  - exists g. split; [|apply (grows_put s g n a); [done|simpl; lia]].
    destruct (matches_agree s g n a m _ Hs Hn Hm Ht Hup) as (ll & Hll & _ & Heq & Hl1 & Hl2 & Hfm); [lia|].
    apply (put_same_log s g n a); simpl; try done; [by left|lia|].
    apply (f_equal (take (sa_commit m))) in Heq. rewrite !take_take, !Nat.min_l in Heq by done. by rewrite Heq.
  - exists g. split; [|apply (grows_put s g n a); [done|simpl; lia]].
    pose proof (leader_log s g n a Hs Hn Hr) as Hll. pose proof (lookup_lt_Some _ _ _ Hi) as Hlt.
    apply (put_same_log s g n a); [done|done|done|simpl; lia|by right|simpl; lia|simpl]. right. exists (sn_term a), i, (sn_log a).
    split_and!; [lia|done| |done]. split; [by exists (sn_log a), e|]. exists Q. split; [done|]. intros v Hv.
    destruct (HQa v Hv) as [->|(i' & ? & ?)]; [right|left; by exists i']. split; [by apply (sf_leader _ _ _ Hs n a)|].
    exists (sn_log a). split; [done|lia].
Qed.

Lemma grows_trans s1 g1 s2 g2 s3 g3 : grows s1 g1 s2 g2 → grows s2 g2 s3 g3 → grows s1 g1 s3 g3.
Proof.
  intros [A1 A2 A3 A4 A5] [B1 B2 B3 B4 B5]. split; [|by etrans..|].
  - intros t ll Hll. destruct (A1 t ll Hll) as (ll' & Hll' & ?). destruct (B1 t ll' Hll') as (ll'' & ? & ?).
    exists ll''. split; [done|by etrans].
  - intros v a Ha. destruct (A5 v a Ha) as (a' & Ha' & ?). destruct (B5 v a' Ha') as (a'' & ? & ?). exists a''. split; [done|lia].
Qed.

Lemma steps_safe s s' g : safe s g → spec_steps members s s' → ∃ g', safe s' g' ∧ grows s g s' g'.
Proof.
  intros Hs Hsteps. revert g Hs. induction Hsteps as [s|s s1 s' Hstep _ IH]; intros g Hs; [exists g; split; [done|apply grows_refl]|].
  destruct (step_safe s s1 g Hs Hstep) as (g1 & Hs1 & Hg1). destruct (IH g1 Hs1) as (g2 & Hs2 & Hg2).
  exists g2. split; [done|by eapply grows_trans].
Qed.

Lemma initial_safe s : spec_initial members s → safe s (mk_Ghost ∅ ∅ ∅).
Proof.
  intros (Hd & Er & Eg & Ea & Ek & Hn).
  assert (Hnode : ∀ n a, sp_node s !! n = Some a → 0 ≤ sn_term a ∧ sn_role a = Follower ∧ sn_log a = [] ∧ sn_commit a = O)
    by (intros n a Ha; by apply (Hn n a Ha)).
  split; rewrite ?Er, ?Eg, ?Ea, ?Ek; try done; try set_solver.
  - intros n a Ha. destruct (Hnode n a Ha) as (? & _ & -> & ->). split_and!; [done|by intros k e|done|done].
  - intros n a Ha Hr. destruct (Hnode n a Ha) as (_ & ? & _). congruence.
  - intros n a Ha Hr. destruct (Hnode n a Ha) as (_ & ? & _). congruence.
  - intros n a Ha. destruct (Hnode n a Ha) as (_ & _ & -> & ->). by left.
Qed.

Lemma spec_reachable_safe s0 s : spec_initial members s0 → spec_steps members s0 s → ∃ g, safe s g.
Proof. intros Hi Hs. destruct (steps_safe s0 s _ (initial_safe s0 Hi) Hs) as (g & ? & _). by exists g. Qed.

(** What two nodes have committed, at two points of a run, agrees. *)
Lemma commits_agree s1 s2 g1 n1 n2 a1 a2 k :
  safe s1 g1 → spec_steps members s1 s2 → sp_node s1 !! n1 = Some a1 → sp_node s2 !! n2 = Some a2 →
  (k < sn_commit a1)%nat → (k < sn_commit a2)%nat → sn_log a1 !! k = sn_log a2 !! k.
Proof.
  intros Hs1 Hsteps Hn1 Hn2 Hk1 Hk2. destruct (steps_safe s1 s2 g1 Hs1 Hsteps) as (g2 & Hs2 & Hg).
  pose proof (sf_commit _ _ _ Hs1 _ _ Hn1) as F1. pose proof (sf_commit _ _ _ Hs2 _ _ Hn2) as F2.
  apply (final_grows members s1 g1 s2 g2 _ _ _ Hg (Z.le_refl _)) in F1.
  destruct (sf_node _ _ _ Hs1 _ _ Hn1) as (_ & _ & _ & L1). destruct (sf_node _ _ _ Hs2 _ _ Hn2) as (_ & _ & _ & L2).
  rewrite <- (lookup_take_lt (sn_log a1) (sn_commit a1)), <- (lookup_take_lt (sn_log a2) (sn_commit a2)) by done.
  apply prefix_both_lookup; [by eapply final_agree|rewrite length_take; lia..].
Qed.

(** A request of a node's own term comes from its leader. *)
Lemma append_from_leader s g n a m :
  safe s g → sp_node s !! n = Some a → m ∈ sp_appends s → sa_term m = sn_term a → sn_role a = Leader → sa_leader m = n.
Proof.
  intros Hs Hn Hm Ht Hr. destruct (sf_append _ _ _ Hs m Hm) as (ll & _ & Ho & _). rewrite Ht in Ho.
  rewrite (sf_leader _ _ _ Hs n a Hn Hr) in Ho. by injection Ho.
Qed.

(** What a node has committed is in the log of every leader of a later term. *)
Lemma leader_has_committed s1 s2 g1 n1 n2 a1 a2 k :
  safe s1 g1 → spec_steps members s1 s2 → sp_node s1 !! n1 = Some a1 → sp_node s2 !! n2 = Some a2 →
  sn_role a2 = Leader → sn_term a1 ≤ sn_term a2 → (k < sn_commit a1)%nat → sn_log a1 !! k = sn_log a2 !! k.
Proof.
  intros Hs1 Hsteps Hn1 Hn2 Hr Ht Hk. destruct (steps_safe s1 s2 g1 Hs1 Hsteps) as (g2 & Hs2 & Hg).
  pose proof (sf_commit _ _ _ Hs1 _ _ Hn1) as F1. apply (final_grows members s1 g1 s2 g2 _ _ _ Hg (Z.le_refl _)) in F1.
  pose proof (final_in_log _ _ _ _ _ _ _ Hs2 F1 Ht (leader_log _ _ _ _ Hs2 Hn2 Hr)) as Hp.
  destruct (sf_node _ _ _ Hs1 _ _ Hn1) as (_ & _ & _ & L1).
  rewrite <- (lookup_take_lt (sn_log a1) (sn_commit a1)) by done.
  destruct (lookup_lt_is_Some_2 (take (sn_commit a1) (sn_log a1)) k) as [x Hx]; [rewrite length_take; lia|].
  rewrite Hx. symmetry. by eapply prefix_lookup_Some.
Qed.

(** Log matching. *)
Lemma logs_match s g n1 n2 a1 a2 k e1 e2 :
  safe s g → sp_node s !! n1 = Some a1 → sp_node s !! n2 = Some a2 →
  sn_log a1 !! k = Some e1 → sn_log a2 !! k = Some e2 → le_term e1 = le_term e2 →
  take (S k) (sn_log a1) = take (S k) (sn_log a2).
Proof.
  intros Hs Hn1 Hn2. apply (rooted_match (g_log g)); [apply (sf_node _ _ _ Hs n1 a1 Hn1)|apply (sf_node _ _ _ Hs n2 a2 Hn2)].
Qed.

(** What a node knows to be final is never cut from its log. *)
Lemma final_kept_step s s' g n a P :
  safe s g → spec_step members s s' → sp_node s !! n = Some a → final s g (sn_term a) P → P `prefix_of` sn_log a →
  ∃ a', sp_node s' !! n = Some a' ∧ P `prefix_of` sn_log a' ∧ sn_term a ≤ sn_term a'.
Proof.
  intros Hs Hstep Hn Hf HP.
  assert (Hput : ∀ v b b' σ, sp_node s !! v = Some b → sp_node σ = <[v := b']> (sp_node s) → sn_term b ≤ sn_term b' →
    (v = n → P `prefix_of` sn_log b → P `prefix_of` sn_log b') →
    ∃ a', sp_node σ !! n = Some a' ∧ P `prefix_of` sn_log a' ∧ sn_term a ≤ sn_term a').
  { intros v b b' σ Hv -> Ht Hk. destruct (decide (v = n)) as [->|Hne].
    - exists b'. rewrite lookup_insert_eq. simplify_eq. split_and!; [done|by apply Hk|done].
    - exists a. rewrite lookup_insert_ne by done. by split_and!. }
  destruct Hstep; try (by exists a); (eapply Hput; [|reflexivity| |]); try eassumption; simpl; try lia; try done;
    try (intros _ Hb; by apply prefix_app_r).
  intros -> Hb. assert (a0 = a) as -> by congruence.
  destruct (sf_append _ _ _ Hs m) as (ll & Hll & _); [done|]. rewrite H2 in Hll.
  apply (stored_keeps s g n a m j k e Hs) with (ll := ll); try done. by apply (final_in_log members s g (sn_term a) (sn_term a)).
Qed.

Lemma committed_kept s s' g n a a' :
  safe s g → spec_steps members s s' → sp_node s !! n = Some a → sp_node s' !! n = Some a' →
  take (sn_commit a) (sn_log a) `prefix_of` sn_log a'.
Proof.
  intros Hs Hst Hn Hn'. pose proof (sf_commit _ _ _ Hs _ _ Hn) as Hf. pose proof (prefix_take (sn_log a) (sn_commit a)) as HP.
  set (P := take (sn_commit a) (sn_log a)) in *. clearbody P. revert g a Hs Hn Hf HP.
  induction Hst as [s|s1 s2 s3 H1 _ IH]; intros g a Hs Hn Hf HP; [by simplify_eq|].
  destruct (final_kept_step _ _ _ _ _ _ Hs H1 Hn Hf HP) as (b & Hb & HPb & Htb). destruct (step_safe _ _ _ Hs H1) as (g2 & Hs2 & Hg2).
  apply (IH Hn' g2 b Hs2 Hb); [|done]. by eapply final_grows.
Qed.
End steps.
