(* ===== verification/RaftRefine.v ===== *)
(** * The Raft core refines the specification

    A node of RaftCluster.v and its counterpart in the specification; each
    handler is a sequence of steps of the specification. *)
From S2P Require Import Prelude RaftLog RaftCore RaftHandlers RaftCluster RaftReplication RaftSpec RaftSafety RaftSteps.
Open Scope Z_scope.

Section refine.
Context `{LogMeta L} `{!LogSpec L}.
Context (members : gset Z).
Implicit Types (c : RaftCore L) (l : L) (σ : Spec).

Definition entries_of l : list LogEntry := lv_entries (log_view l).

(** Nothing of the log has been truncated in front. *)
Definition whole l : Prop := log_inv l ∧ lv_first (log_view l) = 1.

(** ** Reading a whole log *)
Lemma whole_last l : whole l → getLastLogIndex l = Z.of_nat (length (entries_of l)).
Proof. intros [Hi Hf]. rewrite spec_last by done. unfold lv_last, entries_of. lia. Qed.

Lemma whole_lookup l (i : nat) : whole l → lv_lookup (log_view l) (Z.of_nat (S i)) = entries_of l !! i.
Proof.
  intros [_ Hf]. unfold lv_lookup, entries_of. rewrite Hf, (proj2 (Z.ltb_ge _ _)) by lia. f_equal. lia.
Qed.

Lemma whole_term_at l (i : nat) : whole l → getTerm l (Z.of_nat i) = term_at (entries_of l) i.
Proof.
  intros Hw. pose proof Hw as [Hi Hf]. destruct i as [|k]; [by apply spec_getTerm_0|]. simpl term_at.
  destruct (decide (k < length (entries_of l))%nat) as [Hk|Hk].
  - rewrite spec_getTerm_in by (try done; unfold lv_last, entries_of in *; lia). by rewrite whole_lookup.
  - rewrite lookup_ge_None_2 by lia. apply spec_getTerm_above; [done|unfold lv_last, entries_of in *; lia|lia].
Qed.

Lemma whole_index l k e : whole l → entries_of l !! k = Some e → le_index e = Z.of_nat (S k).
Proof. intros [Hi Hf] Hk. destruct (log_view_wf l Hi) as [_ Hn]. rewrite (Hn k e Hk), Hf. lia. Qed.

(** ** Nodes and messages *)
Record node_rel σ (n : Z) c (a : SNode) : Prop := {
  nr_log : whole (core_mLog c);
  nr_entries : sn_log a = entries_of (core_mLog c);
  nr_term : sn_term a = core_term c;
  nr_role : sn_role a = mRaftRole c;
  nr_commit : Z.of_nat (sn_commit a) = mCommitIndex c;
  nr_peers k p : mPeers c !! k = Some p → 0 ≤ mMatchIndex p ∧ 1 ≤ mNextIndex p;
  nr_match k p : mRaftRole c = Leader → mPeers c !! k = Some p →
    mMatchIndex p = 0 ∨ (core_term c, k, Z.to_nat (mMatchIndex p)) ∈ sp_acks σ;
  nr_votes k p : mRaftRole c = Candidate → mPeers c !! k = Some p → mHaveVote p = true →
    (core_term c, k, n) ∈ sp_grants σ;
  nr_self : mRaftRole c = Candidate → (core_term c, n, n) ∈ sp_grants σ }.

Definition append_rel (src : Z) (req : AE_Request) (m : SAppend) : Prop :=
  sa_term m = ae_term req ∧ sa_leader m = src ∧ Z.of_nat (sa_prev m) = ae_prev_log_index req ∧
  sa_prevTerm m = ae_prev_log_term req ∧ sa_entries m = ae_entries req ∧ Z.of_nat (sa_commit m) = ae_commit_index req ∧
  (sa_commit m ≤ sa_prev m + length (sa_entries m))%nat.

Definition msg_rel σ (m : Msg) : Prop :=
  match m with
  | MsgAEReq src _ req => ∃ a, a ∈ sp_appends σ ∧ append_rel src req a
  | MsgAEResp src _ _ resp => aer_success resp = true →
      0 ≤ aer_match_index resp ∧ (aer_saved_term resp, src, Z.to_nat (aer_match_index resp)) ∈ sp_acks σ
  | MsgRVReq src _ req => ∃ r, r ∈ sp_reqs σ ∧ sr_term r = rv_term req ∧ sr_cand r = src ∧
      Z.of_nat (sr_last r) = rv_last_log_index req ∧ sr_lastTerm r = rv_last_log_term req
  | MsgRVResp src dst _ resp => rvr_vote_granted resp = true → (rvr_saved_term resp, src, dst) ∈ sp_grants σ
  end.

Record more σ σ' : Prop := {
  mo_reqs : sp_reqs σ ⊆ sp_reqs σ';
  mo_grants : sp_grants σ ⊆ sp_grants σ';
  mo_appends : sp_appends σ ⊆ sp_appends σ';
  mo_acks : sp_acks σ ⊆ sp_acks σ' }.

Lemma more_refl σ : more σ σ. Proof. done. Qed.
Lemma more_trans σ1 σ2 σ3 : more σ1 σ2 → more σ2 σ3 → more σ1 σ3.
Proof. intros [] []. split; by etrans. Qed.

Lemma msg_rel_more σ σ' m : more σ σ' → msg_rel σ m → msg_rel σ' m.
Proof. intros [] . destruct m; simpl; naive_solver. Qed.

Lemma node_rel_more σ σ' n c a : more σ σ' → node_rel σ n c a → node_rel σ' n c a.
Proof. intros [] []. split; try done; naive_solver. Qed.

(** The same node after changes that do not concern the specification. *)
Record alike c c' : Prop := {
  al_log : core_mLog c' = core_mLog c;
  al_role : mRaftRole c' = mRaftRole c;
  al_commit : mCommitIndex c' = mCommitIndex c;
  al_peers k p' : mPeers c' !! k = Some p' → ∃ p, mPeers c !! k = Some p ∧
    mMatchIndex p' = mMatchIndex p ∧ mNextIndex p' = mNextIndex p ∧ mHaveVote p' = mHaveVote p }.

Lemma alike_rel σ n c c' a : alike c c' → node_rel σ n c a → node_rel σ n c' a.
Proof.
  intros [A1 A2 A3 A4] [R1 R2 R3 R4 R5 R6 R7 R8 R9]. unfold core_term in *.
  split; unfold core_term; rewrite ?A1, ?A2, ?A3; try done.
  - intros k p' (p & Hp & -> & -> & _)%A4. by apply (R6 k).
  - intros k p' Hr (p & Hp & -> & _ & _)%A4. by apply R7.
  - intros k p' Hr (p & Hp & _ & _ & ->)%A4. by apply R8.
Qed.

Lemma alike_refl c : alike c c.
Proof. split; try done. intros k p Hp. by exists p. Qed.

Lemma alike_trans c1 c2 c3 : alike c1 c2 → alike c2 c3 → alike c1 c3.
Proof.
  intros [A1 A2 A3 A4] [B1 B2 B3 B4]. split; try congruence. intros k p'' (p' & Hp' & E1 & E2 & E3)%B4.
  destruct (A4 _ _ Hp') as (p & ? & ? & ? & ?). exists p. split_and!; congruence.
Qed.

Lemma update_peer_alike c k p :
  is_Some (mPeers c !! k) → mMatchIndex p = mMatchIndex (peer_at c k) → mNextIndex p = mNextIndex (peer_at c k) →
  mHaveVote p = mHaveVote (peer_at c k) → alike c (update_peer c k p).
Proof.
  intros [q Hq] E1 E2 E3. unfold peer_at in *. rewrite Hq in *. split; try done.
  intros i p'. simpl. intros [[<- <-]|[Hne Hp]]%lookup_insert_Some; [by exists q|by exists p'].
Qed.

(** ** What a handler has to do *)
Definition sim σ (n : Z) c' (acts : list RaftAction) : Prop :=
  ∃ σ' a', spec_steps members σ σ' ∧ sp_node σ' = <[n := a']> (sp_node σ) ∧ more σ σ' ∧ node_rel σ' n c' a' ∧
    Forall (msg_rel σ') (msgs_of n acts) ∧
    ∀ x, x ∈ sp_grants σ' → x ∈ sp_grants σ ∨ core_vote c' ≠ 0 ∧ x = (core_term c', n, core_vote c').

Lemma sim_stay σ n c' a acts :
  sp_node σ !! n = Some a → node_rel σ n c' a → Forall (msg_rel σ) (msgs_of n acts) → sim σ n c' acts.
Proof.
  intros Hn Hr Hm. exists σ, a. split_and!; [apply rtc_refl|by rewrite insert_id|done|done|done|]. intros x. by left.
Qed.
(** ** Stepping down *)
Lemma set_meta_whole l t v : whole l →
  whole (setVoteFor (setCurrentTerm l t) v) ∧ entries_of (setVoteFor (setCurrentTerm l t) v) = entries_of l.
Proof.
  intros [Hi Hf]. destruct (spec_setCurrentTerm l t Hi) as [Hi1 Hv1]. destruct (spec_setVoteFor _ v Hi1) as [Hi2 Hv2].
  unfold whole, entries_of. by rewrite Hv2, Hv1.
Qed.

(** The node after a step to a new term, with or without a new role. *)
Lemma node_rel_follow σ n c c' a :
  node_rel σ n c a → whole (core_mLog c') → entries_of (core_mLog c') = entries_of (core_mLog c) →
  mRaftRole c' = Follower → mCommitIndex c' = mCommitIndex c → mPeers c' = mPeers c →
  node_rel σ n c' (mk_SNode (core_term c') Follower (sn_log a) (sn_commit a)).
Proof.
  intros [R1 R2 R3 R4 R5 R6 R7 R8 R9] Hw He Hr Hc Hp. split; simpl; rewrite ?He, ?Hr, ?Hc, ?Hp; done.
Qed.

Lemma stepDown_sim σ n c a env t c' acts :
  sp_node σ !! n = Some a → node_rel σ n c a → stepDown env t c = Ret (c', acts) →
  ∃ a', spec_steps members σ (sp_put n a' σ) ∧ node_rel σ n c' a' ∧ Forall local_action acts ∧
    core_term c' = t ∧ mRaftRole c' = Follower ∧ mPeers c' = mPeers c ∧ sn_log a' = sn_log a.
Proof.
  intros Hn Hrel Hs. pose proof (nr_log _ _ _ _ Hrel) as Hw. unfold stepDown in Hs. apply cassert_bind in Hs as [Hle Hs].
  apply Z.leb_le in Hle. apply bind_Ret in Hs as (c1 & Hc1 & Hs).
  assert (H1 : whole (core_mLog c1) ∧ entries_of (core_mLog c1) = entries_of (core_mLog c) ∧ mRaftRole c1 = Follower ∧
    mCommitIndex c1 = mCommitIndex c ∧ mPeers c1 = mPeers c ∧ core_term c1 = t).
  { split_if Hc1.
    - inv_ret. simpl. destruct (set_meta_whole (core_mLog c) t 0 Hw). unfold core_term. simpl.
      by rewrite term_setVoteFor, term_setCurrentTerm.
    - apply cassert_bind in Hc1 as [_ [= <-]]. apply Z.ltb_ge in E. split_and!; try done. unfold core_term. simpl. lia. }
  destruct H1 as (W1 & W2 & W3 & W4 & W5 & W6).
  assert (H2 : whole (core_mLog c') ∧ entries_of (core_mLog c') = entries_of (core_mLog c) ∧ mRaftRole c' = Follower ∧
    mCommitIndex c' = mCommitIndex c ∧ mPeers c' = mPeers c ∧ core_term c' = t ∧ Forall local_action acts).
  { split_if Hs; inv_ret; split_and!; try done. apply pending_replies_local. }
  destruct H2 as (X1 & X2 & X3 & X4 & X5 & X6 & X7).
  exists (mk_SNode (core_term c') Follower (sn_log a) (sn_commit a)). split_and!; try done; [|by apply (node_rel_follow σ n c)].
  apply rtc_once. rewrite X6. destruct (decide (t = sn_term a)) as [->|Hne]; [by apply s_yield|].
  apply s_newterm; [done|]. rewrite (nr_term _ _ _ _ Hrel). unfold core_term in *. rewrite (nr_term _ _ _ _ Hrel) in Hne.
  unfold core_term in Hne. lia.
Qed.

Lemma stepDown_handler σ n c a env t c' acts :
  sp_node σ !! n = Some a → node_rel σ n c a → stepDown env t c = Ret (c', acts) → sim σ n c' acts.
Proof.
  intros Hn Hrel Hs. destruct (stepDown_sim _ _ _ _ _ _ _ _ Hn Hrel Hs) as (a' & Hst & Hr & Hl & _).
  exists (sp_put n a' σ), a'. rewrite (local_msgs n acts Hl). split_and!; try done; [by apply (node_rel_more σ)|].
  intros x. by left.
Qed.

(** ** Timers and elections *)
Lemma electionTimeout_sim σ n c a env :
  sp_node σ !! n = Some a → node_rel σ n c a → core_id c = n → n ≠ 0 → sim σ n (electionTimeout env c) [].
Proof.
  intros Hn Hrel Hid Hn0. unfold electionTimeout.
  destruct (bool_decide (mRaftRole c = Leader) || bool_decide (mRaftRole c = Syncer)) eqn:Er; [by apply (sim_stay _ _ _ a)|].
  apply orb_false_iff in Er as [Hnl%bool_decide_eq_false _].
  destruct (_ <? _); [by apply (sim_stay _ _ _ a)|].
  change (core_id _) with (core_id c). rewrite Hid. cbv zeta.
  set (t := getCurrentTerm (core_mLog c) + 1). pose proof Hrel as [R1 R2 R3 R4 R5 R6 R7 R8 R9].
  destruct (set_meta_whole (core_mLog c) t n R1) as [Hw He].
  exists (sp_grant t n n (sp_put n (mk_SNode t Candidate (sn_log a) (sn_commit a)) σ)), (mk_SNode t Candidate (sn_log a) (sn_commit a)).
  split_and!; try done.
  - apply rtc_once, s_timeout; [done|congruence|]. rewrite R3. unfold core_term, t. lia.
  - split; simpl; set_solver.
  - unfold updateElectionTimePoint. split; unfold core_term; simpl; try rewrite term_setVoteFor, term_setCurrentTerm; try done.
    + by rewrite He.
    + intros k p. rewrite lookup_fmap. destruct (mPeers c !! k) as [q|] eqn:Hq; [|done]. intros [= <-]. simpl. by apply (R6 k).
    + intros k p _. rewrite lookup_fmap. destruct (mPeers c !! k); [|done]. intros [= <-]. done.
    + intros _. set_solver.
  - unfold updateElectionTimePoint, core_term, core_vote. simpl. rewrite term_setVoteFor, term_setCurrentTerm, vote_setVoteFor.
    intros x [?|Hx]%elem_of_app; [by left|right]. split; [done|]. by apply list_elem_of_singleton in Hx.
Qed.

Lemma leadershipTimeout_sim σ n c a env c' acts :
  sp_node σ !! n = Some a → node_rel σ n c a → leadershipTimeout env c = Ret (c', acts) → sim σ n c' acts.
Proof.
  intros Hn Hrel Hl. unfold leadershipTimeout in Hl. split_if Hl; [inv_ret; by apply (sim_stay _ _ _ a)|].
  destruct (majority_value _); [|done]. split_if Hl; [inv_ret; by apply (sim_stay _ _ _ a)|]. by eapply stepDown_handler.
Qed.
(** ** Rounds of requests *)

(** A round over the peers: each turn leaves the node alike, and what is sent is
    in the specification by then. *)
Lemma round_sim {A} (f : RaftCore L * list RaftAction → A → result (RaftCore L * list RaftAction)) σ n c a xs c' acts :
  sp_node σ !! n = Some a → node_rel σ n c a →
  (∀ σ1 c1 a1 x c2 a2, more σ σ1 → sp_node σ1 = sp_node σ → alike c c1 → x ∈ xs → f (c1, a1) x = Ret (c2, a2) →
    ∃ σ2 new, spec_steps members σ1 σ2 ∧ sp_node σ2 = sp_node σ1 ∧ more σ1 σ2 ∧ sp_grants σ2 = sp_grants σ1 ∧
      alike c c2 ∧ a2 = a1 ++ new ∧ Forall (msg_rel σ2) (msgs_of n new)) →
  foldM f (c, []) xs = Ret (c', acts) → sim σ n c' acts.
Proof.
  intros Hn Hrel Hf Hr.
  apply (foldM_ind (λ x, ∃ σ1, spec_steps members σ σ1 ∧ sp_node σ1 = sp_node σ ∧ more σ σ1 ∧ sp_grants σ1 = sp_grants σ ∧
    alike c x.1 ∧ Forall (msg_rel σ1) (msgs_of n x.2))) in Hr.
  - destruct Hr as (σ1 & Hst & En & Hm & Eg & Hal & Hms). exists σ1, a. rewrite En, insert_id by done. split_and!; try done.
    + by apply (node_rel_more σ), (alike_rel _ _ c).
    + intros x. rewrite Eg. by left.
  - intros [c1 a1] x [c2 a2] (σ1 & Hst & En & Hm & Eg & Hal & Hms) Hin Hx. simpl in *.
    destruct (Hf σ1 c1 a1 x c2 a2 Hm En Hal Hin Hx) as (σ2 & new & Hst2 & En2 & Hm2 & Eg2 & Hal2 & -> & Hnew).
    exists σ2. split_and!; [by etrans|congruence|by eapply more_trans|congruence|done|].
    rewrite msgs_of_app. apply Forall_app. split; [|done]. eapply Forall_impl; [exact Hms|]. intros m. by apply msg_rel_more.
  - exists σ. split_and!; [apply rtc_refl|done|done|done|apply alike_refl|done].
Qed.

Lemma request_times_alike c c1 k p t1 t2 :
  alike c c1 → mPeers c !! k = Some p → alike c (update_peer c1 k (Peer_set_request_times p t1 t2)).
Proof.
  intros [A1 A2 A3 A4] Hp. split; simpl; try done.
  intros i p' [[<- <-]|[Hne Hi]]%lookup_insert_Some; [by exists p|by apply A4].
Qed.

Lemma appendEntries_sim σ n c a env c' acts :
  sp_node σ !! n = Some a → node_rel σ n c a → appendEntries_round env c = Ret (c', acts) → sim σ n c' acts.
Proof.
  intros Hn Hrel Hr. unfold appendEntries_round in Hr. split_if Hr; [inv_ret; by apply (sim_stay _ _ _ a)|].
  apply negb_false_iff, bool_decide_eq_true in E. pose proof Hrel as [R1 R2 R3 R4 R5 R6 R7 R8 R9].
  apply (round_sim _ σ n c a _ c' acts Hn Hrel) in Hr; [done|]. clear Hr c' acts.
  intros σ1 c1 a1 [k p] c2 a2 Hmo En Hal Hin Hx. apply elem_of_map_to_list in Hin. unfold appendEntries_peer in Hx.
  split_if Hx; [inv_ret; exists σ1, []; rewrite app_nil_r; split_and!; try done; apply rtc_refl|].
  apply bind_Ret in Hx as (pt & Hpt & Hx). apply bind_Ret in Hx as (es & Hes & Hx). apply bind_Ret in Hx as (_ & _ & Hx). inv_ret.
  rewrite (al_log _ _ Hal) in *. rewrite (al_commit _ _ Hal) in *.
  destruct (R6 k p Hin) as [Hm0 Hn1]. set (prev := Z.to_nat (mNextIndex p - 1)).
  assert (Hprev : Z.of_nat prev = mNextIndex p - 1) by lia. rewrite <- Hprev in *.
  unfold termOfLogEntryAt in Hpt. rewrite (al_log _ _ Hal) in Hpt. rewrite whole_term_at in Hpt by done.
  destruct (term_at (entries_of (core_mLog c)) prev) as [t|] eqn:Et; [|done]. injection Hpt as ->.
  assert (Hslice : ∃ q, es = take q (drop prev (entries_of (core_mLog c)))).
  { split_if Hes; [|injection Hes as <-; by exists O].
    destruct (spec_getEntries (core_mLog c) (mNextIndex p) (mMaxLenInBytes (mConf c1)) (mMaxBatchSize (mConf c1))) as (es' & q & Hg & -> & _);
      [apply R1|rewrite (proj2 R1); lia| |].
    - apply term_at_length in Et. unfold lv_last. rewrite (proj2 R1). unfold entries_of in Et. lia.
    - rewrite Hg in Hes. injection Hes as <-. exists q. unfold entries_of. f_equal. f_equal. rewrite (proj2 R1). lia. }
  destruct Hslice as [q ->]. set (es := take q _) in *.
  set (commit := Z.to_nat (Z.min (mCommitIndex c) (Z.of_nat prev + Z.of_nat (length es)))).
  exists (sp_append (mk_SAppend (sn_term a) n prev pt es commit) σ1). eexists. split_and!; [..|done|].
  - apply rtc_once. unfold es. rewrite <- R2. apply s_send; [by rewrite En|congruence|by rewrite R2|unfold commit; lia].
  - done.
  - split; simpl; set_solver.
  - done.
  - by apply request_times_alike.
  - simpl. constructor; [|done]. simpl. eexists. split; [by apply elem_of_app; right; apply list_elem_of_singleton|].
    unfold append_rel. simpl. split_and!; try done; unfold commit; lia.
Qed.
Lemma last_term_at log : term_at log (length log) = Some (last_term log).
Proof.
  unfold last_term. destruct log as [|e log] using rev_ind; [done|]. rewrite last_snoc, length_app, Nat.add_1_r. simpl.
  by rewrite lookup_app_r, Nat.sub_diag by lia.
Qed.

Lemma requestVote_sim σ n c a env c' acts :
  sp_node σ !! n = Some a → node_rel σ n c a → core_id c = n → requestVote env c = Ret (c', acts) → sim σ n c' acts.
Proof.
  intros Hn Hrel Hid Hr. unfold requestVote in Hr. split_if Hr; [inv_ret; by apply (sim_stay _ _ _ a)|].
  apply negb_false_iff, bool_decide_eq_true in E. pose proof Hrel as [R1 R2 R3 R4 R5 R6 R7 R8 R9].
  apply (round_sim _ σ n c a _ c' acts Hn Hrel) in Hr; [done|]. clear Hr c' acts.
  intros σ1 c1 a1 [k p] c2 a2 Hmo En Hal Hin Hx. apply elem_of_map_to_list in Hin. unfold requestVote_peer in Hx.
  split_if Hx; [inv_ret; exists σ1, []; rewrite app_nil_r; split_and!; try done; apply rtc_refl|].
  apply bind_Ret in Hx as (pt & Hpt & Hx). apply bind_Ret in Hx as (_ & _ & Hx). inv_ret.
  unfold termOfLogEntryAt in Hpt. rewrite (al_log _ _ Hal) in *.
  rewrite whole_last in * by done. rewrite whole_term_at, last_term_at in Hpt by done. injection Hpt as <-.
  exists (sp_request (mk_SReq (sn_term a) (core_id c) (length (sn_log a)) (last_term (sn_log a))) σ1). eexists. split_and!; [..|done|].
  - apply rtc_once, s_ask; [by rewrite En|congruence].
  - done.
  - split; simpl; set_solver.
  - done.
  - by apply request_times_alike.
  - simpl. constructor; [|done]. simpl. eexists. split; [by apply elem_of_app; right; apply list_elem_of_singleton|]. simpl.
    rewrite R2. by split_and!.
Qed.

(** ** The commit index *)
(** A majority among the peers and the node itself. *)
Lemma quorum_of_count n (P : Peer → Prop) `{∀ p, Decision (P p)} (peers : gmap Z Peer) :
  dom peers = members ∖ {[n]} → n ∈ members →
  getMajorityNumber (Z.of_nat (size peers) + 1) ≤
    1 + Z.of_nat (length (filter (λ kv : Z * Peer, P kv.2) (map_to_list peers))) →
  ∃ Q, quorum members Q ∧ ∀ v, v ∈ Q → v = n ∨ ∃ p, peers !! v = Some p ∧ P p.
Proof.
  intros Hd Hn Hmaj. set (xs := (filter (λ kv : Z * Peer, P kv.2) (map_to_list peers)).*1).
  assert (Hxs : NoDup xs).
  { eapply sublist_NoDup; [apply (NoDup_fst_map_to_list peers)|]. apply fmap_sublist, sublist_filter. }
  assert (Hin : ∀ v, v ∈ xs → ∃ p, peers !! v = Some p ∧ P p).
  { intros v ([k p] & -> & [Hf Hk%elem_of_map_to_list]%list_elem_of_filter)%list_elem_of_fmap. by exists p. }
  assert (Hsub : ∀ v, v ∈ xs → v ∈ members ∖ {[n]}).
  { intros v (p & Hp & _)%Hin. rewrite <- Hd. by eapply elem_of_dom_2. }
  exists ({[n]} ∪ list_to_set xs). split; [split|].
  - intros v [Hv|Hv%elem_of_list_to_set]%elem_of_union; set_solver.
  - rewrite size_union, size_singleton, size_list_to_set by (try done; set_solver).
    assert (Hsz : size members = S (size peers)).
    { rewrite <- (size_dom (D := gset Z) peers), Hd, (union_difference_singleton_L n members) at 1 by done.
      rewrite size_union, size_singleton by set_solver. done. }
    unfold xs. rewrite length_fmap. unfold getMajorityNumber in Hmaj. rewrite Z.shiftr_div_pow2 in Hmaj by lia. change (2 ^ 1) with 2 in Hmaj.
    Z.to_euclidean_division_equations. lia.
  - intros v [Hv%elem_of_singleton|Hv%elem_of_list_to_set]%elem_of_union; [by left|right; by apply Hin].
Qed.

Lemma advanceCommitIndex_rest c c' acts :
  advanceCommitIndex c = Ret (c', acts) →
  core_mLog c' = core_mLog c ∧ mRaftRole c' = mRaftRole c ∧ mPeers c' = mPeers c ∧ core_vote c' = core_vote c ∧ Forall local_action acts.
Proof.
  unfold advanceCommitIndex. intros Hh. split_if Hh; [by inv_ret|]. destruct (majority_value _) as [m|]; [|done].
  split_if Hh; [by inv_ret|]. apply bind_Ret in Hh as (t & _ & Hh). split_if Hh; [by inv_ret|]. apply cassert_bind in Hh as [_ Hh].
  destruct (pop_committed _ _) as [done kept]. injection Hh as <- <-. simpl. split_and!; try done. apply pending_replies_local.
Qed.

Lemma advanceCommitIndex_sim σ n c a c' acts :
  sp_node σ !! n = Some a → node_rel σ n c a → dom (mPeers c) = members ∖ {[n]} → n ∈ members →
  advanceCommitIndex c = Ret (c', acts) → sim σ n c' acts.
Proof.
  intros Hn Hrel Hdom Hmem Hh. pose proof Hrel as [R1 R2 R3 R4 R5 R6 R7 R8 R9].
  destruct (advanceCommitIndex_rest _ _ _ Hh) as (El & Er & Ep & Ev & Hl).
  destruct (decide (mCommitIndex c' = mCommitIndex c)) as [Ec|Hne].
  { apply (sim_stay _ _ _ a); [done| |by rewrite local_msgs]. apply (alike_rel _ _ c); [|done]. split; try done.
    intros k p Hp. rewrite Ep in Hp. by exists p. }
  destruct (advanceCommitIndex_majority _ _ _ Hh Hne) as (Hlead & [Hlt Hle] & Hterm & Hmaj).
  set (m := mCommitIndex c') in *. set (i := pred (Z.to_nat m)). assert (Hi : Z.of_nat (S i) = m) by lia.
  rewrite <- Hi, whole_term_at in Hterm by done. simpl in Hterm. apply fmap_Some in Hterm as (e & He & Ht).
  destruct (quorum_of_count n (λ p, m ≤ mMatchIndex p) (mPeers c) Hdom Hmem Hmaj) as (Q & HQ & HQp).
  exists (sp_put n (mk_SNode (sn_term a) Leader (sn_log a) (S i)) σ), (mk_SNode (sn_term a) Leader (sn_log a) (S i)). split_and!; try done.
  - apply rtc_once. apply (s_commit _ _ n a Q i e); [done|congruence|done| |by rewrite R2|by rewrite R3].
    intros v Hv. destruct (HQp v Hv) as [?|(p & Hp & Hm)]; [by left|right]. exists (Z.to_nat (mMatchIndex p)). split; [lia|].
    rewrite R3. destruct (R7 v p Hlead Hp) as [?|?]; [lia|done].
  - unfold core_term in *. split; simpl; unfold core_term; rewrite ?El, ?Ep, ?Er; try done; try congruence.
  - by rewrite local_msgs.
  - intros x. by left.
Qed.

(** ** Becoming leader *)
Lemma append_whole l es : whole l → contiguous (Z.of_nat (length (entries_of l)) + 1) es →
  ∃ l', appendEntries l es = (true, l') ∧ whole l' ∧ entries_of l' = entries_of l ++ es ∧ getCurrentTerm l' = getCurrentTerm l.
Proof.
  intros Hw Hc. pose proof Hw as [Hi Hf]. destruct (spec_appendEntries l es Hi) as (l' & Ha & Hi' & Hv).
  { rewrite <- (spec_last l Hi), whole_last by done. done. }
  exists l'. split; [done|]. pose proof (term_appendEntries l es) as Ht. rewrite Ha in Ht.
  unfold whole, entries_of. rewrite Hv. done.
Qed.

Lemma becomeLeader_sim σ n c a env c' :
  sp_node σ !! n = Some a → node_rel σ n c a → dom (mPeers c) = members ∖ {[n]} → n ∈ members →
  becomeLeader env c = Ret c' → sim σ n c' [].
Proof.
  intros Hn Hrel Hdom Hmem Hh. pose proof Hrel as [R1 R2 R3 R4 R5 R6 R7 R8 R9]. unfold becomeLeader in Hh.
  split_if Hh; [inv_ret; by apply (sim_stay _ _ _ a)|]. apply negb_false_iff, bool_decide_eq_true in E.
  split_if Hh; [inv_ret; by apply (sim_stay _ _ _ a)|]. apply Z.ltb_ge in E0.
  destruct (quorum_of_count n (λ p, mHaveVote p = true) (mPeers c) Hdom Hmem E0) as (Q & HQ & HQp).
  apply bind_Ret in Hh as (log & Hap & Hh). inv_ret. unfold Log_append in Hap. simpl in Hap. rewrite whole_last in Hap by done.
  set (e := mk_LogEntry _ _ _ _ _ _ _) in Hap. destruct (spec_appendEntry (core_mLog c) e) as (l' & Ha & Hi' & Hv).
  { apply R1. } { simpl. rewrite <- (spec_last _ (proj1 R1)), whole_last by done. done. }
  pose proof (term_appendEntry (core_mLog c) e) as Ht. rewrite Ha in Hap, Ht. inv_ret. simpl in Ht.
  assert (Hw : whole log ∧ entries_of log = entries_of (core_mLog c) ++ [e]).
  { unfold whole, entries_of. rewrite Hv. split; [|done]. split; [done|]. apply R1. }
  destruct Hw as [Hw He]. set (a' := mk_SNode (sn_term a) Leader (sn_log a ++ [e]) (sn_commit a)).
  exists (sp_put n a' σ), a'. split_and!; try done.
  - apply rtc_once, (s_lead _ _ n a Q e); [done|congruence|done| |by rewrite R3].
    intros v Hq. rewrite R3. destruct (HQp v Hq) as [->|(p & Hp & Hvote)]; [by apply R9|by apply (R8 v p)].
  - split; unfold core_term; simpl; try done.
    + by rewrite R2.
    + by rewrite R3, Ht.
    + intros k p. rewrite lookup_fmap. destruct (mPeers c !! k) as [q|] eqn:Hq; [|done]. intros [= <-]. simpl.
      rewrite whole_last by done. lia.
    + intros k p _. rewrite lookup_fmap. destruct (mPeers c !! k) as [q|] eqn:Hq; [|done]. intros [= <-]. by left.
  - intros x. by left.
Qed.

(** ** Client requests *)
(** The leader's log has grown by entries of its term. *)
Lemma leader_appends σ n c c' a es :
  sp_node σ !! n = Some a → node_rel σ n c a → mRaftRole c = Leader →
  whole (core_mLog c') → entries_of (core_mLog c') = entries_of (core_mLog c) ++ es → core_term c' = core_term c →
  Forall (λ e, le_term e = core_term c) es →
  mRaftRole c' = Leader → mCommitIndex c' = mCommitIndex c → mPeers c' = mPeers c → sim σ n c' [].
Proof.
  intros Hn Hrel Hlead Hw He Ht Hes Hr Hc Hp. pose proof Hrel as [R1 R2 R3 R4 R5 R6 R7 R8 R9].
  set (a' := mk_SNode (sn_term a) Leader (sn_log a ++ es) (sn_commit a)).
  exists (sp_put n a' σ), a'. split_and!; try done.
  - apply rtc_once, s_append; [done|congruence|]. by rewrite R3.
  - split; simpl; rewrite ?Hp, ?Hc, ?Hr, ?Ht, ?He, ?R2; try done. intros k p _ Hk. by apply R7.
  - intros x. by left.
Qed.

Lemma handleClientRequests_sim σ n c a reqs c' acts :
  sp_node σ !! n = Some a → node_rel σ n c a → handleClientRequests c reqs = (c', acts) → sim σ n c' acts.
Proof.
  intros Hn Hrel Hh. pose proof (handleClientRequests_quiet _ _ _ _ Hh) as [_ Hl]. unfold handleClientRequests in Hh.
  case_bool_decide as Hlead; simpl in Hh; [|injection Hh as <- <-; apply (sim_stay _ _ _ a); [done..|by rewrite local_msgs]].
  destruct (foldl _ _ _) as [[last pending] es] eqn:Ef. apply admit_requests_spec in Ef as (new & Hes & _ & _ & Hc & Ht).
  simpl in Hes. subst es. rewrite whole_last in Hc by apply Hrel.
  destruct (append_whole (core_mLog c) _ (nr_log _ _ _ _ Hrel) Hc) as (l' & Ha & Hw & He & Htt). rewrite Ha in Hh. injection Hh as <- <-.
  apply (leader_appends σ n c _ a (cr_mEntry <$> new)); try done. by apply Forall_fmap.
Qed.

(** ** Votes *)
Lemma handleRequestVoteRequest_sim σ n c a env src req s resp c' acts :
  sp_node σ !! n = Some a → node_rel σ n c a → core_id c = n → n ≠ 0 →
  msg_rel σ (MsgRVReq src n req) → rv_candidate_id req = src → src ≠ 0 →
  (∀ x, (core_term c', n, x) ∈ sp_grants σ → core_vote c' ≠ 0 → x = core_vote c') →
  handleRequestVoteRequest env c req = Ret (s, resp, c', acts) →
  sim σ n c' (acts ++ [ReplyRequestVote src s resp]).
Proof.
  intros Hn Hrel Hid Hn0 (r & Hr & Hrt & Hrc & Hrl & Hrlt) Hsrc Hsrc0 Huniq Hh. unfold handleRequestVoteRequest in Hh.
  split_if Hh. { inv_ret. apply (sim_stay _ _ _ a); [done..|]. by constructor. }
  split_if Hh. { inv_ret. apply (sim_stay _ _ _ a); [done..|]. by constructor. }
  apply Z.ltb_ge in E0. apply bind_Ret in Hh as ([c1 acts1] & Hstep & Hh).
  assert (H1 : ∃ a1, spec_steps members σ (sp_put n a1 σ) ∧ node_rel σ n c1 a1 ∧ Forall local_action acts1 ∧
    core_term c1 = rv_term req ∧ core_id c1 = core_id c).
  { split_if Hstep.
    - destruct (stepDown_sim _ _ _ _ _ _ _ _ Hn Hrel Hstep) as (a1 & ? & ? & ? & ? & _). exists a1. split_and!; try done.
      by apply stepDown_outcome in Hstep as (_ & _ & _ & _ & _ & ?).
    - inv_ret. apply Z.ltb_ge in E1. exists a. split_and!; try done; [unfold sp_put; rewrite insert_id by done; destruct σ; apply rtc_refl|].
      unfold core_term. lia. }
  destruct H1 as (a1 & Hst & Hrel1 & Hl & Ht1 & Hid1). pose proof Hrel1 as [R1 R2 R3 R4 R5 R6 R7 R8 R9].
  apply bind_Ret in Hh as (lt & Hlt & Hh). unfold termOfLogEntryAt in Hlt.
  rewrite whole_last, whole_term_at, last_term_at in Hlt by done. injection Hlt as <-. rewrite whole_last in Hh by done.
  assert (Hmore : more σ (sp_put n a1 σ)) by done.
  assert (Hterm : (if getCurrentTerm (core_mLog c) <? rv_term req then rv_term req else getCurrentTerm (core_mLog c)) = rv_term req).
  { destruct (Z.ltb_spec (getCurrentTerm (core_mLog c)) (rv_term req)); lia. }
  split_if Hh; injection Hh as <- <- <- <-.
  - apply andb_true_iff in E1 as [Hup _]. rewrite Hsrc in *.
    assert (Hct : core_term (updateElectionTimePoint env (set_mLog c1 (setVoteFor (core_mLog c1) src))) = core_term c1)
      by (unfold core_term; simpl; by autorewrite with raft_log).
    assert (Hcv : core_vote (updateElectionTimePoint env (set_mLog c1 (setVoteFor (core_mLog c1) src))) = src)
      by (unfold core_vote; simpl; by autorewrite with raft_log).
    rewrite Hct, Hcv in *.
    exists (sp_grant (sn_term a1) n src (sp_put n a1 σ)), a1. split_and!.
    + eapply rtc_r; [exact Hst|]. rewrite <- Hrc. apply s_grant; [by simpl; rewrite lookup_insert_eq|done|congruence| |].
      * rewrite Hrlt, R2. apply orb_true_iff in Hup as [?%Z.ltb_lt|[?%Z.eqb_eq ?%Z.leb_le]%andb_true_iff]; [by left|right].
        split; [done|]. lia.
      * intros x Hx. rewrite Hrc. apply Huniq; [by rewrite <- R3|done].
    + done.
    + split; simpl; set_solver.
    + destruct (spec_setVoteFor (core_mLog c1) src (proj1 R1)) as [Hi Hv].
      apply (node_rel_more (sp_put n a1 σ)); [split; simpl; set_solver|].
      split; unfold core_term in *; simpl; rewrite ?term_setVoteFor; try done.
      * unfold whole. rewrite Hv. split; [done|]. apply R1.
      * unfold entries_of. rewrite Hv. done.
    + rewrite msgs_of_app, (local_msgs n acts1 Hl). simpl. constructor; [|done]. simpl. intros _.
      rewrite <- Ht1, <- R3. set_solver.
    + rewrite Hct, Hcv, R3. simpl. intros x [?|Hx]%elem_of_app; [by left|right]. split; [done|]. by apply list_elem_of_singleton in Hx.
  - exists (sp_put n a1 σ), a1. split_and!; [done|done|done|by apply (node_rel_more σ)| |].
    + rewrite msgs_of_app, (local_msgs _ acts1 Hl). by constructor.
    + intros x. by left.
Qed.

(** ** Responses *)
Lemma turn_on_switch_alike env c k : is_Some (mPeers c !! k) → alike c (turn_on_switch env c k).
Proof. intros Hk. by apply update_peer_alike. Qed.

Lemma response_prelude_alike env c k :
  is_Some (mPeers c !! k) →
  alike c (update_peer (turn_on_switch env c k) k
             (Peer_set_response_time (peer_at (turn_on_switch env c k) k) (env_now env))).
Proof.
  intros Hk. eapply alike_trans; [by apply turn_on_switch_alike|]. apply update_peer_alike; [|done..].
  simpl. rewrite lookup_insert_eq. by eexists.
Qed.

(** A peer of the node is updated. *)
Lemma node_rel_peer σ n c a k p :
  node_rel σ n c a → 0 ≤ mMatchIndex p ∧ 1 ≤ mNextIndex p →
  (mRaftRole c = Leader → mMatchIndex p = 0 ∨ (core_term c, k, Z.to_nat (mMatchIndex p)) ∈ sp_acks σ) →
  (mRaftRole c = Candidate → mHaveVote p = true → (core_term c, k, n) ∈ sp_grants σ) →
  node_rel σ n (update_peer c k p) a.
Proof.
  intros [R1 R2 R3 R4 R5 R6 R7 R8 R9] H1 H2 H3.
  split; try done; intros i q; simpl; [|intros Hr..]; intros [[<- <-]|[Hne Hq]]%lookup_insert_Some; eauto.
Qed.

Lemma handleRequestVoteResponse_sim σ n c a env resp c' acts :
  sp_node σ !! n = Some a → node_rel σ n c a → is_Some (mPeers c !! rvr_id resp) →
  (rvr_vote_granted resp = true → (rvr_saved_term resp, rvr_id resp, n) ∈ sp_grants σ) →
  handleRequestVoteResponse env c resp = Ret (c', acts) → sim σ n c' acts.
Proof.
  intros Hn Hrel [p Hp] Hg Hh. unfold handleRequestVoteResponse in Hh.
  split_if Hh; [inv_ret; by apply (sim_stay _ _ _ a)|]. apply orb_false_iff in E as [E%negb_false_iff%Z.eqb_eq _].
  split_if Hh; [by eapply stepDown_handler|]. inv_ret. apply (sim_stay _ _ _ a); [done| |done].
  unfold peer_at. rewrite Hp. simpl. apply node_rel_peer; [done|by apply (nr_peers _ _ _ _ Hrel _ _ Hp)|..].
  - intros Hr. exact (nr_match _ _ _ _ Hrel _ _ Hr Hp).
  - intros Hr. simpl. destruct (rvr_vote_granted resp); [|exact (nr_votes _ _ _ _ Hrel _ _ Hr Hp)].
    intros _. unfold core_term. rewrite E. by apply Hg.
Qed.

Lemma handleAppendEntriesResponse_sim σ n c a env resp c' acts :
  sp_node σ !! n = Some a → node_rel σ n c a → is_Some (mPeers c !! aer_id resp) →
  (aer_success resp = true → 0 ≤ aer_match_index resp ∧
     (aer_saved_term resp, aer_id resp, Z.to_nat (aer_match_index resp)) ∈ sp_acks σ) →
  handleAppendEntriesResponse env c resp = Ret (c', acts) → sim σ n c' acts.
Proof.
  intros Hn Hrel [p Hp] Hack Hh. unfold handleAppendEntriesResponse in Hh.
  split_if Hh; [inv_ret; by apply (sim_stay _ _ _ a)|]. apply negb_false_iff, Z.eqb_eq in E.
  apply cassert_bind in Hh as [Hlead%bool_decide_eq_true Hh]. split_if Hh; [by eapply stepDown_handler|].
  unfold peer_at in Hh. rewrite Hp in Hh. simpl in Hh.
  pose proof (nr_peers _ _ _ _ Hrel _ _ Hp) as [Hm Hx]. pose proof (nr_match _ _ _ _ Hrel _ _ Hlead Hp) as Hmatch.
  assert (Hrel1 : node_rel σ n (update_peer c (aer_id resp) p) a).
  { apply node_rel_peer; [done..|]. intros Hr. by apply (nr_votes _ _ _ _ Hrel). }
  split_if Hh; [inv_ret; by apply (sim_stay _ _ _ a)|]. split_if Hh.
  - destruct (Hack eq_refl) as [Hmi Hin]. apply cassert_bind in Hh as [_ Hh]. inv_ret.
    apply (sim_stay _ _ _ a); [done| |done]. apply node_rel_peer; [done|simpl; lia|..].
    + intros _. right. simpl. unfold core_term. simpl. by rewrite E.
    + intros Hr. simpl in Hr. congruence.
  - apply cassert_bind in Hh as [Hlast%Z.leb_le Hh]. apply cassert_bind in Hh as [Hnext%Z.ltb_lt Hh]. inv_ret.
    apply (sim_stay _ _ _ a); [done| |done]. apply node_rel_peer; [done| |by intros|intros Hr; simpl in Hr; congruence].
    simpl. split; [done|]. destruct (_ + 1 <? _); [lia|]. rewrite Z.shiftr_div_pow2 by lia. change (2 ^ 1) with 2.
    Z.to_euclidean_division_equations. lia.
Qed.

Lemma AEResp_sim σ n c a env src st resp c' acts :
  sp_node σ !! n = Some a → node_rel σ n c a → is_Some (mPeers c !! src) →
  (st = StatusOK → aer_id resp = src ∧ msg_rel σ (MsgAEResp src n st resp)) →
  handle_event env c (AppendEntriesResponseEvent src st resp) = Ret (c', acts) → sim σ n c' acts.
Proof.
  intros Hn Hrel Hk Hmsg Hh. simpl in Hh. pose proof (response_prelude_alike env c src Hk) as Hal. case_bool_decide as Hst.
  - destruct (Hmsg Hst) as [<- Hack]. eapply handleAppendEntriesResponse_sim; [exact Hn| | |exact Hack|exact Hh].
    + by apply (alike_rel _ _ c).
    + simpl. rewrite lookup_insert_eq. by eexists.
  - inv_ret. apply (sim_stay _ _ _ a); [done| |done]. apply (alike_rel _ _ c); [|done].
    eapply alike_trans; [by apply (turn_on_switch_alike env)|]. apply update_peer_alike; [|done..].
    simpl. rewrite lookup_insert_eq. by eexists.
Qed.

Lemma RVResp_sim σ n c a env src st resp c' acts :
  sp_node σ !! n = Some a → node_rel σ n c a → is_Some (mPeers c !! src) →
  (st = StatusOK → rvr_id resp = src ∧ msg_rel σ (MsgRVResp src n st resp)) →
  handle_event env c (RequestVoteResponseEvent src st resp) = Ret (c', acts) → sim σ n c' acts.
Proof.
  intros Hn Hrel Hk Hmsg Hh. simpl in Hh. pose proof (response_prelude_alike env c src Hk) as Hal. case_bool_decide as Hst.
  - destruct (Hmsg Hst) as [<- Hg]. eapply handleRequestVoteResponse_sim; [exact Hn| | |exact Hg|exact Hh].
    + by apply (alike_rel _ _ c).
    + simpl. rewrite lookup_insert_eq. by eexists.
  - inv_ret. apply (sim_stay _ _ _ a); [done| |done]. apply (alike_rel _ _ c); [|done]. by apply turn_on_switch_alike.
Qed.
End refine.
