(* ===== verification/RaftReceive.v ===== *)
(** * AE_req refines the specification

    What the loop over the entries of an AE_req leaves of a log from index 1:
    nothing changes where every entry is there already, otherwise the log is cut
    at the first entry that is not and the rest of the request appended; the
    handler as steps of RaftSpec.v. *)
From S2P Require Import Prelude RaftLog RaftCore RaftHandlers RaftCluster RaftReplication RaftSpec RaftSafety RaftSteps RaftRefine.
Open Scope Z_scope.

Section receive.
Context `{LogMeta L} `{!LogSpec L}.
Context (members : gset Z).
Implicit Types (c : RaftCore L) (l : L) (σ : Spec).

(** ** The loop over the entries *)
(** Behind the end of the log the entries are collected. *)
Lemma receive_rest commit es l idx acc l' idx' acc' :
  whole l → Z.of_nat (length (entries_of l)) ≤ idx →
  foldM (λ acc entry, receive_entry acc entry commit) (l, idx, acc) es = Ret (l', idx', acc') →
  l' = l ∧ acc' = acc ++ es ∧ contiguous (idx + 1) es.
Proof.
  intros Hw. revert idx acc. induction es as [|e es IH]; intros idx acc Hi; cbn [foldM].
  - intros [= <- <- <-]. by rewrite app_nil_r.
  - intros ([[l1 i1] a1] & H1 & H2)%bind_Ret. unfold receive_entry in H1. apply cassert_bind in H1 as [He%Z.eqb_eq H1].
    rewrite whole_last in H1 by done. destruct Hw as [Hl Hf]. rewrite (spec_first l Hl), Hf in H1.
    rewrite (proj2 (Z.ltb_ge _ _)), (proj2 (Z.leb_gt _ _)) in H1 by lia. injection H1 as <- <- <-.
    apply IH in H2 as (-> & -> & Hc); [|lia]. by rewrite <- app_assoc.
Qed.

Lemma receive_whole commit es l prev l' idx' acc' :
  whole l → (prev ≤ length (entries_of l))%nat →
  receive_entries l (Z.of_nat prev) commit es = Ret (l', idx', acc') →
  ∃ j, (∀ k e, (k < j)%nat → es !! k = Some e → same_term (entries_of l) (prev + k) e) ∧
    whole l' ∧ getCurrentTerm l' = getCurrentTerm l ∧ acc' = drop j es ∧
    ((j = length es ∧ l' = l) ∨
     (∃ e, es !! j = Some e ∧ ¬ same_term (entries_of l) (prev + j) e) ∧ (prev + j ≤ length (entries_of l))%nat ∧
       entries_of l' = take (prev + j) (entries_of l) ∧ contiguous (Z.of_nat (prev + j) + 1) acc').
Proof.
  intros Hw. unfold receive_entries. revert prev. induction es as [|e es IH]; intros prev Hp; cbn [foldM].
  { intros [= <- <- <-]. exists O. split_and!; [lia|done|done|done|by left]. }
  intros ([[l1 i1] a1] & H1 & H2)%bind_Ret. unfold receive_entry in H1. apply cassert_bind in H1 as [He%Z.eqb_eq H1].
  rewrite whole_last in H1 by done. pose proof Hw as [Hl Hf]. rewrite (spec_first l Hl), Hf in H1.
  rewrite (proj2 (Z.ltb_ge _ _)) in H1 by lia. split_if H1.
  - apply Z.leb_le in E. apply bind_Ret in H1 as (t & Ht & H1). unfold Log_getLogTerm in Ht.
    replace (le_index e) with (Z.of_nat (S prev)) in Ht by lia. rewrite whole_term_at in Ht by done. simpl in Ht.
    destruct (entries_of l !! prev) as [e0|] eqn:Elk; [|done]. injection Ht as <-. split_if H1.
    + injection H1 as <- <- <-. apply Z.eqb_eq in E0. replace (Z.of_nat prev + 1) with (Z.of_nat (S prev)) in H2 by lia.
      apply IH in H2 as (j & Hj & Hw' & Ht' & -> & Ho); [|lia]. exists (S j). split_and!; [|done|done|done|].
      * intros [|k] x Hk Hx; simpl in Hx.
        -- injection Hx as <-. unfold same_term. rewrite Nat.add_0_r, Elk. simpl. by rewrite E0.
        -- rewrite <- Nat.add_succ_comm. apply Hj; [lia|done].
      * destruct Ho as [[-> ->]|(Hx & Ho)]; [by left|right]. rewrite <- !Nat.add_succ_comm. by split.
    + apply cassert_bind in H1 as [_ H1]. injection H1 as <- <- <-. apply Z.eqb_neq in E0.
      replace (le_index e - 1) with (Z.of_nat prev) in H2 by lia.
      destruct (spec_truncateSuffix l (Z.of_nat prev) Hl) as [Hl1 Hv1]; [lia|].
      assert (Hw1 : whole (truncateSuffix l (Z.of_nat prev)) ∧
        entries_of (truncateSuffix l (Z.of_nat prev)) = take prev (entries_of l)).
      { unfold whole, entries_of. rewrite Hv1. apply lookup_lt_Some in Elk. unfold entries_of in Elk.
        unfold lv_truncateSuffix, lv_last. rewrite Hf, (proj2 (Z.leb_gt _ _)) by lia.
        destruct (Z.ltb_spec (Z.of_nat prev) 1); simpl.
        - assert (prev = O) as -> by lia. by rewrite take_0.
        - rewrite Hf. split; [done|]. f_equal. lia. }
      destruct Hw1 as [Hw1 He1]. apply receive_rest in H2 as (-> & -> & Hc); [|done|rewrite He1, length_take; lia].
      exists O. rewrite Nat.add_0_r. split_and!; [lia|done|by rewrite term_truncateSuffix|done|right].
      split_and!; [|done|done|].
      * exists e. split; [done|]. unfold same_term. rewrite Elk. simpl. congruence.
      * simpl. split; [lia|]. by replace (Z.of_nat prev + 1 + 1) with (Z.of_nat prev + 1 + 1).
  - apply Z.leb_gt in E. injection H1 as <- <- <-. assert (prev = length (entries_of l)) as -> by lia.
    apply receive_rest in H2 as (-> & -> & Hc); [|done|lia].
    exists O. rewrite Nat.add_0_r. split_and!; [lia|done|done|done|right]. split_and!; [|done|by rewrite firstn_all|by split].
    exists e. split; [done|]. unfold same_term. by rewrite lookup_ge_None_2.
Qed.

(** What the log is in the end. *)
Lemma matches_stored log m j :
  matches_upto log m j → (sa_prev m + j ≤ length log)%nat →
  matches_upto (take (sa_prev m + j) log ++ drop j (sa_entries m)) m (length (sa_entries m)).
Proof.
  intros [Hp Hm] Hlen. split.
  - apply (term_at_prefix (take (sa_prev m + j) log)); [by apply prefix_app_r|].
    destruct (sa_prev m) as [|p]; [done|]. simpl in Hp |- *. rewrite lookup_take_lt by lia. done.
  - intros k e _ Hk. unfold same_term. destruct (decide (k < j)%nat) as [Hlt|Hge].
    + rewrite lookup_app_l by (rewrite length_take; lia). rewrite lookup_take_lt by lia. by apply Hm.
    + rewrite lookup_app_r by (rewrite length_take; lia). rewrite length_take, lookup_drop, Nat.min_l by lia.
      replace (j + (sa_prev m + k - (sa_prev m + j)))%nat with k by lia. by rewrite Hk.
Qed.

(** The request is in the log already, or the log is cut at the first of its
    entries that is not and the rest of the request follows. *)
Lemma stored_entries l m commit log1 i es log2 :
  whole l → term_at (entries_of l) (sa_prev m) = Some (sa_prevTerm m) →
  receive_entries l (Z.of_nat (sa_prev m)) commit (sa_entries m) = Ret (log1, i, es) → Log_appendAll log1 es = Ret log2 →
  whole log2 ∧ getCurrentTerm log2 = getCurrentTerm l ∧
  ((entries_of log2 = entries_of l ∧ matches_upto (entries_of l) m (length (sa_entries m))) ∨
   ∃ j e, matches_upto (entries_of l) m j ∧ sa_entries m !! j = Some e ∧ ¬ same_term (entries_of l) (sa_prev m + j) e ∧
     (sa_prev m + j ≤ length (entries_of l))%nat ∧
     entries_of log2 = take (sa_prev m + j) (entries_of l) ++ drop j (sa_entries m)).
Proof.
  intros Hw Hprev Hre Hap. pose proof (term_at_length _ _ _ Hprev) as Hpl. unfold Log_appendAll in Hap.
  destruct (receive_whole _ _ _ _ _ _ _ Hw Hpl Hre) as (j & Hj & Hw1 & Ht1 & -> & Ho).
  destruct Ho as [[-> ->]|((e & He & Hne) & Hlen & Hel & Hc)].
  - rewrite drop_all in Hap. destruct (append_whole l [] Hw I) as (l' & Ha & Hw' & Hent & Htt).
    rewrite Ha in Hap. injection Hap as <-. rewrite app_nil_r in Hent. split_and!; [done..|]. by left.
  - destruct (append_whole log1 (drop j (sa_entries m)) Hw1) as (l' & Ha & Hw' & Hent & Htt).
    { rewrite Hel, length_take, Nat.min_l by lia. done. }
    rewrite Ha in Hap. injection Hap as <-. rewrite Hel in Hent. split_and!; [done|congruence|]. right. by exists j, e.
Qed.

(** ** The handler *)
(** What an accepted request does to the node [c2] that has taken its term. *)
Definition accepted (c2 : RaftCore L) (m : SAppend) c' (resp : AE_Response) : Prop :=
  term_at (entries_of (core_mLog c2)) (sa_prev m) = Some (sa_prevTerm m) ∧
  (∃ log1 i es, receive_entries (core_mLog c2) (Z.of_nat (sa_prev m)) (mCommitIndex c2) (sa_entries m) = Ret (log1, i, es) ∧
     Log_appendAll log1 es = Ret (core_mLog c')) ∧
  mRaftRole c' = Follower ∧ mPeers c' = mPeers c2 ∧ mCommitIndex c' = Z.max (mCommitIndex c2) (Z.of_nat (sa_commit m)) ∧
  aer_saved_term resp = sa_term m ∧ aer_match_index resp = Z.of_nat (sa_prev m + length (sa_entries m)).

(** A node that does not reject the request is a follower of its term. *)
Lemma AEReq_follows σ g n c a env req m c1 acts :
  safe members σ g → sp_node σ !! n = Some a → node_rel σ n c a → sa_leader m ≠ n → m ∈ sp_appends σ →
  sa_term m = ae_term req → core_term c ≤ ae_term req → mRaftRole c ≠ Syncer →
  (if (core_term c <? ae_term req) || ((ae_term req =? core_term c) && bool_decide (mRaftRole c = Candidate))
   then stepDown env (ae_term req) c else Ret (c, [])) = Ret (c1, acts) →
  ∃ a1, spec_steps members σ (sp_put n a1 σ) ∧ node_rel σ n c1 a1 ∧ Forall local_action acts ∧
    core_term c1 = ae_term req ∧ mRaftRole c1 = Follower ∧ sn_log a1 = sn_log a.
Proof.
  intros Hs Hn Hrel Hne Hm Mt Hge Hsync Hstep. split_if Hstep.
  - destruct (stepDown_sim members σ n c a env _ _ _ Hn Hrel Hstep) as (a1 & ? & ? & ? & ? & ? & _ & ?). by exists a1.
  - injection Hstep as <- <-. apply orb_false_iff in E as [Hle%Z.ltb_ge Hcand]. exists a.
    assert (Ht : core_term c = ae_term req) by lia.
    split_and!; try done; [unfold sp_put; rewrite insert_id by done; destruct σ; apply rtc_refl|].
    destruct (mRaftRole c) eqn:Hrole; try done.
    + destruct Hne. apply (append_from_leader members σ g n a); try done.
      * rewrite Mt, <- Ht. symmetry. apply Hrel.
      * rewrite <- Hrole. apply Hrel.
    + by rewrite (proj2 (Z.eqb_eq _ _)) in Hcand.
Qed.

Lemma AEReq_outcome σ g n c a env src req m s resp c' acts :
  safe members σ g → sp_node σ !! n = Some a → node_rel σ n c a → src ≠ n → m ∈ sp_appends σ → append_rel src req m →
  handleAppendEntriesRequest env c req = Ret (s, resp, c', acts) →
  (c' = c ∧ acts = [] ∧ aer_success resp = false) ∨
  ∃ c2 a1, spec_steps members σ (sp_put n a1 σ) ∧ node_rel σ n c2 a1 ∧ Forall local_action acts ∧
    sn_log a1 = sn_log a ∧ sn_term a1 = sa_term m ∧ mRaftRole c2 = Follower ∧
    ((c' = c2 ∧ aer_success resp = false) ∨ accepted c2 m c' resp).
Proof.
  intros Hs Hn Hrel Hne Hm (Mt & <- & Mp & Mpt & Me & Mc & Mcl) Hh. unfold handleAppendEntriesRequest in Hh.
  split_if Hh; [injection Hh as <- <- <- <-; by left|]. split_if Hh; [injection Hh as <- <- <- <-; by left|]. right.
  apply Z.ltb_ge in E. apply bool_decide_eq_false in E0. apply bind_Ret in Hh as ([c1 acts1] & Hstep & Hh).
  destruct (AEReq_follows σ g n c a env req m c1 acts1) as (a1 & Hst & Hrel1 & Hl & Ht1 & Hr1 & Hlg); [done..|].
  apply bind_Ret in Hh as (c2 & Hc2 & Hh).
  assert (Hal : alike c1 c2).
  { split_if Hc2; [inv_ret; split; try done|apply cassert_bind in Hc2 as [_ Hc2]; inv_ret; split; try done];
      intros k p' Hp; by exists p'. }
  apply (alike_rel _ _ c1 c2) in Hrel1; [|done]. rewrite <- (al_role _ _ Hal) in Hr1.
  assert (Ht2 : core_term c2 = ae_term req) by (unfold core_term in *; by rewrite (al_log _ _ Hal)).
  clear Hal Hc2 Ht1 c1 Hstep E E0. pose proof Hrel1 as [R1 R2 R3 R4 R5 R6 R7 R8 R9].
  destruct (steps_safe members σ _ g Hs Hst) as (g1 & Hs1 & _). exists c2, a1.
  apply bind_Ret in Hh as (logOk & Hlog & Hh). destruct logOk; simpl in Hh.
  2: { injection Hh as <- <- <- <-. split_and!; try done; [congruence|]. by left. }
  apply bind_Ret in Hh as ([[log1 i] es] & Hre & Hh). apply bind_Ret in Hh as (log2 & Hap & Hh).
  apply bind_Ret in Hh as (c3 & Hc3 & Hh). rewrite <- Mp, <- Me in Hre. simpl in Hre, Hc3. injection Hh as <- <- <- <-.
  split_and!; try done; [congruence|right].
  assert (Hc : mRaftRole c3 = Follower ∧ core_mLog c3 = log2 ∧
    mCommitIndex c3 = Z.max (mCommitIndex c2) (Z.of_nat (sa_commit m)) ∧ mPeers c3 = mPeers c2).
  { destruct (Z.ltb_spec (mCommitIndex c2) (ae_commit_index req)).
    - apply cassert_bind in Hc3 as [_ Hc3]. inv_ret. split_and!; try done. simpl. lia.
    - inv_ret. split_and!; try done. simpl. lia. }
  destruct Hc as (C1 & C2 & C3 & C4). split_and!; try done; [|exists log1, i, es; split; [done|simpl; congruence]|simpl; rewrite <- Me, <- Mp; lia].
  rewrite (spec_first _ (proj1 R1)), (proj2 R1) in Hlog. split_if Hlog.
  - apply Z.ltb_lt in E. destruct (sf_append _ _ _ Hs1 m Hm) as (ll & _ & _ & Hp & _).
    assert (sa_prev m = O) as Hp0 by lia. rewrite Hp0 in *. done.
  - split_if Hlog; [|done]. apply bind_Ret in Hlog as (t & Ht & [= Heq%Z.eqb_eq]). unfold termOfLogEntryAt in Ht.
    rewrite <- Mp, whole_term_at in Ht by done. destruct (term_at _ _); [|done]. injection Ht as ->. congruence.
Qed.

(** What an accepted request stores, as a step; [k] entries of it have been
    written. *)
Lemma store_steps σ n a m j e k :
  sp_node σ !! n = Some a → sn_role a = Follower → m ∈ sp_appends σ → sa_term m = sn_term a →
  matches_upto (sn_log a) m j → sa_entries m !! j = Some e → ¬ same_term (sn_log a) (sa_prev m + j) e →
  spec_steps members σ (sp_put n (mk_SNode (sn_term a) Follower
    (take (sa_prev m + j) (sn_log a) ++ take k (drop j (sa_entries m))) (sn_commit a)) σ).
Proof. intros. apply rtc_once. by eapply s_store. Qed.

Lemma accepted_sim σ n c2 a m c' acts src s resp :
  sp_node σ !! n = Some a → node_rel σ n c2 a → mRaftRole c2 = Follower → m ∈ sp_appends σ → sa_term m = sn_term a →
  (sa_commit m ≤ sa_prev m + length (sa_entries m))%nat → Forall local_action acts → accepted c2 m c' resp →
  sim members σ n c' (acts ++ [ReplyAppendEntries src s resp]).
Proof.
  intros Hn Hrel Hr2 Hm Htm Hcl Hl (Hprev & (log1 & i & es & Hre & Hap) & C1 & C2 & C3 & C4 & C5).
  pose proof Hrel as [R1 R2 R3 R4 R5 R6 R7 R8 R9]. assert (Hfol : sn_role a = Follower) by congruence.
  destruct (stored_entries _ _ _ _ _ _ _ R1 Hprev Hre Hap) as (Hw & Ht & Hcases).
  set (a2 := mk_SNode (sn_term a) Follower (entries_of (core_mLog c')) (sn_commit a)).
  assert (H2 : spec_steps members σ (sp_put n a2 σ) ∧ matches_upto (sn_log a2) m (length (sa_entries m))).
  { destruct Hcases as [[He Hmu]|(j & e & Hmu & Hj & Hne & Hlen & He)]; (split; [|simpl]).
    - unfold a2. rewrite He, <- R2. by apply rtc_once, s_yield.
    - by rewrite He.
    - unfold a2. rewrite He, <- (firstn_all (drop j (sa_entries m))), <- R2. by apply (store_steps σ n a m j e); rewrite ?R2.
    - rewrite He. by apply matches_stored. }
  destruct H2 as [Hst2 Hmu]. set (k := Z.to_nat (mCommitIndex c')). set (a3 := mk_SNode (sn_term a2) Follower (sn_log a2) k).
  assert (Hst3 : spec_steps members (sp_put n a2 σ) (sp_put n a3 (sp_put n a2 σ))).
  { destruct (decide (mCommitIndex c2 < Z.of_nat (sa_commit m))).
    - unfold a3. replace k with (sa_commit m) by lia. apply rtc_once, (s_learn _ _ n a2 m); try done. apply lookup_insert_eq.
    - apply rtc_once, s_yield; [apply lookup_insert_eq|]. simpl. lia. }
  exists (sp_ack (sn_term a3) n (sa_prev m + length (sa_entries m)) (sp_put n a3 (sp_put n a2 σ))), a3. split_and!.
  - etrans; [exact Hst2|]. etrans; [exact Hst3|]. apply rtc_once, s_ack; try done. apply lookup_insert_eq.
  - simpl. by rewrite !insert_insert_eq.
  - split; simpl; set_solver.
  - split; simpl; rewrite ?C1, ?C2; try done; [|lia]. unfold core_term in *. congruence.
  - rewrite msgs_of_app, (local_msgs n acts Hl). simpl. constructor; [|done]. simpl. intros _. split; [lia|].
    rewrite C4, C5, Nat2Z.id, Htm. apply elem_of_app. right. by apply list_elem_of_singleton.
  - intros x. by left.
Qed.

Lemma sim_after σ n a1 c' acts :
  is_Some (sp_node σ !! n) → spec_steps members σ (sp_put n a1 σ) → sim members (sp_put n a1 σ) n c' acts →
  sim members σ n c' acts.
Proof.
  intros Hn Hst (σ' & a' & Hst' & En & [] & Hrel & Hms & Hg). exists σ', a'. split_and!; try done.
  - by etrans.
  - rewrite En. simpl. apply insert_insert_eq.
Qed.

Lemma handleAppendEntriesRequest_sim σ g n c a env src req s resp c' acts :
  safe members σ g → sp_node σ !! n = Some a → node_rel σ n c a → src ≠ n →
  msg_rel σ (MsgAEReq src n req) → handleAppendEntriesRequest env c req = Ret (s, resp, c', acts) →
  sim members σ n c' (acts ++ [ReplyAppendEntries src s resp]).
Proof.
  intros Hs Hn Hrel Hne (m & Hm & Hmr) Hh.
  destruct (AEReq_outcome σ g n c a env src req m s resp c' acts) as [(-> & -> & Hf)|(c2 & a1 & Hst & Hrel1 & Hl & _ & Ht & Hr & Ho)];
    [done..| |].
  - apply (sim_stay _ _ _ _ a); [done..|]. constructor; [|done]. simpl. by rewrite Hf.
  - apply (sim_after σ n a1); [by eexists|done|]. apply (node_rel_more σ (sp_put n a1 σ)) in Hrel1; [|done].
    destruct Ho as [[-> Hf]|Hacc].
    + apply (sim_stay _ _ _ _ a1); [apply lookup_insert_eq|done|]. rewrite msgs_of_app, (local_msgs n acts Hl).
      constructor; [|done]. simpl. by rewrite Hf.
    + apply (accepted_sim (sp_put n a1 σ) n c2 a1 m); try done; [apply lookup_insert_eq|by apply Hmr].
Qed.
End receive.
