(* ===== verification/RaftDurable.v ===== *)
(** * A cluster with durable logs refines the specification

    The cluster of RaftCluster.v where a restart finds the entries the node had,
    or what a handler had written of them before the crash; every run is a run of
    RaftSpec.v.  Crashes are those of processes: term and vote are as they were
    stored ([crash_log]).  The administrator's prefix truncation is not among the
    inputs. *)
From S2P Require Import Prelude RaftLog RaftCore RaftHandlers RaftCluster RaftReplication RaftSpec RaftSafety RaftSteps RaftRefine RaftReceive.
Open Scope Z_scope.

Section durable.
Context `{LogMeta L} `{!LogSpec L} (conf : RaftConf) (addresses : gmap Z string).
Implicit Types (c : RaftCore L) (l log : L) (s : Cluster (L:=L)) (σ : Spec).
Notation members := (RaftCluster.members addresses).

(** ** Steps *)
(** The inputs whose handlers write entries. *)
Definition writes_entries (i : Input) : Prop :=
  match i with
  | RunBecomeLeader | RunEvent (ClientRequestsEvent _) | RunEvent (AppendEntriesRequestEvent _ _) => True
  | _ => False
  end.

(** Part of what a handler that leads from [c] to [c1] has written: what both
    have in common is never touched. *)
Definition torn c c1 log : Prop :=
  getCurrentTerm log = core_term c1 ∧ getVote log = core_vote c1 ∧ entries_of log `prefix_of` entries_of (core_mLog c1) ∧
  ∀ P, P `prefix_of` entries_of (core_mLog c) → P `prefix_of` entries_of (core_mLog c1) → P `prefix_of` entries_of log.

(** What a crash of [c] leaves. *)
Definition survives s (n : Z) c log : Prop :=
  log_inv log ∧ lv_first (log_view log) = lv_first (log_view (core_mLog c)) ∧ crash_log (core_mLog c) log ∧
  (entries_of log = entries_of (core_mLog c) ∨
   ∃ env i c1 acts, writes_entries i ∧ enabled addresses s n i ∧ run_input env c i = Ret (c1, acts) ∧ torn c c1 log).

Inductive durable_step s : Cluster → Prop :=
  | durable_run n c env i c' acts :
      cl_nodes s !! n = Some c → enabled addresses s n i → (∀ k, i ≠ RunTruncatePrefix k) →
      run_input env c i = Ret (c', acts) → durable_step s (put s n c' acts)
  | durable_restart n c log tp c' :
      cl_nodes s !! n = Some c → survives s n c log →
      RaftCore_init conf addresses n Follower log tp = Ret c' → durable_step s (put s n c' []).

(** Every member has started with an empty log. *)
Definition durable_initial s : Prop :=
  initial_cluster conf addresses s ∧
  map_Forall (λ _ c, whole (core_mLog c) ∧ entries_of (core_mLog c) = [] ∧ 0 ≤ core_term c) (cl_nodes s).

Lemma durable_step_step s s' : durable_step s s' → step conf addresses s s'.
Proof.
  intros [n c env i c' acts Hn Hen _ Hr|n c log tp c' Hn (_ & _ & Hcr & _) Hc]; [by eapply step_run|by eapply step_restart].
Qed.

(** ** The simulation relation *)
Record related s σ : Prop := {
  re_dom : dom (sp_node σ) = dom (cl_nodes s);
  re_node n c : cl_nodes s !! n = Some c → ∃ a, sp_node σ !! n = Some a ∧ node_rel σ n c a;
  re_net m : m ∈ cl_net s → msg_rel σ m;
  re_grants x : x ∈ sp_grants σ → x ∈ cl_votes s }.

Lemma put_related s σ n c c' acts :
  related s σ → cl_nodes s !! n = Some c → sim members σ n c' acts →
  ∃ σ', spec_steps members σ σ' ∧ related (put s n c' acts) σ'.
Proof.
  intros [D N M G] Hn (σ' & a' & Hst & En & Hmo & Hrel & Hms & Hg). exists σ'. split; [done|]. split; simpl.
  - rewrite En, !dom_insert_L, D. done.
  - rewrite En. intros k d [[<- <-]|[Hne Hd]]%lookup_insert_Some.
    + exists a'. by rewrite lookup_insert_eq.
    + destruct (N k d Hd) as (b & Hb & Hr). exists b. rewrite lookup_insert_ne by done. split; [done|]. by apply (node_rel_more σ).
  - intros m [Hm|Hm]%elem_of_app; [by apply (msg_rel_more σ), M|]. rewrite Forall_forall in Hms. by apply Hms.
  - intros x [Hx|[Hv ->]]%Hg; apply elem_of_app; [left; by apply G|right]. by apply elem_of_vote_record.
Qed.

(** ** Inputs *)
Lemma node_peers n c : node_ok addresses n c → dom (mPeers c) = members ∖ {[n]}.
Proof. intros Hok. apply set_eq. intros k. rewrite elem_of_dom, (node_peer addresses n c k Hok). set_solver. Qed.

Lemma run_input_sim s σ g n c env i c' acts :
  cluster_inv addresses s → related s σ → safe members σ g → cl_nodes s !! n = Some c →
  enabled addresses s n i → (∀ k, i ≠ RunTruncatePrefix k) → run_input env c i = Ret (c', acts) →
  sim members σ n c' acts.
Proof.
  intros Hi [D N M G] Hs Hn Hen Hnt Hr. destruct (N n c Hn) as (a & Ha & Hrel).
  pose proof (ci_node _ _ Hi _ _ Hn) as Hok. pose proof Hok as (Hmem & Hn0 & Hid & _ & Hsync). simpl in Hid.
  pose proof (node_peers n c Hok) as Hdom. pose proof (ci_net _ _ Hi) as Hnet. rewrite Forall_forall in Hnet.
  destruct i as [| | | | | |k|[tag req|p st resp|tag req|p st resp|reqs|req]]; simpl in Hr, Hen.
  - by eapply appendEntries_sim.
  - by eapply requestVote_sim.
  - by eapply advanceCommitIndex_sim.
  - apply bind_Ret in Hr as (c1 & Hb & [= <- <-]). by eapply becomeLeader_sim.
  - injection Hr as <- <-. by eapply electionTimeout_sim.
  - by eapply leadershipTimeout_sim.
  - by destruct (Hnt k).
  - destruct (Hnet _ Hen) as (_ & _ & Hne & _). apply bind_Ret in Hr as ([[[st resp] c1] a1] & Hh & [= <- <-]).
    eapply handleAppendEntriesRequest_sim; [done..|by apply M|done].
  - eapply AEResp_sim; [done..| | |done].
    + apply (node_peer addresses n c p Hok). destruct Hen as [Hm|(_ & ? & ?)]; [|done].
      destruct (Hnet _ Hm) as ((? & ? & ? & ?) & _). done.
    + intros Hst. destruct Hen as [Hm|(? & _)]; [|done]. destruct (Hnet _ Hm) as (_ & ?). split; [done|by apply M].
  - destruct (Hnet _ Hen) as ((_ & _ & Hne & Hsrc) & Hcand). pose proof (RVReq_step_ok addresses (cl_votes s) n c env tag req c' acts Hok (Hnet _ Hen)) as Hadv.
    assert (Hrun := Hr). apply bind_Ret in Hr as ([[[st resp] c1] a1] & Hh & [= <- <-]).
    eapply handleRequestVoteRequest_sim; try done; [by apply M|].
    intros x Hx _. symmetry. destruct (Hadv Hrun) as [Hadv' _]. by eapply (recorded_vote_agrees addresses s n c c1 _ x Hi Hn Hadv'), G.
  - eapply RVResp_sim; [done..| | |done].
    + apply (node_peer addresses n c p Hok). destruct Hen as [Hm|(_ & ? & ?)]; [|done].
      destruct (Hnet _ Hm) as ((? & ? & ? & ?) & _). done.
    + intros Hst. destruct Hen as [Hm|(? & _)]; [|done]. destruct (Hnet _ Hm) as (_ & ? & _). split; [done|by apply M].
  - destruct (handleClientRequests c reqs) as [c1 a1] eqn:Hh. injection Hr as <- <-. by eapply handleClientRequests_sim.
  - apply bind_Ret in Hr as (c1 & Hb & [= <- <-]). apply handleSyncRequest_not_syncer in Hb as ->; [|done].
    by apply (sim_stay _ _ _ _ a).
Qed.

(** ** Restarts *)
Lemma RaftCore_init_fresh n role log tp c :
  RaftCore_init conf addresses n role log tp = Ret c →
  core_mLog c = log ∧ mRaftRole c = role ∧ mCommitIndex c = 0 ∧
  map_Forall (λ _ p, mMatchIndex p = 0 ∧ mNextIndex p = 1) (mPeers c).
Proof.
  unfold RaftCore_init, initClusterConf. intros (conf' & _ & Hc)%bind_Ret. apply bind_Ret in Hc as ([self peers] & Hs & Hc).
  apply cassert_bind in Hs as [_ Hs]. injection Hs as <- <-. injection Hc as <-. split_and!; try done.
  intros k p Hp. simpl in Hp. rewrite map_lookup_imap in Hp. destruct (delete n addresses !! k); [|done]. by injection Hp as <-.
Qed.

(** A node [a] restarts with a log of its entries and a term that is not lower. *)
Lemma restart_sim σ n a log tp c' :
  sp_node σ !! n = Some a → sn_term a ≤ getCurrentTerm log → whole log → entries_of log = sn_log a →
  RaftCore_init conf addresses n Follower log tp = Ret c' → sim members σ n c' [].
Proof.
  intros Hn Ht Hw He Hc. destruct (RaftCore_init_fresh _ _ _ _ _ Hc) as (Hl & Hr & Hci & Hps).
  set (a' := mk_SNode (getCurrentTerm log) Follower (sn_log a) O). exists (sp_put n a' σ), a'. split_and!; try done.
  - destruct (decide (getCurrentTerm log = sn_term a)) as [E|Hne].
    + unfold a'. rewrite E. apply rtc_once, s_yield; [done|lia].
    + set (a1 := mk_SNode (getCurrentTerm log) Follower (sn_log a) (sn_commit a)).
      assert (Hp : sp_put n a' σ = sp_put n a' (sp_put n a1 σ)) by (unfold sp_put; simpl; by rewrite insert_insert_eq).
      eapply rtc_l; [apply (s_newterm _ _ n a (getCurrentTerm log)); [done|lia]|]. fold a1. rewrite Hp.
      apply rtc_once, (s_yield _ _ n a1 O); [apply lookup_insert_eq|lia].
  - split; simpl; rewrite ?Hl, ?Hr, ?Hci; try done.
    + unfold core_term. by rewrite Hl.
    + intros k p Hp. destruct (Hps k p Hp) as [-> ->]. lia.
  - intros x. by left.
Qed.

(** A restart after [c'] has been reached. *)
Lemma sim_restart σ n c1 acts log tp c' :
  sim members σ n c1 acts → getCurrentTerm log = core_term c1 → whole log → entries_of log = entries_of (core_mLog c1) →
  core_vote c1 = core_vote c' → RaftCore_init conf addresses n Follower log tp = Ret c' → sim members σ n c' [].
Proof.
  intros (σ1 & a1 & Hst1 & En1 & Hm1 & Hr1 & _ & Hg1) Ht Hw He Hv Hc. pose proof (RaftCore_init_fresh _ _ _ _ _ Hc) as (Hl & _).
  destruct (restart_sim σ1 n a1 log tp c') as (σ2 & a2 & Hst2 & En2 & Hm2 & Hr2 & _ & Hg2); try done.
  - by rewrite En1, lookup_insert_eq.
  - rewrite (nr_term _ _ _ _ Hr1). lia.
  - rewrite He. symmetry. apply Hr1.
  - exists σ2, a2. split_and!; try done; [by etrans|by rewrite En2, En1, insert_insert_eq|by eapply more_trans|].
    intros x [Hx|?]%Hg2; [|by right]. destruct (Hg1 x Hx) as [?|[Hv0 ->]]; [by left|right].
    assert (Ht' : core_term c' = core_term c1) by (unfold core_term; by rewrite Hl). by rewrite Ht', <- Hv.
Qed.

(** ** Crashes while entries are written *)
Lemma becomeLeader_entries env c c' :
  whole (core_mLog c) → becomeLeader env c = Ret c' →
  entries_of (core_mLog c') = entries_of (core_mLog c) ∨ ∃ e, entries_of (core_mLog c') = entries_of (core_mLog c) ++ [e].
Proof.
  intros Hw Hh. unfold becomeLeader in Hh. split_if Hh; [inv_ret; by left|]. split_if Hh; [inv_ret; by left|].
  apply bind_Ret in Hh as (log & Hap & Hh). inv_ret. right. unfold Log_append in Hap. simpl in Hap.
  set (e := mk_LogEntry _ _ _ _ _ _ _) in Hap. exists e.
  destruct (spec_appendEntry (core_mLog c) e (proj1 Hw)) as (l' & Ha & _ & Hv).
  { simpl. rewrite (spec_last _ (proj1 Hw)). done. }
  rewrite Ha in Hap. inv_ret. simpl. unfold entries_of. by rewrite Hv.
Qed.

Lemma handleClientRequests_entries c reqs c' acts :
  whole (core_mLog c) → handleClientRequests c reqs = (c', acts) →
  entries_of (core_mLog c') = entries_of (core_mLog c) ∨
  mRaftRole c = Leader ∧ ∃ es, entries_of (core_mLog c') = entries_of (core_mLog c) ++ es ∧ Forall (λ e, le_term e = core_term c) es.
Proof.
  intros Hw Hh. destruct (decide (mRaftRole c = Leader)) as [Hl|Hl].
  - right. split; [done|]. destruct (handleClientRequests_leader c reqs c' acts (proj1 Hw) Hl Hh) as (new & _ & Hf & _ & Hv & _).
    exists (cr_mEntry <$> new). unfold entries_of. rewrite Hv. split; [done|]. by apply Forall_fmap.
  - left. unfold handleClientRequests in Hh. rewrite bool_decide_eq_false_2 in Hh by done. by injection Hh as <- _.
Qed.

(** What is left of an append. *)
Lemma torn_append {A} (l es l' : list A) :
  l' `prefix_of` l ++ es → (∀ P, P `prefix_of` l → P `prefix_of` l ++ es → P `prefix_of` l') → ∃ k, l' = l ++ take k es.
Proof.
  intros Hp Hk. destruct (Hk l) as [m ->]; [done|by apply prefix_app_r|]. apply prefix_app_inv in Hp as [rest ->].
  exists (length m). by rewrite take_app_length.
Qed.

Lemma torn_client σ n c a reqs c1 acts log tp c' :
  sp_node σ !! n = Some a → node_rel σ n c a → handleClientRequests c reqs = (c1, acts) → whole log → torn c c1 log →
  RaftCore_init conf addresses n Follower log tp = Ret c' → sim members σ n c' [].
Proof.
  intros Hn Hrel Hh Hw (Ht & Hv & Hp & Hk) Hc. destruct (handleClientRequests_quiet _ _ _ _ Hh) as [(_ & Ht1 & _ & _) _].
  pose proof Hrel as [R1 R2 R3 R4 R5 R6 R7 R8 R9].
  destruct (handleClientRequests_entries c reqs c1 acts R1 Hh) as [He|(Hl & es & He & Hf)]; rewrite He in *.
  - apply (restart_sim σ n a log tp c'); try done; [rewrite R3; lia|]. rewrite R2. apply (anti_symm prefix); [done|by apply Hk].
  - destruct (torn_append _ _ _ Hp Hk) as [k Hlog]. set (a1 := mk_SNode (sn_term a) Leader (sn_log a ++ take k es) (sn_commit a)).
    apply (sim_after members σ n a1); [by eexists| |].
    + apply rtc_once, s_append; [done|congruence|]. rewrite R3. by apply Forall_take.
    + apply (restart_sim _ n a1 log tp); try done; [apply lookup_insert_eq|simpl; rewrite R3; lia|]. simpl. by rewrite R2.
Qed.

Lemma torn_lead σ n c a env c1 log tp c' :
  sp_node σ !! n = Some a → node_rel σ n c a → node_ok addresses n c → becomeLeader env c = Ret c1 → whole log → torn c c1 log →
  RaftCore_init conf addresses n Follower log tp = Ret c' → sim members σ n c' [].
Proof.
  intros Hn Hrel Hok Hh Hw (Ht & Hv & Hp & Hk) Hc. pose proof (becomeLeader_step_ok addresses [] n c env c1 Hh) as [Hadv _].
  pose proof Hrel as [R1 R2 R3 R4 R5 R6 R7 R8 R9]. assert (Hle : sn_term a ≤ getCurrentTerm log).
  { rewrite R3, Ht. destruct (adv_term _ _ _ Hadv) as [?|[-> _]]; lia. }
  assert (Hold : entries_of log = entries_of (core_mLog c) → sim members σ n c' []).
  { intros He. apply (restart_sim σ n a log tp c'); try done. by rewrite R2. }
  destruct (becomeLeader_entries env c c1 R1 Hh) as [He|(e & He)].
  - apply Hold. rewrite He in *. apply (anti_symm prefix); [done|by apply Hk].
  - rewrite He in *. destruct (torn_append _ _ _ Hp Hk) as [[|k] Hlog]; [apply Hold; by rewrite Hlog, app_nil_r|].
    pose proof (RaftCore_init_fresh _ _ _ _ _ Hc) as (Hl & _). simpl in Hlog. rewrite take_nil in Hlog.
    apply (sim_restart σ n c1 [] log tp); try done; [|by rewrite He|unfold core_vote in *; congruence].
    eapply becomeLeader_sim; [done..|by apply node_peers|apply Hok|done].
Qed.

Lemma torn_receive σ g n c a env src req st resp c1 acts log tp c' :
  safe members σ g → sp_node σ !! n = Some a → node_rel σ n c a → src ≠ n → msg_rel σ (MsgAEReq src n req) →
  handleAppendEntriesRequest env c req = Ret (st, resp, c1, acts) → whole log → torn c c1 log →
  RaftCore_init conf addresses n Follower log tp = Ret c' → sim members σ n c' [].
Proof.
  intros Hs Hn Hrel Hne (m & Hm & Hmr) Hh Hw (Ht & Hv & Hp & Hk) Hc.
  assert (Hsame : entries_of (core_mLog c1) = entries_of (core_mLog c) → entries_of log = entries_of (core_mLog c)).
  { intros He. rewrite He in *. apply (anti_symm prefix); [done|by apply Hk]. }
  destruct (AEReq_outcome members σ g n c a env src req m st resp c1 acts) as [(-> & _ & _)|(c2 & a1 & Hst & Hrel1 & _ & Hlg & Htm & Hr & Ho)];
    [done..| |].
  { apply (restart_sim σ n a log tp c'); try done; [rewrite (nr_term _ _ _ _ Hrel); lia|].
    rewrite (nr_entries _ _ _ _ Hrel). by apply Hsame. }
  apply (sim_after members σ n a1); [by eexists|done|]. set (σ1 := sp_put n a1 σ) in *.
  assert (Hn1 : sp_node σ1 !! n = Some a1) by apply lookup_insert_eq.
  pose proof (nr_entries _ _ _ _ Hrel) as R2. pose proof (nr_entries _ _ _ _ Hrel1) as S2. pose proof (nr_term _ _ _ _ Hrel1) as S3.
  assert (He2 : entries_of (core_mLog c2) = entries_of (core_mLog c)) by congruence.
  destruct Ho as [[-> _]|(Hprev & (log1 & i & es & Hre & Hap) & C1 & C2 & _)].
  { apply (restart_sim σ1 n a1 log tp c'); try done; [lia|]. rewrite S2, He2. by apply Hsame. }
  destruct (stored_entries _ _ _ _ _ _ _ (nr_log _ _ _ _ Hrel1) Hprev Hre Hap) as (_ & Htt & Hcases).
  assert (Hterm : sn_term a1 ≤ getCurrentTerm log) by (unfold core_term in *; lia).
  destruct Hcases as [[He _]|(j & e & Hmu & Hj & Hne' & Hlen & He)].
  { apply (restart_sim σ1 n a1 log tp c'); try done. rewrite S2, He2. apply Hsame. congruence. }
  rewrite He in Hp, Hk. rewrite <- He2 in Hk. destruct (torn_append _ _ _ Hp) as [k Hlog].
  { intros P HP. apply Hk. etrans; [exact HP|]. apply prefix_take. }
  set (a2 := mk_SNode (sn_term a1) Follower (take (sa_prev m + j) (sn_log a1) ++ take k (drop j (sa_entries m))) (sn_commit a1)).
  apply (sim_after members σ1 n a2); [by eexists| |].
  - apply (store_steps members σ1 n a1 m j e k); try done; [rewrite (nr_role _ _ _ _ Hrel1); done|by rewrite S2..].
  - apply (restart_sim _ n a2 log tp c'); try done; [apply lookup_insert_eq|]. simpl. by rewrite S2.
Qed.

Lemma survives_sim s σ g n c log tp c' :
  cluster_inv addresses s → related s σ → safe members σ g → cl_nodes s !! n = Some c → survives s n c log →
  RaftCore_init conf addresses n Follower log tp = Ret c' → sim members σ n c' [].
Proof.
  intros Hi [D N M G] Hs Hn (Hli & Hf & Hcr & Hent) Hc. destruct (N n c Hn) as (a & Ha & Hrel).
  pose proof (ci_node _ _ Hi _ _ Hn) as Hok. pose proof (nr_log _ _ _ _ Hrel) as [_ Hf1].
  assert (Hw : whole log) by (split; congruence).
  destruct Hent as [He|(env & i & c1 & acts & Hwr & Hen & Hrun & Htorn)].
  - apply (restart_sim σ n a log tp c'); try done; [|by rewrite (nr_entries _ _ _ _ Hrel)].
    rewrite (nr_term _ _ _ _ Hrel). unfold core_term. destruct Hcr as [[-> _]|[? _]]; lia.
  - destruct i as [| | | | | |k|[tag req|p st resp|tag req|p st resp|reqs|req]]; try done; simpl in Hrun, Hen.
    + apply bind_Ret in Hrun as (c2 & Hb & [= <- <-]). by eapply torn_lead.
    + apply bind_Ret in Hrun as ([[[st resp] c2] a1] & Hh & [= <- <-]).
      pose proof (ci_net _ _ Hi) as Hnet. rewrite Forall_forall in Hnet. destruct (Hnet _ Hen) as (_ & _ & Hne & _).
      eapply torn_receive; [exact Hs|exact Ha|exact Hrel|exact Hne|by apply M|exact Hh|exact Hw|exact Htorn|exact Hc].
    + destruct (handleClientRequests c reqs) as [c2 a2] eqn:Hh. injection Hrun as <- <-.
      eapply torn_client; [exact Ha|exact Hrel|exact Hh|exact Hw|exact Htorn|exact Hc].
Qed.

(** ** The refinement *)
Lemma durable_step_sim s s' σ g :
  cluster_inv addresses s → related s σ → safe members σ g → durable_step s s' →
  ∃ σ', spec_steps members σ σ' ∧ related s' σ'.
Proof.
  intros Hi HR Hs [n c env i c' acts Hn Hen Hnt Hr|n c log tp c' Hn Hsv Hc].
  - apply (put_related s σ n c c' acts HR Hn). by eapply run_input_sim.
  - apply (put_related s σ n c c' [] HR Hn). by eapply survives_sim.
Qed.

Lemma durable_steps_sim s s' σ g :
  cluster_inv addresses s → related s σ → safe members σ g → rtc durable_step s s' →
  ∃ σ', spec_steps members σ σ' ∧ related s' σ'.
Proof.
  intros Hi HR Hs Hst. revert σ g Hi HR Hs. induction Hst as [s|s1 s2 s3 H1 _ IH]; intros σ g Hi HR Hs.
  - exists σ. split; [apply rtc_refl|done].
  - destruct (durable_step_sim _ _ _ _ Hi HR Hs H1) as (σ1 & Hs1 & HR1). destruct (steps_safe members _ _ _ Hs Hs1) as (g1 & Hg1 & _).
    apply (IH σ1 g1) in HR1 as (σ2 & Hs2 & HR2); [|by eapply step_inv, durable_step_step|done]. exists σ2. split; [by etrans|done].
Qed.

Lemma durable_steps_inv s s' : cluster_inv addresses s → rtc durable_step s s' → cluster_inv addresses s'.
Proof. intros Hi Hst. revert Hi. induction Hst as [|s1 s2 s3 H1 _ IH]; [done|]. intros Hi. by eapply IH, step_inv, durable_step_step. Qed.

(** The specification's initial state for a cluster's. *)
Definition spec_start s : Spec :=
  mk_Spec ((λ c, mk_SNode (core_term c) Follower [] O) <$> cl_nodes s) [] [] [] [].

Lemma start_related s : durable_initial s → spec_initial members (spec_start s) ∧ related s (spec_start s).
Proof.
  intros [Hinit Hl]. pose proof (initial_cluster_inv _ _ _ Hinit) as Hi. destruct Hinit as (Hd & Hnet & Hv & _ & Hn). split.
  - split_and!; try done; [simpl; rewrite dom_fmap_L; done|]. intros k a. simpl. rewrite lookup_fmap.
    destruct (cl_nodes s !! k) as [c|] eqn:Hc; [|done]. intros [= <-]. by destruct (Hl k c Hc) as (_ & _ & ?).
  - split; simpl; [by rewrite dom_fmap_L| |by rewrite Hnet; set_solver|set_solver].
    intros n c Hc. exists (mk_SNode (core_term c) Follower [] O). rewrite lookup_fmap, Hc. split; [done|].
    destruct (Hl n c Hc) as (Hw & He & _). destruct (Hn n c Hc) as (log & tp & Hc' & _).
    destruct (RaftCore_init_fresh _ _ _ _ _ Hc') as (_ & Hr & Hci & Hps).
    split; simpl; rewrite ?Hr, ?Hci; try done. intros k p Hp. destruct (Hps k p Hp) as [-> ->]. lia.
Qed.

(** Every point of a run has a counterpart in one run of the specification. *)
Lemma durable_run_spec s0 s1 s2 :
  durable_initial s0 → rtc durable_step s0 s1 → rtc durable_step s1 s2 →
  ∃ σ1 σ2 g1, safe members σ1 g1 ∧ related s1 σ1 ∧ spec_steps members σ1 σ2 ∧ related s2 σ2.
Proof.
  intros Hin H1 H2. destruct (start_related s0 Hin) as [Hsi HR0]. pose proof (initial_safe members _ Hsi) as Hs0.
  pose proof (initial_cluster_inv _ _ _ (proj1 Hin)) as Hi0.
  destruct (durable_steps_sim _ _ _ _ Hi0 HR0 Hs0 H1) as (σ1 & Hst1 & HR1). destruct (steps_safe members _ _ _ Hs0 Hst1) as (g1 & Hs1 & _).
  destruct (durable_steps_sim _ _ _ _ (durable_steps_inv _ _ Hi0 H1) HR1 Hs1 H2) as (σ2 & Hst2 & HR2). by exists σ1, σ2, g1.
Qed.
End durable.
