(* ===== verification/RaftService.v ===== *)
(** * The gRPC service of Raft: call data and completion queue

    src/src/infra/raft/v2/RaftService.{h,cpp}: the objects that wait for a request of a
    peer, carry it to the main loop of the Raft core and carry the reply back, all
    by raw pointers; the calls to peers.  The memory is a heap of live objects, so
    that the use of a freed one is a result.  gRPC gives each operation started on
    a completion queue back exactly once; what the core makes of a request
    (the response, with its status, and the new core) is an argument. *)
From stdpp Require Import gmap.
From S2P Require Import Prelude RaftLog RaftCore.
#[local] Open Scope nat_scope.

(** ** Server *)
Inductive RpcKind := RequestVoteRpc | AppendEntriesRpc.
#[export] Instance RpcKind_eq_dec : EqDecision RpcKind.
Proof. solve_decision. Defined.

Inductive RaftCallStatus := CREATE | PROCESS | FINISH.

Section server.
Context {Request Response Core : Type}.
Context (handle : RpcKind → Request → Core → result (Response * Core)).

Record RaftCallData := mk_RaftCallData {
  cd_kind : RpcKind; mCallStatus : RaftCallStatus; mRequest : option Request; mResponse : option Response }.

(** [srv_requests], [srv_finishes]: operations the completion queue has not given
    back, by the object they are for; [srv_events]: payloads in the queue of the
    main loop; [srv_failed]: how many replies of each kind could not be sent. *)
Record RaftServer := mk_RaftServer {
  srv_heap : gmap nat RaftCallData;
  srv_next : nat;
  srv_requests : gmap nat RpcKind;
  srv_finishes : gset nat;
  srv_events : list nat;
  srv_core : Core;
  srv_failed : RpcKind → nat }.
Implicit Types s : RaftServer.

Definition at_address s (id : nat) : result RaftCallData :=
  match srv_heap s !! id with Some c => Ret c | None => Fail UndefinedBehaviour end.

Definition set_heap s (heap : gmap nat RaftCallData) : RaftServer :=
  mk_RaftServer heap (srv_next s) (srv_requests s) (srv_finishes s) (srv_events s) (srv_core s) (srv_failed s).

(** [RequestXV2(.., this)] *)
Definition start_request s (id : nat) (kind : RpcKind) : RaftServer :=
  mk_RaftServer (srv_heap s) (srv_next s) (<[id := kind]> (srv_requests s)) (srv_finishes s) (srv_events s) (srv_core s) (srv_failed s).

(** [proceed] in [CREATE] *)
Definition proceed_create (id : nat) (self : RaftCallData) s : RaftServer :=
  start_request (set_heap s (<[id := mk_RaftCallData (cd_kind self) PROCESS (mRequest self) (mResponse self)]> (srv_heap s)))
    id (cd_kind self).

(** [new CallData(..)]: the constructor of the object at the next free address calls
    [proceed]. *)
Definition new_RaftCallData (kind : RpcKind) s : RaftServer :=
  let id := srv_next s in
  let self := mk_RaftCallData kind CREATE None None in
  proceed_create id self
    (mk_RaftServer (<[id := self]> (srv_heap s)) (S id) (srv_requests s) (srv_finishes s) (srv_events s) (srv_core s)
       (srv_failed s)).

Definition delete_this (id : nat) s : RaftServer := set_heap s (delete id (srv_heap s)).

Definition enqueue_event (id : nat) s : RaftServer :=
  mk_RaftServer (srv_heap s) (srv_next s) (srv_requests s) (srv_finishes s) (srv_events s ++ [id]) (srv_core s) (srv_failed s).

(** [proceed] *)
Definition RaftCallData_proceed (id : nat) s : result RaftServer :=
  self ← at_address s id;
  match mCallStatus self with
  | CREATE => Ret (proceed_create id self s)
  | PROCESS => Ret (enqueue_event id (new_RaftCallData (cd_kind self) s))
  | FINISH => Ret (delete_this id s)
  end.

(** [failOver] *)
Definition RaftCallData_failOver (id : nat) s : result RaftServer :=
  self ← at_address s id;
  Ret (delete_this id (new_RaftCallData (cd_kind self) s)).

(** [reply] *)
Definition RaftCallData_reply (id : nat) (response : Response) s : result RaftServer :=
  self ← at_address s id;
  let heap := <[id := mk_RaftCallData (cd_kind self) FINISH (mRequest self) (Some response)]> (srv_heap s) in
  Ret (mk_RaftServer heap (srv_next s) (srv_requests s) ({[id]} ∪ srv_finishes s) (srv_events s) (srv_core s) (srv_failed s)).

(** *** Steps

    A request arrives for a waiting object, or the wait is given up; a reply is sent
    or is not; the main loop handles an event.  A step that is not possible does
    nothing. *)
Inductive ServerStep := SvArrives (id : nat) (request : Request) | SvGivenUp (id : nat) | SvSent (id : nat) (ok : bool) | SvRaft.

Definition forget_request (id : nat) s : RaftServer :=
  mk_RaftServer (srv_heap s) (srv_next s) (delete id (srv_requests s)) (srv_finishes s) (srv_events s) (srv_core s) (srv_failed s).

Definition forget_finish (id : nat) s : RaftServer :=
  mk_RaftServer (srv_heap s) (srv_next s) (srv_requests s) (srv_finishes s ∖ {[id]}) (srv_events s) (srv_core s) (srv_failed s).

Definition count_failed (kind : RpcKind) s : RaftServer :=
  mk_RaftServer (srv_heap s) (srv_next s) (srv_requests s) (srv_finishes s) (srv_events s) (srv_core s)
    (λ k, if decide (k = kind) then S (srv_failed s k) else srv_failed s k).

Definition fill_request (id : nat) (request : Request) s : result RaftServer :=
  self ← at_address s id;
  Ret (set_heap s (<[id := mk_RaftCallData (cd_kind self) (mCallStatus self) (Some request) (mResponse self)]> (srv_heap s))).

Definition server_exec s (step : ServerStep) : result RaftServer :=
  match step with
  | SvArrives id request =>
      match srv_requests s !! id with
      | None => Ret s
      | Some _ => s ← fill_request id request (forget_request id s); RaftCallData_proceed id s
      end
  | SvGivenUp id =>
      match srv_requests s !! id with
      | None => Ret s
      | Some _ => RaftCallData_failOver id (forget_request id s)
      end
  | SvSent id ok =>
      if bool_decide (id ∈ srv_finishes s) then
        if ok then RaftCallData_proceed id (forget_finish id s)
        else self ← at_address s id; RaftCallData_failOver id (count_failed (cd_kind self) (forget_finish id s))
      else Ret s
  | SvRaft =>
      match srv_events s with
      | [] => Ret s
      | id :: events =>
          self ← at_address s id;
          match mRequest self with
          | None => Fail UndefinedBehaviour
          | Some request =>
              '(response, core) ← handle (cd_kind self) request (srv_core s);
              RaftCallData_reply id response
                (mk_RaftServer (srv_heap s) (srv_next s) (srv_requests s) (srv_finishes s) events core (srv_failed s))
          end
      end
  end.

(** The request a step brings in. *)
Definition arrives s (step : ServerStep) : list (RpcKind * Request) :=
  match step with
  | SvArrives id request => match srv_requests s !! id with Some kind => [(kind, request)] | None => [] end
  | _ => []
  end.

Fixpoint server_run s (steps : list ServerStep) : result (RaftServer * list (RpcKind * Request)) :=
  match steps with
  | [] => Ret (s, [])
  | step :: rest =>
      s' ← server_exec s step;
      '(t, later) ← server_run s' rest;
      Ret (t, arrives s step ++ later)
  end.

(** [serverLoopMain] begins with one object of each kind. *)
Definition RaftServer_new (core : Core) : RaftServer :=
  new_RaftCallData AppendEntriesRpc (new_RaftCallData RequestVoteRpc (mk_RaftServer ∅ 0 ∅ ∅ [] core (λ _, 0))).

(** Objects of a kind that wait for a request. *)
Definition listening s (kind : RpcKind) : nat := size (filter (λ kv, kv.2 = kind) (srv_requests s)).
End server.
Arguments RaftCallData : clear implicits. Arguments RaftServer : clear implicits. Arguments ServerStep : clear implicits.

(** ** The core behind the server

    [receiveMessage] on an event that holds an object: the handler fills the
    response.  An event of the other type does not exist, [dynamic_cast] would
    throw. *)
Section core.
Context `{Log L}.

Definition handle_call_data (env : RaftEnv) (kind : RpcKind) (request : AE_Request + RV_Request) (c : RaftCore L * list RaftAction)
    : result (Status * (AE_Response + RV_Response) * (RaftCore L * list RaftAction)) :=
  match kind, request with
  | AppendEntriesRpc, inl request =>
      '(status, response, core, acts) ← handleAppendEntriesRequest env c.1 request;
      Ret (status, inl response, (core, c.2 ++ acts))
  | RequestVoteRpc, inr request =>
      '(status, response, core, acts) ← handleRequestVoteRequest env c.1 request;
      Ret (status, inr response, (core, c.2 ++ acts))
  | _, _ => Fail Thrown
  end.
End core.

(** ** Client

    [resolve]: the address the DNS resolver gives now.  A finished call becomes an
    event of the main loop, whatever its status; a failed one refreshes the
    channel first. *)
Section client.
Context {Message Status Response : Type} (status_ok : Status → bool) (failed_status : Status).

Record RaftClient := mk_RaftClient {
  mPeerId : Z; mPeerAddress : string; mResolvedPeerAddress : string;
  cl_channels : list string;
  cl_calls : gmap nat (RpcKind * Message);
  cl_events : list (nat * RpcKind * Z * Status * Response) }.

Definition refressChannel (resolve : string → string) (c : RaftClient) : RaftClient :=
  let newResolvedAddress := resolve (mPeerAddress c) in
  if bool_decide (newResolvedAddress ≠ mResolvedPeerAddress c) then
    mk_RaftClient (mPeerId c) (mPeerAddress c) newResolvedAddress (cl_channels c ++ [newResolvedAddress]) (cl_calls c) (cl_events c)
  else c.

Definition RaftClient_new (resolve : string → string) (peerId : Z) (peerAddress : string) : RaftClient :=
  refressChannel resolve (mk_RaftClient peerId peerAddress EmptyString [] ∅ []).

(** [requestVote], [appendEntries] *)
Definition client_call (id : nat) (kind : RpcKind) (request : Message) (c : RaftClient) : RaftClient :=
  mk_RaftClient (mPeerId c) (mPeerAddress c) (mResolvedPeerAddress c) (cl_channels c) (<[id := (kind, request)]> (cl_calls c)) (cl_events c).

(** [clientLoopMain] on one finished call. *)
Definition client_finished (resolve : string → string) (id : nat) (status : Status) (response : Response) (c : RaftClient) : RaftClient :=
  match cl_calls c !! id with
  | None => c
  | Some (kind, _) =>
      let c := if status_ok status then c else refressChannel resolve c in
      mk_RaftClient (mPeerId c) (mPeerAddress c) (mResolvedPeerAddress c) (cl_channels c) (delete id (cl_calls c))
        (cl_events c ++ [(id, kind, mPeerId c, status, response)])
  end.
End client.
