(* ===== verification/RaftTheorems.v ===== *)
(** * Main theorems of Raft

    Election safety, stability of terms and votes, what a replicated entry and a
    committed entry mean, and the in-memory log against its specification.  The
    examples run a cluster of three nodes over [InMemoryLog]. *)
From S2P Require Import Prelude RaftLog RaftCore RaftHandlers RaftCluster RaftReplication.
Open Scope Z_scope.

(** ** Running a schedule *)
#[export] Instance AE_Request_eq_dec : EqDecision AE_Request.
Proof. solve_decision. Defined.
#[export] Instance AE_Response_eq_dec : EqDecision AE_Response.
Proof. solve_decision. Defined.
#[export] Instance RV_Request_eq_dec : EqDecision RV_Request.
Proof. solve_decision. Defined.
#[export] Instance RV_Response_eq_dec : EqDecision RV_Response.
Proof. solve_decision. Defined.
#[export] Instance Msg_eq_dec : EqDecision Msg.
Proof. solve_decision. Defined.

Section schedule.
Context `{LogMeta L} (conf : RaftConf) (addresses : gmap Z string).

#[export] Instance enabled_dec (s : Cluster (L:=L)) n i : Decision (enabled addresses s n i).
Proof.
  destruct i as [| | | | | | |[]]; simpl; try apply _; try (left; exact I).
Defined.

(** Node, clock and random number, input. *)
Definition run_schedule_step (s : Cluster (L:=L)) (x : Z * RaftEnv * Input) : result Cluster :=
  let '(n, env, i) := x in
  match cl_nodes s !! n with
  | None => Fail UndefinedBehaviour
  | Some c =>
      if decide (enabled addresses s n i)
      then '(c', acts) ← run_input env c i; Ret (put s n c' acts)
      else Fail UndefinedBehaviour
  end.

Definition run_schedule (s : Cluster (L:=L)) (sched : list (Z * RaftEnv * Input)) : result Cluster :=
  foldM run_schedule_step s sched.

Lemma run_schedule_reachable s sched s' :
  reachable conf addresses s → run_schedule s sched = Ret s' → reachable conf addresses s'.
Proof.
  revert s. unfold run_schedule. induction sched as [|[[n env] i] sched IH]; intros s Hs; simpl.
  - by intros [= <-].
  - destruct (cl_nodes s !! n) as [c|] eqn:Ec; [|done].
    destruct (decide _) as [Hen|]; [|done]. intros Hr.
    apply bind_Ret in Hr as (s1 & H1 & Hr). apply bind_Ret in H1 as ([c' acts] & Hi & H1). inv_ret.
    eapply IH; [|done]. eapply reachable_step; [done|]. by eapply step_run.
Qed.
End schedule.

(** A cluster of three nodes; node 1 is elected in term 1 by node 2 and starts
    to replicate. *)
Module SampleRaft.
Definition ByteSizeLong (e : LogEntry) : Z := 10.
#[export] Instance log_impl : Log InMemoryLog := InMemoryLog_Log ByteSizeLong.
#[export] Instance log_meta : LogMeta InMemoryLog := InMemoryLog_LogMeta ByteSizeLong.
#[export] Instance log_spec : LogSpec InMemoryLog := InMemoryLog_LogSpec ByteSizeLong.

Definition conf : RaftConf := mk_RaftConf 10 1000 5 100.
Definition addresses : gmap Z string := {[1 := "a"; 2 := "b"; 3 := "c"]}.
Definition node (n : Z) : RaftCore InMemoryLog :=
  match RaftCore_init conf addresses n Follower InMemoryLog_new 5 with
  | Ret c => c
  | Fail _ => mk_RaftCore conf ∅ ∅ (mk_MemberInfo 0 EmptyString) 0 0 0 1 Follower InMemoryLog_new []
  end.
Definition start : Cluster :=
  mk_Cluster {[1 := node 1; 2 := node 2; 3 := node 3]} [] [] [].

Definition env : RaftEnv := mk_RaftEnv 10 0.
Definition vote_req : RV_Request := mk_RV_Request 1 1 0 0.
Definition schedule : list (Z * RaftEnv * Input) :=
  [(1, env, RunElectionTimeout); (1, env, RunRequestVote);
   (2, env, RunEvent (RequestVoteRequestEvent 1 vote_req));
   (1, env, RunEvent (RequestVoteResponseEvent 2 StatusOK (mk_RV_Response 1 true 2 1)));
   (1, env, RunBecomeLeader); (1, env, RunAppendEntries)].
Definition elected : Cluster :=
  match run_schedule addresses start schedule with Ret s => s | Fail _ => start end.

Lemma start_initial : initial_cluster conf addresses start.
Proof.
  split; [vm_compute; reflexivity|]. do 3 (split; [reflexivity|]).
  intros n c Hn. exists InMemoryLog_new, 5. split; [|reflexivity].
  assert (Hk : n ∈ [1; 2; 3]).
  { apply elem_of_dom_2 in Hn. set_solver. }
  set_unfold in Hk. destruct Hk as [->|[->|[->|[]]]]; vm_compute in Hn |- *; congruence.
Qed.

Lemma elected_reachable : reachable conf addresses elected.
Proof.
  eapply (run_schedule_reachable conf addresses start schedule); [by apply reachable_init, start_initial|].
  vm_compute. reflexivity.
Qed.

(** Node 2 answers the empty AE_req, then receives the entry of term 1. *)
Definition later : RaftEnv := mk_RaftEnv 30000000 0.
Definition noop : LogEntry := mk_LogEntry 1 1 true 10 EmptyString 0 None.
Definition probe : AE_Request := mk_AE_Request 1 1 0 0 [] 0.
Definition data : AE_Request := mk_AE_Request 1 1 0 0 [noop] 0.
Definition replication : list (Z * RaftEnv * Input) :=
  [(2, env, RunEvent (AppendEntriesRequestEvent 1 probe));
   (1, env, RunEvent (AppendEntriesResponseEvent 2 StatusOK (mk_AE_Response 1 true 2 1 0 0 0)));
   (1, later, RunAppendEntries);
   (2, later, RunEvent (AppendEntriesRequestEvent 1 data));
   (1, later, RunEvent (AppendEntriesResponseEvent 2 StatusOK (mk_AE_Response 1 true 2 1 0 1 1)))].
Definition replicated : Cluster :=
  match run_schedule addresses elected replication with Ret s => s | Fail _ => start end.
Definition at_node (s : Cluster) (n : Z) : RaftCore InMemoryLog := default (node 0) (cl_nodes s !! n).

Lemma replicated_reachable : reachable conf addresses replicated.
Proof.
  eapply (run_schedule_reachable conf addresses elected replication); [apply elected_reachable|].
  vm_compute. reflexivity.
Qed.

Example commits : mCommitIndex (at_node replicated 1) = 0 ∧
  ∃ c, advanceCommitIndex (at_node replicated 1) = Ret (c, []) ∧ mCommitIndex c = 1.
Proof. split; [vm_compute; reflexivity|]. eexists. split; vm_compute; reflexivity. Qed.
End SampleRaft.
Import (hints) SampleRaft.

(** ** Sequences of inputs and of log operations *)
Section sequences.
Context `{LogSpec L}.

(** Inputs one after the other on one node, with all their outputs. *)
Definition run_inputs (env : RaftEnv) (c : RaftCore L) (is_ : list Input)
    : result (RaftCore L * list RaftAction) :=
  foldM (λ '(c, acts) i, '(c, a) ← run_input env c i; Ret (c, acts ++ a)) (c, []) is_.

(** The event an iteration of the loop takes from its queues. *)
Definition next_event (aeRv client : list RaftEvent) : list Input :=
  match aeRv, client with
  | e :: _, _ => [RunEvent e]
  | [], e :: _ => [RunEvent e]
  | [], [] => []
  end.
End sequences.

(** The operations that change a log. *)
Inductive LogOp :=
  | OpAppend (e : LogEntry) | OpAppendAll (es : list LogEntry)
  | OpTruncatePrefix (firstIndexKept : Z) | OpTruncateSuffix (lastIndexKept : Z)
  | OpSetTerm (term : Z) | OpSetVote (vote : Z).

Definition run_LogOp `{Log L} (l : L) (op : LogOp) : result L :=
  match op with
  | OpAppend e => Log_append l e
  | OpAppendAll es => Log_appendAll l es
  | OpTruncatePrefix i => Ret (truncatePrefix l i)
  | OpTruncateSuffix i => Ret (truncateSuffix l i)
  | OpSetTerm t => Ret (setCurrentTerm l t)
  | OpSetVote n => Ret (setVoteFor l n)
  end.

(** The same on views; entries that do not continue the log abort. *)
#[export] Instance contiguous_dec i es : Decision (contiguous i es).
Proof. revert i; induction es as [|e es IH]; intros i; simpl; apply _. Defined.

Definition lv_append (v : LogView) (es : list LogEntry) : option LogView :=
  if decide (contiguous (lv_last v + 1) es)
  then Some (lv_with_entries v (lv_entries v ++ es)) else None.

Definition view_LogOp (v : LogView) (op : LogOp) : option LogView :=
  match op with
  | OpAppend e => lv_append v [e]
  | OpAppendAll es => lv_append v es
  | OpTruncatePrefix i => Some (lv_truncatePrefix v i)
  | OpTruncateSuffix i => if 0 <=? i then Some (lv_truncateSuffix v i) else None
  | OpSetTerm t => Some (mk_LogView (lv_first v) (lv_entries v) t (lv_vote v))
  | OpSetVote n => Some (mk_LogView (lv_first v) (lv_entries v) (lv_term v) n)
  end.

Lemma run_LogOp_refines `{LogSpec L} (l : L) op v' :
  log_inv l → view_LogOp (log_view l) op = Some v' →
  ∃ l', run_LogOp l op = Ret l' ∧ log_inv l' ∧ log_view l' = v'.
Proof.
  intros Hi. destruct op; simpl; unfold lv_append; try case_decide as Hc; intros Hv;
    try injection Hv as <-; try done.
  - destruct Hc as [Hc _]. destruct (spec_appendEntry l e Hi Hc) as (l' & Ha & ? & ?).
    exists l'. unfold Log_append. by rewrite Ha.
  - destruct (spec_appendEntries l es Hi Hc) as (l' & Ha & ? & ?).
    exists l'. unfold Log_appendAll. by rewrite Ha.
  - destruct (spec_truncatePrefix l firstIndexKept Hi). eauto.
  - destruct (Z.leb_spec 0 lastIndexKept); [|done]. injection Hv as <-.
    destruct (spec_truncateSuffix l lastIndexKept Hi); eauto.
  - destruct (spec_setCurrentTerm l term Hi). eauto.
  - destruct (spec_setVoteFor l vote Hi). eauto.
Qed.

(** ** The theorems *)

(** C1. Election safety: in every reachable state of a cluster whose network
    loses, delays, reorders and duplicates messages and whose nodes crash and
    restart (with the term and vote they had stored, [crash_log]), at most one node has ever been leader in a term; in particular two
    nodes that are leaders in the same term are the same node. *)
Theorem election_safety `{LogMeta L} conf addresses (s : Cluster (L:=L)) :
  reachable conf addresses s →
  (∀ t n1 n2, (t, n1) ∈ cl_leaders s → (t, n2) ∈ cl_leaders s → n1 = n2) ∧
  (∀ n1 n2 c1 c2, cl_nodes s !! n1 = Some c1 → cl_nodes s !! n2 = Some c2 →
     mRaftRole c1 = Leader → mRaftRole c2 = Leader → core_term c1 = core_term c2 → n1 = n2).
Proof.
  intros Hr. pose proof (reachable_inv _ _ _ Hr) as Hi. split.
  - intros t n1 n2. by apply (one_leader_per_term addresses).
  - intros n1 n2 c1 c2 H1 H2 L1 L2 Ht.
    pose proof (ci_leader _ _ Hi _ _ H1 L1). pose proof (ci_leader _ _ Hi _ _ H2 L2).
    eapply (one_leader_per_term addresses); [done|done|by rewrite Ht].
Qed.

Lemma election_safety_witness :
  reachable SampleRaft.conf SampleRaft.addresses SampleRaft.replicated ∧
  cl_leaders SampleRaft.replicated !! 0%nat = Some (1, 1) ∧
  ∀ n, (1, n) ∈ cl_leaders SampleRaft.replicated → n = 1.
Proof.
  split; [exact SampleRaft.replicated_reachable|]. split; [vm_compute; reflexivity|]. intros n Hn.
  apply (proj1 (election_safety _ _ _ SampleRaft.replicated_reachable) 1 n 1); [done|].
  vm_compute. left.
Defined.

(** Whatever a node or the network does, crashes included, a node's term
    never decreases, and within a term a vote once given is never changed. *)
Theorem term_and_vote_stable `{LogMeta L} conf addresses (s s' : Cluster (L:=L)) n c :
  reachable conf addresses s → step conf addresses s s' → cl_nodes s !! n = Some c →
  ∃ c', cl_nodes s' !! n = Some c' ∧
    (core_term c < core_term c' ∨
     core_term c' = core_term c ∧ (core_vote c = 0 ∨ core_vote c' = core_vote c)).
Proof.
  intros Hr Hs Hn. pose proof (reachable_inv _ _ _ Hr) as Hi.
  destruct Hs as [s m d env i c' acts Hd Hen Hrun|s m d log tp c' Hd Hcr Hinit]; simpl;
    (destruct (decide (n = m)) as [<-|Hne];
      [rewrite lookup_insert_eq; eexists; split; [done|]; assert (d = c) as -> by congruence
      |rewrite lookup_insert_ne by done; exists c; split; [done|]; right; tauto]).
  - apply (adv_term _ _ _ (proj1 (run_input_step_ok addresses _ _ _ _ _ _ _
      (ci_node _ _ Hi _ _ Hn) (ci_net _ _ Hi) Hen Hrun))).
  - unfold RaftCore_init in Hinit. apply bind_Ret in Hinit as (? & _ & Hinit).
    apply bind_Ret in Hinit as ([? ?] & _ & [= <-]). unfold core_term, core_vote; simpl.
    destruct Hcr as [[Ht Hv]|[Ht _]]; [right; split; [done|]; by right|by left].
Qed.

Lemma term_and_vote_stable_witness :
  let s' := put SampleRaft.start 1 (electionTimeout SampleRaft.env (SampleRaft.node 1)) [] in
  ∃ c', cl_nodes s' !! 1 = Some c' ∧
    (core_term (SampleRaft.node 1) < core_term c' ∨
     core_term c' = core_term (SampleRaft.node 1) ∧
       (core_vote (SampleRaft.node 1) = 0 ∨ core_vote c' = core_vote (SampleRaft.node 1))).
Proof.
  apply (term_and_vote_stable SampleRaft.conf SampleRaft.addresses SampleRaft.start _ 1 (SampleRaft.node 1)).
  - by apply reachable_init, SampleRaft.start_initial.
  - by apply (step_run _ _ SampleRaft.start 1 (SampleRaft.node 1) SampleRaft.env RunElectionTimeout).
  - reflexivity.
Defined.

(** C36. What a successful AppendEntries has done, on a node whose log is in order
    ([log_inv]) and which has committed no more than its log: the log is in order
    still, begins where it began and agrees with every entry of the request (those
    before its first index, which were truncated, apart); every entry up to the
    commit index is untouched; the commit index is the larger of the node's own and
    the leader's; and the match index reported is the last index the request
    covers. *)
Theorem append_entries_agreement `{LogSpec L} env (c : RaftCore L) req s resp c' acts :
  log_inv (core_mLog c) → mCommitIndex c ≤ lv_last (log_view (core_mLog c)) →
  handleAppendEntriesRequest env c req = Ret (s, resp, c', acts) → aer_success resp = true →
  let v := log_view (core_mLog c) in let v' := log_view (core_mLog c') in
  log_inv (core_mLog c') ∧ lv_first v' = lv_first v ∧
  (∀ j, lv_first v ≤ j ≤ mCommitIndex c → lv_lookup v' j = lv_lookup v j) ∧
  (∀ e, e ∈ ae_entries req → lv_first v ≤ le_index e →
     le_term <$> lv_lookup v' (le_index e) = Some (le_term e)) ∧
  mCommitIndex c' = Z.max (mCommitIndex c) (ae_commit_index req) ∧
  aer_match_index resp = ae_prev_log_index req + Z.of_nat (length (ae_entries req)).
Proof. apply handleAppendEntriesRequest_accepts. Qed.

Lemma append_entries_agreement_witness :
  ∃ c' resp, handleAppendEntriesRequest SampleRaft.env (SampleRaft.at_node SampleRaft.elected 3)
      SampleRaft.data = Ret (StatusOK, resp, c', []) ∧
    le_term <$> lv_lookup (log_view (core_mLog c')) 1 = Some 1 ∧ aer_match_index resp = 1.
Proof.
  eexists _, _. split; [vm_compute; reflexivity|].
  edestruct (append_entries_agreement SampleRaft.env (SampleRaft.at_node SampleRaft.elected 3)
    SampleRaft.data) as (_ & _ & _ & He & _ & Hm); [| |vm_compute; reflexivity|reflexivity|].
  - split; [vm_compute; reflexivity|split; [vm_compute; done|by intros [] e]].
  - vm_compute. done.
  - split; [|exact Hm]. apply (He SampleRaft.noop); [vm_compute; left|vm_compute; done].
Defined.

(** A leader that moves its commit index moves it forward, to an entry of
    its own term in its own log, and a majority of the cluster (itself
    included) has reported to hold the log up to there. *)
Theorem commit_needs_majority `{LogSpec L} (c c' : RaftCore L) acts :
  advanceCommitIndex c = Ret (c', acts) → mCommitIndex c' ≠ mCommitIndex c →
  mRaftRole c = Leader ∧ mCommitIndex c < mCommitIndex c' ≤ getLastLogIndex (core_mLog c) ∧
  getTerm (core_mLog c) (mCommitIndex c') = Some (getCurrentTerm (core_mLog c)) ∧
  getMajorityNumber (Z.of_nat (size (mPeers c)) + 1) ≤
    1 + Z.of_nat (length (filter (λ kv, mCommitIndex c' ≤ mMatchIndex (snd kv)) (map_to_list (mPeers c)))).
Proof. apply advanceCommitIndex_majority. Qed.

Lemma commit_needs_majority_witness :
  ∃ c', advanceCommitIndex (SampleRaft.at_node SampleRaft.replicated 1) = Ret (c', []) ∧
    mRaftRole (SampleRaft.at_node SampleRaft.replicated 1) = Leader ∧
    mCommitIndex (SampleRaft.at_node SampleRaft.replicated 1) < mCommitIndex c'.
Proof.
  eexists. split; [vm_compute; reflexivity|].
  edestruct (commit_needs_majority (SampleRaft.at_node SampleRaft.replicated 1)) as (Hr & Hc & _);
    [vm_compute; reflexivity|vm_compute; discriminate|].
  split; [exact Hr|]. apply Hc.
Defined.

(** When the commit index moves, exactly the clients whose entries it has
    reached are told of success, in order, and the rest stays pending. *)
Theorem commit_answers_exactly `{LogSpec L} (c c' : RaftCore L) acts :
  pending_sorted (mPendingClientRequests c) →
  advanceCommitIndex c = Ret (c', acts) → mCommitIndex c' ≠ mCommitIndex c →
  mPendingClientRequests c' = filter (λ p, mCommitIndex c' < p.1) (mPendingClientRequests c) ∧
  acts = pending_replies (filter (λ p, p.1 ≤ mCommitIndex c') (mPendingClientRequests c))
           200 "Success" (mLeaderId c).
Proof. apply advanceCommitIndex_replies. Qed.

Lemma commit_answers_exactly_witness :
  let c := set_mPending (SampleRaft.at_node SampleRaft.replicated 1) [(1, Some 7); (2, Some 8)] in
  ∃ c' acts, advanceCommitIndex c = Ret (c', acts) ∧
    acts = [FillResultAndReply 7 200 "Success" (Some 0)] ∧ mPendingClientRequests c' = [(2, Some 8)].
Proof.
  intros c. do 2 eexists. split; [vm_compute; reflexivity|].
  edestruct (commit_answers_exactly c) as [Hp Ha];
    [repeat constructor|vm_compute; reflexivity|vm_compute; discriminate|].
  split; [exact Ha|exact Hp].
Defined.

(** A leader appends a subsequence of a batch of client requests: entries
    of its own term that continue its log; it remembers the reply handle of
    each under its index, which keeps the pending replies in order. *)
Theorem client_requests_extend_log `{LogSpec L} (c : RaftCore L) reqs c' acts :
  log_inv (core_mLog c) → mRaftRole c = Leader → handleClientRequests c reqs = (c', acts) →
  (∃ new, new `sublist_of` reqs ∧
     Forall (λ r, le_term (cr_mEntry r) = getCurrentTerm (core_mLog c)) new ∧
     log_inv (core_mLog c') ∧
     log_view (core_mLog c') = lv_with_entries (log_view (core_mLog c))
       (lv_entries (log_view (core_mLog c)) ++ (cr_mEntry <$> new)) ∧
     mPendingClientRequests c' = mPendingClientRequests c ++
       map (λ r, (le_index (cr_mEntry r), cr_mRequestHandle r)) new ∧ acts = []) ∧
  (Forall (λ p, p.1 ≤ lv_last (log_view (core_mLog c))) (mPendingClientRequests c) →
   pending_sorted (mPendingClientRequests c) → pending_sorted (mPendingClientRequests c')).
Proof.
  intros Hi Hl Hh. split; [by eapply handleClientRequests_leader|].
  intros Hb Hs. by eapply pending_sorted_app.
Qed.

Lemma client_requests_extend_log_witness :
  let c := SampleRaft.at_node SampleRaft.replicated 1 in
  let r := mk_ClientRequest (mk_LogEntry 1 2 false 0 "p" 0 None) (Some 7) in
  let stale := mk_ClientRequest (mk_LogEntry 0 3 false 0 "p" 0 None) (Some 8) in
  pending_sorted (mPendingClientRequests (handleClientRequests c [r; stale]).1) ∧
  mPendingClientRequests (handleClientRequests c [r; stale]).1 = [(2, Some 7)].
Proof.
  intros c r stale. split; [|vm_compute; reflexivity].
  apply (client_requests_extend_log c [r; stale] _ (handleClientRequests c [r; stale]).2);
    [|reflexivity|by destruct (handleClientRequests _ _)|constructor|constructor].
  split; [vm_compute; reflexivity|split; [vm_compute; done|]].
  intros [|[|k]] e He; vm_compute in He; [injection He as <-|discriminate..]. reflexivity.
Defined.

(** Running a list of operations on views. *)
Definition view_LogOps (v : LogView) (ops : list LogOp) : option LogView :=
  foldl (λ ov op, ov ≫= λ v, view_LogOp v op) (Some v) ops.

Lemma view_LogOps_cons v op ops :
  view_LogOps v (op :: ops) = view_LogOp v op ≫= λ v', view_LogOps v' ops.
Proof.
  unfold view_LogOps. simpl. destruct (view_LogOp v op); simpl; [done|].
  induction ops as [|o ops IH]; [done|]. simpl. done.
Qed.

Lemma run_LogOps_refines `{LogSpec L} ops (l : L) v' :
  log_inv l → view_LogOps (log_view l) ops = Some v' →
  ∃ l', foldM run_LogOp l ops = Ret l' ∧ log_inv l' ∧ log_view l' = v'.
Proof.
  revert l. induction ops as [|op ops IH]; intros l Hi Hv.
  - injection Hv as <-. by exists l.
  - rewrite view_LogOps_cons in Hv. destruct (view_LogOp _ op) as [v1|] eqn:E1; [|done].
    destruct (run_LogOp_refines l op v1 Hi E1) as (l1 & H1 & Hi1 & Hv1). simpl in Hv. subst v1.
    destruct (IH l1 Hi1 Hv) as (l' & Hl' & ? & ?). exists l'. simpl. rewrite H1. done.
Qed.

(** The in-memory log implements its specification: any sequence of
    operations that the abstract log allows runs without failure from a fresh
    log, and afterwards indices, term, vote and the term of every entry read as
    the abstract log says. *)
Theorem inmemory_log_refines ByteSizeLong ops v :
  view_LogOps (mk_LogView 1 [] 0 0) ops = Some v →
  ∃ l, foldM (run_LogOp (H:=InMemoryLog_Log ByteSizeLong)) InMemoryLog_new ops = Ret l ∧
    mFirstIndex l = lv_first v ∧ mLastIndex l = lv_last v ∧ mTerm l = lv_term v ∧ mVoteFor l = lv_vote v ∧
    ∀ i, lv_first v ≤ i ≤ lv_last v → InMemoryLog_getTerm l i = le_term <$> lv_lookup v i.
Proof.
  intros Hv. pose (Sp := InMemoryLog_LogSpec ByteSizeLong).
  destruct (run_LogOps_refines (H0:=Sp) ops InMemoryLog_new v) as (l & Hr & Hi & <-); [|done|].
  { split; [done|]. split; [done|]. by intros [] e. }
  exists l. split; [done|]. split; [apply (spec_first l Hi)|]. split; [apply (spec_last l Hi)|].
  split; [apply (spec_term l Hi)|]. split; [apply (spec_vote l Hi)|].
  intros i Hr'. by apply (spec_getTerm_in l i Hi).
Qed.

Lemma inmemory_log_refines_witness :
  ∃ l, foldM (run_LogOp (H:=InMemoryLog_Log (λ _, 0))) InMemoryLog_new
         [OpAppend SampleRaft.noop; OpSetTerm 3; OpTruncateSuffix 0; OpSetVote 2] = Ret l ∧
       mLastIndex l = 0 ∧ mTerm l = 3.
Proof.
  destruct (inmemory_log_refines (λ _, 0)
    [OpAppend SampleRaft.noop; OpSetTerm 3; OpTruncateSuffix 0; OpSetVote 2] (mk_LogView 1 [] 3 2))
    as (l & Hl & _ & H2 & H3 & _); [vm_compute; reflexivity|].
  exists l. split; [exact Hl|]. split; [exact H2|exact H3].
Defined.

(** One iteration of the main loop is a schedule of the cluster model: the
    handlers in their fixed order around at most one event, replication and
    vote messages before client requests, and the event leaves its queue. *)
Theorem loop_iteration_is_schedule `{LogSpec L} env (c c' : RaftCore L) aeRv client acts aeRv' client' :
  raftLoop_iteration env c aeRv client = Ret (c', acts, aeRv', client') →
  run_inputs env c ([RunAppendEntries; RunRequestVote] ++ next_event aeRv client ++
    [RunAdvanceCommitIndex; RunBecomeLeader; RunElectionTimeout; RunLeadershipTimeout]) = Ret (c', acts) ∧
  (aeRv ≠ [] → aeRv' = tail aeRv ∧ client' = client) ∧ (aeRv = [] → aeRv' = [] ∧ client' = tail client).
Proof.
  unfold raftLoop_iteration. intros Hh.
  apply bind_Ret in Hh as ([c1 a1] & H1 & Hh). apply bind_Ret in Hh as ([c2 a2] & H2 & Hh).
  apply bind_Ret in Hh as ([[[c3 a3] q1] q2] & H3 & Hh). apply bind_Ret in Hh as ([c4 a4] & H4 & Hh).
  apply bind_Ret in Hh as (c5 & H5 & Hh). apply bind_Ret in Hh as ([c6 a6] & H6 & Hh).
  injection Hh as <- <- <- <-. unfold run_inputs. simpl. rewrite H1. simpl. rewrite H2. simpl.
  unfold receiveMessage in H3. destruct aeRv as [|e aeRv], client as [|e' client];
    try (apply bind_Ret in H3 as ([c3' a3'] & H3 & H3')); simplify_eq/=;
    (split; [|done]); rewrite ?H3; simpl; rewrite H4; simpl; rewrite H5; simpl; rewrite H6; simpl;
    by rewrite ?app_nil_r, <- !app_assoc.
Qed.

Lemma loop_iteration_is_schedule_witness :
  ∃ c' acts, run_inputs SampleRaft.env (SampleRaft.at_node SampleRaft.elected 2)
    [RunAppendEntries; RunRequestVote; RunEvent (AppendEntriesRequestEvent 1 SampleRaft.data);
     RunAdvanceCommitIndex; RunBecomeLeader; RunElectionTimeout; RunLeadershipTimeout] = Ret (c', acts) ∧
    getLastLogIndex (core_mLog c') = 1.
Proof.
  eexists _, _. split.
  - eapply proj1, (loop_iteration_is_schedule SampleRaft.env (SampleRaft.at_node SampleRaft.elected 2))
      with (aeRv := [AppendEntriesRequestEvent 1 SampleRaft.data]) (client := []).
    vm_compute. reflexivity.
  - reflexivity.
Defined.
