(* ===== verification/RaftDurableTheorems.v ===== *)
(** * Main theorems of replication

    State machine safety, leader completeness, log matching and durability of
    committed entries for the cluster of RaftDurable.v, and a run of three nodes
    in which an entry is committed, a node crashes in the middle of an append and
    another is elected. *)
From S2P Require Import Prelude RaftLog RaftCore RaftHandlers RaftCluster RaftReplication RaftSpec RaftSafety RaftSteps RaftRefine RaftReceive RaftDurable RaftTheorems.
Open Scope Z_scope.

(** ** Schedules *)
Section schedule.
Context `{LogMeta L} `{!LogSpec L} (conf : RaftConf) (addresses : gmap Z string).

Definition truncates (x : Z * RaftEnv * Input) : bool :=
  match x.2 with RunTruncatePrefix _ => true | _ => false end.

Lemma run_schedule_durable (s : Cluster (L:=L)) sched s' :
  forallb (λ x, negb (truncates x)) sched = true → run_schedule addresses s sched = Ret s' →
  rtc (durable_step conf addresses) s s'.
Proof.
  revert s. unfold run_schedule. induction sched as [|[[n env] i] sched IH]; intros s; simpl; [by intros _ [= <-]|].
  intros [Ht Hall]%andb_true_iff. destruct (cl_nodes s !! n) as [c|] eqn:Ec; [|done]. destruct (decide _) as [Hen|]; [|done].
  intros Hr. apply bind_Ret in Hr as (s1 & H1 & Hr). apply bind_Ret in H1 as ([c' acts] & Hi & H1). injection H1 as <-.
  eapply rtc_l; [|by apply IH]. eapply durable_run; [done..| |done]. by intros k ->.
Qed.
End schedule.

(** ** Lookups of committed entries *)
Section lookups.
Context `{LogSpec L}.

(** The node has committed [e] at index [i]. *)
Definition committed (c : RaftCore L) (i : Z) (e : LogEntry) : Prop :=
  1 ≤ i ≤ mCommitIndex c ∧ lv_lookup (log_view (core_mLog c)) i = Some e.

Lemma committed_entry (c : RaftCore L) i e : whole (core_mLog c) → committed c i e →
  ∃ k : nat, i = Z.of_nat (S k) ∧ Z.of_nat k < mCommitIndex c ∧ entries_of (core_mLog c) !! k = Some e.
Proof.
  intros Hw [Hi He]. exists (Z.to_nat (i - 1)). rewrite <- whole_lookup by done.
  replace (Z.of_nat (S (Z.to_nat (i - 1)))) with i by lia. split_and!; [done|lia|done].
Qed.
End lookups.

(** ** A run *)
Module SampleRun.
Import SampleRaft.
Definition nodes : gmap Z string := SampleRaft.addresses.

(** From the replicated state of RaftTheorems.v: node 1 commits the entry of its
    term and tells node 2. *)
Definition tell : RaftEnv := mk_RaftEnv 60000000 0.
Definition heartbeat : AE_Request := mk_AE_Request 1 1 1 1 [] 1.
Definition learning : list (Z * RaftEnv * Input) :=
  [(1, later, RunAdvanceCommitIndex); (1, tell, RunAppendEntries);
   (2, tell, RunEvent (AppendEntriesRequestEvent 1 heartbeat))].
Definition learned : Cluster :=
  match run_schedule nodes replicated learning with Ret s => s | Fail _ => start end.

(** Then node 2 is elected in term 2 with the vote of node 3. *)
Definition late : RaftEnv := mk_RaftEnv 9000000000 0.
Definition vote2 : RV_Request := mk_RV_Request 2 2 1 1.
Definition election : list (Z * RaftEnv * Input) :=
  [(2, late, RunElectionTimeout); (2, late, RunRequestVote);
   (3, late, RunEvent (RequestVoteRequestEvent 2 vote2));
   (2, late, RunEvent (RequestVoteResponseEvent 3 StatusOK (mk_RV_Response 2 true 3 2)));
   (2, late, RunBecomeLeader)].
Definition reelected : Cluster :=
  match run_schedule nodes learned election with Ret s => s | Fail _ => start end.

Lemma start_durable : durable_initial conf nodes start.
Proof.
  split; [apply start_initial|]. apply map_Forall_to_list. vm_compute map_to_list.
  repeat constructor; try done; intros [] e; by intros.
Qed.

Lemma replicated_run : rtc (durable_step conf nodes) start replicated.
Proof.
  transitivity elected.
  - apply (run_schedule_durable conf nodes start schedule); [reflexivity|vm_compute; reflexivity].
  - apply (run_schedule_durable conf nodes elected replication); [reflexivity|vm_compute; reflexivity].
Qed.
Lemma learned_run : rtc (durable_step conf nodes) replicated learned.
Proof. apply (run_schedule_durable conf nodes replicated learning); [reflexivity|vm_compute; reflexivity]. Qed.
Lemma reelected_run : rtc (durable_step conf nodes) learned reelected.
Proof. apply (run_schedule_durable conf nodes learned election); [reflexivity|vm_compute; reflexivity]. Qed.

Lemma to_learned : rtc (durable_step conf nodes) start learned.
Proof. etrans; [exact replicated_run|exact learned_run]. Qed.
Lemma to_reelected : rtc (durable_step conf nodes) start reelected.
Proof. etrans; [exact to_learned|exact reelected_run]. Qed.

Lemma node1_learned : cl_nodes learned !! 1 = Some (at_node learned 1).
Proof. vm_compute. reflexivity. Qed.
Lemma node2_learned : cl_nodes learned !! 2 = Some (at_node learned 2).
Proof. vm_compute. reflexivity. Qed.
Lemma node2_reelected : cl_nodes reelected !! 2 = Some (at_node reelected 2).
Proof. vm_compute. reflexivity. Qed.

(** Node 2 crashes after it has learned of the commit, and restarts. *)
Definition restarted : RaftCore InMemoryLog :=
  match RaftCore_init conf nodes 2 Follower (core_mLog (at_node learned 2)) 5 with Ret c => c | Fail _ => node 2 end.
Definition crashed : Cluster := put learned 2 restarted [].
Lemma crashed_run : rtc (durable_step conf nodes) learned crashed.
Proof.
  apply rtc_once. apply (durable_restart conf nodes learned 2 (at_node learned 2) (core_mLog (at_node learned 2)) 5);
    [exact node2_learned| |vm_compute; reflexivity].
  split; [|split; [reflexivity|split; [by left|by left]]].
  split; [vm_compute; reflexivity|]. split; [vm_compute; discriminate|].
  intros [|[|k]] e He; vm_compute in He; [injection He as <-|discriminate..]. reflexivity.
Qed.

Lemma committed_1 : committed (at_node learned 1) 1 noop.
Proof. split; [vm_compute; split; discriminate|vm_compute; reflexivity]. Qed.
Lemma committed_2 : committed (at_node learned 2) 1 noop.
Proof. split; [vm_compute; split; discriminate|vm_compute; reflexivity]. Qed.

(** Node 3 crashes while it appends two entries: the first one is there. *)
Definition second : LogEntry := mk_LogEntry 1 2 false 0 "second" 0 None.
Definition batch : AE_Request := mk_AE_Request 1 1 0 0 [noop; second] 1.
Example torn_batch :
  match handleAppendEntriesRequest tell (at_node learned 3) batch with
  | Ret (_, _, c1, _) => torn (at_node learned 3) c1
      (InMemoryLog_appendEntry (InMemoryLog_setCurrentTerm (core_mLog (at_node learned 3)) 1) noop).2
  | Fail _ => False
  end.
Proof.
  vm_compute handleAppendEntriesRequest. split; [reflexivity|]. split; [reflexivity|]. split.
  - exists [second]. reflexivity.
  - intros P HP _. vm_compute in HP. apply prefix_nil_inv in HP as ->. apply prefix_nil.
Qed.
End SampleRun.
Import (hints) SampleRaft.

(** ** The theorems *)
Section theorems.
Context `{LogMeta L} `{!LogSpec L} (conf : RaftConf) (addresses : gmap Z string).
Implicit Types (s : Cluster (L:=L)).

(** C3. Raft refines its specification: every state a cluster with durable logs
    reaches, through lost, delayed, reordered and duplicated messages, crashes of
    processes and crashes in the middle of an append, is the state of some run of the
    abstract machine of RaftSpec.v: the same terms, roles, logs and commit
    indices, and every message on the network is one of the machine's. *)
Theorem raft_refines_spec s0 s :
  durable_initial conf addresses s0 → rtc (durable_step conf addresses) s0 s →
  ∃ σ0 σ, spec_initial (members addresses) σ0 ∧ spec_steps (members addresses) σ0 σ ∧ related s σ.
Proof.
  intros Hi Hst. destruct (start_related conf addresses s0 Hi) as [Hsi HR].
  destruct (durable_steps_sim conf addresses s0 s (spec_start s0) _ (initial_cluster_inv _ _ _ (proj1 Hi)) HR
    (initial_safe _ _ Hsi) Hst) as (σ & Hσ & HRσ). by exists (spec_start s0), σ.
Qed.

(** C2. State machine safety: whatever two nodes have committed at one index, at
    two points of a run, is the same entry. *)
Theorem state_machine_safety s0 s1 s2 n1 n2 c1 c2 i :
  durable_initial conf addresses s0 → rtc (durable_step conf addresses) s0 s1 → rtc (durable_step conf addresses) s1 s2 →
  cl_nodes s1 !! n1 = Some c1 → cl_nodes s2 !! n2 = Some c2 →
  1 ≤ i → i ≤ mCommitIndex c1 → i ≤ mCommitIndex c2 → ∃ e, committed c1 i e ∧ committed c2 i e.
Proof.
  intros Hi H01 H12 Hn1 Hn2 Hi1 Hc1 Hc2.
  destruct (durable_run_spec conf addresses s0 s1 s2 Hi H01 H12) as (σ1 & σ2 & g1 & Hs1 & HR1 & Hst & HR2).
  destruct (re_node _ _ HR1 _ _ Hn1) as (a1 & Ha1 & Hr1). destruct (re_node _ _ HR2 _ _ Hn2) as (a2 & Ha2 & Hr2).
  set (k := Z.to_nat (i - 1)). assert (Ei : i = Z.of_nat (S k)) by lia.
  pose proof (nr_commit _ _ _ _ Hr1) as K1. pose proof (nr_commit _ _ _ _ Hr2) as K2.
  pose proof (commits_agree _ _ _ _ _ _ _ _ k Hs1 Hst Ha1 Ha2 ltac:(lia) ltac:(lia)) as Heq.
  rewrite (nr_entries _ _ _ _ Hr1), (nr_entries _ _ _ _ Hr2) in Heq.
  destruct (sf_node _ _ _ Hs1 _ _ Ha1) as (_ & _ & _ & Hlen). rewrite (nr_entries _ _ _ _ Hr1) in Hlen.
  destruct (lookup_lt_is_Some_2 (entries_of (core_mLog c1)) k) as [e He]; [lia|]. exists e.
  split; (split; [lia|]); rewrite Ei, whole_lookup; [done|apply Hr1|congruence|apply Hr2].
Qed.

(** C7. Leader completeness: an entry a node has committed is in the log of
    every leader of that node's term or a later one, at that point of the run
    or later. *)
Theorem leader_completeness s0 s1 s2 n1 n2 c1 c2 i e :
  durable_initial conf addresses s0 → rtc (durable_step conf addresses) s0 s1 → rtc (durable_step conf addresses) s1 s2 →
  cl_nodes s1 !! n1 = Some c1 → cl_nodes s2 !! n2 = Some c2 →
  mRaftRole c2 = Leader → core_term c1 ≤ core_term c2 → committed c1 i e →
  lv_lookup (log_view (core_mLog c2)) i = Some e.
Proof.
  intros Hi H01 H12 Hn1 Hn2 Hl Ht Hce.
  destruct (durable_run_spec conf addresses s0 s1 s2 Hi H01 H12) as (σ1 & σ2 & g1 & Hs1 & HR1 & Hst & HR2).
  destruct (re_node _ _ HR1 _ _ Hn1) as (a1 & Ha1 & Hr1). destruct (re_node _ _ HR2 _ _ Hn2) as (a2 & Ha2 & Hr2).
  destruct (committed_entry c1 i e (nr_log _ _ _ _ Hr1) Hce) as (k & -> & Hk & He).
  pose proof (nr_commit _ _ _ _ Hr1) as K1. rewrite whole_lookup by apply Hr2.
  rewrite <- (nr_entries _ _ _ _ Hr2), <- He, <- (nr_entries _ _ _ _ Hr1). symmetry.
  apply (leader_has_committed (members addresses) σ1 σ2 g1 n1 n2); try done; [|rewrite (nr_term _ _ _ _ Hr1), (nr_term _ _ _ _ Hr2); done|lia].
  by rewrite (nr_role _ _ _ _ Hr2).
Qed.

(** C9. Log matching: in every state of a run, two logs with an entry of the
    same term at the same index are equal up to that index. *)
Theorem log_matching s0 s n1 n2 c1 c2 i e1 e2 :
  durable_initial conf addresses s0 → rtc (durable_step conf addresses) s0 s →
  cl_nodes s !! n1 = Some c1 → cl_nodes s !! n2 = Some c2 →
  lv_lookup (log_view (core_mLog c1)) i = Some e1 → lv_lookup (log_view (core_mLog c2)) i = Some e2 →
  le_term e1 = le_term e2 →
  ∀ j, j ≤ i → lv_lookup (log_view (core_mLog c1)) j = lv_lookup (log_view (core_mLog c2)) j.
Proof.
  intros Hi Hst Hn1 Hn2 He1 He2 Ht j Hj.
  destruct (durable_run_spec conf addresses s0 s s Hi Hst (rtc_refl _ _)) as (σ & _ & g & Hs & HR & _).
  destruct (re_node _ _ HR _ _ Hn1) as (a1 & Ha1 & Hr1). destruct (re_node _ _ HR _ _ Hn2) as (a2 & Ha2 & Hr2).
  destruct (nr_log _ _ _ _ Hr1) as [Hi1 Hf1] eqn:Ew1. destruct (nr_log _ _ _ _ Hr2) as [Hi2 Hf2] eqn:Ew2.
  destruct (decide (j < 1)) as [Hlt|Hge].
  { unfold lv_lookup. rewrite Hf1, Hf2, (proj2 (Z.ltb_lt _ _)) by lia. done. }
  set (k := Z.to_nat (i - 1)). set (q := Z.to_nat (j - 1)). assert (Ei : i = Z.of_nat (S k)) by lia. assert (Ej : j = Z.of_nat (S q)) by lia.
  rewrite Ei in He1, He2. rewrite whole_lookup in He1 by done. rewrite whole_lookup in He2 by done.
  rewrite <- (nr_entries _ _ _ _ Hr1) in He1. rewrite <- (nr_entries _ _ _ _ Hr2) in He2.
  pose proof (logs_match _ _ _ _ _ _ _ _ _ _ Hs Ha1 Ha2 He1 He2 Ht) as Heq. apply (f_equal (lookup q)) in Heq.
  rewrite !lookup_take_lt in Heq by lia. rewrite Ej, !whole_lookup by done.
  by rewrite <- (nr_entries _ _ _ _ Hr1), <- (nr_entries _ _ _ _ Hr2).
Qed.

(** C8. Committed entries are durable: what a node has committed stays in its
    log for the rest of the run, through conflicting requests, elections and
    crashes, the commit index itself being volatile. *)
Theorem committed_durable s0 s1 s2 n c1 c2 i e :
  durable_initial conf addresses s0 → rtc (durable_step conf addresses) s0 s1 → rtc (durable_step conf addresses) s1 s2 →
  cl_nodes s1 !! n = Some c1 → cl_nodes s2 !! n = Some c2 → committed c1 i e →
  lv_lookup (log_view (core_mLog c2)) i = Some e.
Proof.
  intros Hi H01 H12 Hn1 Hn2 Hce.
  destruct (durable_run_spec conf addresses s0 s1 s2 Hi H01 H12) as (σ1 & σ2 & g1 & Hs1 & HR1 & Hst & HR2).
  destruct (re_node _ _ HR1 _ _ Hn1) as (a1 & Ha1 & Hr1). destruct (re_node _ _ HR2 _ _ Hn2) as (a2 & Ha2 & Hr2).
  destruct (committed_entry c1 i e (nr_log _ _ _ _ Hr1) Hce) as (k & -> & Hk & He).
  pose proof (nr_commit _ _ _ _ Hr1) as K1. rewrite whole_lookup by apply Hr2. rewrite <- (nr_entries _ _ _ _ Hr2).
  apply (prefix_lookup_Some (take (sn_commit a1) (sn_log a1))); [|by eapply committed_kept].
  rewrite lookup_take_lt by lia. by rewrite (nr_entries _ _ _ _ Hr1).
Qed.
End theorems.

(** ** The run satisfies them *)
Lemma raft_refines_spec_witness :
  ∃ σ0 σ, spec_steps (members SampleRun.nodes) σ0 σ ∧ related SampleRun.reelected σ ∧
    mRaftRole (SampleRaft.at_node SampleRun.reelected 2) = Leader.
Proof.
  destruct (raft_refines_spec SampleRaft.conf SampleRun.nodes SampleRaft.start SampleRun.reelected
    SampleRun.start_durable SampleRun.to_reelected) as (σ0 & σ & _ & Hst & HR).
  exists σ0, σ. split; [exact Hst|]. split; [exact HR|reflexivity].
Defined.

Lemma state_machine_safety_witness :
  ∃ e, committed (SampleRaft.at_node SampleRun.learned 1) 1 e ∧ committed (SampleRaft.at_node SampleRun.reelected 2) 1 e.
Proof.
  apply (state_machine_safety SampleRaft.conf SampleRun.nodes SampleRaft.start SampleRun.learned SampleRun.reelected 1 2).
  - exact SampleRun.start_durable.
  - exact SampleRun.to_learned.
  - exact SampleRun.reelected_run.
  - exact SampleRun.node1_learned.
  - exact SampleRun.node2_reelected.
  - lia.
  - vm_compute. discriminate.
  - vm_compute. discriminate.
Defined.

Lemma leader_completeness_witness :
  mRaftRole (SampleRaft.at_node SampleRun.reelected 2) = Leader ∧
  lv_lookup (log_view (core_mLog (SampleRaft.at_node SampleRun.reelected 2))) 1 = Some SampleRaft.noop.
Proof.
  split; [reflexivity|].
  apply (leader_completeness SampleRaft.conf SampleRun.nodes SampleRaft.start SampleRun.learned SampleRun.reelected 1 2
    (SampleRaft.at_node SampleRun.learned 1)).
  - exact SampleRun.start_durable.
  - exact SampleRun.to_learned.
  - exact SampleRun.reelected_run.
  - exact SampleRun.node1_learned.
  - exact SampleRun.node2_reelected.
  - reflexivity.
  - vm_compute. discriminate.
  - exact SampleRun.committed_1.
Defined.

Lemma log_matching_witness :
  lv_lookup (log_view (core_mLog (SampleRaft.at_node SampleRun.learned 1))) 1 = Some SampleRaft.noop ∧
  lv_lookup (log_view (core_mLog (SampleRaft.at_node SampleRun.learned 1))) 1 =
  lv_lookup (log_view (core_mLog (SampleRaft.at_node SampleRun.learned 2))) 1.
Proof.
  split; [exact (proj2 SampleRun.committed_1)|].
  apply (log_matching SampleRaft.conf SampleRun.nodes SampleRaft.start SampleRun.learned 1 2
    (SampleRaft.at_node SampleRun.learned 1) (SampleRaft.at_node SampleRun.learned 2) 1 SampleRaft.noop SampleRaft.noop).
  - exact SampleRun.start_durable.
  - exact SampleRun.to_learned.
  - exact SampleRun.node1_learned.
  - exact SampleRun.node2_learned.
  - exact (proj2 SampleRun.committed_1).
  - exact (proj2 SampleRun.committed_2).
  - reflexivity.
  - lia.
Defined.

Lemma committed_durable_witness :
  mCommitIndex SampleRun.restarted = 0 ∧
  lv_lookup (log_view (core_mLog SampleRun.restarted)) 1 = Some SampleRaft.noop.
Proof.
  split; [reflexivity|].
  apply (committed_durable SampleRaft.conf SampleRun.nodes SampleRaft.start SampleRun.learned SampleRun.crashed 2
    (SampleRaft.at_node SampleRun.learned 2)).
  - exact SampleRun.start_durable.
  - exact SampleRun.to_learned.
  - exact SampleRun.crashed_run.
  - exact SampleRun.node2_learned.
  - vm_compute. reflexivity.
  - exact SampleRun.committed_2.
Defined.
