(* ===== verification/RaftServiceTheorems.v ===== *)
(** * The gRPC service of Raft: memory safety and order

    The objects of [RaftService]: every address the completion queue or the main
    loop holds is that of a live object, each live object is held in one place, and
    the core sees the requests in the order they arrive. *)
From stdpp Require Import gmap.
From S2P Require Import Prelude RaftLog RaftCore RaftService RaftTheorems.
#[local] Open Scope nat_scope.

Section server.
Context {Request Response Core : Type}.
Context (handle : RpcKind → Request → Core → result (Response * Core)).
Implicit Types (s : RaftServer Request Response Core) (c : RaftCallData Request Response) (held : option nat).

(** *** Ownership

    [held]: the object a step has taken from its place and not put back. *)
Record mem_inv held s : Prop := {
  mi_next : ∀ id, srv_next s ≤ id → srv_heap s !! id = None;
  mi_wait : ∀ id k, srv_requests s !! id = Some k →
    held ≠ Some id ∧ (id ∉ srv_events s) ∧ (id ∉ srv_finishes s) ∧
    ∃ c, srv_heap s !! id = Some c ∧ cd_kind c = k ∧ mCallStatus c = PROCESS;
  mi_event : ∀ id, id ∈ srv_events s →
    held ≠ Some id ∧ (id ∉ srv_finishes s) ∧
    ∃ c, srv_heap s !! id = Some c ∧ mCallStatus c = PROCESS ∧ is_Some (mRequest c);
  mi_finish : ∀ id, id ∈ srv_finishes s →
    held ≠ Some id ∧ ∃ c, srv_heap s !! id = Some c ∧ mCallStatus c = FINISH;
  mi_dup : NoDup (srv_events s);
  mi_live : ∀ id, is_Some (srv_heap s !! id) →
    held = Some id ∨ is_Some (srv_requests s !! id) ∨ id ∈ srv_events s ∨ id ∈ srv_finishes s;
  mi_held : ∀ id, held = Some id → is_Some (srv_heap s !! id) }.

Lemma mem_inv_live held s id :
  mem_inv held s →
  held = Some id ∨ is_Some (srv_requests s !! id) ∨ id ∈ srv_events s ∨ id ∈ srv_finishes s → id < srv_next s.
Proof.
  intros I Hid. destruct (decide (id < srv_next s)) as [|Hge]; [done|exfalso].
  assert (Hn := mi_next _ _ I id ltac:(lia)). destruct Hid as [?|[[k ?]|[?|?]]].
  - destruct (mi_held _ _ I id) as [c ?]; [done|congruence].
  - destruct (mi_wait _ _ I id k) as (_ & _ & _ & c & ? & _); [done|congruence].
  - destruct (mi_event _ _ I id) as (_ & _ & c & ? & _); [done|congruence].
  - destruct (mi_finish _ _ I id) as (_ & c & ? & _); [done|congruence].
Qed.

(** Fields of the state after an operation, and the case of a map lookup. *)
Ltac fields := unfold new_RaftCallData, proceed_create, start_request, set_heap, delete_this, enqueue_event,
  forget_request, forget_finish, count_failed; simpl.
Ltac look := repeat (rewrite lookup_insert_Some || rewrite lookup_delete_Some).

Lemma new_mem held kind s : mem_inv held s → mem_inv held (new_RaftCallData kind s).
Proof.
  intros I. assert (Hn := λ id, mem_inv_live held s id I). fields. rewrite insert_insert_eq.
  assert (Hlt : ∀ id c, srv_heap s !! id = Some c → srv_next s ≠ id).
  { intros id c Hc Heq. rewrite (mi_next _ _ I) in Hc by lia. done. }
  split; simpl.
  - intros id ?. rewrite lookup_insert_ne by lia. apply (mi_next _ _ I). lia.
  - intros id k [[<- <-]|[Hne Hk]]%lookup_insert_Some.
    + split_and!; try (intros Hin; specialize (Hn (srv_next s)); set_solver by lia).
      eexists. rewrite lookup_insert_eq. eauto.
    + destruct (mi_wait _ _ I id k Hk) as (? & ? & ? & c & ?). split_and!; [done..|].
      exists c. by rewrite lookup_insert_ne.
  - intros id Hid. destruct (mi_event _ _ I id Hid) as (? & ? & c & Hc & ?). split_and!; [done..|].
    exists c. rewrite lookup_insert_ne; eauto.
  - intros id Hid. destruct (mi_finish _ _ I id Hid) as (? & c & Hc & ?). split_and!; [done..|].
    exists c. rewrite lookup_insert_ne; eauto.
  - apply (mi_dup _ _ I).
  - intros id [c Hc]. apply lookup_insert_Some in Hc as [[<- _]|[? Hc]].
    + right; left. rewrite lookup_insert_eq. eauto.
    + rewrite lookup_insert_ne by done. apply (mi_live _ _ I). eauto.
  - intros id Hid. destruct (mi_held _ _ I id Hid) as [c Hc]. rewrite lookup_insert_ne; eauto.
Qed.

Lemma delete_mem id s : mem_inv (Some id) s → mem_inv None (delete_this id s).
Proof.
  intros I. fields. split; simpl.
  - intros id' ?. apply lookup_delete_None. right. by apply (mi_next _ _ I).
  - intros id' k Hk. destruct (mi_wait _ _ I id' k Hk) as (? & ? & ? & c & ?). split_and!; [done..|].
    exists c. rewrite lookup_delete_ne; [done|congruence].
  - intros id' Hid. destruct (mi_event _ _ I id' Hid) as (? & ? & c & ?). split_and!; [done..|].
    exists c. rewrite lookup_delete_ne; [done|congruence].
  - intros id' Hid. destruct (mi_finish _ _ I id' Hid) as (? & c & ?). split_and!; [done..|].
    exists c. rewrite lookup_delete_ne; [done|congruence].
  - apply (mi_dup _ _ I).
  - intros id' [c [? Hc]%lookup_delete_Some]. destruct (mi_live _ _ I id') as [[=]|?]; eauto. congruence.
  - done.
Qed.

Lemma forget_request_mem id k s : mem_inv None s → srv_requests s !! id = Some k → mem_inv (Some id) (forget_request id s).
Proof.
  intros I Hk. fields. destruct (mi_wait _ _ I id k Hk) as (_ & Hev & Hfin & c & Hc & _). split; simpl.
  - apply (mi_next _ _ I).
  - intros id' k' [? Hk']%lookup_delete_Some. destruct (mi_wait _ _ I id' k' Hk') as (? & ?). split; [congruence|done].
  - intros id' Hid. destruct (mi_event _ _ I id' Hid) as (? & ?). split; [set_solver|done].
  - intros id' Hid. destruct (mi_finish _ _ I id' Hid) as (? & ?). split; [set_solver|done].
  - apply (mi_dup _ _ I).
  - intros id' Hc'. destruct (decide (id' = id)) as [->|]; [by left|]. rewrite lookup_delete_ne by done.
    destruct (mi_live _ _ I id' Hc') as [[=]|?]. by right.
  - intros id' [= <-]. eauto.
Qed.

Lemma forget_finish_mem id s : mem_inv None s → id ∈ srv_finishes s → mem_inv (Some id) (forget_finish id s).
Proof.
  intros I Hin. fields. destruct (mi_finish _ _ I id Hin) as (_ & c & Hc & Hst). split; simpl.
  - apply (mi_next _ _ I).
  - intros id' k' Hk'. destruct (mi_wait _ _ I id' k' Hk') as (? & ? & ? & ?). split_and!; set_solver.
  - intros id' Hid. destruct (mi_event _ _ I id' Hid) as (? & ? & ?). split_and!; set_solver.
  - intros id' Hid. destruct (mi_finish _ _ I id') as (? & ?); [set_solver|]. split; [set_solver|done].
  - apply (mi_dup _ _ I).
  - intros id' Hc'. destruct (decide (id' = id)) as [->|]; [by left|].
    destruct (mi_live _ _ I id' Hc') as [[=]|[?|[?|?]]]; set_solver.
  - intros id' [= <-]. eauto.
Qed.

Lemma enqueue_mem id s c :
  mem_inv (Some id) s → srv_heap s !! id = Some c → mCallStatus c = PROCESS → is_Some (mRequest c) →
  mem_inv None (enqueue_event id s).
Proof.
  intros I Hc Hst Hreq. fields.
  assert (Hno : id ∉ srv_events s). { intros Hin. by destruct (mi_event _ _ I id Hin). }
  split; simpl.
  - apply (mi_next _ _ I).
  - intros id' k' Hk'. destruct (mi_wait _ _ I id' k' Hk') as (? & ? & ? & ?). split_and!; set_solver.
  - intros id' [Hid| ->%list_elem_of_singleton]%elem_of_app.
    + destruct (mi_event _ _ I id' Hid) as (? & ? & ?). done.
    + split_and!; [done| |eauto]. intros Hin. by destruct (mi_finish _ _ I id Hin).
  - intros id' Hid. destruct (mi_finish _ _ I id' Hid) as (? & ?). done.
  - apply NoDup_app. split_and!; [apply (mi_dup _ _ I)|set_solver|apply NoDup_singleton].
  - intros id' Hc'. destruct (mi_live _ _ I id' Hc') as [[= ->]|[?|[?|?]]]; set_solver.
  - done.
Qed.

(** A store to an object that keeps its state. *)
Lemma store_mem held id c c' s :
  mem_inv held s → srv_heap s !! id = Some c → cd_kind c' = cd_kind c → mCallStatus c' = mCallStatus c →
  (is_Some (mRequest c) → is_Some (mRequest c')) → mem_inv held (set_heap s (<[id := c']> (srv_heap s))).
Proof.
  intros I Hc Hk Hst Hreq. fields.
  assert (Hsome : ∀ id', is_Some (<[id := c']> (srv_heap s) !! id') ↔ is_Some (srv_heap s !! id')).
  { intros id'. rewrite lookup_insert_is_Some'. split; [intros [<-|]; eauto|auto]. }
  assert (Hlook : ∀ id' d, srv_heap s !! id' = Some d → ∃ d', <[id := c']> (srv_heap s) !! id' = Some d' ∧
    cd_kind d' = cd_kind d ∧ mCallStatus d' = mCallStatus d ∧ (is_Some (mRequest d) → is_Some (mRequest d'))).
  { intros id' d Hd. destruct (decide (id = id')) as [<-|].
    - exists c'. rewrite lookup_insert_eq. by simplify_eq.
    - exists d. by rewrite lookup_insert_ne. }
  split; simpl.
  - intros id' ?. apply eq_None_not_Some. rewrite Hsome. apply eq_None_not_Some. by apply (mi_next _ _ I).
  - intros id' k (? & ? & ? & d & (d' & ? & ? & ? & ?)%Hlook & ? & ?)%(mi_wait _ _ I).
    split_and!; [done..|]. exists d'. split_and!; congruence.
  - intros id' (? & ? & d & (d' & ? & ? & ? & ?)%Hlook & ? & ?)%(mi_event _ _ I).
    split_and!; [done..|]. exists d'. split_and!; [congruence..|auto].
  - intros id' (? & d & (d' & ? & ? & ? & ?)%Hlook & ?)%(mi_finish _ _ I).
    split_and!; [done..|]. exists d'. split_and!; congruence.
  - apply (mi_dup _ _ I).
  - intros id' Hs%Hsome. by apply (mi_live _ _ I).
  - intros id' Hh. apply Hsome. by apply (mi_held _ _ I).
Qed.
Lemma count_failed_mem held kind s : mem_inv held s → mem_inv held (count_failed kind s).
Proof. intros []. by split. Qed.

Definition pop_event events core s : RaftServer Request Response Core :=
  mk_RaftServer (srv_heap s) (srv_next s) (srv_requests s) (srv_finishes s) events core (srv_failed s).

Lemma pop_event_mem id events core s :
  mem_inv None s → srv_events s = id :: events → mem_inv (Some id) (pop_event events core s).
Proof.
  intros I He. assert (Hin : ∀ id', id' ∈ srv_events s ↔ id' = id ∨ id' ∈ events) by (intros; rewrite He; apply elem_of_cons).
  assert (Hd := mi_dup _ _ I). rewrite He in Hd. apply NoDup_cons in Hd as [Hno Hd].
  destruct (mi_event _ _ I id) as (_ & Hfin & c & Hc & _); [apply Hin; by left|]. split; simpl.
  - apply (mi_next _ _ I).
  - intros id' k' Hk'. destruct (mi_wait _ _ I id' k' Hk') as (? & Hev & ? & ?). rewrite Hin in Hev. split_and!; naive_solver.
  - intros id' Hid. destruct (mi_event _ _ I id') as (? & ? & ?); [apply Hin; by right|]. split_and!; naive_solver.
  - intros id' Hid. destruct (mi_finish _ _ I id' Hid) as (? & ?). split; [congruence|done].
  - done.
  - intros id' Hc'. destruct (mi_live _ _ I id' Hc') as [[=]|[?|[[->|?]%Hin|?]]]; eauto.
  - intros id' [= <-]. eauto.
Qed.

Lemma reply_mem id c response s s' :
  mem_inv (Some id) s → srv_heap s !! id = Some c → RaftCallData_reply id response s = Ret s' → mem_inv None s'.
Proof.
  intros I Hc. unfold RaftCallData_reply, at_address. rewrite Hc. simpl. intros [= <-].
  assert (Hne : ∀ id', id' ∈ srv_events s ∨ is_Some (srv_requests s !! id') ∨ id' ∈ srv_finishes s → id ≠ id').
  { intros id' [Hin|[[k Hin]|Hin]] <-; [by destruct (mi_event _ _ I id)|by destruct (mi_wait _ _ I id k)|by destruct (mi_finish _ _ I id)]. }
  split; simpl.
  - intros id' ?. rewrite lookup_insert_ne; [by apply (mi_next _ _ I)|]. intros <-. rewrite (mi_next _ _ I) in Hc; done.
  - intros id' k Hk. destruct (mi_wait _ _ I id' k Hk) as (? & ? & ? & ?). rewrite lookup_insert_ne by eauto.
    specialize (Hne id'). split_and!; [done..|set_solver|done].
  - intros id' Hid. destruct (mi_event _ _ I id' Hid) as (? & ? & ?). rewrite lookup_insert_ne by eauto.
    specialize (Hne id'). split_and!; [done|set_solver|done].
  - intros id' [->%elem_of_singleton|Hid]%elem_of_union; [rewrite lookup_insert_eq; eauto|].
    destruct (mi_finish _ _ I id' Hid) as (? & ?). rewrite lookup_insert_ne by eauto. done.
  - apply (mi_dup _ _ I).
  - intros id' [<-|Hs]%lookup_insert_is_Some'; [set_solver|].
    destruct (mi_live _ _ I id' Hs) as [[= ->]|[?|[?|?]]]; set_solver.
  - done.
Qed.

(** *** Listeners *)
Definition counted s : Prop := ∀ k, listening s k = S (srv_failed s k).

Lemma listening_insert id kind k (reqs : gmap nat RpcKind) :
  reqs !! id = None →
  size (filter (λ kv, kv.2 = k) (<[id := kind]> reqs)) = (if decide (kind = k) then 1 else 0) + size (filter (λ kv, kv.2 = k) reqs).
Proof.
  intros Hn. case_decide.
  - rewrite map_filter_insert_True by done. rewrite map_size_insert_None; [done|]. apply map_lookup_filter_None. by left.
  - rewrite map_filter_insert_False by done. by rewrite delete_id.
Qed.

Lemma listening_new held kind k s :
  mem_inv held s → listening (new_RaftCallData kind s) k = (if decide (kind = k) then 1 else 0) + listening s k.
Proof.
  intros I. unfold listening. fields. apply listening_insert.
  apply eq_None_not_Some. intros [k' Hk]. assert (Hl := mem_inv_live held s (srv_next s) I). rewrite Hk in Hl.
  specialize (Hl ltac:(eauto)). lia.
Qed.

Lemma listening_forget id kind k s :
  srv_requests s !! id = Some kind → listening s k = (if decide (kind = k) then 1 else 0) + listening (forget_request id s) k.
Proof.
  intros Hk. unfold listening. fields. rewrite <- (listening_insert id); [|apply lookup_delete_eq].
  by rewrite insert_delete_id.
Qed.
(** *** Order

    The specification: the core takes the requests one at a time. *)
Definition handle_all (core : Core) (requests : list (RpcKind * Request)) : result Core :=
  foldM (λ core '(kind, request), '(_, core') ← handle kind request core; Ret core') core requests.

(** [response] is what the core makes of one of the requests of [done]. *)
Definition answers core done c : Prop :=
  ∃ before request after now response later,
    done = before ++ (cd_kind c, request) :: after ∧ mRequest c = Some request ∧
    handle_all core before = Ret now ∧ handle (cd_kind c) request now = Ret (response, later) ∧ mResponse c = Some response.

(** The requests in the queue of the main loop. *)
Definition pending s : list (RpcKind * Request) :=
  omap (λ id, c ← srv_heap s !! id; request ← mRequest c; Some (cd_kind c, request)) (srv_events s).

Definition ordered core arrived s : Prop :=
  ∃ done, arrived = done ++ pending s ∧ handle_all core done = Ret (srv_core s) ∧
    ∀ id, id ∈ srv_finishes s → ∃ c, srv_heap s !! id = Some c ∧ answers core done c.

Lemma omap_ext_in {A B} (f g : A → option B) (l : list A) : (∀ a, a ∈ l → f a = g a) → omap f l = omap g l.
Proof.
  induction l as [|a l IH]; intros H; simpl; [done|].
  rewrite (H a) by constructor. assert (IH' : omap f l = omap g l) by (apply IH; intros; apply H; by constructor).
  unfold omap in IH'. by rewrite IH'.
Qed.

Lemma ordered_frame core arrived s s' :
  srv_events s' = srv_events s → srv_core s' = srv_core s → srv_finishes s' ⊆ srv_finishes s →
  (∀ id, id ∈ srv_events s ∨ id ∈ srv_finishes s' → srv_heap s' !! id = srv_heap s !! id) →
  ordered core arrived s → ordered core arrived s'.
Proof.
  intros He Hc Hf Hh (done & -> & Hall & Hans). exists done. split_and!.
  - f_equal. unfold pending. rewrite He. apply omap_ext_in. intros id Hid. rewrite Hh; auto.
  - by rewrite Hc.
  - intros id Hid. rewrite Hh by auto. apply Hans. set_solver.
Qed.

Lemma ordered_new held core arrived kind s :
  mem_inv held s → ordered core arrived s → ordered core arrived (new_RaftCallData kind s).
Proof.
  intros I. apply ordered_frame; fields; [done..|]. intros id Hid.
  rewrite insert_insert_eq, lookup_insert_ne; [done|]. intros <-.
  assert (srv_next s < srv_next s); [|lia]. apply (mem_inv_live held _ _ I). tauto.
Qed.

Lemma ordered_delete core arrived id s :
  mem_inv (Some id) s → ordered core arrived s → ordered core arrived (delete_this id s).
Proof.
  intros I. apply ordered_frame; fields; [done..|]. intros id' [Hin|Hin]; rewrite lookup_delete_ne; try done; intros <-.
  - by destruct (mi_event _ _ I id).
  - by destruct (mi_finish _ _ I id).
Qed.

Lemma ordered_enqueue core arrived id c request s :
  srv_heap s !! id = Some c → mRequest c = Some request →
  ordered core arrived s → ordered core (arrived ++ [(cd_kind c, request)]) (enqueue_event id s).
Proof.
  intros Hc Hr (done & -> & Hall & Hans). exists done. split_and!; [|done..].
  unfold pending. fields. rewrite omap_app. simpl. rewrite Hc. simpl. rewrite Hr. by rewrite <- app_assoc.
Qed.

Lemma handle_all_app core done kind request now response later :
  handle_all core done = Ret now → handle kind request now = Ret (response, later) →
  handle_all core (done ++ [(kind, request)]) = Ret later.
Proof. intros Hd Hh. unfold handle_all in *. rewrite foldM_app, Hd. simpl. by rewrite Hh. Qed.

Lemma answers_app core done more c : answers core done c → answers core (done ++ more) c.
Proof.
  intros (before & request & after & now & response & later & -> & ?).
  exists before, request, (after ++ more), now, response, later. by rewrite <- app_assoc.
Qed.

(** The main loop on the first event. *)
Lemma ordered_reply core arrived id events c request response later s s' :
  mem_inv None s → srv_events s = id :: events → srv_heap s !! id = Some c → mRequest c = Some request →
  handle (cd_kind c) request (srv_core s) = Ret (response, later) →
  RaftCallData_reply id response (pop_event events later s) = Ret s' →
  ordered core arrived s → ordered core arrived s'.
Proof.
  intros I He Hc Hr Hh Hs (done & -> & Hall & Hans).
  unfold RaftCallData_reply, at_address in Hs. simpl in Hs. rewrite Hc in Hs. simpl in Hs. injection Hs as <-.
  assert (Hd := mi_dup _ _ I). rewrite He in Hd. apply NoDup_cons in Hd as [Hno _].
  exists (done ++ [(cd_kind c, request)]). split_and!; simpl.
  - unfold pending. rewrite He. simpl. rewrite Hc. simpl. rewrite Hr. simpl. rewrite <- app_assoc. simpl. do 2 f_equal.
    apply omap_ext_in. intros id' Hid. rewrite lookup_insert_ne; [done|set_solver].
  - eapply handle_all_app; eauto.
  - intros id' Hid. destruct (decide (id' = id)) as [->|].
    + eexists. rewrite lookup_insert_eq. split; [done|].
      exists done, request, [], (srv_core s), response, later. done.
    + destruct (Hans id') as (d & ? & ?); [set_solver|]. exists d. rewrite lookup_insert_ne by done.
      split; [done|]. by apply answers_app.
Qed.
(** *** One step *)
Record server_inv core arrived s : Prop := {
  sv_mem : mem_inv None s;
  sv_counted : counted s;
  sv_ordered : ordered core arrived s }.

Definition handler_fails (e : fault) : Prop := ∃ kind request now, handle kind request now = Fail e.

(** What a step that fails, or not, leaves. *)
Definition step_ok core arrived (m : result (RaftServer Request Response Core)) : Prop :=
  match m with Ret s => server_inv core arrived s | Fail e => handler_fails e end.

Lemma at_address_Some s id c : srv_heap s !! id = Some c → at_address s id = Ret c.
Proof. unfold at_address. by intros ->. Qed.

Lemma arrives_step core arrived id kind request s :
  server_inv core arrived s → srv_requests s !! id = Some kind →
  step_ok core (arrived ++ [(kind, request)])
    (s' ← fill_request id request (forget_request id s); RaftCallData_proceed id s').
Proof.
  intros [I Hn Ho] Hk. destruct (mi_wait _ _ I id kind Hk) as (_ & Hev & Hfin & c & Hc & Hkind & Hst).
  assert (I1 := forget_request_mem id kind s I Hk). unfold fill_request. erewrite at_address_Some by exact Hc. simpl.
  remember (mk_RaftCallData (cd_kind c) (mCallStatus c) (Some request) (mResponse c)) as c' eqn:Ec'.
  assert (I2 : mem_inv (Some id) (set_heap (forget_request id s) (<[id := c']> (srv_heap s)))).
  { by apply (store_mem _ id c c' (forget_request id s)); [|exact Hc|subst c'..]. }
  remember (set_heap (forget_request id s) _) as s2 eqn:E2.
  assert (Hc' : srv_heap s2 !! id = Some c') by (subst s2; apply lookup_insert_eq).
  assert (Ho2 : ordered core arrived s2).
  { apply (ordered_frame _ _ s); subst s2; fields; [done..| |done]. intros id' Hid. rewrite lookup_insert_ne; [done|naive_solver]. }
  unfold RaftCallData_proceed. erewrite at_address_Some by exact Hc'. simpl.
  replace (mCallStatus c') with PROCESS by (subst c'; simpl; congruence). simpl.
  assert (Hc3 : srv_heap (new_RaftCallData (cd_kind c') s2) !! id = Some c').
  { fields. rewrite insert_insert_eq, lookup_insert_ne; [done|]. intros <-. rewrite (mi_next _ _ I2) in Hc'; done. }
  split.
  - apply (enqueue_mem _ _ c'); [by apply new_mem|done|subst c'; simpl; congruence|subst c'; simpl; eauto].
  - intros k. assert (H1 := listening_forget id kind k s Hk). assert (H2 := listening_new _ (cd_kind c') k s2 I2).
    specialize (Hn k). replace (cd_kind c') with kind in * by (subst c'; simpl; congruence).
    subst s2. unfold listening in *. simpl in *. lia.
  - rewrite <- Hkind. replace (cd_kind c) with (cd_kind c') by (by subst c').
    apply ordered_enqueue; [done|by subst c'|]. eapply ordered_new; eauto.
Qed.

Lemma failOver_mem id c s :
  mem_inv (Some id) s → srv_heap s !! id = Some c →
  RaftCallData_failOver id s = Ret (delete_this id (new_RaftCallData (cd_kind c) s)) ∧
  mem_inv None (delete_this id (new_RaftCallData (cd_kind c) s)).
Proof.
  intros I Hc. split; [|apply delete_mem; by apply new_mem].
  unfold RaftCallData_failOver. by erewrite at_address_Some by exact Hc.
Qed.

Lemma ordered_failOver core arrived id kind s :
  mem_inv (Some id) s → ordered core arrived s → ordered core arrived (delete_this id (new_RaftCallData kind s)).
Proof. intros I Ho. apply ordered_delete; [by apply new_mem|]. eapply ordered_new; eauto. Qed.

Lemma givenUp_step core arrived id kind s :
  server_inv core arrived s → srv_requests s !! id = Some kind →
  step_ok core arrived (RaftCallData_failOver id (forget_request id s)).
Proof.
  intros [I Hn Ho] Hk. destruct (mi_wait _ _ I id kind Hk) as (_ & _ & _ & c & Hc & Hkind & _).
  assert (I1 := forget_request_mem id kind s I Hk). destruct (failOver_mem id c _ I1 Hc) as [-> I2]. split; [done| |].
  - intros k. assert (H1 := listening_forget id kind k s Hk). assert (H2 := listening_new _ (cd_kind c) k _ I1).
    specialize (Hn k). rewrite Hkind in *. unfold listening in *. simpl in *. lia.
  - apply ordered_failOver; [done|]. by apply (ordered_frame _ _ s).
Qed.

Lemma sent_step core arrived id (b : bool) s :
  server_inv core arrived s → id ∈ srv_finishes s →
  step_ok core arrived
    (if b then RaftCallData_proceed id (forget_finish id s)
     else c ← at_address s id; RaftCallData_failOver id (count_failed (cd_kind c) (forget_finish id s))).
Proof.
  intros [I Hn Ho] Hid. destruct (mi_finish _ _ I id Hid) as (_ & c & Hc & Hst).
  assert (I1 := forget_finish_mem id s I Hid).
  assert (Ho1 : ordered core arrived (forget_finish id s)) by (apply (ordered_frame _ _ s); fields; [done..|set_solver|done|done]).
  destruct b.
  - unfold RaftCallData_proceed. erewrite at_address_Some by exact Hc. simpl. rewrite Hst. simpl. split.
    + by apply delete_mem.
    + exact Hn.
    + by apply ordered_delete.
  - erewrite at_address_Some by exact Hc. simpl.
    assert (I2 := count_failed_mem _ (cd_kind c) _ I1). destruct (failOver_mem id c _ I2 Hc) as [-> I3]. split; [done| |].
    + intros k. assert (H2 := listening_new _ (cd_kind c) k _ I2). specialize (Hn k).
      unfold listening in *. simpl in *. repeat case_decide; simplify_eq; lia.
    + apply ordered_failOver; [done|]. by apply (ordered_frame _ _ (forget_finish id s)).
Qed.

Lemma raft_step core arrived id events s :
  server_inv core arrived s → srv_events s = id :: events → step_ok core arrived (server_exec handle s SvRaft).
Proof.
  intros [I Hn Ho] He. destruct (mi_event _ _ I id) as (_ & _ & c & Hc & _ & [request Hr]); [rewrite He; constructor|].
  simpl. rewrite He. erewrite at_address_Some by exact Hc. simpl. rewrite Hr.
  destruct (handle (cd_kind c) request (srv_core s)) as [[response later]|e] eqn:Hh; simpl; [|by exists (cd_kind c), request, (srv_core s)].
  assert (I1 := pop_event_mem id events later s I He). fold (pop_event events later s).
  destruct (RaftCallData_reply id response (pop_event events later s)) as [s'|e] eqn:Hs.
  - split; [by eapply reply_mem| |by eapply ordered_reply].
    intros k. unfold RaftCallData_reply, at_address in Hs. simpl in Hs. rewrite Hc in Hs. simpl in Hs. injection Hs as <-. apply Hn.
  - unfold RaftCallData_reply, at_address in Hs. simpl in Hs. by rewrite Hc in Hs.
Qed.

Lemma server_step core arrived step s :
  server_inv core arrived s → step_ok core (arrived ++ arrives s step) (server_exec handle s step).
Proof.
  intros I. destruct step as [id request|id|id b|]; simpl.
  - destruct (srv_requests s !! id) as [kind|] eqn:Hk; [by apply arrives_step|by rewrite app_nil_r].
  - rewrite app_nil_r. destruct (srv_requests s !! id) as [kind|] eqn:Hk; [by eapply givenUp_step|done].
  - rewrite app_nil_r. case_bool_decide; [by apply sent_step|done].
  - rewrite app_nil_r. destruct (srv_events s) as [|id events] eqn:He; [done|].
    assert (Hs := raft_step core arrived id events s I He). simpl in Hs. by rewrite He in Hs.
Qed.

Lemma server_run_ok core arrived steps s :
  server_inv core arrived s →
  match server_run handle s steps with
  | Ret (t, later) => server_inv core (arrived ++ later) t
  | Fail e => handler_fails e
  end.
Proof.
  revert arrived s; induction steps as [|step steps IH]; intros arrived s I; simpl; [by rewrite app_nil_r|].
  assert (Hs := server_step core arrived step s I). destruct (server_exec handle s step) as [s'|e]; simpl; [|done].
  specialize (IH _ _ Hs). destruct (server_run handle s' steps) as [[t later]|e]; simpl; [|done].
  by rewrite app_assoc.
Qed.

Lemma new_server_inv core : server_inv core [] (RaftServer_new core).
Proof.
  assert (I0 : mem_inv None (mk_RaftServer (Request := Request) (Response := Response) ∅ 0 ∅ ∅ [] core (λ _, 0))).
  { split; simpl; try done; try set_solver; [apply NoDup_nil_2|]. by intros id [??]. }
  unfold RaftServer_new. split; [by do 2 apply new_mem| |].
  - intros k. do 2 erewrite listening_new by (try apply new_mem; exact I0). unfold listening. simpl.
    rewrite map_filter_empty, map_size_empty. by destruct k.
  - do 2 (eapply ordered_new; [try apply new_mem; exact I0|]). exists []. split_and!; [done..|set_solver].
Qed.
End server.

(** ** Two peers call node 1

    Node 2 asks for a vote and node 3 sends an append; both wait before the main
    loop takes the first; the reply to node 2 is sent, the one to node 3 is not. *)
Module SampleService.
Import (hints) SampleRaft.
Definition handle := handle_call_data (L := InMemoryLog) SampleRaft.env.
Definition vote : AE_Request + RV_Request := inr (mk_RV_Request 1 2 0 0).
Definition append : AE_Request + RV_Request := inl (mk_AE_Request 2 3 0 0 [] 0).
Definition steps : list (ServerStep (AE_Request + RV_Request)) :=
  [SvArrives 0 vote; SvArrives 1 append; SvRaft; SvSent 0 true; SvRaft; SvSent 1 false].
Definition outcome := server_run handle (RaftServer_new (SampleRaft.node 1, [])) steps.
Definition core := (SampleRaft.node 1, @nil RaftAction).
Definition after_five := match server_run handle (RaftServer_new core) (take 5 steps) with
  | Ret x => x | Fail _ => (RaftServer_new core, []) end.

Lemma after_five_eq : server_run handle (RaftServer_new core) (take 5 steps) = Ret (after_five.1, after_five.2).
Proof. vm_compute. reflexivity. Qed.
End SampleService.

(** C28. The server side of the Raft RPCs, whatever requests arrive, are given up,
    are answered or fail to be answered, in any order: unless a handler itself
    fails, no step touches a freed object or a request that was not received, the
    addresses held by the completion queue and the main loop are exactly those of
    the live objects (none leaks) and each is held once; for each RPC at least one
    object always listens, plus one for every reply that could not be sent, because
    [failOver] also replaces an object whose successor is already listening. *)
Theorem raft_service_memory_safe {Request Response Core} (handle : RpcKind → Request → Core → result (Response * Core))
    (core : Core) (steps : list (ServerStep Request)) :
  match server_run handle (RaftServer_new core) steps with
  | Fail e => ∃ kind request now, handle kind request now = Fail e
  | Ret (s, _) =>
      (∀ id, is_Some (srv_heap s !! id) ↔
             is_Some (srv_requests s !! id) ∨ id ∈ srv_events s ∨ id ∈ srv_finishes s) ∧
      (∀ id, is_Some (srv_requests s !! id) → id ∉ srv_events s) ∧
      (∀ id, is_Some (srv_requests s !! id) → id ∉ srv_finishes s) ∧
      (∀ id, id ∈ srv_events s → id ∉ srv_finishes s) ∧
      NoDup (srv_events s) ∧
      ∀ kind, listening s kind = S (srv_failed s kind)
  end.
Proof.
  assert (Hrun := server_run_ok handle core [] steps _ (new_server_inv handle core)).
  destruct (server_run handle (RaftServer_new core) steps) as [[s later]|e]; [|exact Hrun].
  destruct Hrun as [I Hn _]. split_and!.
  - intros id. split.
    + intros Hs. by destruct (mi_live _ _ I id Hs) as [[=]|?].
    + intros [[k Hk]|[Hid|Hid]].
      * destruct (mi_wait _ _ I id k Hk) as (_ & _ & _ & c & ? & _). eauto.
      * destruct (mi_event _ _ I id Hid) as (_ & _ & c & ? & _). eauto.
      * destruct (mi_finish _ _ I id Hid) as (_ & c & ? & _). eauto.
  - intros id [k Hk]. by destruct (mi_wait _ _ I id k Hk) as (_ & ? & _).
  - intros id [k Hk]. by destruct (mi_wait _ _ I id k Hk) as (_ & _ & ? & _).
  - intros id Hid. by destruct (mi_event _ _ I id Hid) as (_ & ? & _).
  - apply (mi_dup _ _ I).
  - exact Hn.
Qed.

(** C29. The server refines a core that handles one request at a time: after any
    steps, the requests that arrived are, in order, those the core has handled
    followed by those in the queue of the main loop, the core is in the state
    handling the first ones one after the other gives, and every reply under way is
    what the core answered to the request of the object that carries it. *)
Theorem raft_service_in_order {Request Response Core} (handle : RpcKind → Request → Core → result (Response * Core))
    (core : Core) (steps : list (ServerStep Request)) s arrived :
  server_run handle (RaftServer_new core) steps = Ret (s, arrived) →
  ∃ done, arrived = done ++ pending s ∧ handle_all handle core done = Ret (srv_core s) ∧
    ∀ id, id ∈ srv_finishes s → ∃ c, srv_heap s !! id = Some c ∧ answers handle core done c.
Proof.
  intros Hrun. assert (H := server_run_ok handle core [] steps _ (new_server_inv handle core)).
  rewrite Hrun in H. apply (sv_ordered _ _ _ _ H).
Qed.

Lemma raft_service_in_order_witness :
  let s := SampleService.after_five.1 in
  let arrived := SampleService.after_five.2 in
  (arrived = [(RequestVoteRpc, SampleService.vote); (AppendEntriesRpc, SampleService.append)] ∧
   pending s = [] ∧ srv_finishes s = {[1%nat]}) ∧
  ∃ done, arrived = done ++ pending s ∧ handle_all SampleService.handle SampleService.core done = Ret (srv_core s) ∧
    ∀ id, id ∈ srv_finishes s → ∃ c, srv_heap s !! id = Some c ∧ answers SampleService.handle SampleService.core done c.
Proof.
  split; [split_and!; vm_compute; reflexivity|].
  exact (raft_service_in_order SampleService.handle SampleService.core (take 5 SampleService.steps)
    SampleService.after_five.1 SampleService.after_five.2 SampleService.after_five_eq).
Defined.

(** The reply to node 3 fails: two objects listen for appends from then on. *)
Example listener_leak :
  ∃ s arrived, SampleService.outcome = Ret (s, arrived) ∧
    listening s RequestVoteRpc = 1 ∧ listening s AppendEntriesRpc = 2.
Proof. eexists _, _. split; [vm_compute; reflexivity|]. split; vm_compute; reflexivity. Qed.
