(* ===== verification/Pipeline.v ===== *)
(** * From the command queue of a leader to the log, and back

    - src/src/infra/raft/RaftLogStore.{h,cpp}: turns a command and its events
      into a log entry and sends batches to Raft;
    - src/src/infra/raft/RaftReplyLoop.{h,cpp}: answers a client once the entry
      of its command is committed;
    - src/src/infra/es/store/RaftCommandEventStore.{h,cpp}: the two together,
      and the detection of leadership changes;
    - src/src/app_util/CommandProcessLoop.h and
      src/src/app_ledger/should_be_generated/domain/CommandProcessLoop.hpp: the
      loop that processes commands;
    - src/src/infra/es/store/ReadonlyRaftCommandEventStore.{h,cpp}: the way back
      from log entries to commands and events (synchronous loading).

    Another thread runs Raft, so every read of its state is an argument: the
    samples a loop of reads sees, in order.  A loop that is still running when
    its samples are used up gives [None]. *)
From S2P Require Import Prelude Protobuf Crypto Domain Es Control Ledger LedgerSM RaftLog RaftCore.
Open Scope Z_scope.

(** ** RaftLogStore *)

(** store.proto *)
Record RaftPayload := mk_RaftPayload {
  rp_command : CommandEntry; rp_events : list EventEntry }.

Record PersistEntry := mk_PersistEntry {
  pe_command : Command; pe_events : list Event; pe_request : ClientRequest }.

Record RaftLogStore := mk_RaftLogStore {
  mLogStoreTerm : Z;
  mLogStoreRole : RaftRole;
  mPersistQueue : list PersistEntry;
  mBatch : list ClientRequest;
  mLastSentTimeInNano : Z }.

Definition RaftLogStore_new : RaftLogStore := mk_RaftLogStore 0 Follower [] [] 0.

Definition kMaxDelayInMs : Z := 20.
Definition kMaxBatchSize : Z := 100.
Definition kMaxPayLoadSizeInBytes : Z := 4000000.

(** One round of reads of term, role and term again. *)
Record RoleSample := mk_RoleSample { rs_term1 : Z; rs_role : RaftRole; rs_term2 : Z }.

(** [do ... while (term1 != term2)] *)
Fixpoint read_role (samples : list RoleSample) : option (Z * RaftRole) :=
  match samples with
  | [] => None
  | s :: samples =>
      if negb (rs_term1 s =? rs_term2 s) then read_role samples else Some (rs_term1 s, rs_role s)
  end.

Definition set_term_role (s : RaftLogStore) (term : Z) (role : RaftRole) : RaftLogStore :=
  mk_RaftLogStore term role (mPersistQueue s) (mBatch s) (mLastSentTimeInNano s).

Definition refresh (s : RaftLogStore) (samples : list RoleSample) : option RaftLogStore :=
  match read_role samples with
  | None => None
  | Some (term1, role) =>
      if (mLogStoreTerm s =? term1) && bool_decide (mLogStoreRole s = Leader) &&
         negb (bool_decide (role = Leader))
      then Some s
      else Some (set_term_role s term1 role)
  end.

(** [Command::specialTag], which [SplitCommand] overrides. *)
Definition specialTag (c : Command) : option string :=
  match Command_body c with SplitCommand r => Some (sr_planId r) | _ => None end.

Definition LogStore_persistAsync (crypto : CryptoUtil) (s : RaftLogStore) (command : Command)
    (events : list Event) (index : Z) (requestHandle : option Z) : RaftLogStore :=
  let tag := match specialTag command with
             | Some payload => Some (mk_SpecialTag (u64 (Command_getType command)) payload)
             | None => None
             end in
  let entry := mk_LogEntry (mLogStoreTerm s) index false 0 EmptyString (getLatestVersion crypto) tag in
  mk_RaftLogStore (mLogStoreTerm s) (mLogStoreRole s)
    (mPersistQueue s ++ [mk_PersistEntry command events (mk_ClientRequest entry requestHandle)])
    (mBatch s) (mLastSentTimeInNano s).

Definition set_payload (e : LogEntry) (payload : string) : LogEntry :=
  mk_LogEntry (le_term e) (le_index e) (le_noop e) (le_checksum e) payload
    (le_secret_key_version e) (le_specialTag e).

(** The loop that encodes the events. *)
Fixpoint encode_events `{LedgerProtos} (events : list Event) : result (list EventEntry) :=
  match events with
  | [] => Ret []
  | e :: events => x ← encodeEvent e EventEntry_default; xs ← encode_events events; Ret (x :: xs)
  end.

Section store.
Context `{LedgerProtos} `{Proto RaftPayload} `{OpenSSL}.
Context (ByteSizeLong : LogEntry → Z).

(** What [dequeue] makes of one element of the queue. *)
Definition make_request (crypto : CryptoUtil) (p : PersistEntry) : result ClientRequest :=
  let entry := cr_mEntry (pe_request p) in
  events ← encode_events (pe_events p);
  let payload := mk_RaftPayload (encodeCommand (pe_command p) CommandEntry_default) events in
  '(cipher, rc) ← encrypt crypto (SerializeAsString payload) (le_secret_key_version entry);
  cassert (rc =? 0);;
  let entry := set_payload entry cipher in
  cassert (ByteSizeLong entry <=? kMaxPayLoadSizeInBytes);;
  Ret (mk_ClientRequest entry (cr_mRequestHandle (pe_request p))).

(** [mPersistQueue.dequeue()] blocks on an empty queue; the loop below never
    calls it there. *)
Definition LogStore_dequeue (crypto : CryptoUtil) (s : RaftLogStore) : result RaftLogStore :=
  match mPersistQueue s with
  | [] => Ret s
  | p :: queue =>
      r ← make_request crypto p;
      Ret (mk_RaftLogStore (mLogStoreTerm s) (mLogStoreRole s) queue (mBatch s ++ [r])
             (mLastSentTimeInNano s))
  end.

(** The batch handed to [enqueueClientRequests], if one is sent.  The delay is
    compared in milliseconds as a double, here in nanoseconds. *)
Definition maySendBatch (now : Z) (s : RaftLogStore) : RaftLogStore * option (list ClientRequest) :=
  match mBatch s with
  | [] => (s, None)
  | _ =>
      let elapse := now -ᵤ mLastSentTimeInNano s in
      if (Z.of_nat (length (mBatch s)) <? kMaxBatchSize) && (elapse <? kMaxDelayInMs * 1000000)
      then (s, None)
      else (mk_RaftLogStore (mLogStoreTerm s) (mLogStoreRole s) (mPersistQueue s) [] now, Some (mBatch s))
  end.

(** One iteration of [persistLoopMain]: it dequeues [n] elements, where [n] is
    the size of the consumer buffer, or one after a flip, or none. *)
Definition persistLoop_iteration (crypto : CryptoUtil) (n : nat) (now : Z) (s : RaftLogStore)
    : result (RaftLogStore * option (list ClientRequest)) :=
  s ← foldM (λ s _, LogStore_dequeue crypto s) s (replicate n tt);
  Ret (maySendBatch now s).

(** ** ReadonlyRaftCommandEventStore: decoding *)
Abbreviation Bundle := (option Command * list (option Event))%type.

Fixpoint decode_events (junk : EventMetaData) (entries : list EventEntry) : result (list (option Event)) :=
  match entries with
  | [] => Ret []
  | e :: entries => x ← decodeEvent junk e; xs ← decode_events junk entries; Ret (x :: xs)
  end.

(** The payload in the clear. *)
Definition decryptPayload (crypto : CryptoUtil) (entry : LogEntry) : result string :=
  if isEnabled crypto then
    version ← (if le_secret_key_version entry =? kInvalidSecKeyVersion then
                 match last (getDescendingVersions crypto) with
                 | Some oldestVersion => Ret oldestVersion
                 | None => Fail AssertFailure
                 end
               else Ret (le_secret_key_version entry));
    '(plain, rc) ← decrypt crypto (le_payload entry) version;
    cassert (rc =? 0);; Ret plain
  else Ret (le_payload entry).

(** One entry: [None] for those that are skipped. *)
Definition decryptEntry (junk : MetaData) (ejunk : EventMetaData) (crypto : CryptoUtil) (entry : LogEntry)
    : result (option Bundle) :=
  if le_noop entry then Ret None
  else
    plain ← decryptPayload crypto entry;
    let '(parsed, payload) := ParseFromString plain in
    cassert parsed;;
    if Nat.eqb (length (rp_events payload)) 0 then Ret None
    else
      command ← decodeCommand junk (rp_command payload);
      events ← decode_events ejunk (rp_events payload);
      Ret (Some (command, events)).

Definition decryptEntries junk ejunk (crypto : CryptoUtil) (entries : list LogEntry) : result (list Bundle) :=
  foldM (λ bundles entry, b ← decryptEntry junk ejunk crypto entry;
                          Ret (bundles ++ match b with Some b => [b] | None => [] end)) [] entries.
End store.
Abbreviation Bundle := (option Command * list (option Event))%type.

(** *** Reading committed entries, synchronously *)
Record ReadonlyRaftCES := mk_ReadonlyRaftCES {
  mLoadedIndex : Z;
  mAppliedIndex : Z;
  mApplyingIndex : Z;
  mCachedBundles : list Bundle }.

Definition ReadonlyRaftCES_new : ReadonlyRaftCES := mk_ReadonlyRaftCES 0 0 0 [].

Definition CES_setCurrentOffset (s : ReadonlyRaftCES) (currentOffset : Z) : result ReadonlyRaftCES :=
  cassert ((mAppliedIndex s =? 0) && (mLoadedIndex s =? 0));;
  Ret (mk_ReadonlyRaftCES currentOffset currentOffset (mApplyingIndex s) (mCachedBundles s)).

Definition CES_teardown (s : ReadonlyRaftCES) : ReadonlyRaftCES := mk_ReadonlyRaftCES 0 0 0 [].

Section ces.
Context `{LedgerProtos} `{Proto RaftPayload} `{OpenSSL} `{Log L}.
Context (junk : MetaData) (ejunk : EventMetaData) (crypto : CryptoUtil).

(** [loadBundles]: through [RaftCore::getEntries]. *)
Definition CES_loadBundles (raft : RaftCore L) (startIndex size : Z) : result (Z * list Bundle) :=
  entries ← RaftCore_getEntries raft startIndex size;
  bundles ← decryptEntries junk ejunk crypto entries;
  Ret (Z.of_nat (length entries), bundles).

Definition CES_trySyncLoadBundles (raft : RaftCore L) (s : ReadonlyRaftCES) : result ReadonlyRaftCES :=
  cassert (Nat.eqb (length (mCachedBundles s)) 0);;
  let commitIndex := mCommitIndex raft in
  if commitIndex <=? mLoadedIndex s then Ret s
  else
    '(size, bundles) ← CES_loadBundles raft (mLoadedIndex s + 1) (commitIndex - mLoadedIndex s);
    Ret (mk_ReadonlyRaftCES (mLoadedIndex s + size) (mAppliedIndex s) (mApplyingIndex s) bundles).

Definition CES_loadNextCommandEvents (raft : RaftCore L) (s : ReadonlyRaftCES)
    : result (ReadonlyRaftCES * option Bundle) :=
  let s := mk_ReadonlyRaftCES (mLoadedIndex s) (Z.max (mAppliedIndex s) (mApplyingIndex s))
             (mApplyingIndex s) (mCachedBundles s) in
  s ← (if Nat.eqb (length (mCachedBundles s)) 0 then CES_trySyncLoadBundles raft s else Ret s);
  match mCachedBundles s with
  | [] => Ret (s, None)
  | (None, _) :: _ => Fail UndefinedBehaviour
  | (Some c, es) :: rest =>
      Ret (mk_ReadonlyRaftCES (mLoadedIndex s) (mAppliedIndex s) (Command_getId c) rest, Some (Some c, es))
  end.

Definition CES_loadCommandEventsList (raft : RaftCore L) (commandId size : Z) : result (Z * list Bundle) :=
  let commitIndex := mCommitIndex raft in
  if (commandId <=? 0) || (commitIndex <? commandId) then Ret (0, [])
  else
    let size := if commitIndex <? commandId + size - 1 then commitIndex - commandId + 1 else size in
    CES_loadBundles raft commandId size.
End ces.

(** *** Waiting for the state machine to catch up *)
Record ReadySample := mk_ReadySample {
  ry_term : Z; ry_last : Z; ry_commit : Z; ry_loaded : Z; ry_applied : Z;
  ry_entry : Z → option LogEntry }.

(** The loop over the entries above the applied one: the index found ready. *)
Fixpoint ready_scan (entry : Z → option LogEntry) (expectedTerm lastIndex index : Z) (fuel : nat)
    : result (option Z) :=
  match fuel with
  | O => Ret None
  | S fuel =>
      if lastIndex <? index then Ret None
      else
        match entry index with
        | None => Fail AssertFailure
        | Some e =>
            if negb (le_noop e) then Ret None
            else if (index =? lastIndex) && (le_term e =? expectedTerm) then Ret (Some lastIndex)
            else ready_scan entry expectedTerm lastIndex (index + 1) fuel
        end
  end.

(** [waitTillLeaderIsReadyOrStepDown] *)
Fixpoint waitTillLeaderIsReadyOrStepDown (expectedTerm : Z) (samples : list ReadySample)
    : result (option Z) :=
  match samples with
  | [] => Ret None
  | s :: samples =>
      if negb (ry_term s =? expectedTerm) then Ret (Some 0)
      else if negb (ry_loaded s =? ry_commit s) || negb (ry_commit s =? ry_last s)
      then waitTillLeaderIsReadyOrStepDown expectedTerm samples
      else
        r ← ready_scan (ry_entry s) expectedTerm (ry_last s) (ry_applied s + 1)
              (Z.to_nat (ry_last s - ry_applied s));
        match r with
        | Some i => Ret (Some i)
        | None => waitTillLeaderIsReadyOrStepDown expectedTerm samples
        end
  end.
