(* ===== verification/CommandLoop.v ===== *)
(** * Replies, the event store of a leader and the command process loop

    RaftReplyLoop.cpp, RaftCommandEventStore.cpp, app_util/CommandProcessLoop.h
    and the ledger's CommandProcessLoop.hpp, over Pipeline.v. *)
From S2P Require Import Prelude Protobuf Crypto Domain Es Control Ledger LedgerSM RaftLog RaftCore Pipeline.
Open Scope Z_scope.

(** ** RaftReplyLoop *)

(** One iteration of [waitTillCommittedOrQuit]: the reads of term, last index
    and term again, the commit index and the entry at the index. *)
Record CommitSample := mk_CommitSample {
  cs_term1 : Z; cs_last : Z; cs_term2 : Z; cs_commit : Z; cs_entry : option LogEntry }.

(** [None]: still waiting.  A sample with different terms stays in the inner
    loop. *)
Fixpoint waitTillCommittedOrQuit (index term : Z) (samples : list CommitSample) : result (option bool) :=
  match samples with
  | [] => Ret None
  | s :: samples =>
      if negb (cs_term1 s =? cs_term2 s) then waitTillCommittedOrQuit index term samples
      else
        cassert (term <=? cs_term1 s);;
        if (cs_last s <? index) && (term <? cs_term1 s) then Ret (Some false)
        else if cs_commit s <? index then waitTillCommittedOrQuit index term samples
        else
          match cs_entry s with
          | None => Fail AssertFailure
          | Some entry => Ret (Some (le_term entry =? term))
          end
  end.

(** [flag]: 0 initial, 1 doing, 2 done. *)
Record Task := mk_Task {
  task_index : Z; task_term : Z; task_handle : option Z; task_code : Z; task_message : string;
  task_flag : Z }.

Definition Task_set_flag (t : Task) (flag : Z) : Task :=
  mk_Task (task_index t) (task_term t) (task_handle t) (task_code t) (task_message t) flag.

(** [replyTask], from the outcome of the wait: the reply, if there is a handle. *)
Definition replyTask (task : Task) (isCommitted : bool) (leaderHint : option Z) : option Reply :=
  let code := if isCommitted then task_code task else 301 in
  let message := if isCommitted then task_message task else "NotLeaderAnyMore" in
  match task_handle task with
  | Some handle => Some (mk_Reply handle code message leaderHint)
  | None => None
  end.

(** The queue with its tasks numbered from [rl_popped] on, the tasks the reply
    threads work on, and two histories: the numbers claimed and those answered. *)
Record RaftReplyLoop := mk_RaftReplyLoop {
  mTaskQueue : list Task;
  rl_popped : nat;
  rl_claimed : list nat;
  rl_answered : list (nat * option Reply) }.

Definition RaftReplyLoop_new : RaftReplyLoop := mk_RaftReplyLoop [] 0 [] [].

Definition pushTask (l : RaftReplyLoop) (index term : Z) (handle : option Z) (code : Z) (message : string)
    : RaftReplyLoop :=
  mk_RaftReplyLoop (mTaskQueue l ++ [mk_Task index term handle code message 0])
    (rl_popped l) (rl_claimed l) (rl_answered l).

(** The position of the first task whose flag is 0, which a reply thread sets
    to 1. *)
Fixpoint first_initial (q : list Task) : option nat :=
  match q with
  | [] => None
  | t :: q => if task_flag t =? 0 then Some O else S <$> first_initial q
  end.

Definition set_flag (q : list Task) (k : nat) (flag : Z) : list Task :=
  match q !! k with Some t => <[k := Task_set_flag t flag]> q | None => q end.

Definition claimTask (l : RaftReplyLoop) : option (RaftReplyLoop * nat) :=
  match first_initial (mTaskQueue l) with
  | None => None
  | Some k =>
      let n := (rl_popped l + k)%nat in
      Some (mk_RaftReplyLoop (set_flag (mTaskQueue l) k 1) (rl_popped l) (rl_claimed l ++ [n])
              (rl_answered l), n)
  end.

(** A reply thread finishes task [n], which it holds. *)
Definition finishTask (l : RaftReplyLoop) (n : nat) (isCommitted : bool) (leaderHint : option Z)
    : option RaftReplyLoop :=
  if Nat.ltb n (rl_popped l) then None
  else
    match mTaskQueue l !! (n - rl_popped l)%nat with
    | Some t =>
        if task_flag t =? 1
        then Some (mk_RaftReplyLoop (set_flag (mTaskQueue l) (n - rl_popped l) 2) (rl_popped l)
                     (rl_claimed l) (rl_answered l ++ [(n, replyTask t isCommitted leaderHint)]))
        else None
    | None => None
    end.

(** One round of [popThreadMain]. *)
Definition popTask (l : RaftReplyLoop) : RaftReplyLoop :=
  match mTaskQueue l with
  | t :: q =>
      if task_flag t =? 2 then mk_RaftReplyLoop q (S (rl_popped l)) (rl_claimed l) (rl_answered l) else l
  | [] => l
  end.

Inductive ReplyStep :=
  | Push (index term : Z) (handle : option Z) (code : Z) (message : string)
  | Claim
  | Finish (n : nat) (isCommitted : bool) (leaderHint : option Z)
  | Pop.

Definition reply_exec (l : RaftReplyLoop) (s : ReplyStep) : option RaftReplyLoop :=
  match s with
  | Push index term handle code message => Some (pushTask l index term handle code message)
  | Claim => fst <$> claimTask l
  | Finish n c h => finishTask l n c h
  | Pop => Some (popTask l)
  end.

Fixpoint reply_run (l : RaftReplyLoop) (steps : list ReplyStep) : option RaftReplyLoop :=
  match steps with
  | [] => Some l
  | s :: steps => match reply_exec l s with Some l => reply_run l steps | None => None end
  end.

(** ** RaftCommandEventStore *)
Inductive Transition :=
  | OldLeaderToNewLeader | LeaderToFollower | FollowerToLeader | OldFollowerToNewFollower
  | SameLeader | SameFollower.

#[export] Instance Transition_eq_dec : EqDecision Transition.
Proof. solve_decision. Defined.

Record RaftCommandEventStore := mk_RaftCES {
  mRaftReplyLoop : RaftReplyLoop;
  mRaftLogStore : RaftLogStore;
  mLastCheckedTerm : Z;
  mLastCheckedRole : RaftRole }.

Definition RaftCES_new : RaftCommandEventStore :=
  mk_RaftCES RaftReplyLoop_new RaftLogStore_new (mLogStoreTerm RaftLogStore_new)
    (mLogStoreRole RaftLogStore_new).

(** The loop that numbers the events. *)
Fixpoint number_events (commandId nextEventId : Z) (events : list Event) : list Event :=
  match events with
  | [] => []
  | e :: events => Event_setIds e nextEventId commandId :: number_events commandId (nextEventId + 1) events
  end.

Definition persistAsync (crypto : CryptoUtil) (s : RaftCommandEventStore) (command : Command)
    (events : list Event) (code : Z) (message : string) : RaftCommandEventStore :=
  let commandId := Command_getId command in
  let reply := pushTask (mRaftReplyLoop s) commandId (mLastCheckedTerm s)
                 (mRequestHandle (Command_mMetaData command)) code message in
  match events with
  | [] => mk_RaftCES reply (mRaftLogStore s) (mLastCheckedTerm s) (mLastCheckedRole s)
  | _ =>
      let events := number_events commandId 0 events in
      mk_RaftCES reply (LogStore_persistAsync crypto (mRaftLogStore s) command events commandId None)
        (mLastCheckedTerm s) (mLastCheckedRole s)
  end.

Definition is_leader (r : RaftRole) : bool := bool_decide (r = Leader).

(** The case analysis of [detectTransition]. *)
Definition transition_of (lastTerm : Z) (lastRole : RaftRole) (currentTerm : Z) (currentRole : RaftRole)
    : result Transition :=
  if negb (lastTerm =? currentTerm) then
    cassert (lastTerm <? currentTerm);;
    Ret (if is_leader lastRole
         then if is_leader currentRole then OldLeaderToNewLeader else LeaderToFollower
         else if is_leader currentRole then FollowerToLeader else OldFollowerToNewFollower)
  else if is_leader lastRole then cassert (is_leader currentRole);; Ret SameLeader
  else Ret (if is_leader currentRole then FollowerToLeader else SameFollower).

Definition detectTransition (s : RaftCommandEventStore) (samples : list RoleSample)
    : option (result (RaftCommandEventStore * Transition)) :=
  match refresh (mRaftLogStore s) samples with
  | None => None
  | Some store =>
      let currentTerm := mLogStoreTerm store in
      let currentRole := mLogStoreRole store in
      Some (t ← transition_of (mLastCheckedTerm s) (mLastCheckedRole s) currentTerm currentRole;
            Ret (mk_RaftCES (mRaftReplyLoop s) store currentTerm currentRole, t))
  end.

(** ** CommandProcessLoop *)
Record CommandProcessLoop := mk_CommandProcessLoop {
  mAppStateMachine : AppStateMachine;
  mLastCommandId : Z;
  mCommandEventStore : RaftCommandEventStore }.

(** [processCommand] of the ledger; the callbacks of a memory-backed state
    machine do nothing. *)
Definition CPL_processCommand (crypto : CryptoUtil) (env : ProcessEnv) (groupId : Z) (l : CommandProcessLoop)
    (command : Command) : result CommandProcessLoop :=
  let command := Command_setId command (mLastCommandId l) in
  '(hint, events, sm, _) ← processCommandAndApply env groupId (mAppStateMachine l) command [];
  match events with
  | [] =>
      Ret (mk_CommandProcessLoop sm (mLastCommandId l)
             (persistAsync crypto (mCommandEventStore l) command [] (hint_mCode hint) (hint_mMessage hint)))
  | _ =>
      let id := u64 (mLastCommandId l + 1) in
      let command := Command_setId command id in
      Ret (mk_CommandProcessLoop sm id
             (persistAsync crypto (mCommandEventStore l) command events (hint_mCode hint) (hint_mMessage hint)))
  end.

(** What one iteration of [runDistributed] reads: the samples of
    [detectTransition]; when the loop becomes leader, what
    [waitTillLeaderIsReady] returned and the state handed over; the leader hint. *)
Record LoopEnv := mk_LoopEnv {
  le_roles : list RoleSample;
  le_ready : Z;
  le_swapped : AppStateMachine;
  le_hint : option Z;
  le_env : ProcessEnv }.

Definition reject (l : CommandProcessLoop) (command : Command) (hint : option Z)
    : CommandProcessLoop * option Reply :=
  (l, Command_onPersistFailed command 301 "Not a leader any longer" hint).

Definition onBecomeLeader (crypto : CryptoUtil) (groupId : Z) (e : LoopEnv) (l : CommandProcessLoop)
    (command : Command) : result (CommandProcessLoop * option Reply) :=
  if le_ready e =? 0 then Ret (reject l command (le_hint e))
  else
    l ← CPL_processCommand crypto (le_env e) groupId
          (mk_CommandProcessLoop (le_swapped e) (le_ready e) (mCommandEventStore l)) command;
    Ret (l, None).

(** One iteration, with the reply it gives itself. *)
Definition runDistributed_iteration (crypto : CryptoUtil) (groupId : Z) (e : LoopEnv) (l : CommandProcessLoop)
    (command : Command) : option (result (CommandProcessLoop * option Reply)) :=
  match detectTransition (mCommandEventStore l) (le_roles e) with
  | None => None
  | Some r =>
      Some ('(store, transition) ← r;
            let l := mk_CommandProcessLoop (mAppStateMachine l) (mLastCommandId l) store in
            match transition with
            | OldLeaderToNewLeader | FollowerToLeader => onBecomeLeader crypto groupId e l command
            | LeaderToFollower | OldFollowerToNewFollower | SameFollower =>
                Ret (reject l command (le_hint e))
            | SameLeader => l ← CPL_processCommand crypto (le_env e) groupId l command; Ret (l, None)
            end)
  end.
