(* ===== verification/CommandProps.v ===== *)
(** * Lemmas on the leader's pipeline

    Codec of a log entry, the ids a leader hands out, leadership transitions,
    and the reply loop. *)
From S2P Require Import Prelude Protobuf Crypto Domain Es Control Ledger.
From S2P Require Import LedgerSM LedgerProps RaftLog RaftCore RaftReplication Pipeline CommandLoop.
Open Scope Z_scope.

(** ** A log entry and back *)
Section codec.
Context `{LedgerProtos} `{Proto RaftPayload} `{OpenSSL}.
Context (ByteSizeLong : LogEntry → Z).

Lemma encode_decode_events ejunk es :
  Forall Event_wf es →
  ∃ xs, encode_events es = Ret xs ∧ decode_events ejunk xs = Ret (map (λ e, Some (Event_persisted e)) es) ∧
    length xs = length es.
Proof.
  induction 1 as [|e es He _ (xs & Hx & Hd & Hl)]; [by exists []|].
  destruct (Event_roundtrip ejunk e EventEntry_default He) as (x & Hx1 & Hd1).
  exists (x :: xs). simpl. rewrite Hx1, Hx, Hd1, Hd. simpl. rewrite Hl. done.
Qed.

Lemma make_request_spec crypto p r :
  make_request ByteSizeLong crypto p = Ret r →
  le_index (cr_mEntry r) = le_index (cr_mEntry (pe_request p)) ∧
  le_term (cr_mEntry r) = le_term (cr_mEntry (pe_request p)) ∧
  le_noop (cr_mEntry r) = le_noop (cr_mEntry (pe_request p)) ∧
  le_secret_key_version (cr_mEntry r) = le_secret_key_version (cr_mEntry (pe_request p)) ∧
  cr_mRequestHandle r = cr_mRequestHandle (pe_request p) ∧
  ∃ xs cipher, encode_events (pe_events p) = Ret xs ∧ le_payload (cr_mEntry r) = cipher ∧
    encrypt crypto (SerializeAsString (mk_RaftPayload (encodeCommand (pe_command p) CommandEntry_default) xs))
      (le_secret_key_version (cr_mEntry (pe_request p))) = Ret (cipher, 0).
Proof.
  unfold make_request. intros (xs & Hx & Hr)%bind_Ret. apply bind_Ret in Hr as ([cipher rc] & He & Hr).
  apply cassert_bind in Hr as [Hrc Hr]. apply Z.eqb_eq in Hrc as ->.
  apply cassert_bind in Hr as [_ [= <-]]. simpl. split_and!; try done. eauto.
Qed.

(** The reader may know more keys than the writer knew. *)
Definition extends_keys (c c' : CryptoUtil) : Prop :=
  mEnabled c' = mEnabled c ∧ ∀ v key, mAllKeys c !! v = Some key → mAllKeys c' !! v = Some key.

Lemma extends_keys_refl c : extends_keys c c.
Proof. split; auto. Qed.

Lemma decryptPayload_encrypt c c' plain entry :
  extends_keys c c' → (mEnabled c = true → le_secret_key_version entry ≠ kInvalidSecKeyVersion) →
  encrypt c plain (le_secret_key_version entry) = Ret (le_payload entry, 0) →
  decryptPayload c' entry = Ret plain.
Proof.
  intros [He Hk] Hv Henc. unfold decryptPayload, isEnabled. rewrite He. destruct (mEnabled c) eqn:E.
  - rewrite (proj2 (Z.eqb_neq _ _)) by auto. simpl.
    rewrite (decrypt_encrypt c c' plain _ _ Henc); [done|congruence|auto].
  - unfold encrypt in Henc. rewrite E in Henc. simpl in Henc. congruence.
Qed.

Lemma decryptEntry_make_request junk ejunk c c' p r :
  extends_keys c c' → (mEnabled c = true → le_secret_key_version (cr_mEntry (pe_request p)) ≠ kInvalidSecKeyVersion) →
  le_noop (cr_mEntry (pe_request p)) = false → Command_wf (pe_command p) → Forall Event_wf (pe_events p) →
  pe_events p ≠ [] → make_request ByteSizeLong c p = Ret r →
  decryptEntry junk ejunk c' (cr_mEntry r) =
    Ret (Some (Some (Command_persisted (pe_command p)), map (λ e, Some (Event_persisted e)) (pe_events p))).
Proof.
  intros Hc Hv Hn Hcw Hew Hne Hr.
  destruct (make_request_spec _ _ _ Hr) as (_ & _ & Hn' & Hv' & _ & xs & cipher & Hx & <- & Henc).
  rewrite <- Hv' in Henc, Hv. apply (decryptPayload_encrypt c c' _ _ Hc Hv) in Henc.
  unfold decryptEntry. rewrite Hn', Hn, Henc. simpl. rewrite ParseFromString_SerializeAsString. simpl.
  destruct (encode_decode_events ejunk _ Hew) as (xs' & Hx' & Hd & Hl). assert (xs' = xs) as -> by congruence.
  destruct xs as [|x xs]; [by destruct (pe_events p)|]. simpl in *.
  rewrite (Command_roundtrip junk _ _ Hcw), Hd. done.
Qed.

Lemma decryptEntries_app junk ejunk c es1 es2 :
  decryptEntries junk ejunk c (es1 ++ es2) =
  (b1 ← decryptEntries junk ejunk c es1; b2 ← decryptEntries junk ejunk c es2; Ret (b1 ++ b2)).
Proof.
  unfold decryptEntries. rewrite foldM_app. destruct (foldM _ [] es1) as [b1|]; [|done]. simpl.
  set (step := λ bundles entry, _). assert (Hg : ∀ es b, foldM step b es = (b2 ← foldM step [] es; Ret (b ++ b2))).
  { induction es as [|e es IH]; intros b; simpl; [by rewrite app_nil_r|].
    set (one := λ o : option Bundle, match o with Some b => [b] | None => [] end).
    assert (Hs : ∀ b, step b e = (o ← decryptEntry junk ejunk c e; Ret (b ++ one o))) by done.
    rewrite !Hs. destruct (decryptEntry junk ejunk c e) as [o|]; [|done]. simpl.
    rewrite (IH (b ++ _)), (IH (one o)). destruct (foldM step [] es); simpl; [|done]. by rewrite app_assoc. }
  apply Hg.
Qed.
End codec.

(** ** One command *)
Lemma CPL_processCommand_spec crypto env g l c l' :
  Command_wf c → CPL_processCommand crypto env g l c = Ret l' →
  let s := mCommandEventStore l in let s' := mCommandEventStore l' in
  mLogStoreTerm (mRaftLogStore s') = mLogStoreTerm (mRaftLogStore s) ∧
  mLastCheckedTerm s' = mLastCheckedTerm s ∧
  ∃ h evs calls, processCommandAndApply env g (mAppStateMachine l) (Command_setId c (mLastCommandId l)) [] =
      Ret (h, evs, mAppStateMachine l', calls) ∧
    ((evs = [] ∧ mLastCommandId l' = mLastCommandId l ∧ mAppStateMachine l' = mAppStateMachine l ∧
      mRaftLogStore s' = mRaftLogStore s ∧
      mRaftReplyLoop s' = pushTask (mRaftReplyLoop s) (mLastCommandId l) (mLastCheckedTerm s)
        (mRequestHandle (Command_mMetaData c)) (hint_mCode h) (hint_mMessage h)) ∨
     (∃ e, evs = [e] ∧ Event_wf e ∧ mLastCommandId l' = u64 (mLastCommandId l + 1) ∧
      mPersistQueue (mRaftLogStore s') = mPersistQueue (mRaftLogStore s) ++
        [mk_PersistEntry (Command_setId c (mLastCommandId l')) [Event_setIds e 0 (mLastCommandId l')]
           (mk_ClientRequest (mk_LogEntry (mLogStoreTerm (mRaftLogStore s)) (mLastCommandId l') false 0 EmptyString
              (getLatestVersion crypto)
              (match specialTag c with Some p => Some (mk_SpecialTag (u64 (Command_getType c)) p) | None => None end))
              None)] ∧
      mRaftReplyLoop s' = pushTask (mRaftReplyLoop s) (mLastCommandId l') (mLastCheckedTerm s)
        (mRequestHandle (Command_mMetaData c)) (hint_mCode h) (hint_mMessage h))).
Proof.
  intros Hwf Hp. unfold CPL_processCommand in Hp. apply bind_Ret in Hp as ([[[h evs] sm] calls] & Hpa & Hp).
  assert (Hwf' : Command_wf (Command_setId c (mLastCommandId l))) by (destruct c; exact Hwf).
  pose proof (processCommandAndApply_cases _ _ _ _ _ _ _ _ Hwf' Hpa) as Hcases.
  destruct Hcases as [(-> & -> & -> & _)|(e & -> & [He _] & _)].
  - injection Hp as <-. simpl. split_and!; [done|done|]. exists h, [], []. split; [done|]. left. done.
  - injection Hp as <-. simpl. split_and!; [done|done|]. exists h, [e], calls. split; [done|]. right. exists e. done.
Qed.

(** ** The entries of one leadership *)
Definition queued (l : CommandProcessLoop) : list PersistEntry := mPersistQueue (mRaftLogStore (mCommandEventStore l)).
Definition store_term (l : CommandProcessLoop) : Z := mLogStoreTerm (mRaftLogStore (mCommandEventStore l)).

(** Commands one after the other, each with what it reads from outside. *)
Definition CPL_processCommands crypto g (l : CommandProcessLoop) (cs : list (ProcessEnv * Command))
    : result CommandProcessLoop :=
  foldM (λ l ec, CPL_processCommand crypto ec.1 g l ec.2) l cs.

Lemma contiguous_app i es1 es2 :
  contiguous i (es1 ++ es2) ↔ contiguous i es1 ∧ contiguous (i + Z.of_nat (length es1)) es2.
Proof.
  revert i. induction es1 as [|e es1 IH]; intros i; simpl; [rewrite Z.add_0_r; tauto|].
  rewrite IH. replace (i + 1 + Z.of_nat (length es1)) with (i + Z.of_nat (S (length es1))) by lia. tauto.
Qed.

Lemma CPL_processCommands_queue crypto g l cs l' :
  Forall (λ ec, Command_wf ec.2) cs → 0 ≤ mLastCommandId l →
  mLastCommandId l + Z.of_nat (length cs) < two64 →
  CPL_processCommands crypto g l cs = Ret l' →
  store_term l' = store_term l ∧
  ∃ new, queued l' = queued l ++ new ∧
    mLastCommandId l' = mLastCommandId l + Z.of_nat (length new) ∧ (length new ≤ length cs)%nat ∧
    contiguous (mLastCommandId l + 1) (map (λ p, cr_mEntry (pe_request p)) new) ∧
    Forall (λ p, le_term (cr_mEntry (pe_request p)) = store_term l ∧ length (pe_events p) = 1%nat ∧
                 Command_getId (pe_command p) = le_index (cr_mEntry (pe_request p))) new.
Proof.
  intros Hwf. revert l. induction Hwf as [|[env c] cs Hc _ IH]; intros l H0 Hb Hf.
  - injection Hf as <-. split; [done|]. exists []. rewrite app_nil_r. simpl. split_and!; try done; lia.
  - unfold CPL_processCommands in Hf. cbn [foldM fst snd] in Hf. apply bind_Ret in Hf as (l1 & H1 & Hf).
    destruct (CPL_processCommand_spec _ _ _ _ _ _ Hc H1) as (T1 & _ & h & evs & calls & _ & Hcase).
    fold (store_term l) (store_term l1) in T1. cbn [length] in Hb.
    destruct Hcase as [(_ & Hid & _ & Hq & _)|(e & _ & _ & Hid & Hq & _)].
    + destruct (IH l1) as (T2 & new & Hnew & Hid2 & Hle & Hct & Hall); [lia|lia|done|].
      split; [congruence|]. exists new. unfold queued in *. rewrite <- Hq, <- Hid, <- T1. simpl. split_and!; try done. lia.
    + rewrite u64_small in Hid by (unfold in_u64; lia).
      destruct (IH l1) as (T2 & new & Hnew & Hid2 & Hle & Hct & Hall); [lia|lia|done|].
      split; [congruence|]. unfold queued in *. rewrite Hq, <- app_assoc in Hnew. eexists. split; [done|].
      cbn [length map contiguous app]. simpl. rewrite Hid in *. split_and!; try done; [lia|lia|].
      constructor; [|by rewrite <- T1]. done.
Qed.

(** A leader in the right term and at the right index admits them all. *)
Lemma admit_all t last pending es reqs :
  contiguous (last + 1) (map cr_mEntry reqs) → Forall (λ r, le_term (cr_mEntry r) = t) reqs →
  foldl (admit_request t) (last, pending, es) reqs =
    (last + Z.of_nat (length reqs),
     pending ++ map (λ r, (le_index (cr_mEntry r), cr_mRequestHandle r)) reqs, es ++ map cr_mEntry reqs).
Proof.
  revert last pending es. induction reqs as [|r reqs IH]; intros last pending es Hc Ht; simpl.
  - by rewrite Z.add_0_r, !app_nil_r.
  - destruct Hc as [Hr Hc]. apply Forall_cons in Ht as [Htr Ht].
    rewrite (proj2 (Z.eqb_eq _ _) Htr), (proj2 (Z.eqb_eq _ _) Hr). simpl. rewrite (IH _ _ _ Hc Ht), <- !app_assoc.
    simpl. do 2 f_equal. lia.
Qed.

(** ** Leadership transitions *)

(** What [refresh] and the event store agree on between two calls. *)
Definition store_inv (s : RaftCommandEventStore) : Prop :=
  mLastCheckedTerm s = mLogStoreTerm (mRaftLogStore s) ∧ mLastCheckedRole s = mLogStoreRole (mRaftLogStore s).

Lemma read_role_in samples t r :
  read_role samples = Some (t, r) → ∃ x, x ∈ samples ∧ rs_term1 x = t ∧ rs_term2 x = t ∧ rs_role x = r.
Proof.
  induction samples as [|x xs IH]; simpl; [done|]. destruct (Z.eqb_spec (rs_term1 x) (rs_term2 x)) as [He|]; simpl.
  - intros [= <- <-]. exists x. split_and!; try done. by left.
  - intros Hr. destruct (IH Hr) as (y & Hy & ?). exists y. split; [by right|done].
Qed.

Lemma detectTransition_spec s samples r :
  store_inv s → Forall (λ x, mLastCheckedTerm s ≤ rs_term1 x) samples →
  detectTransition s samples = Some r →
  ∃ s' t, r = Ret (s', t) ∧ store_inv s' ∧ mRaftReplyLoop s' = mRaftReplyLoop s ∧
    mPersistQueue (mRaftLogStore s') = mPersistQueue (mRaftLogStore s) ∧
    mLastCheckedTerm s ≤ mLastCheckedTerm s' ∧
    (t = SameLeader ↔ mLastCheckedRole s = Leader ∧ mLastCheckedRole s' = Leader ∧
                      mLastCheckedTerm s' = mLastCheckedTerm s) ∧
    (t = OldLeaderToNewLeader ∨ t = FollowerToLeader ∨ t = SameLeader ↔ mLastCheckedRole s' = Leader) ∧
    (mLastCheckedRole s = Leader → mLastCheckedTerm s' = mLastCheckedTerm s → mLastCheckedRole s' = Leader).
Proof.
  intros [It Ir] Hs. unfold detectTransition, refresh. destruct (read_role samples) as [[t1 role]|] eqn:Er; [|done].
  destruct (read_role_in _ _ _ Er) as (x & Hx & <- & _ & <-). rewrite Forall_forall in Hs. specialize (Hs x Hx).
  rewrite <- It, <- Ir. destruct (_ && _ && _) eqn:Ec; intros [= <-].
  - apply andb_true_iff in Ec as [[He%Z.eqb_eq Hl%bool_decide_eq_true]%andb_true_iff _].
    unfold transition_of, is_leader. rewrite <- It, <- Ir, Hl, Z.eqb_refl. simpl.
    eexists _, _. split; [done|]. unfold store_inv. simpl. rewrite <- It, <- Ir, Hl. by intuition.
  - unfold transition_of, is_leader, set_term_role. simpl.
    destruct (Z.eqb_spec (mLastCheckedTerm s) (rs_term1 x)) as [He|Hne]; simpl in *.
    + repeat case_bool_decide; simpl in *; try done; eexists _, _; (split; [done|]); unfold store_inv; simpl;
        (split_and!; [done|done|done|done|lia|intuition congruence|intuition congruence|intuition congruence]).
    + rewrite (proj2 (Z.ltb_lt _ _)) by lia. simpl.
      repeat case_bool_decide; simpl in *; try done; eexists _, _; (split; [done|]); unfold store_inv; simpl;
        (split_and!; [done|done|done|done|lia|intuition congruence|intuition congruence|intuition congruence]).
Qed.

(** ** Waiting *)
Lemma wait_committed index term samples b :
  waitTillCommittedOrQuit index term samples = Ret (Some b) →
  ∃ s, s ∈ samples ∧ cs_term1 s = cs_term2 s ∧ term ≤ cs_term1 s ∧
    if b then index ≤ cs_commit s ∧ ∃ e, cs_entry s = Some e ∧ le_term e = term
    else (cs_last s < index ∧ term < cs_term1 s) ∨
         (index ≤ cs_commit s ∧ ∃ e, cs_entry s = Some e ∧ le_term e ≠ term).
Proof.
  assert (Hmono : ∀ (P : CommitSample → Prop) x xs, (∃ s, s ∈ xs ∧ P s) → ∃ s, s ∈ x :: xs ∧ P s).
  { intros P x xs (y & Hy & Hp). exists y. split; [by right|done]. }
  induction samples as [|s samples IH]; simpl; [done|].
  destruct (Z.eqb_spec (cs_term1 s) (cs_term2 s)) as [He|]; simpl; [|intros; by apply Hmono, IH].
  intros [Ht Hr]%cassert_bind. apply Z.leb_le in Ht.
  destruct ((cs_last s <? index) && (term <? cs_term1 s)) eqn:Eq.
  - injection Hr as <-. apply andb_true_iff in Eq as [?%Z.ltb_lt ?%Z.ltb_lt].
    exists s. split_and!; [by left|done|done|by left].
  - destruct (Z.ltb_spec (cs_commit s) index); [by apply Hmono, IH|].
    destruct (cs_entry s) as [e|] eqn:Ee; [|done]. injection Hr as <-. exists s.
    split_and!; [by left|done|done|]. destruct (Z.eqb_spec (le_term e) term); [eauto|right; eauto].
Qed.

Lemma ready_scan_spec entry t last index fuel i :
  ready_scan entry t last index fuel = Ret (Some i) →
  i = last ∧ index ≤ last ∧ (∃ e, entry last = Some e ∧ le_noop e = true ∧ le_term e = t) ∧
  ∀ j, index ≤ j ≤ last → ∃ e, entry j = Some e ∧ le_noop e = true.
Proof.
  revert index. induction fuel as [|fuel IH]; intros index; simpl; [done|].
  destruct (Z.ltb_spec last index); [done|]. destruct (entry index) as [e|] eqn:Ee; [|done].
  destruct (le_noop e) eqn:En; simpl; [|done].
  destruct ((index =? last) && (le_term e =? t)) eqn:Ec.
  - intros [= <-]. apply andb_true_iff in Ec as [->%Z.eqb_eq <-%Z.eqb_eq]. split_and!; [done|lia|eauto|].
    intros j Hj. assert (j = last) as -> by lia. eauto.
  - intros (-> & Hle & He & Hall)%IH. split_and!; [done|lia|done|]. intros j Hj.
    destruct (decide (j = index)) as [->|]; [eauto|]. apply Hall. lia.
Qed.

Lemma ready_spec expectedTerm samples i :
  waitTillLeaderIsReadyOrStepDown expectedTerm samples = Ret (Some i) →
  (i = 0 ∧ ∃ s, s ∈ samples ∧ ry_term s ≠ expectedTerm) ∨
  ∃ s, s ∈ samples ∧ ry_term s = expectedTerm ∧ ry_commit s = i ∧ ry_loaded s = i ∧ ry_last s = i ∧
    (∃ e, ry_entry s i = Some e ∧ le_noop e = true ∧ le_term e = expectedTerm) ∧
    ∀ j, ry_applied s < j ≤ i → ∃ e, ry_entry s j = Some e ∧ le_noop e = true.
Proof.
  induction samples as [|s samples IH]; simpl; [done|]. intros Hw.
  assert (Hrec : waitTillLeaderIsReadyOrStepDown expectedTerm samples = Ret (Some i) → 
    (i = 0 ∧ ∃ s0, s0 ∈ s :: samples ∧ ry_term s0 ≠ expectedTerm) ∨
    ∃ s0, s0 ∈ s :: samples ∧ ry_term s0 = expectedTerm ∧ ry_commit s0 = i ∧ ry_loaded s0 = i ∧ ry_last s0 = i ∧
      (∃ e, ry_entry s0 i = Some e ∧ le_noop e = true ∧ le_term e = expectedTerm) ∧
      ∀ j, ry_applied s0 < j ≤ i → ∃ e, ry_entry s0 j = Some e ∧ le_noop e = true).
  { intros [(-> & y & Hy & Ht)|(y & Hy & Hrest)]%IH; [left|right].
    - split; [done|]. exists y. split; [by right|done].
    - exists y. split; [by right|done]. }
  destruct (Z.eqb_spec (ry_term s) expectedTerm) as [Ht|Ht]; simpl in Hw.
  2:{ injection Hw as <-. left. split; [done|]. exists s. split; [by left|done]. }
  destruct (Z.eqb_spec (ry_loaded s) (ry_commit s)) as [Hl|]; simpl in Hw; [|by apply Hrec].
  destruct (Z.eqb_spec (ry_commit s) (ry_last s)) as [Hc|]; simpl in Hw; [|by apply Hrec].
  apply bind_Ret in Hw as ([k|] & Hs & Hw); [|by apply Hrec]. injection Hw as <-.
  apply ready_scan_spec in Hs as (-> & _ & He & Hall). right. exists s.
  split_and!; [by left|done|done|congruence|done|done|]. intros j Hj. apply Hall. lia.
Qed.

(** ** The reply loop *)

(** The tasks a schedule pushes. *)
Definition pushes (steps : list ReplyStep) : list Task :=
  omap (λ s, match s with
             | Push index term handle code message => Some (mk_Task index term handle code message 0)
             | _ => None
             end) steps.

(** Where task [n] stands, by its flag. *)
Definition task_ok (l : RaftReplyLoop) (n : nat) (flag : Z) : Prop :=
  (flag = 0 ∧ n ∉ rl_claimed l) ∨ (flag = 1 ∧ n ∈ rl_claimed l ∧ n ∉ (rl_answered l).*1) ∨
  (flag = 2 ∧ n ∈ (rl_answered l).*1).

Record reply_inv (pushed : list Task) (l : RaftReplyLoop) : Prop := {
  rp_length : length pushed = (rl_popped l + length (mTaskQueue l))%nat;
  rp_queue k t : mTaskQueue l !! k = Some t →
    ∃ t0, pushed !! (rl_popped l + k)%nat = Some t0 ∧ t = Task_set_flag t0 (task_flag t) ∧
      task_ok l (rl_popped l + k) (task_flag t);
  rp_popped n : (n < rl_popped l)%nat → n ∈ (rl_answered l).*1;
  rp_claimed_nodup : NoDup (rl_claimed l);
  rp_answered_nodup : NoDup (rl_answered l).*1;
  rp_answered_claimed n : n ∈ (rl_answered l).*1 → n ∈ rl_claimed l;
  rp_claimed_bound n : n ∈ rl_claimed l → (n < length pushed)%nat;
  rp_reply n r : (n, r) ∈ rl_answered l → ∃ t c h, pushed !! n = Some t ∧ r = replyTask t c h }.

Lemma first_initial_spec q k :
  first_initial q = Some k → ∃ t, q !! k = Some t ∧ task_flag t = 0.
Proof.
  revert k. induction q as [|t q IH]; intros k; simpl; [done|].
  destruct (Z.eqb_spec (task_flag t) 0) as [He|]; [intros [= <-]; by exists t|].
  destruct (first_initial q) as [j|]; simpl; [|done]. intros [= <-]. apply IH. done.
Qed.

Lemma lookup_set_flag q k f j t :
  set_flag q k f !! j = Some t →
  (j = k ∧ ∃ t0, q !! k = Some t0 ∧ t = Task_set_flag t0 f) ∨ (j ≠ k ∧ q !! j = Some t).
Proof.
  unfold set_flag. destruct (q !! k) as [t0|] eqn:E.
  - intros [(-> & <- & _)|[? ?]]%list_lookup_insert_Some; [left; eauto|right; auto].
  - intros Hj. right. split; [|done]. intros ->. congruence.
Qed.

Lemma length_set_flag q k f : length (set_flag q k f) = length q.
Proof. unfold set_flag. destruct (q !! k); [by rewrite length_insert|done]. Qed.

Lemma pushTask_inv pushed l index term handle code message :
  reply_inv pushed l →
  reply_inv (pushed ++ [mk_Task index term handle code message 0]) (pushTask l index term handle code message).
Proof.
  intros [I1 I2 I3 I4 I5 I6 I7 I8]. split; simpl; auto.
  - rewrite !length_app, I1. simpl. lia.
  - intros k t [Hk|[Hk Ht]]%lookup_app_Some.
    + destruct (I2 _ _ Hk) as (t0 & H0 & ? & ?). exists t0. split; [by apply lookup_app_l_Some|done].
    + apply list_lookup_singleton_Some in Ht as [Hz <-]. assert (k = length (mTaskQueue l)) as -> by lia.
      rewrite <- I1, lookup_app_r, Nat.sub_diag by lia. eexists. split; [done|]. split; [done|].
      left. split; [done|]. intros Hn%I7. lia.
  - intros n Hn%I7. rewrite length_app. simpl. lia.
  - intros n r Hn. destruct (I8 _ _ Hn) as (t & c & h & Ht & ->). exists t, c, h.
    split; [by apply lookup_app_l_Some|done].
Qed.

Lemma claimTask_inv pushed l l' n : reply_inv pushed l → claimTask l = Some (l', n) → reply_inv pushed l'.
Proof.
  intros [I1 I2 I3 I4 I5 I6 I7 I8]. unfold claimTask. destruct (first_initial _) as [k|] eqn:Ef; [|done].
  intros [= <- <-]. apply first_initial_spec in Ef as (t & Ht & Hf).
  destruct (I2 _ _ Ht) as (t0 & H0 & Et & Hok).
  assert (Hn : (rl_popped l + k)%nat ∉ rl_claimed l) by (destruct Hok as [[? ?]|[(? & _)|[? _]]]; [done|lia|lia]).
  split; simpl; auto.
  - by rewrite length_set_flag.
  - intros j u [(-> & u0 & Hu0 & ->)|[Hne Hu]]%lookup_set_flag.
    + assert (u0 = t) as -> by congruence. exists t0. split; [done|]. split; [by rewrite Et|].
      right; left. simpl. split; [done|]. split; [set_solver|]. intros Ha%I6. done.
    + destruct (I2 _ _ Hu) as (u0 & Hu0 & Eu & Hok'). exists u0. split; [done|]. split; [done|].
      destruct Hok' as [[? ?]|[(? & ? & ?)|[? ?]]].
      * left. simpl. split; [done|]. rewrite elem_of_app, list_elem_of_singleton. intros [?|?]; [done|lia].
      * right; left. simpl. set_solver.
      * right; right. done.
  - apply NoDup_app. split_and!; [done|set_solver|apply NoDup_singleton].
  - intros m Hm%I6. set_solver.
  - intros m [Hm| ->%list_elem_of_singleton]%elem_of_app; [by apply I7|]. apply lookup_lt_Some in H0. done.
Qed.

Lemma finishTask_inv pushed l n c h l' : reply_inv pushed l → finishTask l n c h = Some l' → reply_inv pushed l'.
Proof.
  intros [I1 I2 I3 I4 I5 I6 I7 I8]. unfold finishTask. destruct (Nat.ltb_spec n (rl_popped l)) as [|Hge]; [done|].
  destruct (mTaskQueue l !! (n - rl_popped l)%nat) as [t|] eqn:Ht; [|done].
  destruct (Z.eqb_spec (task_flag t) 1) as [Hf|]; [|done]. intros [= <-].
  destruct (I2 _ _ Ht) as (t0 & H0 & Et & Hok). replace (rl_popped l + (n - rl_popped l))%nat with n in * by lia.
  assert (Hn : n ∈ rl_claimed l ∧ n ∉ (rl_answered l).*1) by (destruct Hok as [[? ?]|[(? & ?)|[? _]]]; [lia|done|lia]).
  split; simpl; auto; rewrite ?fmap_app; simpl.
  - by rewrite length_set_flag.
  - intros j u [(-> & u0 & Hu0 & ->)|[Hne Hu]]%lookup_set_flag.
    + assert (u0 = t) as -> by congruence. replace (rl_popped l + (n - rl_popped l))%nat with n by lia.
      exists t0. split; [done|]. split; [by rewrite Et|].
      right; right. simpl. rewrite fmap_app. simpl. set_solver.
    + destruct (I2 _ _ Hu) as (u0 & Hu0 & Eu & Hok'). exists u0. split; [done|]. split; [done|].
      unfold task_ok; simpl. rewrite fmap_app. simpl. destruct Hok' as [[? ?]|[(? & ? & ?)|[? ?]]].
      * left. done.
      * right; left. split_and!; [done|done|]. rewrite elem_of_app, list_elem_of_singleton. intros [?|?]; [done|lia].
      * right; right. set_solver.
  - intros m Hm%I3. set_solver.
  - apply NoDup_app. split_and!; [done|set_solver|apply NoDup_singleton].
  - intros m [Hm| ->%list_elem_of_singleton]%elem_of_app; [by apply I6|apply Hn].
  - intros m r [Hm|[= -> ->]%list_elem_of_singleton]%elem_of_app; [by apply I8|].
    exists t0, c, h. split; [done|]. by rewrite Et.
Qed.

Lemma popTask_inv pushed l : reply_inv pushed l → reply_inv pushed (popTask l).
Proof.
  intros Hi. unfold popTask. destruct (mTaskQueue l) as [|t q] eqn:Eq; [done|].
  destruct (Z.eqb_spec (task_flag t) 2) as [Hf|]; [|done]. destruct Hi as [I1 I2 I3 I4 I5 I6 I7 I8].
  rewrite Eq in *. split; simpl in *; auto.
  - lia.
  - intros k u Hk. destruct (I2 (S k) u Hk) as (u0 & Hu0 & Hu). exists u0.
    replace (S (rl_popped l + k)) with (rl_popped l + S k)%nat by lia. done.
  - intros n Hn. destruct (decide (n < rl_popped l)%nat) as [|Hge]; [by apply I3|].
    destruct (I2 O t eq_refl) as (t0 & _ & _ & Hok). replace n with (rl_popped l + 0)%nat by lia.
    destruct Hok as [[? _]|[[? _]|[_ ?]]]; [lia|lia|done].
Qed.

Lemma reply_run_inv pushed l steps l' :
  reply_inv pushed l → reply_run l steps = Some l' → reply_inv (pushed ++ pushes steps) l'.
Proof.
  revert pushed l. induction steps as [|s steps IH]; intros pushed l Hi Hr; simpl in *.
  - injection Hr as <-. by rewrite app_nil_r.
  - destruct (reply_exec l s) as [l1|] eqn:E; [|done]. destruct s as [index term handle code message| |n c h|]; simpl in *.
    + injection E as <-. specialize (IH _ _ (pushTask_inv _ _ index term handle code message Hi) Hr).
      by rewrite <- app_assoc in IH.
    + destruct (claimTask l) as [[l2 n]|] eqn:Ec; simpl in E; [|done]. injection E as <-.
      eapply IH; [by eapply claimTask_inv|done].
    + eapply IH; [by eapply finishTask_inv|done].
    + injection E as <-. eapply IH; [by apply popTask_inv|done].
Qed.

Lemma reply_inv_new : reply_inv [] RaftReplyLoop_new.
Proof. split; simpl; try done; try (intros; set_solver); try (intros; lia); constructor. Qed.

