(* ===== verification/CommandTheorems.v ===== *)
(** * Main theorems of the leader's pipeline *)
From S2P Require Import Prelude Protobuf Crypto Domain Es Control Ledger LedgerSM LedgerProps.
From S2P Require Import LedgerTheorems RaftLog RaftCore RaftHandlers RaftCluster RaftReplication RaftTheorems Pipeline CommandLoop CommandProps.
Import Wire.
Import (hints) SampleRaft XorSSL.
Open Scope Z_scope.

(** ** A concrete pipeline, for the examples *)
Module SamplePipe.
#[export] Instance command_entry_packed : Packed CommandEntry.
Proof.
  apply (packed_via (λ e, (ce_type e, ce_id e, ce_createdTimeInNanos e, ce_entry e, ce_creatorId e,
      ce_groupId e, ce_groupVersion e, ce_trackingContext e))
    (λ '(a, b, c, d, e, f, g, h), mk_CommandEntry a b c d e f g h)). by intros [].
Defined.
#[export] Instance event_entry_packed : Packed EventEntry.
Proof.
  apply (packed_via (λ e, (ee_type e, ee_id e, ee_commandId e, ee_createdTimeInNanos e, ee_entry e,
      ee_creatorId e, ee_groupId e, ee_groupVersion e, ee_trackingContext e))
    (λ '(a, b, c, d, e, f, g, h, i), mk_EventEntry a b c d e f g h i)). by intros [].
Defined.
#[export] Instance payload_proto : Proto RaftPayload.
Proof.
  apply (proto_of _ (λ p, (rp_command p, rp_events p)) (λ x, mk_RaftPayload x.1 x.2));
    [by intros []|exact (mk_RaftPayload CommandEntry_default [])].
Defined.

Definition size (e : LogEntry) : Z := 100.
Definition key : string := "0123456789abcdef0123456789abcdef".
Definition crypto : CryptoUtil :=
  match init_key CryptoUtil_new 3 key with Ret c => c | Fail _ => CryptoUtil_new end.

(** A leader of term 1 whose last index is 1, as in the sample cluster. *)
Definition store : RaftCommandEventStore :=
  mk_RaftCES RaftReplyLoop_new (set_term_role RaftLogStore_new 1 Leader) 1 Leader.
Definition loop : CommandProcessLoop := mk_CommandProcessLoop (initial Sample.cs) 1 store.
Definition cmds : list (ProcessEnv * Command) :=
  [(Sample.env, Sample.configure pAsset 1000 1999); (Sample.env, Sample.configure pLiability 1500 2999);
   (Sample.env, Sample.create pAsset 1001 500)].
Definition after : CommandProcessLoop :=
  match CPL_processCommands crypto 0 loop cmds with Ret l => l | Fail _ => loop end.

Lemma after_eq : CPL_processCommands crypto 0 loop cmds = Ret after.
Proof. vm_compute. reflexivity. Qed.

Lemma pipe_cmds_wf : Forall (λ ec, Command_wf ec.2) cmds.
Proof. repeat (constructor; [Sample.wf_command|]). constructor. Qed.

(** The request made, where [make_request] returns. *)
Definition made (p : PersistEntry) : ClientRequest :=
  match make_request size crypto p with Ret r => r | Fail _ => pe_request p end.
Definition requests : list ClientRequest := map made (queued after).

Lemma made_eq p : ok (make_request size crypto p) = true → make_request size crypto p = Ret (made p).
Proof. unfold made. by destruct (make_request size crypto p). Qed.

Lemma requests_made : Forall2 (λ p r, make_request size crypto p = Ret r) (queued after) requests.
Proof.
  assert (Hok : forallb (λ p, ok (make_request size crypto p)) (queued after) = true) by (vm_compute; reflexivity).
  unfold requests. induction (queued after) as [|p ps IH]; [constructor|]. simpl in Hok.
  apply andb_true_iff in Hok as [Hp Hok]. constructor; [by apply made_eq|by apply IH].
Qed.

Definition entry : PersistEntry :=
  mk_PersistEntry (Sample.configure pAsset 1000 1999)
    [AccountMetadataConfiguredEvent_new Sample.ejunk 7 (mk_AccountMetadata 1 Asset 1000 1999)]
    (mk_ClientRequest (mk_LogEntry 1 2 false 0 EmptyString 3 None) None).
End SamplePipe.
Import (hints) SamplePipe.

(** C23. What replicas read from the entries of a leader.  Take requests of
    well-formed commands with at least one well-formed event each, no no-ops, with a
    key version when the leader encrypts, of which the leader makes entries.  They
    decode, in the same order and also under a key set that has grown since, to
    these commands and events less what is not persisted ([Command_persisted],
    [Event_persisted]): the request handle, the times kept for metrics, and the id
    of a journal entry, which its encoder loses. *)
Theorem log_entries_decode `{LedgerProtos} `{Proto RaftPayload} `{OpenSSL} ByteSizeLong junk ejunk c c' ps reqs :
  extends_keys c c' →
  Forall (λ p, (mEnabled c = true → le_secret_key_version (cr_mEntry (pe_request p)) ≠ kInvalidSecKeyVersion) ∧
               le_noop (cr_mEntry (pe_request p)) = false ∧ Command_wf (pe_command p) ∧
               Forall Event_wf (pe_events p) ∧ pe_events p ≠ []) ps →
  Forall2 (λ p r, make_request ByteSizeLong c p = Ret r) ps reqs →
  decryptEntries junk ejunk c' (map cr_mEntry reqs) =
    Ret (map (λ p, (Some (Command_persisted (pe_command p)),
                    map (λ e, Some (Event_persisted e)) (pe_events p))) ps).
Proof.
  intros Hc Hall Hreq. induction Hreq as [|p r ps reqs Hr _ IH]; [done|].
  apply Forall_cons in Hall as [(Hv & Hn & Hcw & Hew & Hne) Hall].
  change (map cr_mEntry (r :: reqs)) with ([cr_mEntry r] ++ map cr_mEntry reqs).
  rewrite decryptEntries_app, (IH Hall). unfold decryptEntries at 1. simpl.
  rewrite (decryptEntry_make_request ByteSizeLong junk ejunk c c' p r); done.
Qed.

Lemma log_entries_decode_witness :
  make_request SamplePipe.size SamplePipe.crypto SamplePipe.entry = Ret (SamplePipe.made SamplePipe.entry) ∧
  decryptEntries Sample.junk Sample.ejunk SamplePipe.crypto (map cr_mEntry [SamplePipe.made SamplePipe.entry]) =
    Ret (map (λ p, (Some (Command_persisted (pe_command p)), map (λ e, Some (Event_persisted e)) (pe_events p)))
           [SamplePipe.entry]).
Proof.
  assert (Hr : make_request SamplePipe.size SamplePipe.crypto SamplePipe.entry = Ret (SamplePipe.made SamplePipe.entry))
    by (apply SamplePipe.made_eq; vm_compute; reflexivity).
  split; [exact Hr|].
  apply (log_entries_decode SamplePipe.size Sample.junk Sample.ejunk SamplePipe.crypto SamplePipe.crypto
    [SamplePipe.entry] [SamplePipe.made SamplePipe.entry]).
  - apply extends_keys_refl.
  - constructor; [|constructor]. split; [done|]. split; [done|]. split; [Sample.wf_command|].
    split; [|done]. constructor; [|constructor]. split; [reflexivity|]. split; [reflexivity|].
    vm_compute. split_and!; congruence.
  - constructor; [exact Hr|constructor].
Defined.



(** Leadership as the command loop sees it: when the terms it reads do not
    go back, [detectTransition] never aborts; it reports [SameLeader] exactly
    when the node was and is leader of one term, some kind of leadership
    exactly when it now counts as leader, and within a term it never loses
    leadership, even if Raft's role is seen to change before its term. *)
Theorem transitions_consistent s samples r :
  store_inv s → Forall (λ x, mLastCheckedTerm s ≤ rs_term1 x) samples →
  detectTransition s samples = Some r →
  ∃ s' t, r = Ret (s', t) ∧ store_inv s' ∧ mLastCheckedTerm s ≤ mLastCheckedTerm s' ∧
    (t = SameLeader ↔ mLastCheckedRole s = Leader ∧ mLastCheckedRole s' = Leader ∧
                      mLastCheckedTerm s' = mLastCheckedTerm s) ∧
    (t = OldLeaderToNewLeader ∨ t = FollowerToLeader ∨ t = SameLeader ↔ mLastCheckedRole s' = Leader) ∧
    (mLastCheckedRole s = Leader → mLastCheckedTerm s' = mLastCheckedTerm s → mLastCheckedRole s' = Leader).
Proof.
  intros Hi Hs Hd. destruct (detectTransition_spec _ _ _ Hi Hs Hd)
    as (s' & t & -> & H1 & _ & _ & H2 & H3 & H4 & H5). eauto 10.
Qed.

Lemma transitions_consistent_witness :
  ∃ s' t, detectTransition SamplePipe.store [mk_RoleSample 1 Leader 2; mk_RoleSample 1 Follower 1] = Some (Ret (s', t)) ∧
    mLastCheckedRole s' = Leader ∧ t = SameLeader.
Proof.
  edestruct (transitions_consistent SamplePipe.store [mk_RoleSample 1 Leader 2; mk_RoleSample 1 Follower 1])
    as (s' & t & Hr & _ & _ & Hsame & _ & Hkeep); [done| |vm_compute; reflexivity|].
  - repeat constructor; vm_compute; congruence.
  - exists s', t. split; [rewrite <- Hr; vm_compute; reflexivity|].
    injection Hr as <- <-. split; [by apply Hkeep|]. by apply Hsame.
Defined.

(** A client is told of success only if the entry of its command is
    committed: whenever the wait ends, a consistent reading of Raft showed
    either the commit index at or behind the entry's index with an entry of the
    task's own term there, and the reply carries the code of the command, or
    the opposite, and the reply is 301. *)
Theorem reply_only_if_committed task samples b hint handle :
  waitTillCommittedOrQuit (task_index task) (task_term task) samples = Ret (Some b) →
  task_handle task = Some handle →
  ∃ s, s ∈ samples ∧ cs_term1 s = cs_term2 s ∧ task_term task ≤ cs_term1 s ∧
    if b then
      (task_index task ≤ cs_commit s ∧ ∃ e, cs_entry s = Some e ∧ le_term e = task_term task) ∧
      replyTask task b hint = Some (mk_Reply handle (task_code task) (task_message task) hint)
    else
      ((cs_last s < task_index task ∧ task_term task < cs_term1 s) ∨
       (task_index task ≤ cs_commit s ∧ ∃ e, cs_entry s = Some e ∧ le_term e ≠ task_term task)) ∧
      replyTask task b hint = Some (mk_Reply handle 301 "NotLeaderAnyMore" hint).
Proof.
  intros Hw Hh. destruct (wait_committed _ _ _ _ Hw) as (s & Hs & He & Ht & Hb). exists s.
  split_and!; [done|done|done|]. unfold replyTask. rewrite Hh. destruct b; done.
Qed.

Lemma reply_only_if_committed_witness :
  let task := mk_Task 2 1 (Some 7) 200 "Success" 1 in
  let samples := [mk_CommitSample 1 2 1 1 None; mk_CommitSample 1 2 1 2 (Some (mk_LogEntry 1 2 false 0 "p" 0 None))] in
  ∃ s, s ∈ samples ∧ task_index task ≤ cs_commit s ∧
    replyTask task true None = Some (mk_Reply 7 200 "Success" None).
Proof.
  intros task samples. destruct (reply_only_if_committed task samples true None 7) as (s & Hs & _ & _ & [Hc _] & Hr);
    [reflexivity|reflexivity|]. exists s. split; [exact Hs|]. split; [exact Hc|exact Hr].
Defined.

(** Exactly one answer per command: in any interleaving of pushes, the
    reply threads and the pop thread, no task is taken twice or answered
    twice, every answer is [replyTask] of the task pushed under that number,
    and no task leaves the queue before it is answered. *)
Theorem tasks_answered_once steps l :
  reply_run RaftReplyLoop_new steps = Some l →
  NoDup (rl_claimed l) ∧ NoDup (rl_answered l).*1 ∧
  (∀ n r, (n, r) ∈ rl_answered l → ∃ t c h, pushes steps !! n = Some t ∧ r = replyTask t c h) ∧
  (∀ n t, pushes steps !! n = Some t →
     n ∈ (rl_answered l).*1 ∨ ∃ k u, n = (rl_popped l + k)%nat ∧ mTaskQueue l !! k = Some u ∧
       u = Task_set_flag t (task_flag u)).
Proof.
  intros Hr. destruct (reply_run_inv _ _ _ _ reply_inv_new Hr) as [I1 I2 I3 I4 I5 I6 I7 I8]. simpl in *.
  split_and!; try done. intros n t Hn. destruct (decide (n < rl_popped l)%nat) as [|Hge]; [left; by apply I3|right].
  pose proof (lookup_lt_Some _ _ _ Hn). destruct (lookup_lt_is_Some_2 (mTaskQueue l) (n - rl_popped l)) as [u Hu]; [lia|].
  exists (n - rl_popped l)%nat, u. split; [lia|]. split; [done|].
  destruct (I2 _ _ Hu) as (t0 & Ht0 & Hu' & _). replace (rl_popped l + (n - rl_popped l))%nat with n in Ht0 by lia.
  congruence.
Qed.

Lemma tasks_answered_once_witness :
  ∃ l, reply_run RaftReplyLoop_new
         [Push 2 1 (Some 7) 200 "Success"; Push 3 1 (Some 8) 200 "Success"; Claim; Claim; Finish 1 true None; Pop;
          Finish 0 false None; Pop; Pop] = Some l ∧
    NoDup (rl_answered l).*1 ∧ mTaskQueue l = [].
Proof.
  eexists. split; [vm_compute; reflexivity|]. split; [|reflexivity].
  eapply (tasks_answered_once
         [Push 2 1 (Some 7) 200 "Success"; Push 3 1 (Some 8) 200 "Success"; Claim; Claim; Finish 1 true None; Pop;
          Finish 0 false None; Pop; Pop]); vm_compute; reflexivity.
Defined.

(** A new leader starts from a complete state: when the wait ends with an
    index, Raft was seen in the expected term with all of its log committed and
    loaded, the last entry is the no-op of that term, and only no-ops lie
    between the last applied entry and it. *)
Theorem leader_ready_caught_up expectedTerm samples i :
  waitTillLeaderIsReadyOrStepDown expectedTerm samples = Ret (Some i) → i ≠ 0 →
  ∃ s, s ∈ samples ∧ ry_term s = expectedTerm ∧ ry_commit s = i ∧ ry_loaded s = i ∧ ry_last s = i ∧
    (∃ e, ry_entry s i = Some e ∧ le_noop e = true ∧ le_term e = expectedTerm) ∧
    ∀ j, ry_applied s < j ≤ i → ∃ e, ry_entry s j = Some e ∧ le_noop e = true.
Proof. intros [[-> _]|Hs]%ready_spec Hi; [done|exact Hs]. Qed.

Lemma leader_ready_caught_up_witness :
  let samples := [mk_ReadySample 1 1 0 0 0 (λ _, None); mk_ReadySample 1 1 1 1 0 (λ _, Some SampleRaft.noop)] in
  waitTillLeaderIsReadyOrStepDown 1 samples = Ret (Some 1) ∧ ∃ s, s ∈ samples ∧ ry_commit s = 1.
Proof.
  intros samples. split; [reflexivity|].
  destruct (leader_ready_caught_up 1 samples 1) as (s & Hs & _ & Hc & _); [reflexivity|discriminate|].
  exists s. split; [exact Hs|exact Hc].
Defined.

(** Processing one command: a refused command changes neither the state nor
    the log, and its client is answered once the previous command is committed;
    an accepted one takes the next id, which is the index of its one log entry
    and the command id of its event, and its client waits for that index. *)
Theorem command_takes_next_id crypto env g l c l' :
  Command_wf c → CPL_processCommand crypto env g l c = Ret l' →
  ∃ h, (mAppStateMachine l' = mAppStateMachine l ∧ queued l' = queued l ∧ mLastCommandId l' = mLastCommandId l ∧
        mRaftReplyLoop (mCommandEventStore l') =
          pushTask (mRaftReplyLoop (mCommandEventStore l)) (mLastCommandId l) (mLastCheckedTerm (mCommandEventStore l))
            (mRequestHandle (Command_mMetaData c)) (hint_mCode h) (hint_mMessage h)) ∨
       (∃ p e, queued l' = queued l ++ [p] ∧ mLastCommandId l' = u64 (mLastCommandId l + 1) ∧
        le_index (cr_mEntry (pe_request p)) = mLastCommandId l' ∧
        le_term (cr_mEntry (pe_request p)) = store_term l ∧ Command_getId (pe_command p) = mLastCommandId l' ∧
        pe_events p = [e] ∧ mId (Event_mMetaData e) = 0 ∧ mCommandId (Event_mMetaData e) = mLastCommandId l' ∧
        mRaftReplyLoop (mCommandEventStore l') =
          pushTask (mRaftReplyLoop (mCommandEventStore l)) (mLastCommandId l') (mLastCheckedTerm (mCommandEventStore l))
            (mRequestHandle (Command_mMetaData c)) (hint_mCode h) (hint_mMessage h)).
Proof.
  intros Hwf Hp. destruct (CPL_processCommand_spec _ _ _ _ _ _ Hwf Hp)
    as (_ & _ & h & evs & calls & _ & [(_ & Hid & Hs & Hq & Hr)|(e & _ & _ & Hid & Hq & Hr)]); exists h.
  - left. unfold queued. by rewrite Hq.
  - right. unfold queued. rewrite Hq. do 2 eexists. by split_and!.
Qed.

Lemma command_takes_next_id_witness :
  ∃ l', CPL_processCommand SamplePipe.crypto Sample.env 0 SamplePipe.loop (Sample.configure pAsset 1000 1999) = Ret l' ∧
    mLastCommandId l' = 2 ∧ length (queued l') = 1%nat.
Proof.
  eexists. split; [vm_compute; reflexivity|].
  edestruct (command_takes_next_id SamplePipe.crypto Sample.env 0 SamplePipe.loop (Sample.configure pAsset 1000 1999))
    as (h & [(_ & Hq & _)|(p & e & Hq & Hid & _)]); [Sample.wf_command|vm_compute; reflexivity| |].
  - vm_compute in Hq. discriminate Hq.
  - split; [exact Hid|]. rewrite Hq. reflexivity.
Defined.
