(* ===== verification/AsyncLoad.v ===== *)
(** * Loading committed entries asynchronously

    The asynchronous mode of
    src/src/infra/es/store/ReadonlyRaftCommandEventStore.{h,cpp}, the mode the
    event apply loop runs in: one thread loads tasks of entries, several threads
    decrypt them, the thread of the loop takes them in order.  The steps below are
    what a thread does between two points where another one can be seen; they can
    be interleaved in any order.  In every interleaving the loop is handed the
    bundles of the committed entries, in order (the theorems are in
    AsyncTheorems.v). *)
From S2P Require Import Prelude Protobuf Crypto Domain Es Control Ledger LedgerSM.
From S2P Require Import RaftLog RaftCore Pipeline CommandLoop CommandProps.
Open Scope Z_scope.

(** ** State *)

(** [Task]; the flag is 0 initially, 1 while a thread decrypts it, 2 when done. *)
Record LoadTask := mk_LoadTask {
  lt_entries : list LogEntry; lt_bundles : list Bundle; lt_flag : Z }.

Definition LoadTask_set_flag (t : LoadTask) (flag : Z) : LoadTask :=
  mk_LoadTask (lt_entries t) (lt_bundles t) flag.

(** Where the load thread is: before the test of [mRunning], after it, or with
    a task that is not queued yet. *)
Inductive LoadAt := LoadTest | LoadTurn | LoadHolds (t : LoadTask).

Definition held (at_ : LoadAt) : list LogEntry :=
  match at_ with LoadHolds t => lt_entries t | _ => [] end.

(** The store and its threads.  [ac_threads]: they have been started and not been
    joined.  [ac_entered] decrypt threads are past the test of [mRunning] and
    have not looked at the queue yet; [ac_doing] are the tasks the others hold.  A
    task is known by the number of tasks queued before it; [ac_popped] have left
    the queue. *)
Record AsyncCES := mk_AsyncCES {
  ac_base : ReadonlyRaftCES;
  ac_queue : list LoadTask;
  ac_running : bool;
  ac_threads : bool;
  ac_load_at : LoadAt;
  ac_entered : nat;
  ac_popped : nat;
  ac_doing : list nat }.

Definition AsyncCES_new : AsyncCES :=
  mk_AsyncCES ReadonlyRaftCES_new [] true false LoadTest 0 0 [].

Definition kMaxQueueSize : Z := 30.
Definition kDecryptConcurrency : nat := 6.

Definition set_loaded (s : ReadonlyRaftCES) (i : Z) : ReadonlyRaftCES :=
  mk_ReadonlyRaftCES i (mAppliedIndex s) (mApplyingIndex s) (mCachedBundles s).
Definition set_cached (s : ReadonlyRaftCES) (bs : list Bundle) : ReadonlyRaftCES :=
  mk_ReadonlyRaftCES (mLoadedIndex s) (mAppliedIndex s) (mApplyingIndex s) bs.

Definition AC_set_base (s : AsyncCES) (b : ReadonlyRaftCES) : AsyncCES :=
  mk_AsyncCES b (ac_queue s) (ac_running s) (ac_threads s) (ac_load_at s) (ac_entered s) (ac_popped s) (ac_doing s).
Definition AC_set_load_at (s : AsyncCES) (at_ : LoadAt) : AsyncCES :=
  mk_AsyncCES (ac_base s) (ac_queue s) (ac_running s) (ac_threads s) at_ (ac_entered s) (ac_popped s) (ac_doing s).
Definition AC_set_entered (s : AsyncCES) (n : nat) : AsyncCES :=
  mk_AsyncCES (ac_base s) (ac_queue s) (ac_running s) (ac_threads s) (ac_load_at s) n (ac_popped s) (ac_doing s).

(** ** The threads *)
Section threads.
Context `{LedgerProtos} `{Proto RaftPayload} `{OpenSSL} `{Log L}.
Context (junk : MetaData) (ejunk : EventMetaData) (crypto : CryptoUtil).
Implicit Types s : AsyncCES.

(** *** The load thread: [while (mRunning)], ... *)
Definition AC_load_enter s : AsyncCES :=
  match ac_load_at s with
  | LoadTest => if ac_threads s && ac_running s then AC_set_load_at s LoadTurn else s
  | _ => s
  end.

(** ... the turn up to the update of [mLoadedIndex] ... *)
Definition AC_load (raft : RaftCore L) s : result AsyncCES :=
  match ac_load_at s with
  | LoadTurn =>
      if kMaxQueueSize <=? Z.of_nat (length (ac_queue s)) then Ret (AC_set_load_at s LoadTest)
      else
        let commitIndex := mCommitIndex raft in
        let loaded := mLoadedIndex (ac_base s) in
        if commitIndex <=? loaded then Ret (AC_set_load_at s LoadTest)
        else
          entries ← RaftCore_getEntries raft (loaded + 1) (commitIndex - loaded);
          Ret (AC_set_load_at
                 (AC_set_base s (set_loaded (ac_base s) (loaded + Z.of_nat (length entries))))
                 (LoadHolds (mk_LoadTask entries [] 0)))
  | _ => Ret s
  end.

(** ... and the [push_back] under the write lock. *)
Definition AC_push s : AsyncCES :=
  match ac_load_at s with
  | LoadHolds t =>
      mk_AsyncCES (ac_base s) (ac_queue s ++ [t]) (ac_running s) (ac_threads s) LoadTest (ac_entered s)
        (ac_popped s) (ac_doing s)
  | _ => s
  end.

(** *** A decrypt thread: [while (mRunning)], ... *)
Definition AC_decrypt_enter s : AsyncCES :=
  if ac_threads s && ac_running s && (ac_entered s + length (ac_doing s) <? kDecryptConcurrency)%nat
  then AC_set_entered s (S (ac_entered s)) else s.

(** ... the claim of the first task that is nobody's, by
    [compare_exchange_strong] ... *)
Fixpoint first_unclaimed (q : list LoadTask) : option nat :=
  match q with
  | [] => None
  | t :: q => if lt_flag t =? 0 then Some O else S <$> first_unclaimed q
  end.

Definition AC_claim s : AsyncCES :=
  match ac_entered s with
  | O => s
  | S n =>
      match first_unclaimed (ac_queue s) with
      | None => AC_set_entered s n
      | Some k =>
          mk_AsyncCES (ac_base s) (alter (λ t, LoadTask_set_flag t 1) k (ac_queue s)) (ac_running s) (ac_threads s)
            (ac_load_at s) n (ac_popped s) (ac_doing s ++ [(ac_popped s + k)%nat])
      end
  end.

(** ... and, for the thread that holds task [n], the decryption and [flag = 2]. *)
Definition AC_finish (n : nat) s : result AsyncCES :=
  if negb (bool_decide (n ∈ ac_doing s)) then Ret s
  else
    match ac_queue s !! (n - ac_popped s)%nat with
    | None => Fail UndefinedBehaviour
    | Some t =>
        bundles ← decryptEntries junk ejunk crypto (lt_entries t);
        Ret (mk_AsyncCES (ac_base s)
               (<[(n - ac_popped s)%nat := mk_LoadTask (lt_entries t) (lt_bundles t ++ bundles) 2]> (ac_queue s))
               (ac_running s) (ac_threads s) (ac_load_at s) (ac_entered s) (ac_popped s)
               (filter (λ m, m ≠ n) (ac_doing s)))
    end.

(** *** The thread of the loop *)
Definition AC_tryAsyncLoadBundles s : result AsyncCES :=
  cassert (Nat.eqb (length (mCachedBundles (ac_base s))) 0);;
  match ac_queue s with
  | [] => Ret s
  | t :: queue =>
      if negb (lt_flag t =? 2) then Ret s
      else Ret (mk_AsyncCES (set_cached (ac_base s) (lt_bundles t)) queue (ac_running s) (ac_threads s)
                  (ac_load_at s) (ac_entered s) (S (ac_popped s)) (ac_doing s))
  end.

Definition AC_loadNextCommandEvents s : result (AsyncCES * option Bundle) :=
  let b := ac_base s in
  let s := AC_set_base s (mk_ReadonlyRaftCES (mLoadedIndex b) (Z.max (mAppliedIndex b) (mApplyingIndex b))
             (mApplyingIndex b) (mCachedBundles b)) in
  s ← (if Nat.eqb (length (mCachedBundles (ac_base s))) 0 then AC_tryAsyncLoadBundles s else Ret s);
  let b := ac_base s in
  match mCachedBundles b with
  | [] => Ret (s, None)
  | (None, _) :: _ => Fail UndefinedBehaviour
  | (Some c, es) :: rest =>
      Ret (AC_set_base s (mk_ReadonlyRaftCES (mLoadedIndex b) (mAppliedIndex b) (Command_getId c) rest),
           Some (Some c, es))
  end.

(** [loadNextEvent], for a publisher: the events one by one. *)
Definition AC_loadNextEvent s : result (AsyncCES * option (option Event)) :=
  s ← (if Nat.eqb (length (mCachedBundles (ac_base s))) 0 then AC_tryAsyncLoadBundles s else Ret s);
  match mCachedBundles (ac_base s) with
  | [] => Ret (s, None)
  | (c, events) :: rest =>
      match events with
      | [] => Fail AssertFailure
      | event :: events =>
          let rest := match events with [] => rest | _ => (c, events) :: rest end in
          Ret (AC_set_base s (set_cached (ac_base s) rest), Some event)
      end
  end.

(** *** Starting and stopping *)
Definition AC_init s : AsyncCES :=
  mk_AsyncCES (ac_base s) (ac_queue s) true true (ac_load_at s) (ac_entered s) (ac_popped s) (ac_doing s).

(** [teardown] clears [mRunning], waits for the threads, whose last turns are
    steps of their own, and clears the state. *)
Definition AC_stop s : AsyncCES :=
  mk_AsyncCES (ac_base s) (ac_queue s) false (ac_threads s) (ac_load_at s) (ac_entered s) (ac_popped s) (ac_doing s).
Definition AC_joinable s : bool :=
  negb (ac_running s) && match ac_load_at s with LoadTest => true | _ => false end &&
  Nat.eqb (ac_entered s) 0 && bool_decide (ac_doing s = []).
Definition AC_clear s : AsyncCES := mk_AsyncCES (CES_teardown (ac_base s)) [] false false LoadTest 0 0 [].

Definition AC_setCurrentOffset s (currentOffset : Z) : result AsyncCES :=
  b ← CES_setCurrentOffset (ac_base s) currentOffset; Ret (AC_set_base s b).

(** *** Interleavings

    The steps of the store's own threads ... *)
Inductive ThreadStep :=
  | ThLoadEnter | ThLoad (raft : RaftCore L) | ThPush | ThDecryptEnter | ThClaim | ThFinish (n : nat).

Definition thread_exec s (step : ThreadStep) : result AsyncCES :=
  match step with
  | ThLoadEnter => Ret (AC_load_enter s)
  | ThLoad raft => AC_load raft s
  | ThPush => Ret (AC_push s)
  | ThDecryptEnter => Ret (AC_decrypt_enter s)
  | ThClaim => Ret (AC_claim s)
  | ThFinish n => AC_finish n s
  end.

(** ... and, between them, the calls of the loop, with what they have returned. *)
Inductive CesStep := CesThread (step : ThreadStep) | CesNext.

Definition ces_exec (x : AsyncCES * list Bundle) (step : CesStep) : result (AsyncCES * list Bundle) :=
  let '(s, out) := x in
  match step with
  | CesThread t => s ← thread_exec s t; Ret (s, out)
  | CesNext => '(s, b) ← AC_loadNextCommandEvents s; Ret (s, out ++ option_list b)
  end.
End threads.
Arguments ThreadStep : clear implicits.
Arguments CesStep : clear implicits.

(** ** What the threads have between them *)
Section invariant.
Context `{LedgerProtos} `{Proto RaftPayload} `{OpenSSL} `{LogSpec L}.
Context (junk : MetaData) (ejunk : EventMetaData) (crypto : CryptoUtil).
Context (E : list LogEntry).
Implicit Types (s : AsyncCES) (raft : RaftCore L).

(** [E] is the sequence of committed entries, from index 1: a node sees a prefix
    of it. *)
Definition sees raft : Prop :=
  log_inv (core_mLog raft) ∧ mCommitIndex raft ≤ lv_last (log_view (core_mLog raft)) ∧
  mCommitIndex raft ≤ Z.of_nat (length E) ∧
  ∀ i, lv_first (log_view (core_mLog raft)) ≤ i ≤ mCommitIndex raft →
    lv_lookup (log_view (core_mLog raft)) i = E !! Z.to_nat (i - 1).

Definition slice (o n : nat) : list LogEntry := take (n - o) (drop o E).

Abbreviation decode := (decryptEntries junk ejunk crypto).

(** A node that can serve a store that has been started at offset [o], and one
    that can serve it now. *)
Definition serves (o : nat) raft : Prop := sees raft ∧ lv_first (log_view (core_mLog raft)) ≤ Z.of_nat o + 1.

Definition thread_ok (o : nat) (step : ThreadStep L) : Prop :=
  match step with ThLoad raft => serves o raft | _ => True end.
Definition ces_ok (o : nat) (step : CesStep L) : Prop :=
  match step with CesThread t => thread_ok o t | CesNext => True end.

Definition thread_ready s (step : ThreadStep L) : Prop :=
  match step with
  | ThLoad raft => sees raft ∧ lv_first (log_view (core_mLog raft)) ≤ mLoadedIndex (ac_base s) + 1
  | _ => True
  end.

(** One task: initial, held by a thread, or done. *)
Definition task_ok (n : nat) (doing : list nat) (t : LoadTask) : Prop :=
  lt_flag t = 0 ∧ lt_bundles t = [] ∧ n ∉ doing ∨
  lt_flag t = 1 ∧ lt_bundles t = [] ∧ n ∈ doing ∨
  lt_flag t = 2 ∧ decode (lt_entries t) = Ret (lt_bundles t) ∧ n ∉ doing.

(** The entries behind offset [o]: those of bundles handed out or cached, those
    of the queue and those the load thread holds. *)
Record ces_inv (o : nat) (out : list Bundle) s : Prop := {
  ai_offset : Z.of_nat o ≤ mLoadedIndex (ac_base s) ≤ Z.of_nat (length E);
  ai_entries : ∃ es, decode es = Ret (out ++ mCachedBundles (ac_base s)) ∧
    es ++ mjoin (lt_entries <$> ac_queue s) ++ held (ac_load_at s) =
      slice o (Z.to_nat (mLoadedIndex (ac_base s)));
  ai_task k t : ac_queue s !! k = Some t → task_ok (ac_popped s + k) (ac_doing s) t;
  ai_held t : ac_load_at s = LoadHolds t → lt_flag t = 0 ∧ lt_bundles t = [];
  ai_doing n : n ∈ ac_doing s → (ac_popped s ≤ n < ac_popped s + length (ac_queue s))%nat;
  ai_nodup : NoDup (ac_doing s) }.

Lemma ces_inv_start o s s' :
  (o ≤ length E)%nat → ac_queue s = [] → ac_load_at s = LoadTest → ac_doing s = [] → mCachedBundles (ac_base s) = [] →
  AC_setCurrentOffset s (Z.of_nat o) = Ret s' → ces_inv o [] (AC_init s').
Proof.
  intros Ho Hq Hl Hd Hc Hs. unfold AC_setCurrentOffset, CES_setCurrentOffset in Hs. inv_ret.
  split; simpl; rewrite ?Hq, ?Hl, ?Hd, ?Hc; simpl; try done; [lia| |by intros ? ?%not_elem_of_nil|constructor].
  exists []. split; [done|]. unfold slice. rewrite Nat2Z.id, Nat.sub_diag. done.
Qed.

Lemma load_slice raft start es :
  sees raft → 1 ≤ start → lv_first (log_view (core_mLog raft)) ≤ start ≤ mCommitIndex raft →
  RaftCore_getEntries raft start (mCommitIndex raft - start + 1) = Ret es →
  es = take (length es) (drop (Z.to_nat (start - 1)) E) ∧ start - 1 + Z.of_nat (length es) ≤ mCommitIndex raft.
Proof.
  intros (Hi & Hl & Hlen & Hag) Hst [Hf Hc] Hg. unfold RaftCore_getEntries in Hg. apply cassert_bind in Hg as [_ Hg].
  destruct (spec_getEntries (core_mLog raft) start (mMaxLenInBytes (mConf raft)) (mCommitIndex raft - start + 1) Hi Hf)
    as (es' & k & Hg' & He & Hk); [lia|]. rewrite Hg in Hg'. injection Hg' as <-.
  unfold lv_last in Hl. set (v := log_view (core_mLog raft)) in *.
  assert (Hlk : (length es ≤ k)%nat) by (rewrite He, length_take; lia). split; [|lia].
  apply list_eq_same_length with (n := length es); [rewrite length_take, length_drop; lia|done|].
  intros j x y Hj Hx Hy. rewrite He, lookup_take_lt, lookup_drop in Hx by lia. rewrite lookup_take_lt, lookup_drop in Hy by lia.
  specialize (Hag (start + Z.of_nat j) ltac:(lia)). unfold lv_lookup in Hag. rewrite (proj2 (Z.ltb_ge _ _)) in Hag by lia.
  replace (Z.to_nat (start + Z.of_nat j - lv_first v)) with (Z.to_nat (start - lv_first v) + j)%nat in Hag by lia.
  replace (Z.to_nat (start + Z.of_nat j - 1)) with (Z.to_nat (start - 1) + j)%nat in Hag by lia. congruence.
Qed.

Lemma slice_app o n m : (o ≤ n)%nat → slice o (n + m) = slice o n ++ take m (drop n E).
Proof.
  intros Ho. unfold slice. replace (n + m - o)%nat with ((n - o) + m)%nat by lia.
  rewrite <- take_take_drop. do 2 f_equal. rewrite drop_drop. f_equal. lia.
Qed.

Lemma ces_inv_at o out s at_ : held at_ = held (ac_load_at s) → (∀ t, at_ ≠ LoadHolds t) → ces_inv o out s → ces_inv o out (AC_set_load_at s at_).
Proof.
  intros Hh Hn [I1 I2 I3 I4 I5 I6]. split; simpl; try done; [by rewrite Hh|]. intros t Ht. by destruct (Hn t).
Qed.

Lemma ces_inv_entered o out s n : ces_inv o out s → ces_inv o out (AC_set_entered s n).
Proof. by intros [I1 I2 I3 I4 I5 I6]. Qed.

Lemma AC_load_inv o out raft s s' :
  ces_inv o out s → thread_ready s (ThLoad raft) → AC_load raft s = Ret s' → ces_inv o out s'.
Proof.
  intros Hinv [Hsee Hf] Hl. unfold AC_load in Hl. destruct (ac_load_at s) as [| |t] eqn:Ea; try (injection Hl as <-; done).
  assert (Hback : ces_inv o out (AC_set_load_at s LoadTest)) by (apply ces_inv_at; [by rewrite Ea|done|done]).
  split_if Hl; [by injection Hl as <-|]. split_if Hl; [by injection Hl as <-|]. apply Z.leb_gt in E1.
  apply bind_Ret in Hl as (es & Hg & [= <-]). destruct Hinv as [I1 (hs & Hh & He) I3 I4 I5 I6]. rewrite Ea in He. simpl in He. rewrite app_nil_r in He.
  replace (mCommitIndex raft - mLoadedIndex (ac_base s)) with (mCommitIndex raft - (mLoadedIndex (ac_base s) + 1) + 1) in Hg by lia.
  apply load_slice in Hg as [Hes Hlen]; [|done|lia|lia].
  replace (Z.to_nat (mLoadedIndex (ac_base s) + 1 - 1)) with (Z.to_nat (mLoadedIndex (ac_base s))) in Hes by lia.
  destruct Hsee as (_ & _ & Hcl & _). split; simpl; try done; [lia| |by intros t [= <-]].
  exists hs. split; [done|]. rewrite Z2Nat.inj_add, Nat2Z.id, slice_app, <- Hes, <- He by lia. by rewrite <- !app_assoc.
Qed.

Lemma AC_push_inv o out s : ces_inv o out s → ces_inv o out (AC_push s).
Proof.
  intros Hinv. unfold AC_push. destruct (ac_load_at s) as [| |t] eqn:Et; [done|done|]. destruct Hinv as [I1 (hs & Hh & He) I3 I4 I5 I6].
  rewrite Et in He. simpl in He. split; simpl; try done.
  - exists hs. split; [done|]. rewrite fmap_app, join_app, <- He. simpl. by rewrite !app_nil_r.
  - intros k u [Hk|[Hk Hu]]%lookup_app_Some; [by apply I3|]. apply list_lookup_singleton_Some in Hu as [Hk0 <-].
    left. destruct (I4 t Et) as [-> ->]. split_and!; [done..|]. intros Hd%I5. lia.
  - intros n Hn%I5. rewrite length_app. lia.
Qed.

Lemma first_unclaimed_Some q k : first_unclaimed q = Some k → ∃ t, q !! k = Some t ∧ lt_flag t = 0.
Proof.
  revert k; induction q as [|t q IH]; intros k Hk; [done|]. simpl in Hk. destruct (Z.eqb_spec (lt_flag t) 0).
  - injection Hk as <-. by exists t.
  - destruct (first_unclaimed q) as [j|]; [|done]. injection Hk as <-. by apply IH.
Qed.

Lemma claimed_entries (k : nat) (q : list LoadTask) : lt_entries <$> alter (λ t, LoadTask_set_flag t 1) k q = lt_entries <$> q.
Proof. revert k; induction q as [|u q IH]; intros [|k]; simpl; [done..|]. f_equal. apply IH. Qed.

(** A task is what it was when the threads that hold other tasks change. *)
Lemma task_ok_other n doing doing' t : (n ∈ doing ↔ n ∈ doing') → task_ok n doing t → task_ok n doing' t.
Proof. unfold task_ok. naive_solver. Qed.

Lemma AC_claim_inv o out s : ces_inv o out s → ces_inv o out (AC_claim s).
Proof.
  intros Hinv. unfold AC_claim. destruct (ac_entered s) as [|m]; [done|].
  destruct (first_unclaimed (ac_queue s)) as [k|] eqn:Ek; [|by apply ces_inv_entered].
  destruct (first_unclaimed_Some _ _ Ek) as (t & Ht & Hf). destruct Hinv as [I1 (hs & Hh & He) I3 I4 I5 I6].
  destruct (I3 k t Ht) as [(_ & Hb & Hnd)|[(? & _)|(? & _)]]; [|lia|lia]. split; simpl; try done.
  - exists hs. by rewrite claimed_entries.
  - intros j u Hu. destruct (decide (j = k)) as [->|Hne].
    + rewrite list_lookup_alter_eq, Ht in Hu. injection Hu as <-. right; left. simpl. split_and!; [done|done|set_solver].
    + rewrite list_lookup_alter_ne in Hu by done. eapply task_ok_other; [|by apply I3].
      rewrite elem_of_app, list_elem_of_singleton. split; [by left|]. intros [?|?]; [done|lia].
  - intros n [Hn|Hn%list_elem_of_singleton]%elem_of_app; rewrite length_alter; [by apply I5|]. apply lookup_lt_Some in Ht. lia.
  - apply NoDup_app. split_and!; [done| |apply NoDup_singleton]. intros x Hx Hx'%list_elem_of_singleton. by subst.
Qed.

Lemma AC_finish_inv o out n s s' : ces_inv o out s → AC_finish junk ejunk crypto n s = Ret s' → ces_inv o out s'.
Proof.
  intros Hinv Hf. unfold AC_finish in Hf. split_if Hf; [by injection Hf as <-|]. apply negb_false_iff, bool_decide_eq_true in E0.
  destruct Hinv as [I1 (hs & Hh & He) I3 I4 I5 I6]. pose proof (I5 n E0) as Hn.
  destruct (ac_queue s !! (n - ac_popped s)%nat) as [t|] eqn:Et; [|done]. apply bind_Ret in Hf as (bs & Hd & [= <-]).
  replace n with (ac_popped s + (n - ac_popped s))%nat in E0 by lia.
  destruct (I3 _ t Et) as [(_ & _ & Hx)|[(_ & Hb & _)|(_ & _ & Hx)]]; [done| |done]. rewrite Hb. split; simpl; try done.
  - exists hs. split; [done|]. rewrite <- He. do 3 f_equal. rewrite list_fmap_insert. simpl. apply list_insert_id. by rewrite list_lookup_fmap, Et.
  - intros j u Hu. destruct (decide (j = n - ac_popped s)%nat) as [->|Hne].
    + rewrite list_lookup_insert_eq in Hu by (apply lookup_lt_Some in Et; done). injection Hu as <-. right; right. simpl.
      split_and!; [done|done|]. rewrite list_elem_of_filter. intros [Hx _]. apply Hx. lia.
    + rewrite list_lookup_insert_ne in Hu by done. eapply task_ok_other; [|by apply I3].
      rewrite list_elem_of_filter. split; [|tauto]. split; [lia|done].
  - intros m [_ Hm]%list_elem_of_filter. rewrite length_insert. by apply I5.
  - by apply NoDup_filter.
Qed.

Lemma thread_exec_inv o out s step s' :
  ces_inv o out s → thread_ready s step → thread_exec junk ejunk crypto s step = Ret s' → ces_inv o out s'.
Proof.
  intros Hi Hok Hx. destruct step; simpl in Hx.
  - injection Hx as <-. unfold AC_load_enter. destruct (ac_load_at s) eqn:Ea; [|done|done]. destruct (_ && _); [|done].
    apply ces_inv_at; [by rewrite Ea|done|done].
  - by eapply AC_load_inv.
  - injection Hx as <-. by apply AC_push_inv.
  - injection Hx as <-. unfold AC_decrypt_enter. destruct (_ && _); [by apply ces_inv_entered|done].
  - injection Hx as <-. by apply AC_claim_inv.
  - by eapply AC_finish_inv.
Qed.

Lemma decode_app es1 es2 : decode (es1 ++ es2) = (b1 ← decode es1; b2 ← decode es2; Ret (b1 ++ b2)).
Proof. apply decryptEntries_app. Qed.

Lemma AC_try_inv o out s s' : ces_inv o out s → AC_tryAsyncLoadBundles s = Ret s' → ces_inv o out s'.
Proof.
  intros Hinv Hx. unfold AC_tryAsyncLoadBundles in Hx. apply cassert_bind in Hx as [Hc%Nat.eqb_eq%length_zero_iff_nil Hx].
  destruct (ac_queue s) as [|t q] eqn:Eq; [by injection Hx as <-|]. split_if Hx; [by injection Hx as <-|]. injection Hx as <-.
  apply negb_false_iff, Z.eqb_eq in E0. destruct Hinv as [I1 (hs & Hh & He) I3 I4 I5 I6]. rewrite Eq in *. rewrite Hc, app_nil_r in Hh.
  destruct (I3 O t eq_refl) as [(? & _)|[(? & _)|(_ & Hd & Hnd)]]; [lia|lia|]. split; simpl; try done.
  - exists (hs ++ lt_entries t). split; [by rewrite decode_app, Hh; simpl; rewrite Hd|]. rewrite <- He. simpl. by rewrite <- !app_assoc.
  - intros k u Hk. replace (S (ac_popped s + k)) with (ac_popped s + S k)%nat by lia. by apply I3.
  - intros n Hn. specialize (I5 n Hn). simpl in I5. assert (n ≠ ac_popped s) by (intros ->; apply Hnd; by rewrite Nat.add_0_r). lia.
Qed.

Lemma AC_next_inv o out s s' b : ces_inv o out s → AC_loadNextCommandEvents s = Ret (s', b) → ces_inv o (out ++ option_list b) s'.
Proof.
  intros Hinv Hx. unfold AC_loadNextCommandEvents in Hx. apply bind_Ret in Hx as (s1 & Hs1 & Hx).
  assert (Hi1 : ces_inv o out s1).
  { split_if Hs1; [eapply AC_try_inv; [|exact Hs1]|injection Hs1 as <-]; by destruct Hinv. }
  destruct (mCachedBundles (ac_base s1)) as [|[[c|] es] rest] eqn:Ec; [|injection Hx as <- <-|done].
  - injection Hx as <- <-. simpl. by rewrite app_nil_r.
  - destruct Hi1 as [I1 (hs & Hh & He) I3 I4 I5 I6]. split; simpl; try done. exists hs. split; [|done].
    rewrite <- app_assoc. simpl. by rewrite <- Ec.
Qed.

Lemma thread_ok_ready o out s step : ces_inv o out s → thread_ok o step → thread_ready s step.
Proof. intros Hi. destruct step; simpl; try done. intros [Hs Hf]. split; [done|]. destruct (ai_offset _ _ _ Hi). lia. Qed.

Lemma ces_exec_inv o x step y : ces_inv o x.2 x.1 → ces_ok o step → ces_exec junk ejunk crypto x step = Ret y → ces_inv o y.2 y.1.
Proof.
  intros Hi Hok Hx. destruct x as [s out], step as [t|]; simpl in *.
  - apply bind_Ret in Hx as (s' & Hs & [= <-]). eapply thread_exec_inv; [done|by eapply thread_ok_ready|done].
  - apply bind_Ret in Hx as ([s' b] & Hs & [= <-]). by eapply AC_next_inv.
Qed.

Lemma ces_run_inv o x steps y :
  ces_inv o x.2 x.1 → Forall (ces_ok o) steps → foldM (ces_exec junk ejunk crypto) x steps = Ret y → ces_inv o y.2 y.1.
Proof.
  intros Hi Hok. rewrite Forall_forall in Hok. apply (foldM_ind (λ x, ces_inv o x.2 x.1)); [|done].
  intros a st b Ha Hin. by apply ces_exec_inv, Hok.
Qed.

(** What has been handed out is a prefix of the bundles of the entries. *)
Lemma ces_inv_handed o out s : ces_inv o out s →
  ∃ n, Z.of_nat (o + n) ≤ mLoadedIndex (ac_base s) ∧ decode (take n (drop o E)) = Ret (out ++ mCachedBundles (ac_base s)).
Proof.
  intros [I1 (hs & Hh & He) _ _ _ _]. exists (length hs).
  assert (Hp : hs = take (length hs) (slice o (Z.to_nat (mLoadedIndex (ac_base s))))) by (rewrite <- He; by rewrite take_app_length).
  assert (Hlen : (length hs ≤ length (slice o (Z.to_nat (mLoadedIndex (ac_base s)))))%nat) by (rewrite <- He, length_app; lia).
  unfold slice in Hlen, Hp. rewrite length_take, length_drop in Hlen. rewrite take_take in Hp. split; [lia|].
  rewrite Nat.min_l in Hp by lia. by rewrite <- Hp.
Qed.
End invariant.
