(* ===== verification/AsyncProgress.v ===== *)
(** * Asynchronous loading makes progress

    From every state of a running store some turns of its threads and of the loop
    hand out what has been loaded: a weight of the work left gets smaller. *)
From S2P Require Import Prelude Protobuf Crypto Domain Es Control Ledger LedgerSM.
From S2P Require Import RaftLog RaftCore Pipeline CommandProps AsyncLoad.
Open Scope Z_scope.

(** ** Progress *)
Section progress.
Context `{LedgerProtos} `{Proto RaftPayload} `{OpenSSL} `{LogSpec L}.
Context (junk : MetaData) (ejunk : EventMetaData) (crypto : CryptoUtil).
Context (E : list LogEntry) (o : nat).
Implicit Types (s : AsyncCES) (x : AsyncCES * list Bundle).

Abbreviation decode := (decryptEntries junk ejunk crypto).
Abbreviation exec := (ces_exec (L := L) junk ejunk crypto).
Abbreviation inv := (ces_inv junk ejunk crypto E o).

(** What the threads and the loop still have to do. *)
Definition task_weight (t : LoadTask) : nat :=
  if lt_flag t =? 2 then S (length (lt_bundles t))
  else if lt_flag t =? 1 then length (lt_entries t) + 2
  else length (lt_entries t) + 3.
Definition weight s : nat :=
  length (mCachedBundles (ac_base s)) + sum_list (task_weight <$> ac_queue s) +
  match ac_load_at s with LoadHolds t => length (lt_entries t) + 4 | _ => 0 end.

Definition up s : Prop := ac_running s = true ∧ ac_threads s = true.

Lemma decode_length es bs : decode es = Ret bs → (length bs ≤ length es)%nat.
Proof.
  revert bs; induction es as [|e es IH]; intros bs Hd; [injection Hd as <-; simpl; lia|].
  change (e :: es) with ([e] ++ es) in Hd. rewrite decode_app in Hd. apply bind_Ret in Hd as (b1 & Hb1 & Hd). apply bind_Ret in Hd as (b2 & Hb2 & [= <-]).
  unfold decryptEntries in Hb1. simpl in Hb1. apply bind_Ret in Hb1 as (b1' & Hb1 & [= <-]). apply bind_Ret in Hb1 as (ob & _ & [= <-]).
  specialize (IH _ Hb2). rewrite length_app. simpl. destruct ob; simpl; lia.
Qed.

Lemma sum_list_insert (f : LoadTask → nat) q k t u :
  q !! k = Some t → (f u < f t)%nat → (sum_list (f <$> <[k:=u]> q) < sum_list (f <$> q))%nat.
Proof.
  revert k; induction q as [|a q IH]; intros [|k] Hk Hf; csimpl in *; [done|done| |].
  - injection Hk as ->. lia.
  - specialize (IH k Hk Hf). lia.
Qed.

Lemma sum_list_app (f : LoadTask → nat) q1 q2 : sum_list (f <$> q1 ++ q2) = (sum_list (f <$> q1) + sum_list (f <$> q2))%nat.
Proof. induction q1 as [|a q IH]; csimpl; [done|]. rewrite IH. lia. Qed.

(** Threads stay up, and only the load thread moves [mLoadedIndex]. *)
Definition moves (step : CesStep L) : bool := match step with CesThread (ThLoad _) => true | _ => false end.

Lemma exec_up x step y : exec x step = Ret y →
  ac_running y.1 = ac_running x.1 ∧ ac_threads y.1 = ac_threads x.1 ∧
  (moves step = false → mLoadedIndex (ac_base y.1) = mLoadedIndex (ac_base x.1)).
Proof.
  destruct x as [s out], step as [[|raft| | | |n]|]; cbn [ces_exec]; intros Hx; apply bind_Ret in Hx as (s' & Hs & Hx); try cbn [thread_exec] in Hs.
  - injection Hs as <-. injection Hx as <-. unfold AC_load_enter. simpl. destruct (ac_load_at s); [destruct (_ && _)|..]; done.
  - injection Hx as <-. unfold AC_load in Hs. simpl. destruct (ac_load_at s); try (by injection Hs as <-).
    split_if Hs; [by injection Hs as <-|]. split_if Hs; [by injection Hs as <-|]. by apply bind_Ret in Hs as (? & _ & [= <-]).
  - injection Hs as <-. injection Hx as <-. unfold AC_push. simpl. by destruct (ac_load_at s).
  - injection Hs as <-. injection Hx as <-. unfold AC_decrypt_enter. simpl. by destruct (_ && _).
  - injection Hs as <-. injection Hx as <-. unfold AC_claim. simpl. destruct (ac_entered s); [done|]. by destruct (first_unclaimed _).
  - injection Hx as <-. unfold AC_finish in Hs. split_if Hs; [by injection Hs as <-|]. destruct (_ !! _); [|done].
    by apply bind_Ret in Hs as (? & _ & [= <-]).
  - destruct s' as [s' b]. injection Hx as <-. unfold AC_loadNextCommandEvents in Hs. apply bind_Ret in Hs as (s1 & Hs1 & Hs).
    assert (Hs1' : ac_running s1 = ac_running s ∧ ac_threads s1 = ac_threads s ∧ mLoadedIndex (ac_base s1) = mLoadedIndex (ac_base s)).
    { split_if Hs1; [|by injection Hs1 as <-]. unfold AC_tryAsyncLoadBundles in Hs1. apply cassert_bind in Hs1 as [_ Hs1].
      simpl in Hs1. destruct (ac_queue s) as [|t q]; [by injection Hs1 as <-|]. split_if Hs1; by injection Hs1 as <-. }
    destruct (mCachedBundles (ac_base s1)) as [|[[c|] es] rest]; [| |done]; injection Hs as <- <-; simpl; tauto.
Qed.

(** The entries that are not handed out yet decode, and no command is missing. *)
Definition good x : Prop :=
  ∃ all, decode (slice E o (Z.to_nat (mLoadedIndex (ac_base x.1)))) = Ret all ∧ Forall (λ b, is_Some b.1) all.

Lemma good_tasks s out : inv out s → good (s, out) →
  Forall (λ b, is_Some b.1) (mCachedBundles (ac_base s)) ∧
  ∀ t, t ∈ ac_queue s → ∃ bs, decode (lt_entries t) = Ret bs ∧ Forall (λ b, is_Some b.1) bs.
Proof.
  intros [_ (hs & Hh & He) _ _ _ _] (all & Ha & Hall). simpl in *. rewrite <- He, !decode_app, Hh in Ha. simpl in Ha.
  apply bind_Ret in Ha as (b2 & Hb2 & [= <-]). apply bind_Ret in Hb2 as (b3 & Hb3 & Hb2). apply bind_Ret in Hb2 as (b4 & _ & [= <-]).
  rewrite !Forall_app in Hall. destruct Hall as ((_ & Hc) & Hq & _). split; [done|]. clear -Hb3 Hq.
  revert b3 Hb3 Hq; induction (ac_queue s) as [|u q IH]; intros b3 Hb3 Hq t Ht; [by apply not_elem_of_nil in Ht|].
  simpl in Hb3. rewrite decode_app in Hb3. apply bind_Ret in Hb3 as (b5 & Hb5 & Hb3). apply bind_Ret in Hb3 as (b6 & Hb6 & [= <-]).
  apply Forall_app in Hq as [Hq5 Hq6]. apply elem_of_cons in Ht as [->|Ht]; [by exists b5|by apply (IH b6)].
Qed.

Lemma next_cached s c es rest :
  mCachedBundles (ac_base s) = (Some c, es) :: rest →
  ∃ s', AC_loadNextCommandEvents s = Ret (s', Some (Some c, es)) ∧ weight s = S (weight s').
Proof.
  intros Hc. unfold AC_loadNextCommandEvents. simpl. rewrite Hc. simpl. eexists. split; [done|].
  unfold weight. simpl. by rewrite Hc.
Qed.

Lemma next_step s out c es rest :
  mCachedBundles (ac_base s) = (Some c, es) :: rest → ∃ y, exec (s, out) CesNext = Ret y ∧ (weight y.1 < weight s)%nat.
Proof.
  intros Hc. destruct (next_cached s c es rest Hc) as (s' & Hs & Hw). simpl. rewrite Hs. simpl. eexists. split; [done|]. simpl. lia.
Qed.

Lemma next_queue s out t q :
  mCachedBundles (ac_base s) = [] → ac_queue s = t :: q → lt_flag t = 2 → Forall (λ b, is_Some b.1) (lt_bundles t) →
  ∃ y, exec (s, out) CesNext = Ret y ∧ (weight y.1 < weight s)%nat.
Proof.
  intros Hc Hq Hf Hg. simpl. unfold AC_loadNextCommandEvents, AC_tryAsyncLoadBundles. simpl. rewrite Hc. simpl. rewrite Hq. simpl.
  rewrite Hf. simpl. assert (Hw : weight s = (S (length (lt_bundles t)) + sum_list (task_weight <$> q) +
    match ac_load_at s with LoadHolds t => length (lt_entries t) + 4 | _ => 0 end)%nat).
  { unfold weight. rewrite Hc, Hq. csimpl. unfold task_weight at 1. rewrite Hf. simpl. lia. }
  destruct (lt_bundles t) as [|[oc es] bs] eqn:Eb; simpl in *.
  - eexists. split; [done|]. rewrite Hw. unfold weight. simpl. lia.
  - apply Forall_cons in Hg as [[c Hoc] _]. simpl in Hoc. subst oc. simpl. eexists. split; [done|]. rewrite Hw. unfold weight. simpl. lia.
Qed.

Lemma finish_step s out n : inv out s → good (s, out) → n ∈ ac_doing s →
  ∃ y, exec (s, out) (CesThread (ThFinish n)) = Ret y ∧ (weight y.1 < weight s)%nat.
Proof.
  intros Hi Hg Hn. destruct (good_tasks s out Hi Hg) as [_ Ht]. destruct Hi as [_ _ I3 _ I5 _]. pose proof (I5 n Hn) as Hb.
  destruct (lookup_lt_is_Some_2 (ac_queue s) (n - ac_popped s)) as [t Et]; [lia|].
  destruct (Ht t (list_elem_of_lookup_2 _ _ _ Et)) as (bs & Hd & _).
  destruct (I3 _ t Et) as [(_ & _ & Hx)|[(Hf & Hbs & _)|(_ & _ & Hx)]];
    [replace (ac_popped s + (n - ac_popped s))%nat with n in Hx by lia; done| |replace (ac_popped s + (n - ac_popped s))%nat with n in Hx by lia; done].
  simpl. unfold AC_finish. rewrite bool_decide_eq_true_2 by done. simpl. rewrite Et, Hd, Hbs. simpl. eexists. split; [done|].
  unfold weight. simpl. apply decode_length in Hd. pose proof (sum_list_insert task_weight _ _ _ (mk_LoadTask (lt_entries t) bs 2) Et) as Hs.
  ospecialize (Hs _); [|lia]. unfold task_weight. rewrite Hf. simpl. lia.
Qed.

Lemma claim_step s out t q : up s → ac_doing s = [] → ac_queue s = t :: q → lt_flag t = 0 →
  ∃ steps y, foldM exec (s, out) steps = Ret y ∧ forallb (negb ∘ moves) steps = true ∧ (weight y.1 < weight s)%nat.
Proof.
  intros [Hr Ht] Hd Hq Hf. exists (if Nat.eqb (ac_entered s) 0 then [CesThread ThDecryptEnter; CesThread ThClaim] else [CesThread ThClaim]).
  assert (Hc : ∀ s n, ac_queue s = t :: q → ac_entered s = S n → (weight (AC_claim s) < weight s)%nat).
  { intros s1 n Hq1 Hn. unfold AC_claim. rewrite Hn, Hq1. simpl. rewrite Hf. simpl. unfold weight. simpl. rewrite Hq1. csimpl.
    unfold task_weight at 1 3. simpl. rewrite Hf. simpl. lia. }
  destruct (ac_entered s) as [|n] eqn:En; simpl.
  - unfold AC_decrypt_enter. rewrite Hr, Ht, En, Hd. simpl. eexists. split_and!; [done|done|]. simpl.
    specialize (Hc (AC_set_entered s 1) O Hq eq_refl). done.
  - eexists. split_and!; [done|done|]. simpl. by eapply Hc.
Qed.

Lemma push_step s out t : ac_load_at s = LoadHolds t → lt_flag t = 0 →
  ∃ y, exec (s, out) (CesThread ThPush) = Ret y ∧ (weight y.1 < weight s)%nat.
Proof.
  intros Ht Hf. simpl. unfold AC_push. rewrite Ht. eexists. split; [done|]. unfold weight. simpl. rewrite Ht, sum_list_app. csimpl.
  unfold task_weight at 2. rewrite Hf. simpl. lia.
Qed.

Definition drained s : Prop := mCachedBundles (ac_base s) = [] ∧ ac_queue s = [] ∧ held (ac_load_at s) = [].

Lemma progress_step s out : inv out s → good (s, out) → up s →
  drained s ∨ ∃ steps y, foldM exec (s, out) steps = Ret y ∧ forallb (negb ∘ moves) steps = true ∧ (weight y.1 < weight s)%nat.
Proof.
  intros Hi Hg Hu. destruct (good_tasks s out Hi Hg) as [Hc Hq].
  assert (Hone : ∀ step, moves step = false → (∃ y, exec (s, out) step = Ret y ∧ (weight y.1 < weight s)%nat) →
    ∃ steps y, foldM exec (s, out) steps = Ret y ∧ forallb (negb ∘ moves) steps = true ∧ (weight y.1 < weight s)%nat).
  { intros step Hm (y & Hy & Hw). exists [step], y. cbn [foldM]. rewrite Hy. simpl. rewrite Hm. done. }
  destruct (mCachedBundles (ac_base s)) as [|[oc es] rest] eqn:Ec.
  2:{ right. apply (Hone CesNext); [done|]. apply Forall_cons in Hc as [[c Hoc] _]. simpl in Hoc. subst oc. by eapply next_step. }
  destruct (ac_doing s) as [|n ns] eqn:Ed.
  2:{ right. apply (Hone (CesThread (ThFinish n))); [done|]. apply finish_step; [done|done|]. rewrite Ed. left. }
  destruct (ac_load_at s) as [| |t] eqn:Ea.
  3:{ right. apply (Hone (CesThread ThPush)); [done|]. apply (push_step _ _ t Ea). by apply (ai_held _ _ _ _ _ _ _ Hi). }
  all: destruct (ac_queue s) as [|t q] eqn:Eq; [left; split_and!; [done|done|by rewrite Ea]|right].
  all: destruct (ai_task _ _ _ _ _ _ _ Hi O t) as [(Hf & _)|[(_ & _ & Hin)|(Hf & Hd & _)]]; [by rewrite Eq|by eapply claim_step|rewrite Ed in Hin; by apply not_elem_of_nil in Hin|].
  all: destruct (Hq t) as (bs & Hd' & Hbs); [left|]; assert (bs = lt_bundles t) as -> by congruence.
  all: apply (Hone CesNext); [done|]; by eapply next_queue.
Qed.

Lemma own_steps_ok steps : forallb (negb ∘ moves) steps = true → Forall (ces_ok E o) steps.
Proof. intros Hm. apply Forall_forall. intros step Hin. rewrite forallb_forall in Hm. specialize (Hm step). rewrite list_elem_of_In in Hin. destruct step as [[]|]; try done. by specialize (Hm Hin). Qed.

Lemma run_up x steps y : foldM exec x steps = Ret y →
  ac_running y.1 = ac_running x.1 ∧ ac_threads y.1 = ac_threads x.1 ∧
  (forallb (negb ∘ moves) steps = true → mLoadedIndex (ac_base y.1) = mLoadedIndex (ac_base x.1)).
Proof.
  revert x; induction steps as [|step steps IH]; intros x Hx; simpl in Hx; [by injection Hx as <-|].
  apply bind_Ret in Hx as (z & Hz & Hx). apply exec_up in Hz as (Hz1 & Hz2 & Hz3).
  destruct (IH z Hx) as (Hi1 & Hi2 & Hi3). split_and!; [congruence|congruence|]. simpl.
  intros [Hm%negb_true_iff Hms]%andb_true_iff. rewrite Hi3, Hz3; done.
Qed.

Lemma drain s out : inv out s → good (s, out) → up s →
  ∃ steps y, foldM exec (s, out) steps = Ret y ∧ forallb (negb ∘ moves) steps = true ∧ drained y.1.
Proof.
  remember (weight s) as w eqn:Ew. revert s out Ew. induction (lt_wf w) as [w _ IH]. intros s out -> Hi Hg Hu.
  destruct (progress_step s out Hi Hg Hu) as [Hd|(steps & [s1 out1] & Hs & Hm & Hw)]; [by exists [], (s, out)|].
  destruct (run_up _ _ _ Hs) as (Hr & Ht & Hl). simpl in *.
  destruct (IH _ Hw s1 out1 eq_refl) as (more & y & Hy & Hm' & Hd).
  - exact (ces_run_inv junk ejunk crypto E o (s, out) steps (s1, out1) Hi (own_steps_ok _ Hm) Hs).
  - unfold good. simpl. by rewrite Hl.
  - unfold up. rewrite Hr, Ht. done.
  - exists (steps ++ more), y. rewrite foldM_app, Hs. simpl. rewrite forallb_app, Hm. done.
Qed.
End progress.
