(* ===== verification/AsyncTheorems.v ===== *)
(** * Main theorems of asynchronous loading

    In every interleaving the loop is handed the bundles of the committed entries
    in order, and the threads can always bring it what has been loaded. *)
From S2P Require Import Prelude Protobuf Crypto Domain Es Control Ledger LedgerSM LedgerTheorems.
From S2P Require Import RaftLog RaftCore RaftTheorems Pipeline CommandLoop CommandProps CommandTheorems AsyncLoad AsyncProgress.
Import Wire.
Import (hints) SampleRaft XorSSL SamplePipe.
Open Scope Z_scope.

(** ** A run

    The log a leader has written in the sample of the pipeline, committed: the
    threads load it as one task, and take turns. *)
Module SampleLoad.
Definition entries : list LogEntry := SampleRaft.noop :: map cr_mEntry SamplePipe.requests.
Definition raft : RaftCore InMemoryLog :=
  let c := SampleRaft.node 2 in
  mk_RaftCore (mConf c) (mPeers c) (mClients c) (mSelfInfo c) 1 0 3 1 Follower
    (mk_InMemoryLog entries 1 3 1 0) [].
Definition offset : AsyncCES :=
  match AC_setCurrentOffset AsyncCES_new (Z.of_nat 1) with Ret s => s | Fail _ => AsyncCES_new end.
Definition steps : list (CesStep InMemoryLog) :=
  [CesNext; CesThread ThLoadEnter; CesThread ThDecryptEnter; CesThread (ThLoad raft); CesThread ThDecryptEnter;
   CesThread ThClaim; CesThread ThPush; CesNext; CesThread ThLoadEnter; CesThread ThClaim; CesNext;
   CesThread (ThLoad raft); CesThread (ThFinish 0); CesNext].
Definition run : AsyncCES * list Bundle :=
  match foldM (ces_exec Sample.junk Sample.ejunk SamplePipe.crypto) (AC_init offset, []) steps with
  | Ret x => x | Fail _ => (AsyncCES_new, []) end.
Definition all : list Bundle :=
  match decryptEntries Sample.junk Sample.ejunk SamplePipe.crypto (drop 1 entries) with Ret bs => bs | Fail _ => [] end.

Lemma offset_eq : AC_setCurrentOffset AsyncCES_new (Z.of_nat 1) = Ret offset.
Proof. reflexivity. Qed.

Lemma indices : map le_index entries = [1; 2; 3].
Proof. vm_compute. reflexivity. Qed.

Lemma raft_serves : serves entries 1 raft.
Proof.
  split; [|vm_compute; congruence]. split_and!.
  - split; [reflexivity|]. split; [done|]. intros k e Hk. apply (f_equal (fmap le_index)) in Hk.
    rewrite <- list_lookup_fmap in Hk.
    change (map le_index entries !! k = Some (le_index e)) in Hk. rewrite indices in Hk.
    do 3 (destruct k as [|k]; [by injection Hk as <-|]). done.
  - vm_compute. congruence.
  - vm_compute. congruence.
  - intros i [Hf _]. unfold lv_lookup. rewrite (proj2 (Z.ltb_ge _ _)) by exact Hf. done.
Qed.

Lemma steps_ok : Forall (ces_ok entries 1) steps.
Proof. repeat (constructor; [first [exact raft_serves|done]|]). constructor. Qed.

Lemma load_run_eq : foldM (ces_exec Sample.junk Sample.ejunk SamplePipe.crypto) (AC_init offset, []) steps = Ret run.
Proof. vm_compute. reflexivity. Qed.

Lemma all_eq : decryptEntries Sample.junk Sample.ejunk SamplePipe.crypto (drop 1 entries) = Ret all.
Proof. vm_compute. reflexivity. Qed.

Lemma run_loaded : mLoadedIndex (ac_base run.1) = 3.
Proof. vm_compute. reflexivity. Qed.
End SampleLoad.

(** C19. Asynchronous loading is in order: however the turns of the load thread, of
    the decrypt threads and of the loop interleave, what the loop has been handed,
    with what is cached for it, is exactly the bundles of the first committed
    entries behind the offset the store was started at, in order, none skipped,
    none twice; no thread touches a task that has left the queue. *)
Theorem async_load_in_order `{LedgerProtos} `{Proto RaftPayload} `{OpenSSL} `{LogSpec L}
    junk ejunk crypto E o (s0 : AsyncCES) (steps : list (CesStep L)) s out :
  (o ≤ length E)%nat → AC_setCurrentOffset AsyncCES_new (Z.of_nat o) = Ret s0 →
  Forall (ces_ok E o) steps →
  foldM (ces_exec junk ejunk crypto) (AC_init s0, []) steps = Ret (s, out) →
  (∃ n, Z.of_nat (o + n) ≤ mLoadedIndex (ac_base s) ≤ Z.of_nat (length E) ∧
    decryptEntries junk ejunk crypto (take n (drop o E)) = Ret (out ++ mCachedBundles (ac_base s))) ∧
  ∀ n, n ∈ ac_doing s → is_Some (ac_queue s !! (n - ac_popped s)%nat).
Proof.
  intros Ho Hs0 Hok Hrun. assert (Hi : ces_inv junk ejunk crypto E o out s).
  { apply (ces_run_inv junk ejunk crypto E o (AC_init s0, []) steps (s, out)); [|done|done]. by apply (ces_inv_start _ _ _ _ _ AsyncCES_new). }
  destruct (ces_inv_handed _ _ _ _ _ _ _ Hi) as (n & Hn & Hd). split.
  - exists n. split; [|done]. split; [done|]. apply Hi.
  - intros m Hm%Hi. apply lookup_lt_is_Some. lia.
Qed.

Lemma async_load_in_order_witness :
  (length SampleLoad.run.2 = 1)%nat ∧ ∃ n, Z.of_nat (1 + n) ≤ mLoadedIndex (ac_base SampleLoad.run.1) ∧
    decryptEntries Sample.junk Sample.ejunk SamplePipe.crypto (take n (drop 1 SampleLoad.entries)) =
      Ret (SampleLoad.run.2 ++ mCachedBundles (ac_base SampleLoad.run.1)).
Proof.
  split; [vm_compute; reflexivity|].
  destruct (async_load_in_order Sample.junk Sample.ejunk SamplePipe.crypto SampleLoad.entries 1 SampleLoad.offset
    SampleLoad.steps SampleLoad.run.1 SampleLoad.run.2) as [(n & [Hn _] & Hd) _].
  - vm_compute. lia.
  - exact SampleLoad.offset_eq.
  - exact SampleLoad.steps_ok.
  - rewrite <- surjective_pairing. exact SampleLoad.load_run_eq.
  - exists n. split; [exact Hn|exact Hd].
Defined.

(** C21. Asynchronous loading does not get stuck: from every state a running store
    can reach, some turns of its own threads and of the loop, none of them a load,
    hand out every bundle of the entries loaded so far, provided the entries decode
    to commands. *)
Theorem async_load_delivers `{LedgerProtos} `{Proto RaftPayload} `{OpenSSL} `{LogSpec L}
    junk ejunk crypto E o (s0 : AsyncCES) (steps : list (CesStep L)) s out all :
  (o ≤ length E)%nat → AC_setCurrentOffset AsyncCES_new (Z.of_nat o) = Ret s0 →
  Forall (ces_ok E o) steps →
  foldM (ces_exec junk ejunk crypto) (AC_init s0, []) steps = Ret (s, out) →
  decryptEntries junk ejunk crypto (take (Z.to_nat (mLoadedIndex (ac_base s)) - o) (drop o E)) = Ret all →
  Forall (λ b : Bundle, is_Some b.1) all →
  ∃ more s', forallb (negb ∘ moves) more = true ∧
    foldM (ces_exec (L := L) junk ejunk crypto) (s, out) more = Ret (s', all) ∧ ac_queue s' = [].
Proof.
  intros Ho Hs0 Hok Hrun Hall Hsome. assert (Hi : ces_inv junk ejunk crypto E o out s).
  { apply (ces_run_inv junk ejunk crypto E o (AC_init s0, []) steps (s, out)); [|done|done]. by apply (ces_inv_start _ _ _ _ _ AsyncCES_new). }
  destruct (run_up junk ejunk crypto _ _ _ Hrun) as (Hr & Ht & _). simpl in Hr, Ht.
  destruct (drain junk ejunk crypto E o s out Hi) as (more & [s' out'] & Hm & Hmv & Hc & Hq & Hh); [by exists all|done|].
  exists more, s'. split; [done|]. split; [|done]. rewrite Hm. do 2 f_equal.
  pose proof (ces_run_inv junk ejunk crypto E o (s, out) more (s', out') Hi (own_steps_ok _ _ _ Hmv) Hm) as [_ (es & He & Hes) _ _ _ _].
  destruct (run_up junk ejunk crypto _ _ _ Hm) as (_ & _ & Hl). simpl in *. rewrite Hc, app_nil_r in He. rewrite Hq, Hh, Hl in Hes by done.
  simpl in Hes. rewrite app_nil_r in Hes. unfold slice in Hes. congruence.
Qed.

Lemma async_load_delivers_witness :
  (length SampleLoad.all = 2)%nat ∧ ∃ more s', foldM (ces_exec (L := InMemoryLog) Sample.junk Sample.ejunk SamplePipe.crypto)
    (SampleLoad.run.1, SampleLoad.run.2) more = Ret (s', SampleLoad.all).
Proof.
  split; [vm_compute; reflexivity|].
  destruct (async_load_delivers Sample.junk Sample.ejunk SamplePipe.crypto SampleLoad.entries 1 SampleLoad.offset
    SampleLoad.steps SampleLoad.run.1 SampleLoad.run.2 SampleLoad.all) as (more & s' & _ & Hm & _).
  - vm_compute. lia.
  - exact SampleLoad.offset_eq.
  - exact SampleLoad.steps_ok.
  - rewrite <- surjective_pairing. exact SampleLoad.load_run_eq.
  - rewrite SampleLoad.run_loaded. exact SampleLoad.all_eq.
  - vm_compute. repeat (constructor; [by eexists|]). constructor.
  - exists more, s'. exact Hm.
Defined.
