(* ===== verification/LogSync.v ===== *)
(** * Copying the log of another cluster

    A cluster that takes over groups of accounts first copies the log of the
    cluster they come from, up to and including the split command of a plan.
    - src/src/infra/raft/StreamingService.{h,cpp}: the service a node offers;
    - src/src/app_util/sync/LogReader.{h,cpp}: its client;
    - src/src/app_util/sync/LogSyncService.{h,cpp}: the thread that copies, and
      the calls [setTargets] and [terminateSyncMode];
    - RaftCore::handleSyncRequest (RaftCore.v): the receiving Raft core, which
      handles the requests of its queue one after the other. *)
From stdpp Require Import pretty.
From S2P Require Import Prelude Control Ledger RaftLog RaftCore.
Open Scope Z_scope.

(** ** The streaming service *)
Record GetEntries_Response := mk_GetEntries_Response {
  ger_code : Z; ger_message : string; ger_entries : list LogEntry;
  ger_first_index : Z; ger_last_index : Z; ger_commit_index : Z }.

Inductive GetMeta_Role := UNKNOWN_ROLE | LEADER | FOLLOWER | CANDIDATE.

Definition resolveRole (role : RaftRole) : GetMeta_Role :=
  match role with Leader => LEADER | Follower => FOLLOWER | Candidate => CANDIDATE | _ => UNKNOWN_ROLE end.

Record GetMeta_Response := mk_GetMeta_Response {
  gmr_code : Z; gmr_message : string; gmr_role : GetMeta_Role; gmr_term : Z; gmr_last_index : Z; gmr_commit_index : Z;
  gmr_leader_hint : string }.

Section streaming.
Context `{Log L}.
Implicit Types raft : RaftCore L.

Definition StreamingService_GetMeta raft : result GetMeta_Response :=
  hint ← match getLeaderHint raft with
         | Some leaderHint => cassert (negb (leaderHint =? 0));; Ret (pretty leaderHint)
         | None => Ret EmptyString
         end;
  Ret (mk_GetMeta_Response 0 EmptyString (resolveRole (mRaftRole raft)) (getCurrentTerm (core_mLog raft))
         (getLastLogIndex (core_mLog raft)) (mCommitIndex raft) hint).

Definition StreamingService_getEntries raft (startIndex : Z) : result GetEntries_Response :=
  let commitIndex := mCommitIndex raft in
  let first := getFirstLogIndex (core_mLog raft) in
  let lastIndex := getLastLogIndex (core_mLog raft) in
  if commitIndex <? startIndex then
    Ret (mk_GetEntries_Response 1 "Reject. StartIndex > CommitIndex" [] first lastIndex commitIndex)
  else
    entries ← RaftCore_getEntries raft startIndex (commitIndex - startIndex + 1);
    Ret (mk_GetEntries_Response 0 "Success" entries first lastIndex commitIndex).

(** [currentConcurrency]: the calls in progress, this one included.  The code of
    [getEntries] is overwritten. *)
Definition StreamingService_GetEntries raft (maxConcurrency currentConcurrency startIndex : Z)
    : result GetEntries_Response :=
  if currentConcurrency <=? maxConcurrency then
    r ← StreamingService_getEntries raft startIndex;
    Ret (mk_GetEntries_Response 0 (ger_message r) (ger_entries r) (ger_first_index r) (ger_last_index r) (ger_commit_index r))
  else Ret (mk_GetEntries_Response 1 "TooManyConnections" [] 0 0 0).
End streaming.

(** ** The reader *)
Inductive FetchStatus := FetchOK | FetchERROR | FetchNODATA.

(** [fetch] on the reply of the call; [None] is a call that fails. *)
Definition LogReader_fetch (startIndex : Z) (reply : option GetEntries_Response) : result (FetchStatus * list LogEntry) :=
  match reply with
  | None => Ret (FetchERROR, [])
  | Some response =>
      if ger_first_index response =? 0 then Ret (FetchOK, [])
      else
        cassert (ger_first_index response <=? startIndex);;
        match ger_entries response with
        | [] => Ret (FetchNODATA, [])
        | entries => Ret (FetchOK, entries)
        end
  end.

(** ** The service

    Where its thread is: at the top of the loop; at the condition variable; past
    the block that holds [mReaderMutex]; gone. *)
Inductive SyncAt := SyncTop | SyncWait | SyncFetched (r : FetchStatus) (logs : list LogEntry) | SyncGone.

(** [lss_joining]: a [setTargets] with these targets holds [mReaderMutex] and
    waits for the thread to end. *)
Record LogSyncService := mk_LogSyncService {
  mReaders : list string;
  mPlanId : string;
  lss_mLastIndex : Z;
  mRunning : bool;
  mEndLogFlag : bool;
  lss_at : SyncAt;
  clientIdx : Z;
  lss_joining : option (list string) }.

Definition LogSyncService_new (lastLogIndex : Z) : LogSyncService :=
  mk_LogSyncService [] EmptyString lastLogIndex true false SyncTop 0 None.

Implicit Types s : LogSyncService.

Definition lss_set_at s (at_ : SyncAt) : LogSyncService :=
  mk_LogSyncService (mReaders s) (mPlanId s) (lss_mLastIndex s) (mRunning s) (mEndLogFlag s) at_ (clientIdx s) (lss_joining s).
Definition lss_set_plan s (planId : string) : LogSyncService :=
  mk_LogSyncService (mReaders s) planId (lss_mLastIndex s) (mRunning s) (mEndLogFlag s) (lss_at s) (clientIdx s) (lss_joining s).
Definition lss_set_end s (flag : bool) : LogSyncService :=
  mk_LogSyncService (mReaders s) (mPlanId s) (lss_mLastIndex s) (mRunning s) flag (lss_at s) (clientIdx s) (lss_joining s).
Definition lss_set_readers s (readers : list string) : LogSyncService :=
  mk_LogSyncService readers (mPlanId s) (lss_mLastIndex s) (mRunning s) (mEndLogFlag s) (lss_at s) (clientIdx s) None.

Definition endLog s (logEntry : LogEntry) : bool :=
  match le_specialTag logEntry with
  | Some tag => (tag_identifier tag =? SPILT_COMMAND) && bool_decide (tag_payload tag = mPlanId s)
  | None => false
  end.

(** [truncateLogs] *)
Fixpoint truncate_loop (end_ : LogEntry → bool) (logs : list LogEntry) : bool * list LogEntry :=
  match logs with
  | [] => (false, [])
  | e :: logs => if end_ e then (true, [e]) else let '(truncated, logs) := truncate_loop end_ logs in (truncated, e :: logs)
  end.

Definition truncateLogs s (logs : list LogEntry) : result (bool * list LogEntry) :=
  cassert (negb (mEndLogFlag s));; Ret (truncate_loop (endLog s) logs).

(** *** The thread: [while (mRunning)] and the test of the flag, ... *)
Definition lss_top s : LogSyncService :=
  match lss_at s with
  | SyncTop => lss_set_at s (if negb (mRunning s) || mEndLogFlag s then SyncGone else SyncWait)
  | _ => s
  end.

(** ... the block under [mReaderMutex], with the reply of the reader chosen, ... *)
Definition lss_fetch (reply : option GetEntries_Response) s : result LogSyncService :=
  match lss_at s, lss_joining s with
  | SyncWait, None =>
      if negb (mRunning s) then Ret (lss_set_at s SyncGone)
      else
        match mReaders s with
        | [] => Ret s
        | readers =>
            '(r, logs) ← LogReader_fetch (lss_mLastIndex s + 1) reply;
            Ret (mk_LogSyncService readers (mPlanId s) (lss_mLastIndex s) (mRunning s) (mEndLogFlag s) (SyncFetched r logs)
                   (clientIdx s `mod` Z.of_nat (length readers)) None)
        end
  | _, _ => Ret s
  end.

(** ... and what follows it, with the request handed to Raft. *)
Definition lss_handle s : result (LogSyncService * option SyncRequest) :=
  match lss_at s with
  | SyncFetched FetchOK logs =>
      '(flag, logs) ← truncateLogs s logs;
      let s := lss_set_at (lss_set_end s flag) SyncTop in
      match logs with
      | [] => Ret (s, None)
      | _ =>
          let endIndex := lss_mLastIndex s + Z.of_nat (length logs) in
          Ret (mk_LogSyncService (mReaders s) (mPlanId s) endIndex (mRunning s) (mEndLogFlag s) (lss_at s) (clientIdx s) (lss_joining s),
               Some (mk_SyncRequest logs (lss_mLastIndex s + 1) endIndex None))
      end
  | SyncFetched _ _ =>
      match mReaders s with
      | [] => Fail UndefinedBehaviour
      | readers =>
          Ret (mk_LogSyncService readers (mPlanId s) (lss_mLastIndex s) (mRunning s) (mEndLogFlag s) SyncTop
                 ((clientIdx s + 1) `mod` Z.of_nat (length readers)) (lss_joining s), None)
      end
  | _ => Ret (s, None)
  end.

(** *** The calls

    [lastEntry] is what [getEntry(mLastIndex)] finds.  While another [setTargets]
    waits with the mutex, this one does not begin. *)
Definition lss_install s (endPoints : list string) : LogSyncService := lss_set_readers s endPoints.

Definition setTargets (endPoints : list string) (planId : string) (lastEntry : option LogEntry) s : LogSyncService :=
  match lss_joining s with
  | Some _ => s
  | None =>
      let s := lss_set_plan s planId in
      if negb (lss_mLastIndex s =? 0) && from_option (endLog s) false lastEntry then lss_set_end s true
      else if mEndLogFlag s then
        mk_LogSyncService (mReaders s) (mPlanId s) (lss_mLastIndex s) (mRunning s) (mEndLogFlag s) (lss_at s) (clientIdx s)
          (Some endPoints)
      else lss_install s endPoints
  end.

(** The join returns: a new thread is started. *)
Definition setTargets_joined s : LogSyncService :=
  match lss_joining s, lss_at s with
  | Some endPoints, SyncGone =>
      lss_install (mk_LogSyncService (mReaders s) (mPlanId s) (lss_mLastIndex s) (mRunning s) false SyncTop 0 None) endPoints
  | _, _ => s
  end.

(** The destructor up to its join. *)
Definition lss_shutdown s : LogSyncService :=
  mk_LogSyncService (mReaders s) (mPlanId s) (lss_mLastIndex s) false (mEndLogFlag s) (lss_at s) (clientIdx s) (lss_joining s).

Inductive TerminateError :=
  | StillSyncing | LastIndexShouldBe (index : Z) | NoSplitTag | OtherPlan (found wanted : string).

(** [terminateSyncMode]: the error message, or the begin index signalled to
    Raft. *)
Definition terminateSyncMode (planId : string) (tagCommitIndex : Z) (lastLogEntry : option LogEntry) s
    : TerminateError + Z :=
  if negb (mEndLogFlag s) then inl StillSyncing
  else if negb (tagCommitIndex =? 0) && negb (tagCommitIndex =? lss_mLastIndex s) then inl (LastIndexShouldBe (lss_mLastIndex s))
  else
    match lastLogEntry ≫= le_specialTag with
    | None => inl NoSplitTag
    | Some tag => if bool_decide (tag_payload tag ≠ planId) then inl (OtherPlan (tag_payload tag) planId) else inr (lss_mLastIndex s + 1)
    end.

(** ** With the Raft core that receives

    The requests wait in the queue of the main loop. *)
Section syncing.
Context `{Log L}.

Record SyncState := mk_SyncState {
  ss_service : LogSyncService; ss_queue : list SyncRequest; ss_core : RaftCore L }.

(** [reply]: what the node asked answers, if it does. *)
Inductive SyncStep :=
  | SyTop | SyFetch (reply : option GetEntries_Response) | SyHandle | SyRaft
  | SySetTargets (endPoints : list string) (planId : string) | SyJoined | SyShutdown.

Definition sync_exec (x : SyncState) (step : SyncStep) : result SyncState :=
  let s := ss_service x in
  match step with
  | SyTop => Ret (mk_SyncState (lss_top s) (ss_queue x) (ss_core x))
  | SyFetch reply => s ← lss_fetch reply s; Ret (mk_SyncState s (ss_queue x) (ss_core x))
  | SyHandle => '(s, request) ← lss_handle s; Ret (mk_SyncState s (ss_queue x ++ option_list request) (ss_core x))
  | SyRaft =>
      match ss_queue x with
      | [] => Ret x
      | request :: queue => core ← handleSyncRequest (ss_core x) request; Ret (mk_SyncState s queue core)
      end
  | SySetTargets endPoints planId =>
      lastEntry ← RaftCore_getEntry (ss_core x) (lss_mLastIndex s);
      Ret (mk_SyncState (setTargets endPoints planId lastEntry s) (ss_queue x) (ss_core x))
  | SyJoined => Ret (mk_SyncState (setTargets_joined s) (ss_queue x) (ss_core x))
  | SyShutdown => Ret (mk_SyncState (lss_shutdown s) (ss_queue x) (ss_core x))
  end.

Fixpoint sync_execs (x : SyncState) (steps : list SyncStep) : result SyncState :=
  match steps with [] => Ret x | step :: steps => x ← sync_exec x step; sync_execs x steps end.

(** [terminateSyncMode] with the signal it sends: RaftCore queues the end of the
    copying as a request. *)
Definition sync_terminate (x : SyncState) (planId : string) (tagCommitIndex : Z) : result (SyncState * option TerminateError) :=
  let s := ss_service x in
  lastLogEntry ← RaftCore_getEntry (ss_core x) (lss_mLastIndex s);
  match terminateSyncMode planId tagCommitIndex lastLogEntry s with
  | inl error => Ret (x, Some error)
  | inr beginIndex => Ret (mk_SyncState s (ss_queue x ++ [mk_SyncRequest [] 0 0 (Some beginIndex)]) (ss_core x), None)
  end.
End syncing.
Arguments SyncState : clear implicits.
