(* ===== verification/LogSyncProps.v ===== *)
(** * The log sync service against the log it copies

    [E] is the committed log of the other cluster; the nodes asked see prefixes of
    it.  What the receiving Raft core has and what is queued for it is always a
    prefix of [E]; when [setTargets] is only called with nothing queued, the prefix
    never goes past the split command of the plan. *)
From S2P Require Import Prelude Control Ledger RaftLog RaftCore Pipeline AsyncLoad LogSync.
Open Scope Z_scope.

Section invariant.
Context `{LogSpec L}.
Context (E : list LogEntry) (plan : string).
Hypothesis S_indices : ∀ k e, E !! k = Some e → le_index e = Z.of_nat (k + 1).
Implicit Types (x : SyncState L) (s : LogSyncService) (core : RaftCore L).

(** The end tag of the plan. *)
Definition is_end (e : LogEntry) : bool :=
  match le_specialTag e with
  | Some tag => (tag_identifier tag =? SPILT_COMMAND) && bool_decide (tag_payload tag = plan)
  | None => false
  end.

(** The core has the first [n] entries, and the queue continues it up to [k]. *)
Definition core_has (n : nat) core : Prop :=
  mRaftRole core = Syncer ∧ log_inv (core_mLog core) ∧ lv_first (log_view (core_mLog core)) = 1 ∧
  (n ≤ length E)%nat ∧ lv_entries (log_view (core_mLog core)) = take n E.

Fixpoint queue_has (n : nat) (queue : list SyncRequest) (k : nat) : Prop :=
  match queue with
  | [] => n = k
  | r :: queue =>
      ∃ m, (n < m ≤ length E)%nat ∧ r = mk_SyncRequest (take (m - n) (drop n E)) (Z.of_nat n + 1) (Z.of_nat m) None ∧
        queue_has m queue k
  end.

Record copies (k : nat) x : Prop := {
  cp_last : lss_mLastIndex (ss_service x) = Z.of_nat k;
  cp_range : (k ≤ length E)%nat;
  cp_queue : ∃ n, core_has n (ss_core x) ∧ queue_has n (ss_queue x) k;
  cp_fetched r logs : lss_at (ss_service x) = SyncFetched r logs → logs = take (length logs) (drop k E) }.

Definition sync_ready x (step : SyncStep) : Prop :=
  match step with
  | SyFetch (Some r) =>
      let start := lss_mLastIndex (ss_service x) + 1 in
      ∃ src maxConcurrency current, sees (L := L) E src ∧ lv_first (log_view (core_mLog src)) ≤ start ∧
        StreamingService_GetEntries src maxConcurrency current start = Ret r
  | _ => True
  end.

(** ** What a reply has *)
Lemma reply_entries k src maxc cur r :
  sees E src → lv_first (log_view (core_mLog src)) ≤ Z.of_nat k + 1 →
  StreamingService_GetEntries src maxc cur (Z.of_nat k + 1) = Ret r →
  ger_entries r = take (length (ger_entries r)) (drop k E) ∧ (ger_first_index r ≠ 0 → ger_first_index r ≤ Z.of_nat k + 1).
Proof.
  intros Hs Hf Hr. unfold StreamingService_GetEntries in Hr. split_if Hr; [|by injection Hr as <-].
  unfold StreamingService_getEntries in Hr. destruct (Z.ltb_spec (mCommitIndex src) (Z.of_nat k + 1)) as [Hlt|Hle].
  - simpl in Hr. injection Hr as <-. simpl. split; [done|]. intros _. destruct Hs as [Hi _]. by rewrite (spec_first _ Hi).
  - apply bind_Ret in Hr as (r1 & Hr & [= <-]). apply bind_Ret in Hr as (es & Hes & [= <-]). simpl.
    destruct (load_slice E src (Z.of_nat k + 1) es Hs) as [He _]; [lia|lia|done|].
    replace (Z.to_nat (Z.of_nat k + 1 - 1)) with k in He by lia. split; [done|]. intros _. destruct Hs as [Hi _]. by rewrite (spec_first _ Hi).
Qed.

Lemma fetch_logs k x r' logs reply :
  lss_mLastIndex (ss_service x) = Z.of_nat k → sync_ready x (SyFetch reply) →
  LogReader_fetch (Z.of_nat k + 1) reply = Ret (r', logs) → logs = take (length logs) (drop k E).
Proof.
  intros Hk Hok Hf. unfold LogReader_fetch in Hf. destruct reply as [r|]; [|by injection Hf as _ <-].
  destruct Hok as (src & maxc & cur & Hs & Hfi & Hr). rewrite Hk in *. destruct (reply_entries k src maxc cur r Hs Hfi Hr) as [He _].
  split_if Hf; [by injection Hf as _ <-|]. apply cassert_bind in Hf as [_ Hf].
  destruct (ger_entries r) as [|e es]; injection Hf as _ <-; [done|exact He].
Qed.

(** ** Raft handles a request *)
Lemma core_last n core : core_has n core → lv_last (log_view (core_mLog core)) = Z.of_nat n.
Proof. intros (_ & _ & Hf & Hn & He). unfold lv_last. rewrite Hf, He, length_take. lia. Qed.

Lemma slice_contiguous n m : contiguous (Z.of_nat n + 1) (take m (drop n E)).
Proof.
  revert n. induction m as [|m IH]; intros n; [done|]. destruct (drop n E) as [|e es] eqn:Ed; [done|].
  assert (He : E !! n = Some e) by (rewrite <- (Nat.add_0_r n), <- lookup_drop, Ed; done).
  assert (Hes : es = drop (n + 1) E) by (rewrite Nat.add_1_r; rewrite (drop_S _ _ _ He) in Ed; congruence).
  cbn [take contiguous]. split; [rewrite (S_indices _ _ He); lia|]. rewrite Hes.
  replace (Z.of_nat n + 1 + 1) with (Z.of_nat (n + 1) + 1) by lia. apply IH.
Qed.

Lemma handle_request n m core :
  core_has n core → (n < m ≤ length E)%nat →
  ∃ core', handleSyncRequest core (mk_SyncRequest (take (m - n) (drop n E)) (Z.of_nat n + 1) (Z.of_nat m) None) = Ret core' ∧ core_has m core'.
Proof.
  intros Hc Hm. pose proof (core_last _ _ Hc) as Hlast. destruct Hc as (Hr & Hi & Hf & Hn & He). unfold handleSyncRequest.
  rewrite Hr. simpl. rewrite (spec_last _ Hi), Hlast, Z.eqb_refl. simpl.
  set (es := take (m - n) (drop n E)). assert (Hlen : length es = (m - n)%nat) by (unfold es; rewrite length_take, length_drop; lia).
  destruct (last es) as [back|] eqn:Eb; [|apply last_None in Eb; rewrite Eb in Hlen; simpl in Hlen; lia].
  destruct (spec_appendEntries (core_mLog core) es Hi) as (log' & Ha & Hi' & Hv); [rewrite Hlast; apply slice_contiguous|].
  unfold Log_appendAll. rewrite Ha. simpl.
  assert (Hl' : lv_last (log_view log') = Z.of_nat m).
  { rewrite Hv. unfold lv_last. simpl. rewrite Hf, He, length_app, length_take, Hlen. lia. }
  rewrite (spec_last _ Hi'), Hl', Z.eqb_refl. simpl. eexists. split; [done|].
  destruct (spec_setCurrentTerm log' (le_term back) Hi') as [Hi2 Hv2]. unfold core_has. simpl. rewrite Hv2, Hv. simpl.
  split_and!; [done|done|done|lia|]. rewrite He. unfold es.
  rewrite <- (firstn_skipn n (take m E)), take_take, Nat.min_l by lia. f_equal. by rewrite skipn_firstn_comm.
Qed.

(** ** Every step keeps the copy *)
Lemma queue_has_le n queue k : queue_has n queue k → (n ≤ k)%nat.
Proof. revert n. induction queue as [|r queue IH]; intros n; simpl; [lia|]. intros (m & Hm & _ & Hq%IH). lia. Qed.

Lemma queue_has_snoc n queue k m :
  queue_has n queue k → (k < m ≤ length E)%nat →
  queue_has n (queue ++ [mk_SyncRequest (take (m - k) (drop k E)) (Z.of_nat k + 1) (Z.of_nat m) None]) m.
Proof.
  revert n. induction queue as [|r queue IH]; intros n Hq Hm; simpl in *.
  - subst. by exists m.
  - destruct Hq as (m' & Hm' & Hr & Hq). exists m'. split; [done|]. split; [done|]. by apply IH.
Qed.

Lemma truncate_loop_spec end_ logs b logs' :
  truncate_loop end_ logs = (b, logs') →
  logs' `prefix_of` logs ∧ (logs' = [] → logs = []) ∧
  (b = true → ∃ e l, logs' = l ++ [e] ∧ end_ e = true ∧ Forall (λ e, end_ e = false) l) ∧
  (b = false → logs' = logs ∧ Forall (λ e, end_ e = false) logs).
Proof.
  revert b logs'. induction logs as [|e logs IH]; intros b logs' Ht; simpl in Ht; [injection Ht as <- <-; by split_and!|].
  destruct (end_ e) eqn:Ee.
  - injection Ht as <- <-. split_and!; [by exists logs|done| |done]. intros _. by exists e, [].
  - destruct (truncate_loop end_ logs) as [t l] eqn:Et. injection Ht as <- <-. destruct (IH _ _ eq_refl) as (Hp & _ & H1' & H2').
    split_and!; [by apply prefix_cons|done| |].
    + intros Hb. destruct (H1' Hb) as (e' & l' & -> & He' & Hl'). exists e', (e :: l'). split_and!; [done|done|by constructor].
    + intros Hb. destruct (H2' Hb) as [-> Hl]. split; [done|by constructor].
Qed.

Lemma truncate_loop_ext f g logs : (∀ e, f e = g e) → truncate_loop f logs = truncate_loop g logs.
Proof. intros Hfg. induction logs as [|e logs IH]; simpl; [done|]. by rewrite Hfg, IH. Qed.

Lemma sync_step_copies k x step x' :
  copies k x → sync_ready x step → sync_exec x step = Ret x' → ∃ k', (k ≤ k')%nat ∧ copies k' x'.
Proof.
  intros Hc Hok Hx. pose proof Hc as [Hk Hkr Hq Hfe].
  assert (Hid : copies k (mk_SyncState (ss_service x) (ss_queue x) (ss_core x))) by by destruct x. destruct step as [|reply| | |eps p| |]; simpl in Hx.
  - injection Hx as <-. exists k. split; [done|]. unfold lss_top. destruct (lss_at (ss_service x)) eqn:Ea; try exact Hid.
    split; simpl; try done. intros r logs. by destruct (negb _ || _).
  - apply bind_Ret in Hx as (s & Hs & [= <-]). exists k. split; [done|]. unfold lss_fetch in Hs.
    destruct (lss_at (ss_service x)) eqn:Ea; try (injection Hs as <-; exact Hid). destruct (lss_joining (ss_service x)); [injection Hs as <-; exact Hid|].
    split_if Hs; [injection Hs as <-; by split|]. destruct (mReaders (ss_service x)); [injection Hs as <-; exact Hid|].
    apply bind_Ret in Hs as ([r logs] & Hf & [= <-]). split; simpl; try done. intros r1 logs1 [= <- <-]. rewrite Hk in Hf. by eapply fetch_logs.
  - apply bind_Ret in Hx as ([s req] & Hs & [= <-]). unfold lss_handle in Hs.
    assert (Hsame : req = None → lss_mLastIndex s = Z.of_nat k → (∀ r logs, lss_at s ≠ SyncFetched r logs) → ∃ k', (k ≤ k')%nat ∧ copies k' (mk_SyncState s (ss_queue x ++ option_list req) (ss_core x))).
    { intros -> Hsk Hsa. exists k. split; [done|]. simpl. rewrite app_nil_r. split; simpl; try done. intros r logs Ha. by destruct (Hsa r logs). }
    destruct (lss_at (ss_service x)) as [| |[| |] logs|] eqn:Ea; try (injection Hs as <- <-; apply Hsame; [done|done|intros ? ?; by rewrite Ea]).
    2,3: destruct (mReaders (ss_service x)); [done|]; injection Hs as <- <-; by apply Hsame.
    apply bind_Ret in Hs as ([flag logs'] & Ht & Hs). unfold truncateLogs in Ht. apply cassert_bind in Ht as [_ [= Ht]].
    destruct (truncate_loop_spec _ _ _ _ Ht) as ([tl Hp] & _). destruct logs' as [|e es]; [injection Hs as <- <-; by apply Hsame|].
    simpl in Hs. injection Hs as <- <-. clear Hsame. change (e :: es) with ([e] ++ es) in *. assert (Hle : length ([e] ++ es) = Datatypes.S (length es)) by done.
    rewrite <- Hle. remember ([e] ++ es) as logs' eqn:El. specialize (Hfe _ _ eq_refl).
    assert (Hlen : (length logs ≤ length E - k)%nat) by (rewrite Hfe, length_take, length_drop; lia).
    assert (Hl' : logs' = take (length logs') (drop k E)).
    { assert (Hp1 : logs' = take (length logs') logs) by (rewrite Hp, take_app_length; done).
      rewrite Hfe, take_take, Nat.min_l in Hp1 by (rewrite Hp, length_app; lia). done. }
    assert (Hll : (length logs' ≤ length logs)%nat) by (rewrite Hp, length_app; lia).
    exists (k + length logs')%nat. split; [lia|]. split; simpl; [rewrite Hk; lia|lia| |done].
    destruct Hq as (n & Hcn & Hqn). exists n. split; [done|].
    pose proof (queue_has_snoc n (ss_queue x) k (k + length logs') Hqn) as Hsn. replace (k + length logs' - k)%nat with (length logs') in Hsn by lia.
    rewrite <- Hl' in Hsn. rewrite Hk, <- Nat2Z.inj_add. apply Hsn. lia.
  - destruct Hq as (n & Hcn & Hqn). destruct (ss_queue x) as [|r queue] eqn:Eq; [injection Hx as <-; by exists k|].
    destruct Hqn as (m & Hm & -> & Hqn). destruct (handle_request n m _ Hcn Hm) as (core' & Hh & Hcm). rewrite Hh in Hx. injection Hx as <-.
    exists k. split; [done|]. split; simpl; try done. by exists m.
  - apply bind_Ret in Hx as (le & Hle & [= <-]). exists k. split; [done|]. unfold setTargets.
    destruct (lss_joining _); [exact Hid|]. simpl. destruct (negb _ && _); [by split|]. destruct (mEndLogFlag _); by split.
  - injection Hx as <-. exists k. split; [done|]. unfold setTargets_joined. destruct (lss_joining _); [|exact Hid].
    destruct (lss_at (ss_service x)) eqn:Ea; try exact Hid. by split.
  - injection Hx as <-. exists k. split; [done|]. by split.
Qed.

(** ** Up to the split command

    [setTargets] names the plan, some targets, and is called with nothing queued
    for Raft. *)
Definition calm x (step : SyncStep) : Prop :=
  match step with SySetTargets endPoints planId => planId = plan ∧ ss_queue x = [] ∧ endPoints ≠ [] | _ => True end.

Definition fetched s : Prop := ∃ r logs, lss_at s = SyncFetched r logs.

(** The service alone, with [k] entries copied. *)
Record stops (k : nat) s : Prop := {
  st_before i e : (i + 1 < k)%nat → E !! i = Some e → is_end e = false;
  st_joining : lss_joining s = None;
  st_plan : mPlanId s = plan ∨ mReaders s = [] ∧ ¬ fetched s;
  st_flag : mEndLogFlag s = true →
    (∃ e, E !! (k - 1)%nat = Some e ∧ is_end e = true ∧ (0 < k)%nat) ∧
    ¬ fetched s ∧ (lss_at s = SyncWait → mReaders s = []);
  st_last e : (0 < k)%nat → E !! (k - 1)%nat = Some e → is_end e = true →
    mEndLogFlag s = true ∨ mReaders s = [] ∧ ¬ fetched s;
  st_readers : fetched s → mReaders s ≠ [] }.

Lemma endLog_is_end s e : mPlanId s = plan → endLog s e = is_end e.
Proof. unfold endLog, is_end. by intros ->. Qed.

Lemma stops_top k s : stops k s → stops k (lss_top s).
Proof.
  intros Hs. pose proof Hs as [S1 S2 S3 S4 S5 S6]. unfold lss_top. destruct (lss_at s) eqn:Ea; try exact Hs.
  assert (Hn : ¬ fetched (lss_set_at s (if negb (mRunning s) || mEndLogFlag s then SyncGone else SyncWait))).
  { intros (r & l & Hx). simpl in Hx. by destruct (negb _ || _). }
  split; simpl; try done.
  - destruct S3 as [|[? _]]; [by left|by right].
  - intros Hf. destruct (S4 Hf) as (He & _ & _). split; [done|]. split; [done|]. by rewrite Hf, orb_true_r.
  - intros e Hk He Ht. destruct (S5 e Hk He Ht) as [|[? _]]; [by left|by right].
Qed.

Lemma stops_fetch k s reply s' : stops k s → lss_fetch reply s = Ret s' → stops k s'.
Proof.
  intros Hs Hf. pose proof Hs as [S1 S2 S3 S4 S5 S6]. unfold lss_fetch in Hf. rewrite S2 in Hf.
  destruct (lss_at s) eqn:Ea; try (by injection Hf as <-). split_if Hf.
  - injection Hf as <-. assert (Hn : ¬ fetched (lss_set_at s SyncGone)) by (by intros (? & ? & ?)). split; simpl; try done.
    + destruct S3 as [|[? _]]; [by left|by right].
    + intros Hfl. destruct (S4 Hfl) as (He & _ & _). by split_and!.
    + intros e Hk He Ht. destruct (S5 e Hk He Ht) as [|[? _]]; [by left|by right].
  - destruct (mReaders s) as [|rd rds] eqn:Er; [by injection Hf as <-|]. apply bind_Ret in Hf as ([r logs] & _ & [= <-]).
    assert (Hfl : mEndLogFlag s = false). { destruct (mEndLogFlag s); [|done]. by destruct (S4 eq_refl) as (_ & _ & Hx); specialize (Hx eq_refl). }
    split; simpl; try done.
    + destruct S3 as [|[? _]]; [by left|done].
    + by rewrite Hfl.
    + intros e Hk He Ht. destruct (S5 e Hk He Ht) as [|[? _]]; [by left|done].
Qed.

(** What [truncateLogs] leaves of the entries after the first [k]. *)
Lemma truncate_stops k logs flag logs' :
  (∀ i e, (i < k)%nat → E !! i = Some e → is_end e = false) →
  logs = take (length logs) (drop k E) → truncate_loop is_end logs = (flag, logs') →
  let k' := (k + length logs')%nat in
  (∀ i e, (i + 1 < k')%nat → E !! i = Some e → is_end e = false) ∧
  (flag = true → ∃ e, E !! (k' - 1)%nat = Some e ∧ is_end e = true ∧ (0 < k')%nat) ∧
  (flag = false → ∀ i e, (i < k')%nat → E !! i = Some e → is_end e = false).
Proof.
  intros Hb Hlogs Ht k'. destruct (truncate_loop_spec _ _ _ _ Ht) as ([tl Hp] & _ & Htrue & Hfalse).
  assert (Hat : ∀ j e, logs' !! j = Some e → E !! (k + j)%nat = Some e).
  { intros j e Hj. rewrite <- lookup_drop, <- (lookup_take_lt _ (length logs)), <- Hlogs, Hp.
    - by apply lookup_app_l_Some.
    - rewrite Hp, length_app. apply lookup_lt_Some in Hj. lia. }
  assert (Hin : ∀ i e, (i < k')%nat → E !! i = Some e → (k ≤ i)%nat → logs' !! (i - k)%nat = Some e).
  { intros i e Hi He Hki. destruct (lookup_lt_is_Some_2 logs' (i - k)%nat) as [e' He']; [unfold k' in Hi; lia|].
    pose proof (Hat _ _ He') as He2. replace (k + (i - k))%nat with i in He2 by lia. congruence. }
  assert (Hno : flag = false → ∀ i e, (i < k')%nat → E !! i = Some e → is_end e = false).
  { intros Hf i e Hi He. destruct (decide (i < k)%nat); [by eapply Hb|]. destruct (Hfalse Hf) as [Hl Hall]. rewrite Forall_lookup in Hall.
    apply (Hall (i - k)%nat). rewrite <- Hl. apply Hin; [done|done|lia]. }
  assert (Hend : flag = true → ∃ e l, logs' = l ++ [e] ∧ is_end e = true ∧ Forall (λ e, is_end e = false) l ∧ k' = (k + length l + 1)%nat).
  { intros Hf. destruct (Htrue Hf) as (e & l & Hl & He & Hall). exists e, l. split_and!; [done..|]. unfold k'. rewrite Hl, length_app. simpl. lia. }
  split_and!; [| |exact Hno].
  - intros i e Hi He. destruct flag; [|eapply Hno; [done| |done]; lia]. destruct (decide (i < k)%nat); [by eapply Hb|].
    destruct (Hend eq_refl) as (e0 & l & Hl & _ & Hall & Hk'). rewrite Forall_lookup in Hall. apply (Hall (i - k)%nat).
    rewrite <- (lookup_app_l l [e0]), <- Hl by lia. apply Hin; [lia|done|lia].
  - intros Hf. destruct (Hend Hf) as (e & l & Hl & He & _ & Hk'). exists e. split_and!; [|done|lia].
    replace (k' - 1)%nat with (k + length l)%nat by lia. apply Hat. by rewrite Hl, lookup_app_r, Nat.sub_diag by lia.
Qed.

Lemma stops_handle k s s' req :
  stops k s → (∀ r logs, lss_at s = SyncFetched r logs → logs = take (length logs) (drop k E)) →
  lss_handle s = Ret (s', req) → stops (k + from_option (length ∘ sync_mEntries) 0 req)%nat s'.
Proof.
  intros Hs Hlogs Hh. pose proof Hs as [S1 S2 S3 S4 S5 S6]. unfold lss_handle in Hh.
  destruct (lss_at s) as [| |r logs|] eqn:Ea; try (injection Hh as <- <-; by rewrite Nat.add_0_r).
  assert (Hfs : fetched s) by (by exists r, logs). pose proof (S6 Hfs) as Hrd.
  assert (Hfl : mEndLogFlag s = false) by (destruct (mEndLogFlag s); [by destruct (S4 eq_refl) as (_ & Hx & _)|done]).
  assert (Hpl : mPlanId s = plan) by (destruct S3 as [|[? _]]; done).
  assert (Hbefore : ∀ i e, (i < k)%nat → E !! i = Some e → is_end e = false).
  { intros i e Hi He. destruct (decide (i + 1 < k)%nat); [by eapply S1|]. destruct (is_end e) eqn:Ee; [|done].
    replace i with (k - 1)%nat in He by lia. destruct (S5 e ltac:(lia) He Ee) as [|[? _]]; [congruence|done]. }
  destruct r.
  2,3: destruct (mReaders s) eqn:Er; [done|]; injection Hh as <- <-; rewrite Nat.add_0_r; split; simpl;
    [done|done|by left|by rewrite Hfl| |by intros (? & ? & ?)]; intros e Hk He Ht; rewrite (Hbefore (k - 1)%nat e) in Ht by (done || lia); done.
  apply bind_Ret in Hh as ([flag logs'] & Ht & Hh). unfold truncateLogs in Ht. apply cassert_bind in Ht as [_ [= Ht]].
  rewrite (truncate_loop_ext _ is_end) in Ht by (intros e; by apply endLog_is_end).
  destruct (truncate_stops k logs flag logs' Hbefore (Hlogs _ _ eq_refl) Ht) as (T1 & T2 & T3).
  assert (Hfinal : ∀ s1, lss_joining s1 = None → mPlanId s1 = plan → lss_at s1 = SyncTop → mEndLogFlag s1 = flag → stops (k + length logs') s1).
  { intros s1 J1 J2 J3 J4. assert (J5 : ¬ fetched s1) by (intros (? & ? & Hx); congruence). split; try done; [by left| |].
    - intros Hx. rewrite J4 in Hx. split; [by apply T2|]. by rewrite J3.
    - intros e Hk He Hx. left. rewrite J4. destruct flag; [done|]. rewrite (T3 eq_refl (k + length logs' - 1)%nat e) in Hx; [done|lia|exact He]. }
  destruct logs' as [|e es]; injection Hh as <- <-; by apply Hfinal.
Qed.

Lemma stops_setTargets k x endPoints :
  copies k x → stops k (ss_service x) → ss_queue x = [] → endPoints ≠ [] →
  ∃ lastEntry, RaftCore_getEntry (ss_core x) (lss_mLastIndex (ss_service x)) = Ret lastEntry ∧
    stops k (setTargets endPoints plan lastEntry (ss_service x)).
Proof.
  intros [Hk Hkr (n & Hcn & Hqn) _] [S1 S2 S3 S4 S5 S6] Hq Hne. rewrite Hq in Hqn. simpl in Hqn. subst n.
  pose proof (core_last _ _ Hcn) as Hlast. destruct Hcn as (Hr & Hi & Hf & _ & He). unfold RaftCore_getEntry. rewrite Hr, Hk. simpl.
  eexists. split; [done|]. unfold setTargets. rewrite S2. simpl. rewrite Hk. set (s := ss_service x) in *.
  assert (Hget : (0 < k)%nat → getEntry (core_mLog (ss_core x)) (Z.of_nat k) = E !! (k - 1)%nat).
  { intros Hpos. rewrite spec_getEntry_in by (try done; lia). unfold lv_lookup. rewrite Hf, (proj2 (Z.ltb_ge _ _)) by lia.
    rewrite He. replace (Z.to_nat (Z.of_nat k - 1)) with (k - 1)%nat by lia. by rewrite lookup_take_lt by lia. }
  destruct (decide (0 < k)%nat) as [Hpos|Hz].
  - rewrite (Hget Hpos), (proj2 (Z.eqb_neq _ _)) by lia. destruct (lookup_lt_is_Some_2 E (k - 1)) as [e Hel]; [lia|]. rewrite Hel. simpl.
    rewrite endLog_is_end by done. destruct (is_end e) eqn:Ee.
    + assert (Hold : ¬ fetched s ∧ (lss_at s = SyncWait → mReaders s = [])).
      { destruct (S5 e Hpos Hel Ee) as [Hx|[? ?]]; [by destruct (S4 Hx) as (_ & ? & ?)|by split]. }
      split; simpl; try done; [by left| |by intros; left]. intros _. split; [by exists e|exact Hold].
    + assert (Hfl : mEndLogFlag s = false). { destruct (mEndLogFlag s); [|done]. destruct (S4 eq_refl) as ((e' & He' & Ht & _) & _). congruence. }
      rewrite Hfl. split; simpl; try done; [by left|by rewrite Hfl|]. intros e' _ He' Ht. congruence.
  - assert (Hk0 : k = 0%nat) by lia. assert (Hfl : mEndLogFlag s = false). { destruct (mEndLogFlag s); [|done]. destruct (S4 eq_refl) as ((e' & _ & _ & ?) & _). lia. }
    rewrite Hfl. subst k. split; simpl; try done; [by left|by rewrite Hfl].
Qed.
(** ** The service with the core *)
Record syncing (k : nat) x : Prop := { sy_copies : copies k x; sy_stops : stops k (ss_service x) }.

Lemma fetch_ok k x r :
  copies k x → sync_ready x (SyFetch (Some r)) → ger_first_index r ≠ 0 →
  ger_first_index r ≤ Z.of_nat k + 1 ∧ ger_entries r = take (length (ger_entries r)) (drop k E).
Proof.
  intros [Hk _ _ _] (src & maxc & cur & Hs & Hf & Hr) Hfi. rewrite Hk in *.
  destruct (reply_entries k src maxc cur r Hs Hf Hr) as [? Hle]. by split; [apply Hle|].
Qed.

Lemma lss_fetch_total k x reply :
  copies k x → sync_ready x (SyFetch reply) → ∃ s, lss_fetch reply (ss_service x) = Ret s.
Proof.
  intros [Hk _ _ _] Hok. unfold lss_fetch. destruct (lss_at (ss_service x)); try by eexists.
  destruct (lss_joining (ss_service x)); [by eexists|]. destruct (negb _); [by eexists|]. destruct (mReaders (ss_service x)); [by eexists|].
  unfold LogReader_fetch. destruct reply as [r|]; [|by eexists]. destruct Hok as (src & maxc & cur & Hs & Hf & Hr). rewrite Hk in *.
  destruct (reply_entries k src maxc cur r Hs Hf Hr) as [_ Hfi]. destruct (Z.eqb_spec (ger_first_index r) 0) as [|Hne]; [by eexists|].
  rewrite (proj2 (Z.leb_le _ _) (Hfi Hne)). simpl. destruct (ger_entries r); by eexists.
Qed.

Lemma lss_handle_flagless s logs :
  lss_at s = SyncFetched FetchOK logs → mEndLogFlag s = false → ∃ s' req, lss_handle s = Ret (s', req).
Proof.
  intros Ha Hf. unfold lss_handle, truncateLogs. rewrite Ha, Hf. simpl. destruct (truncate_loop (endLog s) logs) as [flag logs'].
  destruct logs'; by eexists _, _.
Qed.

Lemma lss_handle_total k s : stops k s → ∃ s' req, lss_handle s = Ret (s', req).
Proof.
  intros [_ _ _ S4 _ S6]. unfold lss_handle. destruct (lss_at s) as [| |r logs|] eqn:Ea; try by eexists _, _.
  assert (Hf : fetched s) by (by exists r, logs). destruct r; [|destruct (mReaders s) eqn:Er; [by destruct (S6 Hf)|by eexists _, _]..].
  assert (Hfl : mEndLogFlag s = false) by (destruct (mEndLogFlag s); [by destruct (S4 eq_refl) as (_ & Hx & _)|done]).
  destruct (lss_handle_flagless s logs Ea Hfl) as (s' & req & Hh). unfold lss_handle in Hh. rewrite Ea in Hh. by exists s', req.
Qed.

Lemma handle_index s s' req :
  lss_handle s = Ret (s', req) → lss_mLastIndex s' = lss_mLastIndex s + Z.of_nat (from_option (length ∘ sync_mEntries) 0%nat req).
Proof.
  unfold lss_handle. intros Hh. destruct (lss_at s) as [| |[| |] logs|]; try (injection Hh as <- <-; simpl; lia).
  2,3: destruct (mReaders s); [done|]; injection Hh as <- <-; simpl; lia.
  apply bind_Ret in Hh as ([flag logs'] & _ & Hh). destruct logs' as [|e es]; injection Hh as <- <-; simpl; lia.
Qed.

Lemma handle_data s e es s' req :
  lss_at s = SyncFetched FetchOK (e :: es) → lss_handle s = Ret (s', req) →
  ∃ request, req = Some request ∧ lss_mLastIndex s < lss_mLastIndex s' ∧
    lss_at s' = SyncTop ∧ mRunning s' = mRunning s ∧ mReaders s' = mReaders s.
Proof.
  unfold lss_handle. intros -> Hh. remember (e :: es) as logs eqn:El. apply bind_Ret in Hh as ([flag logs'] & Ht & Hh).
  unfold truncateLogs in Ht. apply cassert_bind in Ht as [_ [= Ht]]. destruct (truncate_loop_spec _ _ _ _ Ht) as (_ & Hn & _).
  destruct logs' as [|e' es']; [rewrite Hn in El; done|]. injection Hh as <- <-. eexists. split; [done|]. simpl. split; [lia|done].
Qed.

Lemma copies_unique k k' x : copies k x → copies k' x → k = k'.
Proof. intros [Hk _ _ _] [Hk' _ _ _]. lia. Qed.

Lemma calm_step k x step :
  syncing k x → sync_ready x step → calm x step → ∃ k' x', sync_exec x step = Ret x' ∧ (k ≤ k')%nat ∧ syncing k' x'.
Proof.
  intros [Hc Hs] Hok Hcalm.
  assert (Hgo : ∀ x', sync_exec x step = Ret x' → (∀ k', copies k' x' → stops k' (ss_service x')) →
    ∃ k' x', sync_exec x step = Ret x' ∧ (k ≤ k')%nat ∧ syncing k' x').
  { intros x' Hx Hst. destruct (sync_step_copies k x step x' Hc Hok Hx) as (k' & Hle & Hc'). exists k', x'. split_and!; [done|done|]. split; auto. }
  assert (Hsame : ∀ s x', ss_service x' = s → lss_mLastIndex s = lss_mLastIndex (ss_service x) → stops k s →
    ∀ k', copies k' x' → stops k' (ss_service x')).
  { intros s x' <- Hl Hst k' [Hk' _ _ _]. destruct Hc as [Hk _ _ _]. replace k' with k by lia. done. }
  destruct step as [|reply| | |eps p| |]; simpl in *.
  - eapply Hgo; [done|]. eapply Hsame; [done| |by apply stops_top]. unfold lss_top. by destruct (lss_at (ss_service x)).
  - destruct (lss_fetch_total k x reply Hc Hok) as [s Hf]. rewrite Hf in *. eapply Hgo; [done|].
    eapply Hsame; [done| |by eapply stops_fetch]. simpl. unfold lss_fetch in Hf. destruct (lss_at (ss_service x)); try by injection Hf as <-.
    destruct (lss_joining _); [by injection Hf as <-|]. split_if Hf; [by injection Hf as <-|]. destruct (mReaders _); [by injection Hf as <-|].
    by apply bind_Ret in Hf as ([r logs] & _ & [= <-]).
  - destruct (lss_handle_total k _ Hs) as (s & req & Hh). rewrite Hh in *. eapply Hgo; [done|]. simpl. intros k' [Hk' _ _ _]. simpl in Hk'.
    rewrite (handle_index _ _ _ Hh) in Hk'. rewrite (cp_last _ _ Hc) in Hk'. eapply stops_handle in Hh; [|done|by apply Hc].
    by replace k' with (k + from_option (length ∘ sync_mEntries) 0 req)%nat by lia.
  - destruct (ss_queue x) as [|r queue] eqn:Eq; [eapply Hgo; [done|]; by eapply Hsame|].
    destruct (cp_queue _ _ Hc) as (n & Hcn & Hqn). rewrite Eq in Hqn. destruct Hqn as (m & Hm & -> & _).
    destruct (handle_request n m _ Hcn Hm) as (core' & Hh & _). rewrite Hh in *. eapply Hgo; [done|]. by eapply Hsame.
  - destruct Hcalm as (-> & Hq & Hne). destruct (stops_setTargets k x eps Hc Hs Hq Hne) as (le & Hle & Hst). rewrite Hle in *.
    eapply Hgo; [done|]. eapply Hsame; [done| |exact Hst]. unfold setTargets. destruct (lss_joining _); [done|]. simpl.
    destruct (negb _ && _); [done|]. by destruct (mEndLogFlag _).
  - assert (Hj : setTargets_joined (ss_service x) = ss_service x) by (unfold setTargets_joined; by rewrite (st_joining _ _ Hs)).
    eapply Hgo; [done|]. eapply Hsame; [simpl; exact Hj|done|exact Hs].
  - eapply Hgo; [done|]. eapply Hsame; [done|done|]. destruct Hs as [S1 S2 S3 S4 S5 S6]. by split.
Qed.

(** What [terminateSyncMode] finds. *)
Lemma core_getEntry n k core :
  core_has n core → (0 < k)%nat → (n ≤ k)%nat →
  getEntry (core_mLog core) (Z.of_nat k) = if decide (n = k) then E !! (k - 1)%nat else None.
Proof.
  intros Hcn Hpos Hle. pose proof (core_last _ _ Hcn) as Hlast. destruct Hcn as (_ & Hi & Hf & _ & He).
  case_decide as Hd; [|by rewrite spec_getEntry_above by (done || lia)]. subst n. rewrite spec_getEntry_in by (done || lia).
  unfold lv_lookup. rewrite Hf, (proj2 (Z.ltb_ge _ _)) by lia. rewrite He. replace (Z.to_nat (Z.of_nat k - 1)) with (k - 1)%nat by lia.
  by rewrite lookup_take_lt by lia.
Qed.

Lemma is_end_payload e : is_end e = true → ∃ tag, le_specialTag e = Some tag ∧ tag_payload tag = plan.
Proof. unfold is_end. destruct (le_specialTag e) as [tag|]; [|done]. intros [_ Hp%bool_decide_eq_true]%andb_true_iff. by exists tag. Qed.

Lemma terminate_verdict k n x planId tagCommitIndex :
  copies k x → stops k (ss_service x) → core_has n (ss_core x) → queue_has n (ss_queue x) k →
  let verdict := terminateSyncMode planId tagCommitIndex (getEntry (core_mLog (ss_core x)) (Z.of_nat k)) (ss_service x) in
  (mEndLogFlag (ss_service x) = true ∧ (tagCommitIndex = 0 ∨ tagCommitIndex = Z.of_nat k) ∧ planId = plan ∧ ss_queue x = [] →
    verdict = inr (Z.of_nat k + 1)) ∧
  (∀ b, verdict = inr b → mEndLogFlag (ss_service x) = true ∧ (tagCommitIndex = 0 ∨ tagCommitIndex = Z.of_nat k) ∧ planId = plan ∧
    ss_queue x = [] ∧ b = Z.of_nat k + 1).
Proof.
  intros [Hk _ _ _] Hs Hn Hq. simpl. unfold terminateSyncMode. rewrite Hk. destruct (mEndLogFlag (ss_service x)) eqn:Ef; simpl; [|by split; [intros [? _]|]].
  destruct (st_flag _ _ Hs Ef) as [(e & He & Het & Hpos) _]. destruct (is_end_payload e Het) as (tag & Htag & <-).
  rewrite (core_getEntry n k) by (done || by eapply queue_has_le).
  assert (Hempty : ss_queue x = [] ↔ n = k). { destruct (ss_queue x); [done|]. split; [done|]. destruct Hq as (m & Hm & _ & Hq%queue_has_le). lia. }
  destruct (Z.eqb_spec tagCommitIndex 0) as [Ht|Ht]; destruct (Z.eqb_spec tagCommitIndex (Z.of_nat k)) as [Ht'|Ht']; simpl;
    try (split; [intros (_ & [?|?] & _); lia|done]); (case_decide as Hd; [rewrite He; simpl; rewrite Htag; case_bool_decide as Hp|]; simpl);
    (split; [intros (_ & _ & Hp' & Hqe)|intros b Hb]); try done; try (by destruct Hp); try (by apply Hempty in Hqe); injection Hb as <-;
    split_and!; auto; by apply Hempty.
Qed.

(** A run of calm steps. *)
Fixpoint calm_run x (steps : list SyncStep) : Prop :=
  match steps with
  | [] => True
  | step :: steps => sync_ready x step ∧ calm x step ∧ ∀ x', sync_exec x step = Ret x' → calm_run x' steps
  end.

Lemma calm_execs k x steps :
  syncing k x → calm_run x steps → ∃ k' x', sync_execs x steps = Ret x' ∧ (k ≤ k')%nat ∧ syncing k' x'.
Proof.
  revert k x. induction steps as [|step steps IH]; intros k x Hx Hr; [by exists k, x|]. destruct Hr as (Hok & Hc & Hr).
  destruct (calm_step k x step Hx Hok Hc) as (k1 & x1 & He & Hle & Hx1). simpl. rewrite He. simpl.
  destruct (IH k1 x1 Hx1 (Hr _ He)) as (k2 & x2 & He2 & Hle2 & Hx2). exists k2, x2. split_and!; [done|lia|done].
Qed.

Lemma sync_execs_app x steps more x1 : sync_execs x steps = Ret x1 → sync_execs x (steps ++ more) = sync_execs x1 more.
Proof.
  revert x. induction steps as [|step steps IH]; intros x Hx; [by injection Hx as ->|].
  simpl in *. destruct (sync_exec x step) as [x0|]; [|done]. by apply IH.
Qed.

Lemma calm_run_app x steps more x1 : sync_execs x steps = Ret x1 → calm_run x steps → calm_run x1 more → calm_run x (steps ++ more).
Proof.
  revert x. induction steps as [|step steps IH]; intros x Hx Hc Hm; [by injection Hx as ->|].
  destruct Hc as (Hok & Hcalm & Hc). simpl in Hx. split; [done|]. split; [done|]. intros x0 Hst. rewrite Hst in Hx. apply IH; [done|by apply Hc|done].
Qed.

Lemma syncing_init n core :
  core_has n core → (∀ i e, (i + 1 < n)%nat → E !! i = Some e → is_end e = false) →
  syncing n (mk_SyncState (LogSyncService_new (getLastLogIndex (core_mLog core))) [] core).
Proof.
  intros Hcn Hb. pose proof (core_last _ _ Hcn) as Hl. pose proof Hcn as (_ & Hi & _ & Hn & _).
  assert (Hnf : ¬ fetched (LogSyncService_new (getLastLogIndex (core_mLog core)))) by (by intros (? & ? & ?)). split.
  - split; simpl; [by rewrite (spec_last _ Hi)|done|by exists n|done].
  - split; simpl; try done; [by right|by intros; right].
Qed.

End invariant.
