(* ===== verification/LogSyncTheorems.v ===== *)
(** * What the log sync service does

    A calm run copies exactly the log up to the split command and gets there when
    a node of the other cluster offers it; the handover to the Raft core; what an
    early second [setTargets], and one for another plan, lead to. *)
From S2P Require Import Prelude Protobuf Control Ledger RaftLog RaftCore RaftTheorems Pipeline AsyncLoad LogSync LogSyncProps.
Open Scope Z_scope.

(** ** Progress *)
Section progress.
Context `{LogSpec L}.
Context (E : list LogEntry) (plan : string).
Hypothesis S_indices : ∀ k e, E !! k = Some e → le_index e = Z.of_nat (k + 1).
Implicit Types (x : SyncState L) (src : RaftCore L).

(** A node of the other cluster that answers for the first [j] entries. *)
Definition offers (j : nat) src : Prop :=
  sees E src ∧ lv_first (log_view (core_mLog src)) = 1 ∧ Z.of_nat j ≤ mCommitIndex src ∧
  ∀ start, 1 ≤ start ≤ Z.of_nat j → ∃ e es, RaftCore_getEntries src start (mCommitIndex src - start + 1) = Ret (e :: es).

(** At the top of the loop with targets, everything handled. *)
Record copying (k : nat) x : Prop := {
  cy_syncing : syncing E plan k x;
  cy_top : lss_at (ss_service x) = SyncTop;
  cy_running : mRunning (ss_service x) = true;
  cy_readers : mReaders (ss_service x) ≠ [];
  cy_queue : ss_queue x = [] }.

Lemma offers_reply j src k :
  offers j src → (k < j)%nat →
  ∃ e es first last, StreamingService_GetEntries src 1 1 (Z.of_nat k + 1) =
    Ret (mk_GetEntries_Response 0 "Success" (e :: es) first last (mCommitIndex src)) ∧ first = 1.
Proof.
  intros (Hs & Hf & Hj & Ho) Hk. destruct (Ho (Z.of_nat k + 1)) as (e & es & Hg); [lia|].
  exists e, es, (getFirstLogIndex (core_mLog src)), (getLastLogIndex (core_mLog src)).
  unfold StreamingService_GetEntries. simpl. unfold StreamingService_getEntries. rewrite (proj2 (Z.ltb_ge _ _)) by lia. rewrite Hg. simpl.
  split; [done|]. destruct Hs as [Hi _]. by rewrite (spec_first _ Hi).
Qed.

Lemma copying_round j src k x :
  offers j src → (k < j)%nat → copying k x → mEndLogFlag (ss_service x) = false →
  ∃ steps k' x', calm_run E plan x steps ∧ sync_execs x steps = Ret x' ∧ (k < k')%nat ∧ copying k' x'.
Proof.
  intros Ho Hk [Hx Ht Hr Hrd Hq] Hfl. destruct (offers_reply j src k Ho Hk) as (e & es & first & la & Hrep & ->).
  set (r := mk_GetEntries_Response 0 "Success" (e :: es) 1 la (mCommitIndex src)) in *.
  assert (Hlast := cp_last _ _ _ (sy_copies _ _ _ _ Hx)).
  assert (Hjoin := st_joining _ _ _ _ (sy_stops _ _ _ _ Hx)).
  exists [SyTop; SyFetch (Some r); SyHandle; SyRaft].
  assert (Hcalm : calm_run E plan x [SyTop; SyFetch (Some r); SyHandle; SyRaft]).
  { split; [done|]. split; [done|]. intros x1 [= <-]. split.
    - exists src, 1, 1. destruct Ho as (Hs & Hf & _). simpl. assert (Hl1 : lss_mLastIndex (lss_top (ss_service x)) = Z.of_nat k) by (unfold lss_top; by rewrite Ht).
      rewrite Hl1. split_and!; [done|lia|done].
    - split; [done|]. intros x2 _. split_and!; [done|done|]. intros x3 _. by split_and!. }
  destruct (calm_execs E plan S_indices k x _ Hx Hcalm) as (k' & x' & He & Hle & Hx'). exists k', x'. split; [done|]. split; [done|].
  pose proof (sy_copies _ _ _ _ Hx') as Hc'. destruct x as [s queue core]. simpl in *. subst queue.
  unfold lss_top in He. rewrite Ht, Hr, Hfl in He. simpl in He. unfold lss_fetch in He. simpl in He. rewrite Hjoin, Hr, Hlast in He. simpl in He.
  destruct (mReaders s) as [|rd rds] eqn:Erd; [done|]. rewrite (proj2 (Z.leb_le 1 (Z.of_nat k + 1))) in He by lia. cbn -[lss_handle] in He.
  apply bind_Ret in He as (x1 & Hh & He). apply bind_Ret in Hh as ([s1 req] & Hh & [= <-]).
  eapply handle_data in Hh as (request & -> & Hl1 & Hat1 & Hr1 & Hrd1); [|done]. simpl in *.
  apply bind_Ret in He as (x2 & Hcore & [= <-]). apply bind_Ret in Hcore as (core' & _ & [= <-]).
  pose proof (cp_last _ _ _ Hc') as Hk'. simpl in Hk'. split; [lia|]. split; simpl; try done. by rewrite Hrd1.
Qed.

Lemma copying_reaches_end j src k x :
  offers j src → (∃ e, E !! (j - 1)%nat = Some e ∧ is_end plan e = true ∧ (0 < j)%nat) → copying k x →
  ∃ steps k' x', calm_run E plan x steps ∧ sync_execs x steps = Ret x' ∧ copying k' x' ∧ mEndLogFlag (ss_service x') = true.
Proof.
  intros Ho Hj. remember (length E - k)%nat as w eqn:Ew. revert k x Ew. induction (lt_wf w) as [w _ IH]. intros k x -> Hx.
  destruct (mEndLogFlag (ss_service x)) eqn:Efl; [by exists [], k, x|].
  assert (Hk : (k < j)%nat).
  { destruct Hj as (e & He & Het & Hj). destruct (sy_stops _ _ _ _ (cy_syncing _ _ Hx)) as [S1 _ _ _ S5 _].
    destruct (decide (k < j)%nat); [done|]. destruct (decide (j < k)%nat); [by rewrite (S1 (j - 1)%nat e) in Het by (done || lia)|].
    assert (k = j) as -> by lia. destruct (S5 e Hj He Het) as [Hf|[Hf _]]; [congruence|by destruct (cy_readers _ _ Hx)]. }
  destruct (copying_round j src k x Ho Hk Hx Efl) as (steps & k1 & x1 & Hc1 & He1 & Hlt & Hx1).
  pose proof (cp_range _ _ _ (sy_copies _ _ _ _ (cy_syncing _ _ Hx1))) as Hr1.
  destruct (IH (length E - k1)%nat ltac:(lia) k1 x1 eq_refl Hx1) as (more & k2 & x2 & Hc2 & He2 & Hx2 & Hf2).
  exists (steps ++ more), k2, x2. split_and!; [|by rewrite (sync_execs_app _ _ _ _ He1)|done|done]. by apply (calm_run_app E plan x steps more x1).
Qed.

(** With something queued the last entry is not found, and the thread restarts. *)
Lemma restart_runs k x endPoints reply e es :
  copies E k x → stops E plan k (ss_service x) → (0 < k)%nat →
  mEndLogFlag (ss_service x) = true → lss_at (ss_service x) = SyncGone → mRunning (ss_service x) = true → ss_queue x ≠ [] →
  endPoints ≠ [] → sync_ready E x (SyFetch (Some reply)) → ger_first_index reply ≠ 0 → ger_entries reply = e :: es →
  ∃ x', sync_execs x [SySetTargets endPoints plan; SyJoined; SyTop; SyFetch (Some reply)] = Ret x' ∧
    lss_at (ss_service x') = SyncFetched FetchOK (e :: es) ∧ mEndLogFlag (ss_service x') = false ∧
    lss_mLastIndex (ss_service x') = Z.of_nat k ∧ copies E k x'.
Proof.
  intros Hc Hs Hpos Hf Hg Hrun Hq Hne Hok Hfi Hre.
  destruct (cp_queue _ _ _ Hc) as (n & Hn & Hqn). pose proof (cp_last _ _ _ Hc) as Hk. pose proof (st_joining _ _ _ _ Hs) as Hj. pose proof Hn as (Hrole & _).
  assert (Hnone : getEntry (core_mLog (ss_core x)) (Z.of_nat k) = None).
  { rewrite (core_getEntry E n k) by (done || by eapply queue_has_le). destruct (ss_queue x) as [|r queue]; [done|].
    destruct Hqn as (m & Hm & _ & Hqm%queue_has_le). by rewrite decide_False by lia. }
  destruct endPoints as [|ep eps]; [done|]. destruct (fetch_ok E k x reply Hc Hok Hfi) as [Hle Hsl]. rewrite Hre in Hsl.
  exists (mk_SyncState (mk_LogSyncService (ep :: eps) plan (Z.of_nat k) true false (SyncFetched FetchOK (e :: es))
    (0 `mod` Z.of_nat (length (ep :: eps))) None) (ss_queue x) (ss_core x)). split; [|split_and!; try done].
  - simpl. unfold RaftCore_getEntry. rewrite Hrole, Hk, Hnone. simpl. unfold setTargets. rewrite Hj. simpl. rewrite Hk, Hf, andb_false_r.
    unfold setTargets_joined. simpl. rewrite Hg, Hrun. simpl. unfold lss_fetch. simpl. rewrite (proj2 (Z.eqb_neq _ _) Hfi).
    by rewrite (proj2 (Z.leb_le _ _) Hle), Hre.
  - split; simpl; [done|by apply Hc|by exists n|]. intros r logs [= <- <-]. exact Hsl.
Qed.
End progress.

(** A call that joins a waiting thread. *)
Section stuck.
Context `{LogSpec L}.

Lemma is_end_other planA planB e : is_end planA e = true → planA ≠ planB → is_end planB e = false.
Proof.
  intros He Hne. destruct (is_end_payload planA e He) as (tag & Ht & Hp). unfold is_end. rewrite Ht, Hp.
  by rewrite (bool_decide_eq_false_2 _ Hne), andb_false_r.
Qed.

Lemma setTargets_found planId s endPoints e :
  lss_joining s = None → lss_mLastIndex s ≠ 0 → is_end planId e = true →
  setTargets endPoints planId (Some e) s = lss_set_end (lss_set_plan s planId) true.
Proof. intros Hj Hl He. unfold setTargets. rewrite Hj. simpl. change (endLog (lss_set_plan s planId) e) with (is_end planId e). by rewrite (proj2 (Z.eqb_neq _ _) Hl), He. Qed.

Lemma setTargets_joins planId s endPoints e :
  lss_joining s = None → mEndLogFlag s = true → is_end planId e = false →
  setTargets endPoints planId (Some e) s =
    mk_LogSyncService (mReaders s) planId (lss_mLastIndex s) (mRunning s) true (lss_at s) (clientIdx s) (Some endPoints).
Proof. intros Hj Hf He. unfold setTargets. rewrite Hj. simpl. change (endLog (lss_set_plan s planId) e) with (is_end planId e). by rewrite He, andb_false_r, Hf. Qed.

Lemma stuck_execs endPoints (x x' : SyncState L) steps :
  lss_joining (ss_service x) = Some endPoints → lss_at (ss_service x) = SyncWait → sync_execs x steps = Ret x' →
  lss_joining (ss_service x') = Some endPoints ∧ lss_at (ss_service x') = SyncWait.
Proof.
  revert x. induction steps as [|step steps IH]; intros x Hj Ha Hx; [by injection Hx as <-|].
  simpl in Hx. apply bind_Ret in Hx as (x1 & H1 & Hx). cut (lss_joining (ss_service x1) = Some endPoints ∧ lss_at (ss_service x1) = SyncWait).
  { intros [Hj1 Ha1]. by apply (IH x1). }
  clear Hx IH. destruct step; simpl in H1.
  - injection H1 as <-. unfold lss_top. by rewrite Ha.
  - unfold lss_fetch in H1. rewrite Ha, Hj in H1. by injection H1 as <-.
  - unfold lss_handle in H1. rewrite Ha in H1. by injection H1 as <-.
  - destruct (ss_queue x); [by injection H1 as <-|]. by apply bind_Ret in H1 as (core & _ & [= <-]).
  - apply bind_Ret in H1 as (le & _ & [= <-]). unfold setTargets. by rewrite Hj.
  - injection H1 as <-. unfold setTargets_joined. by rewrite Hj, Ha.
  - by injection H1 as <-.
Qed.
End stuck.

(** ** Claims of the module: a sample *)
Module SampleSync.
Import (hints) SampleRaft.
Definition plan : string := "p".
Definition entry (term index : Z) (tag : option SpecialTag) : LogEntry := mk_LogEntry term index false 0 EmptyString 0 tag.
Definition entries : list LogEntry :=
  [entry 1 1 None; entry 1 2 (Some (mk_SpecialTag 101 "other")); entry 2 3 (Some (mk_SpecialTag 101 plan)); entry 2 4 None].
Definition source : RaftCore InMemoryLog :=
  let c := SampleRaft.node 2 in
  mk_RaftCore (mConf c) (mPeers c) (mClients c) (mSelfInfo c) 1 0 4 1 Leader (mk_InMemoryLog entries 1 4 2 0) [].
Definition copier : RaftCore InMemoryLog :=
  let c := SampleRaft.node 1 in
  mk_RaftCore (mConf c) (mPeers c) (mClients c) (mSelfInfo c) 0 0 0 1 Syncer (core_mLog c) [].
Definition start : SyncState InMemoryLog :=
  mk_SyncState (LogSyncService_new (getLastLogIndex (core_mLog copier))) [] copier.
Definition reply (index : Z) : option GetEntries_Response :=
  match StreamingService_GetEntries source 10 1 index with Ret r => Some r | Fail _ => None end.
Definition steps : list (SyncStep) := [SyTop; SySetTargets ["a"] plan; SyFetch (reply 1); SyHandle; SyTop; SyRaft].
Definition after (x : SyncState InMemoryLog) (steps : list SyncStep) : SyncState InMemoryLog :=
  match sync_execs x steps with Ret x => x | Fail _ => x end.

Lemma entry_indices : map le_index entries = [1; 2; 3; 4].
Proof. vm_compute. reflexivity. Qed.

Lemma entries_indices k e : entries !! k = Some e → le_index e = Z.of_nat (k + 1).
Proof.
  intros Hk. apply (f_equal (fmap le_index)) in Hk. rewrite <- list_lookup_fmap in Hk.
  change (map le_index entries !! k = Some (le_index e)) in Hk. rewrite entry_indices in Hk.
  do 4 (destruct k as [|k]; [by injection Hk as <-|]). done.
Qed.

Lemma source_sees : sees entries source.
Proof.
  split_and!.
  - split; [reflexivity|]. split; [done|]. intros k e Hk. rewrite (entries_indices k e Hk), Nat2Z.inj_add, Z.add_comm. done.
  - vm_compute. congruence.
  - vm_compute. congruence.
  - intros i [Hf _]. unfold lv_lookup. rewrite (proj2 (Z.ltb_ge _ _)) by exact Hf. done.
Qed.

Lemma source_offers : offers entries 3 source.
Proof.
  split; [exact source_sees|]. split; [reflexivity|]. split; [vm_compute; congruence|].
  intros i Hi. assert (Hc : i = 1 ∨ i = 2 ∨ i = 3) by lia. destruct Hc as [->|[->| ->]]; vm_compute; by eexists _, _.
Qed.

Lemma copier_has : core_has entries 0 copier.
Proof. split_and!; [reflexivity| |reflexivity|simpl; lia|reflexivity]. split; [reflexivity|]. split; [done|]. by intros k e Hk. Qed.

Lemma steps_calm : calm_run entries plan start steps.
Proof.
  split; [done|]. split; [done|]. intros x1 [= <-]. split; [done|]. split; [by split_and!|]. intros x2 [= <-]. split.
  - exists source, 10, 1. split; [exact source_sees|]. split; vm_compute; [congruence|reflexivity].
  - split; [done|]. intros x3 _. split; [done|]. split; [done|]. intros x4 _. split; [done|]. split; [done|].
    intros x5 _. by split_and!.
Qed.

Lemma after_syncing steps k :
  calm_run entries plan start steps → lss_mLastIndex (ss_service (after start steps)) = Z.of_nat k →
  syncing entries plan k (after start steps).
Proof.
  intros Hc Hk. assert (Hinit : syncing entries plan 0 start) by (apply syncing_init; [exact copier_has|intros i e Hi; lia]).
  destruct (calm_execs entries plan entries_indices 0 start _ Hinit Hc) as (k' & x & He & _ & Hx).
  assert (Heq : after start steps = x) by (unfold after; by rewrite He).
  rewrite Heq in *. pose proof (cp_last _ _ _ (sy_copies _ _ _ _ Hx)) as Hk'. by assert (k = k') as -> by lia.
Qed.

(** After a first failed fetch the service is between two rounds. *)
Definition failing : list SyncStep := [SyTop; SySetTargets ["a"] plan; SyFetch None; SyHandle].

Lemma start_copying : copying entries plan 0 (after start failing).
Proof.
  split; [|vm_compute; congruence..]. apply after_syncing; [|vm_compute; reflexivity].
  split; [done|]. split; [done|]. intros x1 [= <-]. split; [done|]. split; [by split_and!|]. intros x2 _. split; [done|]. split; [done|].
  intros x3 _. by split_and!.
Qed.

(** Synced, and synced with the last request still queued. *)
Lemma steps_syncing : syncing entries plan 3 (after start steps).
Proof. apply after_syncing; [exact steps_calm|vm_compute; reflexivity]. Qed.

Lemma calm_run_take x n l : calm_run entries plan x l → calm_run entries plan x (take n l).
Proof.
  revert x n. induction l as [|step l IH]; intros x [|n] Hc; simpl; try done. destruct Hc as (Ha & Hb & Hc).
  split; [done|]. split; [done|]. intros x' Hx. by apply IH, Hc.
Qed.

Lemma queued_syncing : syncing entries plan 3 (after start (take 5 steps)).
Proof. apply after_syncing; [apply calm_run_take; exact steps_calm|vm_compute; reflexivity]. Qed.
End SampleSync.

Import (hints) SampleRaft.

(** C24. A calm run copies exactly the other cluster's log: whatever nodes are asked and
    however the turns of the thread, of Raft and of [setTargets] (called for this
    plan, with nothing queued) interleave, no step fails, what Raft has is the
    first entries of that log, in order and committed up to its end, none of them
    behind the split command of the plan, and the service counts itself synced only
    when the last entry it copied is that split command, the first one there is. *)
Theorem log_sync_exact `{LogSpec L} E plan n (core : RaftCore L) steps :
  (∀ k e, E !! k = Some e → le_index e = Z.of_nat (k + 1)) →
  core_has E n core → (∀ i e, (i + 1 < n)%nat → E !! i = Some e → is_end plan e = false) →
  let start := mk_SyncState (LogSyncService_new (getLastLogIndex (core_mLog core))) [] core in
  calm_run E plan start steps →
  ∃ x k m, sync_execs start steps = Ret x ∧
    lss_mLastIndex (ss_service x) = Z.of_nat k ∧ (n ≤ k)%nat ∧ (m ≤ k)%nat ∧
    lv_entries (log_view (core_mLog (ss_core x))) = take m E ∧ (ss_queue x = [] → m = k) ∧
    (∀ i e, (i + 1 < k)%nat → E !! i = Some e → is_end plan e = false) ∧
    (mEndLogFlag (ss_service x) = true → ∃ e, E !! (k - 1)%nat = Some e ∧ is_end plan e = true).
Proof.
  intros Hidx Hn Hb start Hrun. destruct (calm_execs E plan Hidx n start steps) as (k & x & He & Hle & [Hc Hs]); [by apply syncing_init|done|].
  destruct (cp_queue _ _ _ Hc) as (m & Hm & Hq). exists x, k, m. split; [done|]. split; [by apply Hc|]. split; [done|].
  split; [by eapply queue_has_le|]. split; [by destruct Hm as (_ & _ & _ & _ & ?)|]. split; [by intros Hx; rewrite Hx in Hq|].
  split; [apply Hs|]. intros Hf. destruct (st_flag _ _ _ _ Hs Hf) as [(e & He' & Het & _) _]. by exists e.
Qed.

Lemma log_sync_exact_witness :
  ∃ x k m, sync_execs SampleSync.start SampleSync.steps = Ret x ∧ lss_mLastIndex (ss_service x) = Z.of_nat k ∧
    lv_entries (log_view (core_mLog (ss_core x))) = take m SampleSync.entries.
Proof.
  destruct (log_sync_exact SampleSync.entries SampleSync.plan 0 SampleSync.copier SampleSync.steps) as (x & k & m & He & Hk & _ & _ & Hm & _).
  - exact SampleSync.entries_indices.
  - exact SampleSync.copier_has.
  - intros i e Hi. lia.
  - exact SampleSync.steps_calm.
  - exists x, k, m. split; [exact He|]. split; [exact Hk|exact Hm].
Defined.

(** C25. Copying gets there: when some node of the other cluster is the source of the
    replies, a service with targets that is between two rounds reaches, by some turns
    of the thread and of Raft, the state in which it is synced and Raft has the log up
    to and including the split command of the plan, and nothing more. *)
Theorem log_sync_completes `{LogSpec L} E plan j (src : RaftCore L) k x :
  (∀ k e, E !! k = Some e → le_index e = Z.of_nat (k + 1)) →
  offers E j src → copying E plan k x →
  (∃ e, E !! (j - 1)%nat = Some e ∧ is_end plan e = true ∧ (0 < j)%nat) →
  ∃ steps x' k' e, calm_run E plan x steps ∧ sync_execs x steps = Ret x' ∧ mEndLogFlag (ss_service x') = true ∧
    lv_entries (log_view (core_mLog (ss_core x'))) = take k' E ∧ E !! (k' - 1)%nat = Some e ∧ is_end plan e = true ∧
    (∀ i e', (i + 1 < k')%nat → E !! i = Some e' → is_end plan e' = false).
Proof.
  intros Hidx Ho Hx Hj. destruct (copying_reaches_end E plan Hidx j src k x Ho Hj Hx) as (steps & k' & x' & Hc & He & Hx' & Hf).
  pose proof (cy_syncing _ _ _ _ Hx') as [Hcp Hst]. destruct (st_flag _ _ _ _ Hst Hf) as [(e & He' & Het & _) _].
  exists steps, x', k', e. do 3 (split; [done|]). split; [|split; [done|split; [done|apply Hst]]].
  destruct (cp_queue _ _ _ Hcp) as (n & (_ & _ & _ & _ & Hn) & Hq). rewrite (cy_queue _ _ _ _ Hx') in Hq. simpl in Hq. by subst n.
Qed.

Lemma log_sync_completes_witness :
  ∃ steps x' k', sync_execs (SampleSync.after SampleSync.start SampleSync.failing) steps = Ret x' ∧
    mEndLogFlag (ss_service x') = true ∧ lv_entries (log_view (core_mLog (ss_core x'))) = take k' SampleSync.entries.
Proof.
  destruct (log_sync_completes SampleSync.entries SampleSync.plan 3 SampleSync.source 0
    (SampleSync.after SampleSync.start SampleSync.failing))
    as (steps & x' & k' & e & _ & He & Hf & Hv & _).
  - exact SampleSync.entries_indices.
  - exact SampleSync.source_offers.
  - exact SampleSync.start_copying.
  - eexists. split; [reflexivity|]. split; [vm_compute; reflexivity|lia].
  - exists steps, x', k'. split; [exact He|]. split; [exact Hf|exact Hv].
Defined.

(** C26. The handover: [terminateSyncMode] answers without failing, and it accepts
    exactly when the split command has been found, the index given is 0 or the one
    reached, the plan is the one copied for and Raft has handled everything; the
    signal it then sends makes the core a follower whose own log begins right
    behind the split command, with the log copied untouched. *)
Theorem sync_handover `{LogSpec L} E plan k (x : SyncState L) planId tagCommitIndex :
  (∀ k e, E !! k = Some e → le_index e = Z.of_nat (k + 1)) → syncing E plan k x →
  ∃ x' error, sync_terminate x planId tagCommitIndex = Ret (x', error) ∧
    (error = None ↔ mEndLogFlag (ss_service x) = true ∧ (tagCommitIndex = 0 ∨ tagCommitIndex = Z.of_nat k) ∧
       planId = plan ∧ ss_queue x = []) ∧
    (error = None → ∃ x'', sync_exec x' SyRaft = Ret x'' ∧ mRaftRole (ss_core x'') = Follower ∧
       mBeginIndex (ss_core x'') = Z.of_nat k + 1 ∧ core_mLog (ss_core x'') = core_mLog (ss_core x) ∧
       lv_entries (log_view (core_mLog (ss_core x''))) = take k E) ∧
    (error ≠ None → x' = x).
Proof.
  intros Hidx [Hc Hs]. destruct (cp_queue _ _ _ Hc) as (n & Hn & Hq). pose proof (cp_last _ _ _ Hc) as Hk.
  pose proof Hn as (Hrole & _). unfold sync_terminate, RaftCore_getEntry. rewrite Hrole, Hk. simpl.
  pose proof (terminate_verdict E plan k n x planId tagCommitIndex Hc Hs Hn Hq) as Hv.
  destruct (terminateSyncMode planId tagCommitIndex (getEntry (core_mLog (ss_core x)) (Z.of_nat k)) (ss_service x)) as [err|b].
  - exists x, (Some err). split; [done|]. split; [|by split]. split; [done|]. intros Hx. destruct Hv as [Hv _]. by specialize (Hv Hx).
  - destruct Hv as [_ Hv]. destruct (Hv b eq_refl) as (Hf & Ht & Hp & Hqe & ->). exists (mk_SyncState (ss_service x) (ss_queue x ++ [mk_SyncRequest [] 0 0 (Some (Z.of_nat k + 1))]) (ss_core x)), None.
    split; [done|]. split; [done|]. split; [|done]. intros _. rewrite Hqe in *. simpl in Hq. subst n. simpl. unfold handleSyncRequest. rewrite Hrole. simpl.
    eexists. split; [done|]. simpl. do 3 (split; [done|]). by destruct Hn as (_ & _ & _ & _ & ?).
Qed.

Lemma sync_handover_witness :
  ∃ x', sync_terminate (SampleSync.after SampleSync.start SampleSync.steps) SampleSync.plan 3 = Ret (x', None) ∧
    ∃ x'', sync_exec x' SyRaft = Ret x'' ∧ mRaftRole (ss_core x'') = Follower ∧ mBeginIndex (ss_core x'') = 4.
Proof.
  destruct (sync_handover SampleSync.entries SampleSync.plan 3 (SampleSync.after SampleSync.start SampleSync.steps) SampleSync.plan 3)
    as (x' & error & Ht & [_ Hok] & Hrun & _).
  - exact SampleSync.entries_indices.
  - exact SampleSync.steps_syncing.
  - assert (He : error = None).
    { apply Hok. split; [vm_compute; reflexivity|]. split; [right; lia|]. split; [reflexivity|vm_compute; reflexivity]. }
    rewrite He in Ht. destruct (Hrun He) as (x'' & Hx & Hr & Hb & _). exists x'. split; [exact Ht|]. exists x''. split; [exact Hx|]. split; [exact Hr|exact Hb].
Defined.

(** A second [setTargets] for the plan is not safe while Raft still has requests of
    the copy queued: the split command, found but not yet in the log, is looked for in
    the log, is not found, and the copy is started again behind it.  The next reply is
    then queued for Raft: entries behind the split command. *)
Theorem sync_restart_past_split `{LogSpec L} E plan k (x : SyncState L) endPoints reply :
  (∀ k e, E !! k = Some e → le_index e = Z.of_nat (k + 1)) → syncing E plan k x →
  mEndLogFlag (ss_service x) = true → lss_at (ss_service x) = SyncGone → mRunning (ss_service x) = true → ss_queue x ≠ [] →
  endPoints ≠ [] → sync_ready E x (SyFetch (Some reply)) → ger_first_index reply ≠ 0 → ger_entries reply ≠ [] →
  ∃ x' k', sync_execs x [SySetTargets endPoints plan; SyJoined; SyTop; SyFetch (Some reply); SyHandle] = Ret x' ∧
    lss_mLastIndex (ss_service x') = Z.of_nat k' ∧ (k < k')%nat ∧ copies E k' x' ∧
    ∃ e, E !! (k - 1)%nat = Some e ∧ is_end plan e = true.
Proof.
  intros Hidx [Hc Hs] Hf Hg Hrun Hq Hne Hok Hfi Hre. destruct (st_flag _ _ _ _ Hs Hf) as [(e & He & Het & Hpos) _].
  destruct (fetch_ok E k x reply Hc Hok Hfi) as [_ Hsl]. destruct (ger_entries reply) as [|e0 es] eqn:Ere; [done|].
  destruct (restart_runs E plan k x endPoints reply e0 es Hc Hs) as (x0 & Hx0 & Ha0 & Hf0 & Hl0 & Hc0); try done.
  destruct (lss_handle_flagless _ _ Ha0 Hf0) as (s1 & req & Hh). destruct (handle_data _ _ _ _ _ Ha0 Hh) as (request & -> & Hlt & _).
  assert (Hx1 : sync_exec x0 SyHandle = Ret (mk_SyncState s1 (ss_queue x0 ++ [request]) (ss_core x0))) by (simpl; by rewrite Hh).
  destruct (sync_step_copies E Hidx k x0 SyHandle _ Hc0 I Hx1) as (k' & Hle & Hc').
  eexists _, k'. split; [pose proof (sync_execs_app x _ [SyHandle] _ Hx0) as Happ; simpl app in Happ; rewrite Happ; cbn [sync_execs]; by rewrite Hx1|].
  pose proof (cp_last _ _ _ Hc') as Hk'. simpl in Hk'. split; [done|]. split; [lia|]. split; [done|]. by exists e.
Qed.

Lemma sync_restart_past_split_witness :
  ∃ x' k', sync_execs (SampleSync.after SampleSync.start (take 5 SampleSync.steps))
    [SySetTargets ["b"] SampleSync.plan; SyJoined; SyTop; SyFetch (SampleSync.reply 4); SyHandle] = Ret x' ∧
    lss_mLastIndex (ss_service x') = Z.of_nat k' ∧ (3 < k')%nat.
Proof.
  assert (Hr : ∃ r, SampleSync.reply 4 = Some r ∧ ger_first_index r ≠ 0 ∧ ger_entries r ≠ [] ∧
    StreamingService_GetEntries SampleSync.source 10 1 4 = Ret r).
  { eexists. split; [vm_compute; reflexivity|]. split; [vm_compute; congruence|]. split; [vm_compute; congruence|vm_compute; reflexivity]. }
  destruct Hr as (r & -> & Hfi & Hre & Hr).
  destruct (sync_restart_past_split SampleSync.entries SampleSync.plan 3 (SampleSync.after SampleSync.start (take 5 SampleSync.steps)) ["b"] r)
    as (x' & k' & He & Hk & Hlt & _).
  - exact SampleSync.entries_indices.
  - exact SampleSync.queued_syncing.
  - vm_compute. reflexivity.
  - vm_compute. reflexivity.
  - vm_compute. reflexivity.
  - vm_compute. congruence.
  - congruence.
  - exists SampleSync.source, 10, 1. split; [exact SampleSync.source_sees|]. split; [vm_compute; congruence|].
    assert (Hl : lss_mLastIndex (ss_service (SampleSync.after SampleSync.start (take 5 SampleSync.steps))) + 1 = 4) by (vm_compute; reflexivity).
    rewrite Hl. exact Hr.
  - exact Hfi.
  - exact Hre.
  - exists x', k'. split; [exact He|]. split; [exact Hk|exact Hlt].
Defined.

(** A [setTargets] that finds the split command at once, while the thread waits for
    its first targets, leaves a trap: the next one, for another plan, joins a thread
    that waits for the mutex the call holds.  Whatever happens then, shutdown
    included, the call never returns and the thread never leaves its wait. *)
Theorem setTargets_deadlock `{LogSpec L} planA planB eps0 endPoints e (core : RaftCore L) steps x :
  let last := getLastLogIndex (core_mLog core) in
  last ≠ 0 → RaftCore_getEntry core last = Ret (Some e) → is_end planA e = true → planA ≠ planB →
  sync_execs (mk_SyncState (LogSyncService_new last) [] core)
    (SyTop :: SySetTargets eps0 planA :: SySetTargets endPoints planB :: steps) = Ret x →
  lss_joining (ss_service x) = Some endPoints ∧ lss_at (ss_service x) = SyncWait.
Proof.
  intros la Hl Hg He Hne Hx. simpl in Hx. rewrite Hg in Hx. simpl in Hx.
  rewrite (setTargets_found planA (lss_top _) _ e) in Hx by done. simpl in Hx. fold la in Hg. rewrite Hg in Hx. simpl in Hx.
  rewrite (setTargets_joins planB _ _ e) in Hx by (done || by apply (is_end_other planA)).
  eapply stuck_execs; [| |exact Hx]; done.
Qed.

Lemma setTargets_deadlock_witness :
  let core := ss_core (SampleSync.after SampleSync.start SampleSync.steps) in
  ∃ x, sync_execs (mk_SyncState (LogSyncService_new 3) [] core)
    [SyTop; SySetTargets ["a"] SampleSync.plan; SySetTargets ["b"] "q"; SyShutdown; SyTop; SyFetch None; SyHandle; SyJoined] = Ret x ∧
    lss_joining (ss_service x) = Some ["b"] ∧ lss_at (ss_service x) = SyncWait.
Proof.
  intros core. assert (Hl : getLastLogIndex (core_mLog core) = 3) by (vm_compute; reflexivity).
  eexists. split; [vm_compute; reflexivity|].
  refine (setTargets_deadlock SampleSync.plan "q" ["a"] ["b"] (SampleSync.entry 2 3 (Some (mk_SpecialTag 101 SampleSync.plan))) core
    [SyShutdown; SyTop; SyFetch None; SyHandle; SyJoined] _ _ _ _ _ _).
  - rewrite Hl. discriminate.
  - vm_compute. reflexivity.
  - vm_compute. reflexivity.
  - discriminate.
  - rewrite Hl. vm_compute. reflexivity.
Defined.
