(* ===== verification/Queue.v ===== *)
(** * The queue between producers and the consumer

    src/src/infra/mpscqueue/MpscDoubleBufferQueue.{h,cpp}: any number of
    producers, one consumer, one lock, one condition variable and two atomics.
    A step is what one thread does between two points where another thread can
    intervene; [exec] runs one step, and is [None] where the thread is blocked
    or is not at that point.  The lock is held by the consumer at the points
    [CLocked], [CWaitLoop] and [CAboutToSleep]; a producer holds it only
    within its step [EnqueuePush]. *)
From S2P Require Import Prelude.
Open Scope Z_scope.

(** Where the consumer is. *)
Inductive ConsumerPoint :=
  | CIdle            (** outside [dequeue] *)
  | CLocked          (** [mConsumerQueue] was empty, the lock is taken *)
  | CWaitLoop        (** lock held, about to evaluate the predicate of [wait] *)
  | CAboutToSleep    (** lock held, the predicate was false *)
  | CAsleep          (** lock released, waiting for a notification *)
  | CWoken           (** notified, waiting for the lock *)
  | CReady           (** [mConsumerQueue] is not empty *)
  | CPop.            (** [mQueueSize] is decremented, the item not yet taken *)

#[export] Instance ConsumerPoint_eq_dec : EqDecision ConsumerPoint.
Proof. solve_decision. Defined.

Section queue.
Context {T : Type}.

(** [q_pending]: the producers that have passed the test of [mShouldExit], with
    what they push; [q_notify]: calls of [shutdown] that have set the flag and
    not yet notified.  [q_pushed] and [q_popped] are histories: the values
    pushed, in the order of the lock, and the values [dequeue] returned. *)
Record MpscQueue := mk_MpscQueue {
  mProducerQueue : list T;
  mConsumerQueue : list T;
  mQueueSize : Z;
  mShouldExit : bool;
  q_consumer : ConsumerPoint;
  q_pending : gmap Z T;
  q_notify : nat;
  q_stopped : nat;          (* QueueStoppedException thrown by [dequeue] *)
  q_pushed : list T;
  q_popped : list T }.

Implicit Types q : MpscQueue.

Definition MpscQueue_new : MpscQueue := mk_MpscQueue [] [] 0 false CIdle ∅ 0 0 [] [].

Definition consumer_has_lock q : bool :=
  match q_consumer q with CLocked | CWaitLoop | CAboutToSleep => true | _ => false end.

Definition at_point q (p : ConsumerPoint) : MpscQueue :=
  mk_MpscQueue (mProducerQueue q) (mConsumerQueue q) (mQueueSize q) (mShouldExit q) p
    (q_pending q) (q_notify q) (q_stopped q) (q_pushed q) (q_popped q).

(** [mCondVar.notify_one()]: nothing happens when nobody is asleep. *)
Definition notify_one q : MpscQueue :=
  if bool_decide (q_consumer q = CAsleep) then at_point q CWoken else q.

(** [throw QueueStoppedException()] out of [dequeue]. *)
Definition throw_stopped q : MpscQueue :=
  mk_MpscQueue (mProducerQueue q) (mConsumerQueue q) (mQueueSize q) (mShouldExit q) CIdle
    (q_pending q) (q_notify q) (S (q_stopped q)) (q_pushed q) (q_popped q).

(** [std::swap(mProducerQueue, mConsumerQueue)] *)
Definition swap_queues q : MpscQueue :=
  mk_MpscQueue (mConsumerQueue q) (mProducerQueue q) (mQueueSize q) (mShouldExit q) CReady
    (q_pending q) (q_notify q) (q_stopped q) (q_pushed q) (q_popped q).

(** [enqueue] up to the lock: [None] when it throws. *)
Definition enqueue_check q (tid : Z) (t : T) : option MpscQueue :=
  if mShouldExit q then None
  else if bool_decide (is_Some (q_pending q !! tid)) then None
  else Some (mk_MpscQueue (mProducerQueue q) (mConsumerQueue q) (mQueueSize q) (mShouldExit q)
               (q_consumer q) (<[tid := t]> (q_pending q)) (q_notify q) (q_stopped q) (q_pushed q)
               (q_popped q)).

(** [push_back] and [++mQueueSize]. *)
Definition push_back q (tid : Z) (t : T) : MpscQueue :=
  mk_MpscQueue (mProducerQueue q ++ [t]) (mConsumerQueue q) (u64 (mQueueSize q + 1))
    (mShouldExit q) (q_consumer q) (delete tid (q_pending q)) (q_notify q)
    (q_stopped q) (q_pushed q ++ [t]) (q_popped q).

(** [enqueue], the section under the lock. *)
Definition enqueue_push q (tid : Z) : option MpscQueue :=
  if consumer_has_lock q then None
  else
    match q_pending q !! tid with
    | None => None
    | Some t =>
        let isEmpty := bool_decide (mProducerQueue q = []) in
        let q := push_back q tid t in
        Some (if isEmpty then notify_one q else q)
    end.

(** [dequeue], the next step of the consumer. *)
Definition dequeue_step q : option MpscQueue :=
  match q_consumer q with
  | CIdle => Some (at_point q (if bool_decide (mConsumerQueue q = []) then CLocked else CReady))
  | CLocked =>
      Some (if bool_decide (mProducerQueue q = []) then
              if mShouldExit q then throw_stopped q else at_point q CWaitLoop
            else swap_queues q)
  | CWaitLoop =>
      Some (if negb (bool_decide (mProducerQueue q = [])) || mShouldExit q then
              if bool_decide (mProducerQueue q = []) then throw_stopped q else swap_queues q
            else at_point q CAboutToSleep)
  | CAboutToSleep => Some (at_point q CAsleep)
  | CAsleep => None
  | CWoken => Some (at_point q CWaitLoop)
  | CReady =>
      Some (mk_MpscQueue (mProducerQueue q) (mConsumerQueue q) (u64 (mQueueSize q - 1))
              (mShouldExit q) CPop (q_pending q) (q_notify q) (q_stopped q) (q_pushed q) (q_popped q))
  | CPop =>
      match mConsumerQueue q with
      | [] => None
      | t :: rest =>
          Some (mk_MpscQueue (mProducerQueue q) rest (mQueueSize q) (mShouldExit q) CIdle
                  (q_pending q) (q_notify q) (q_stopped q) (q_pushed q) (q_popped q ++ [t]))
      end
  end.

(** [shutdown]: the flag is set without the lock, then the notification. *)
Definition shutdown_set q : MpscQueue :=
  mk_MpscQueue (mProducerQueue q) (mConsumerQueue q) (mQueueSize q) true (q_consumer q)
    (q_pending q) (S (q_notify q)) (q_stopped q) (q_pushed q) (q_popped q).
Definition shutdown_notify q : option MpscQueue :=
  match q_notify q with
  | O => None
  | S k => Some (notify_one (mk_MpscQueue (mProducerQueue q) (mConsumerQueue q) (mQueueSize q)
                   (mShouldExit q) (q_consumer q) (q_pending q) k (q_stopped q) (q_pushed q) (q_popped q)))
  end.

Definition queue_size q : Z := Z.of_nat (length (mConsumerQueue q)).
Definition estimateTotalSize q : Z :=
  Z.of_nat (length (mConsumerQueue q)) + Z.of_nat (length (mProducerQueue q)).
Definition queue_empty q : bool := mQueueSize q =? 0.

Inductive QStep :=
  | EnqueueCheck (tid : Z) (t : T) | EnqueuePush (tid : Z)
  | Dequeue | ShutdownSet | ShutdownNotify | SpuriousWakeup.

Definition exec q (e : QStep) : option MpscQueue :=
  match e with
  | EnqueueCheck tid t => enqueue_check q tid t
  | EnqueuePush tid => enqueue_push q tid
  | Dequeue => dequeue_step q
  | ShutdownSet => Some (shutdown_set q)
  | ShutdownNotify => shutdown_notify q
  | SpuriousWakeup => if bool_decide (q_consumer q = CAsleep) then Some (at_point q CWoken) else None
  end.

(** A schedule, every step of which is possible. *)
Fixpoint exec_all q (es : list QStep) : option MpscQueue :=
  match es with
  | [] => Some q
  | e :: es => match exec q e with Some q => exec_all q es | None => None end
  end.

(** ** The invariant *)
Record queue_inv q : Prop := {
  (** first in, first out, nothing lost, nothing twice *)
  qi_fifo : q_pushed q = q_popped q ++ mConsumerQueue q ++ mProducerQueue q;
  (** the counter, which runs one ahead between the decrement and the pop *)
  qi_size : mQueueSize q =
    u64 (estimateTotalSize q - if bool_decide (q_consumer q = CPop) then 1 else 0);
  (** the consumer looks for more only when it has nothing left *)
  qi_drained : q_consumer q ≠ CIdle → q_consumer q ≠ CReady → q_consumer q ≠ CPop →
    mConsumerQueue q = [];
  qi_ready : q_consumer q = CReady ∨ q_consumer q = CPop → mConsumerQueue q ≠ [];
  (** no push is overslept *)
  qi_asleep : q_consumer q = CAsleep ∨ q_consumer q = CAboutToSleep → mProducerQueue q = [];
  (** an exception is only thrown on shutdown *)
  qi_stopped : q_stopped q ≠ O → mShouldExit q = true }.

Lemma queue_inv_new : queue_inv MpscQueue_new.
Proof. split; simpl; try done; naive_solver. Qed.

Lemma u64_shift a b : u64 (u64 a + b) = u64 (a + b).
Proof. unfold u64. by rewrite Zplus_mod_idemp_l. Qed.

(** Moving the consumer between two points. *)
Lemma at_point_inv q p :
  queue_inv q → q_consumer q ≠ CPop → p ≠ CPop →
  (p ≠ CIdle → p ≠ CReady → mConsumerQueue q = []) → (p = CReady → mConsumerQueue q ≠ []) →
  (p = CAsleep ∨ p = CAboutToSleep → mProducerQueue q = []) → queue_inv (at_point q p).
Proof.
  intros [I1 I2 I3 I4 I5 I6] Hq Hp H1 H2 H3. split; simpl; try done.
  - unfold estimateTotalSize in *. simpl. rewrite bool_decide_eq_false_2 in I2 |- * by done. done.
  - auto.
  - intros [?|?]; [auto|done].
Qed.

Lemma wake_inv q : queue_inv q → q_consumer q = CAsleep → queue_inv (at_point q CWoken).
Proof.
  intros Hi Hc. apply at_point_inv; try done; try congruence.
  - intros _ _. by apply (qi_drained _ Hi); rewrite Hc.
  - by intros [?|?].
Qed.

Lemma notify_one_inv q : queue_inv q → queue_inv (notify_one q).
Proof. intros Hi. unfold notify_one. case_bool_decide; [by apply wake_inv|done]. Qed.

Lemma swap_queues_inv q :
  queue_inv q → q_consumer q ≠ CPop → mConsumerQueue q = [] → mProducerQueue q ≠ [] →
  queue_inv (swap_queues q).
Proof.
  intros [I1 I2 I3 I4 I5 I6] Hq Hc Hp. split; simpl; try done.
  - rewrite I1, Hc, app_nil_r. done.
  - unfold estimateTotalSize in *. simpl. rewrite bool_decide_eq_false_2 in I2 by done.
    rewrite I2. f_equal. lia.
Qed.

Lemma throw_stopped_inv q :
  queue_inv q → q_consumer q ≠ CPop → mShouldExit q = true → queue_inv (throw_stopped q).
Proof.
  intros [I1 I2 I3 I4 I5 I6] Hq He. split; simpl; try done; try naive_solver.
  unfold estimateTotalSize in *. simpl. by rewrite bool_decide_eq_false_2 in I2 by done.
Qed.

Lemma dequeue_step_inv q q' : queue_inv q → dequeue_step q = Some q' → queue_inv q'.
Proof.
  intros Hi. unfold dequeue_step. destruct (q_consumer q) eqn:Hc.
  - intros [= <-]. case_bool_decide; (apply at_point_inv; intuition congruence).
  - assert (He : mConsumerQueue q = []) by (apply (qi_drained _ Hi); by rewrite Hc).
    intros [= <-]. case_bool_decide.
    + destruct (mShouldExit q) eqn:Hx; [by apply throw_stopped_inv; rewrite ?Hc|].
      (apply at_point_inv; intuition congruence).
    + by apply swap_queues_inv; rewrite ?Hc.
  - assert (He : mConsumerQueue q = []) by (apply (qi_drained _ Hi); by rewrite Hc).
    intros [= <-]. case_bool_decide; simpl.
    + destruct (mShouldExit q) eqn:Hx; [by apply throw_stopped_inv; rewrite ?Hc|].
      (apply at_point_inv; intuition congruence).
    + by apply swap_queues_inv; rewrite ?Hc.
  - assert (He : mConsumerQueue q = []) by (apply (qi_drained _ Hi); by rewrite Hc).
    intros [= <-]. assert (mProducerQueue q = []) by (apply (qi_asleep _ Hi); by right).
    apply at_point_inv; intuition congruence.
  - done.
  - assert (He : mConsumerQueue q = []) by (apply (qi_drained _ Hi); by rewrite Hc).
    intros [= <-]. (apply at_point_inv; intuition congruence).
  - intros [= <-]. destruct Hi as [I1 I2 I3 I4 I5 I6]. rewrite Hc in *.
    split; simpl; try done; try naive_solver.
    rewrite I2. unfold estimateTotalSize. simpl. rewrite <- !Z.add_opp_r, u64_shift. f_equal. lia.
  - destruct (mConsumerQueue q) as [|t rest] eqn:Hq; [done|]. intros [= <-].
    destruct Hi as [I1 I2 I3 I4 I5 I6]. rewrite Hc, Hq in *. split; simpl; try done; try naive_solver.
    + rewrite I1, <- app_assoc. done.
    + rewrite I2. unfold estimateTotalSize. rewrite Hq. simpl. f_equal. lia.
Qed.

Lemma enqueue_push_inv q tid q' : queue_inv q → enqueue_push q tid = Some q' → queue_inv q'.
Proof.
  unfold enqueue_push. intros Hi. destruct (consumer_has_lock q) eqn:Hl; [done|].
  destruct (q_pending q !! tid) as [t|] eqn:Ht; [|done]. intros [= <-].
  destruct Hi as [I1 I2 I3 I4 I5 I6].
  assert (Hsize : u64 (mQueueSize q + 1) = u64 (Z.of_nat (length (mConsumerQueue q)) +
    Z.of_nat (length (mProducerQueue q ++ [t])) - (if bool_decide (q_consumer q = CPop) then 1 else 0))).
  { rewrite I2, u64_shift. unfold estimateTotalSize. rewrite length_app. simpl. f_equal. lia. }
  destruct (decide (q_consumer q = CAsleep)) as [Ha|Ha].
  - rewrite bool_decide_eq_true_2 by (apply I5; by left).
    unfold notify_one; simpl. rewrite bool_decide_eq_true_2 by done.
    split; simpl; try done; [|by rewrite Ha in Hsize| |naive_solver|naive_solver].
    + by rewrite I1, !app_assoc.
    + intros _ _ _. apply I3; by rewrite Ha.
  - assert (Hi' : queue_inv (push_back q tid t)).
    { split; simpl; try done; [by rewrite I1, !app_assoc|]. intros [?|Hs]; [done|].
      unfold consumer_has_lock in Hl. by rewrite Hs in Hl. }
    destruct (bool_decide (mProducerQueue q = [])); [by apply notify_one_inv|done].
Qed.

Lemma exec_inv q e q' : queue_inv q → exec q e = Some q' → queue_inv q'.
Proof.
  intros Hi. destruct e as [tid t|tid| | | |]; simpl.
  - unfold enqueue_check. destruct (mShouldExit q) eqn:Hx; [done|]. case_bool_decide; [done|].
    intros [= <-]. destruct Hi; split; simpl; try done. by rewrite <- Hx.
  - by apply enqueue_push_inv.
  - by apply dequeue_step_inv.
  - intros [= <-]. destruct Hi; by split.
  - unfold shutdown_notify. destruct (q_notify q); [done|]. intros [= <-].
    apply notify_one_inv. destruct Hi; by split.
  - case_bool_decide; [|done]. intros [= <-]. by apply wake_inv.
Qed.

Lemma exec_all_inv q es q' : queue_inv q → exec_all q es = Some q' → queue_inv q'.
Proof.
  revert q. induction es as [|e es IH]; intros q Hi; simpl; [by intros [= <-]|].
  destruct (exec q e) as [q1|] eqn:E; [|done]. apply IH. by eapply exec_inv.
Qed.

End queue.
Arguments MpscQueue : clear implicits.
Arguments QStep : clear implicits.

(** ** The theorems *)

(** C27. First in, first out: after any interleaving of producers, consumer and
    shutdown, what was pushed is what [dequeue] returned followed by what is in
    the two buffers, in order; and, while fewer than 2^64 items are queued and
    the consumer is not inside its last two statements, [empty] says whether
    the buffers are empty. *)
Theorem queue_fifo {T} (es : list (QStep T)) q :
  exec_all MpscQueue_new es = Some q →
  q_pushed q = q_popped q ++ mConsumerQueue q ++ mProducerQueue q ∧
  (q_consumer q ≠ CPop → estimateTotalSize q < two64 →
   queue_empty q = true ↔ mConsumerQueue q = [] ∧ mProducerQueue q = []).
Proof.
  intros He. destruct (exec_all_inv _ _ _ queue_inv_new He) as [I1 I2 _ _ _ _]. split; [done|].
  intros Hc Hs. rewrite bool_decide_eq_false_2 in I2 by done. unfold queue_empty.
  rewrite I2, Z.sub_0_r. unfold u64, estimateTotalSize in *.
  rewrite Z.mod_small by lia. rewrite Z.eqb_eq.
  destruct (mConsumerQueue q), (mProducerQueue q); simpl; split; try done; try lia; intros [? ?]; done.
Qed.

Lemma queue_fifo_witness :
  ∃ q, exec_all MpscQueue_new
         [EnqueueCheck 1 10; EnqueueCheck 2 20; EnqueuePush 2; Dequeue; Dequeue; EnqueuePush 1;
          Dequeue; Dequeue] = Some q ∧
    q_pushed q = [20; 10] ∧ q_popped q = [20] ∧
    (queue_empty q = true ↔ mConsumerQueue q = [] ∧ mProducerQueue q = []).
Proof.
  eexists. split; [vm_compute; reflexivity|]. do 2 (split; [reflexivity|]).
  eapply (queue_fifo [EnqueueCheck 1 10; EnqueueCheck 2 20; EnqueuePush 2; Dequeue; Dequeue; EnqueuePush 1;
    Dequeue; Dequeue]); [vm_compute; reflexivity|done|done].
Defined.

(** As long as anything is queued, [dequeue] neither blocks nor throws, even
    after a shutdown: wherever the consumer stands, at most four of its own
    steps return the oldest item. *)
Theorem queue_delivers {T} (es : list (QStep T)) q x rest :
  exec_all MpscQueue_new es = Some q → mConsumerQueue q ++ mProducerQueue q = x :: rest →
  ∃ k q', (k ≤ 4)%nat ∧ exec_all q (replicate k Dequeue) = Some q' ∧
    q_consumer q' = CIdle ∧ q_popped q' = q_popped q ++ [x] ∧
    mConsumerQueue q' ++ mProducerQueue q' = rest ∧ q_stopped q' = q_stopped q.
Proof.
  intros He Hx. pose proof (exec_all_inv _ _ _ queue_inv_new He) as Hi.
  destruct q as [pq cq size exit_ p pend nt st pushed popped]; destruct Hi as [_ _ I3 I4 I5 _]; simpl in *.
  destruct p; simpl in *.
  - destruct cq as [|c cq].
    + exists 4%nat. simpl in Hx. subst pq. eexists. split; [lia|]. simpl.
      split; [done|]. simpl. by rewrite app_nil_r.
    + exists 3%nat. injection Hx as -> <-. eexists. split; [lia|]. by split.
  - exists 3%nat. rewrite (I3 ltac:(done) ltac:(done) ltac:(done)) in *. simpl in Hx. subst pq.
    eexists. split; [lia|]. split; [done|]. simpl. by rewrite app_nil_r.
  - exists 3%nat. rewrite (I3 ltac:(done) ltac:(done) ltac:(done)) in *. simpl in Hx. subst pq.
    eexists. split; [lia|]. split; [done|]. simpl. by rewrite app_nil_r.
  - rewrite (I3 ltac:(done) ltac:(done) ltac:(done)), (I5 (or_intror eq_refl)) in Hx. done.
  - rewrite (I3 ltac:(done) ltac:(done) ltac:(done)), (I5 (or_introl eq_refl)) in Hx. done.
  - exists 4%nat. rewrite (I3 ltac:(done) ltac:(done) ltac:(done)) in *. simpl in Hx. subst pq.
    eexists. split; [lia|]. split; [done|]. simpl. by rewrite app_nil_r.
  - exists 2%nat. destruct cq as [|c cq]; [by destruct (I4 (or_introl eq_refl))|].
    injection Hx as -> <-. eexists. split; [lia|]. by split.
  - exists 1%nat. destruct cq as [|c cq]; [by destruct (I4 (or_intror eq_refl))|].
    injection Hx as -> <-. eexists. split; [lia|]. by split.
Qed.

Lemma queue_delivers_witness :
  ∃ q q' k, exec_all MpscQueue_new
      [Dequeue; Dequeue; Dequeue; Dequeue; EnqueueCheck 1 10; EnqueuePush 1; ShutdownSet; ShutdownNotify]
      = Some q ∧
    exec_all q (replicate k Dequeue) = Some q' ∧ q_popped q' = [10].
Proof.
  eexists. edestruct (queue_delivers
      [Dequeue; Dequeue; Dequeue; Dequeue; EnqueueCheck 1 10; EnqueuePush 1; ShutdownSet; ShutdownNotify])
    as (k & q' & _ & Hk & _ & Hp & _); [vm_compute; reflexivity|reflexivity|].
  exists q', k. split; [vm_compute; reflexivity|]. split; [exact Hk|exact Hp].
Defined.

(** The flag of [shutdown] is set without the lock: when that and the
    notification fall between the consumer's test and its going to sleep, the
    notification is lost and [dequeue] never returns, although the queue is
    stopped (short of a spurious wake-up or a second shutdown). *)
Theorem shutdown_wakeup_lost :
  ∃ (es : list (QStep Z)) q, exec_all MpscQueue_new es = Some q ∧
    mShouldExit q = true ∧ q_consumer q = CAsleep ∧ q_stopped q = 0%nat ∧
    ∀ es' q', Forall (λ e, e ≠ SpuriousWakeup ∧ e ≠ ShutdownSet) es' →
      exec_all q es' = Some q' → q_consumer q' = CAsleep.
Proof.
  exists [Dequeue; Dequeue; Dequeue; ShutdownSet; ShutdownNotify; Dequeue].
  eexists. split; [vm_compute; reflexivity|]. do 3 (split; [reflexivity|]).
  intros [|e es'] q' Hall Hr.
  - injection Hr as <-. reflexivity.
  - inversion_clear Hall as [|? ? [Hs Hd] _]. by destruct e.
Qed.

(** A producer that passed the test before the shutdown pushes after the
    consumer has been told that the queue is stopped. *)
Example late_push :
  ∃ q, exec_all MpscQueue_new [EnqueueCheck 1 10; ShutdownSet; Dequeue; Dequeue; EnqueuePush 1] = Some q ∧
    q_stopped q = 1%nat ∧ mProducerQueue q = [10].
Proof. eexists. split; [vm_compute; reflexivity|]. done. Qed.
