(* ===== verification/RocksSM.v ===== *)
(** * The RocksDB-backed state machine

    src/src/app_ledger/v2/RocksDBBackedAppStateMachine.{h,cpp} and
    MemoryBackedAppStateMachine.h: the callbacks of LedgerSM.v write to a write
    batch, [commit] flushes it every [mMaxBatchSize] bundles together with the
    index it stands for, [recoverSelf] reloads the state, and [swapState] hands
    it to a new leader.  The event apply loop of src/src/app_util/EventApplyLoop.h
    drives it.

    RocksDB is not part of the program: it is the class [RocksDB], whose laws
    are the documented behaviour of a key-value store with atomic batches. *)
From stdpp Require Import pretty.
From S2P Require Import Prelude Protobuf Domain Es Control Ledger LedgerSM LedgerProps Numeric.
Open Scope Z_scope.

(** ** RocksDB *)

(** [ColumnFamilyIndices] *)
Inductive ColumnFamily := DEFAULT | CHART_OF_ACCOUNTS | ACCOUNT_METADATA | DONE_MAP.

#[export] Instance ColumnFamily_eq_dec : EqDecision ColumnFamily.
Proof. solve_decision. Defined.
#[export] Instance ColumnFamily_countable : Countable ColumnFamily.
Proof.
  refine (inj_countable' (λ c, match c with DEFAULT => 0 | CHART_OF_ACCOUNTS => 1 | ACCOUNT_METADATA => 2
                                       | DONE_MAP => 3 end)
    (λ z, if z =? 0 then DEFAULT else if z =? 1 then CHART_OF_ACCOUNTS
          else if z =? 2 then ACCOUNT_METADATA else DONE_MAP) _). by intros [].
Defined.

Definition kLastAppliedIndexKey : string := "last_applied_index".

(** The status of [Get] with the value it found. *)
Inductive GetResult := GetOk (value : string) | GetNotFound | GetError.

Abbreviation KV := (gmap (ColumnFamily * string) string).
Abbreviation PutOp := (ColumnFamily * string * string)%type.

(** Puts one after the other. *)
Definition put_all (m : KV) (ops : list PutOp) : KV :=
  foldl (λ m op, <[op.1 := op.2]> m) m ops.

(** [db_view] and [batch_view] say what a database and a batch contain; an
    operation whose status is not [ok] gives [None] or [GetError]. *)
Class RocksDB (D B : Type) := {
  Get : D → ColumnFamily → string → GetResult;
  Iterate : D → ColumnFamily → option (list (string * string));
  DB_Write : D → B → option D;
  Batch_Put : B → ColumnFamily → string → string → option B;
  Batch_Count : B → Z;
  Batch_Clear : B → B;
  db_view : D → KV;
  batch_view : B → list PutOp;
  Get_ok d cf k v : Get d cf k = GetOk v → db_view d !! (cf, k) = Some v;
  Get_not_found d cf k : Get d cf k = GetNotFound → db_view d !! (cf, k) = None;
  Iterate_spec d cf kvs : Iterate d cf = Some kvs →
    NoDup kvs.*1 ∧ ∀ k v, (k, v) ∈ kvs ↔ db_view d !! (cf, k) = Some v;
  Write_spec d b d' : DB_Write d b = Some d' → db_view d' = put_all (db_view d) (batch_view b);
  Put_spec b cf k v b' : Batch_Put b cf k v = Some b' → batch_view b' = batch_view b ++ [(cf, k, v)];
  Count_spec b : Batch_Count b = Z.of_nat (length (batch_view b));
  Clear_spec b : batch_view (Batch_Clear b) = [];
}.

(** ** The state machine *)
Section rocks.
Context `{LedgerProtos} `{Proto protos_Account} `{Proto protos_AccountMetadata} `{RocksDB D B}.

Record RocksDBBackedAppStateMachine := mk_Rocks {
  rsm_state : AppStateMachine;
  mRocksDB : D;
  mWriteBatch : B;
  mLastFlushedIndex : Z }.
Implicit Types s : RocksDBBackedAppStateMachine.

Definition mMaxBatchSize : Z := 500.

(** A put whose status is not [ok] ends in [assert(0)]. *)
Definition put s (cf : ColumnFamily) (k v : string) : result RocksDBBackedAppStateMachine :=
  match Batch_Put (mWriteBatch s) cf k v with
  | Some b => Ret (mk_Rocks (rsm_state s) (mRocksDB s) b (mLastFlushedIndex s))
  | None => Fail AssertFailure
  end.

Definition put_account s (account : Account) : result RocksDBBackedAppStateMachine :=
  accountProto ← Account_encodeTo account default_instance;
  put s CHART_OF_ACCOUNTS (pretty (Account_mNominalCode account)) (SerializeAsString accountProto).

(** The callbacks. *)
Definition callback s (c : Callback) : result RocksDBBackedAppStateMachine :=
  match c with
  | onAccountMetadataUpdated m =>
      accountMetadataProto ← AccountMetadata_encodeTo m default_instance;
      put s ACCOUNT_METADATA (pretty (AccountType_to_int (AccountMetadata_mAccountType m)))
        (SerializeAsString accountMetadataProto)
  | onAccountInserted account => put_account s account
  | onAccountUpdated account => put_account s account
  | onBookkeepingProcessed dedupId validTime => put s DONE_MAP dedupId (pretty validTime)
  end.

(** [applyEvent] of this class: the state changes and the callbacks write. *)
Definition rocks_applyEvent (groupId : Z) s (e : Event) : result RocksDBBackedAppStateMachine :=
  '(state, calls) ← applyEvent groupId (rsm_state s) e;
  foldM callback (mk_Rocks state (mRocksDB s) (mWriteBatch s) (mLastFlushedIndex s)) calls.

Definition flushToRocksDB s : result RocksDBBackedAppStateMachine :=
  match DB_Write (mRocksDB s) (mWriteBatch s) with
  | Some db => Ret (mk_Rocks (rsm_state s) db (Batch_Clear (mWriteBatch s)) (mLastFlushedIndex s))
  | None => Fail AssertFailure
  end.

Definition commit s (appliedIndex : Z) : result RocksDBBackedAppStateMachine :=
  s ← put s DEFAULT kLastAppliedIndexKey (pretty appliedIndex);
  if appliedIndex -ᵤ mLastFlushedIndex s <? mMaxBatchSize then Ret s
  else
    s ← flushToRocksDB s;
    Ret (mk_Rocks (rsm_state s) (mRocksDB s) (mWriteBatch s) appliedIndex).

(** The two loops of [loadFromRocksDB]. *)
Definition load_account (coa : gmap Z Account) (kv : string * string) : result (gmap Z Account) :=
  account ← Account_initWith (snd (ParseFromString (kv.2)));
  let nominalCode := Account_mNominalCode account in
  k ← stoull kv.1;
  cassert (nominalCode =? k);;
  cassert (bool_decide (coa !! nominalCode = None));;
  Ret (<[nominalCode := account]> coa).

Definition load_metadata (metas : gmap AccountType AccountMetadata) (kv : string * string)
    : result (gmap AccountType AccountMetadata) :=
  accountMetadata ← AccountMetadata_initWith (snd (ParseFromString (kv.2)));
  let type := AccountMetadata_mAccountType accountMetadata in
  k ← stoi kv.1;
  cassert (AccountType_to_int type =? k);;
  cassert (bool_decide (metas !! type = None));;
  Ret (<[type := accountMetadata]> metas).

Definition load_family {A} (cf : ColumnFamily) (load : A → string * string → result A) s (a : A) : result A :=
  match Iterate (mRocksDB s) cf with
  | Some kvs => foldM load a kvs
  | None => Fail AssertFailure
  end.

Definition loadFromRocksDB s : result RocksDBBackedAppStateMachine :=
  index ← match Get (mRocksDB s) DEFAULT kLastAppliedIndexKey with
          | GetOk value => stoull value
          | GetNotFound => Ret 0
          | GetError => Fail AssertFailure
          end;
  coa ← load_family CHART_OF_ACCOUNTS load_account s (mCoA (rsm_state s));
  metas ← load_family ACCOUNT_METADATA load_metadata s (mAccountMetadata (rsm_state s));
  Ret (mk_Rocks (set_mAccountMetadata (set_mCoA (rsm_state s) coa) metas)
         (mRocksDB s) (mWriteBatch s) index).

Definition recoverSelf s : result (Z * RocksDBBackedAppStateMachine) :=
  cassert (Batch_Count (mWriteBatch s) =? 0);;
  s ← loadFromRocksDB (mk_Rocks (clearState (rsm_state s)) (mRocksDB s) (mWriteBatch s)
                         (mLastFlushedIndex s));
  Ret (mLastFlushedIndex s, s).

(** ** The memory-backed state machine of a leader

    It reads done ids from a snapshot of the database. *)
Record MemoryBackedAppStateMachine := mk_Memory {
  msm_state : AppStateMachine;
  msm_snapshot : option D }.

Definition swapState (m : MemoryBackedAppStateMachine) s
    : result (MemoryBackedAppStateMachine * RocksDBBackedAppStateMachine) :=
  let mine := msm_state m in
  let another := rsm_state s in
  let mine' := mk_AppStateMachine (mCtrlState mine) (mDoneMap another) (mCoA another)
                 (mAccountMetadata another) in
  let another' := mk_AppStateMachine (mCtrlState another) (mDoneMap mine) (mCoA mine)
                    (mAccountMetadata mine) in
  s ← flushToRocksDB (mk_Rocks another' (mRocksDB s) (mWriteBatch s) (mLastFlushedIndex s));
  Ret (mk_Memory mine' (Some (mRocksDB s)), s).

(** [mRocksDB->Get(mReadOptions, ...).IsNotFound()] of a leader. *)
Definition snapshot_IsNotFound (m : MemoryBackedAppStateMachine) (entryId : string) : bool :=
  match msm_snapshot m with
  | Some db => match Get db DONE_MAP entryId with GetNotFound => true | _ => false end
  | None => false
  end.

(** ** The loop that drives it

    The body of [EventApplyLoopBase::run] on what [loadNextCommandEvents]
    returned: the id of the command and its events. *)
Definition apply_bundle (groupId : Z) s (bundle : Z * list Event) : result RocksDBBackedAppStateMachine :=
  let '(commandId, events) := bundle in
  s ← foldM (rocks_applyEvent groupId) s events;
  commit s commandId.
End rocks.
Arguments RocksDBBackedAppStateMachine : clear implicits.
Arguments MemoryBackedAppStateMachine : clear implicits.
