(* ===== verification/RocksProps.v ===== *)
(** * What the RocksDB-backed state machine keeps on disk

    The database with the pending batch mirrors the two tables of the state;
    the database alone mirrors the state at the last flush; loading a database
    gives back the tables it mirrors. *)
From stdpp Require Import pretty.
From S2P Require Import Prelude Protobuf Domain Es Control Ledger LedgerSM LedgerProps Numeric RocksSM.
Open Scope Z_scope.

(** ** Tables and callbacks *)
Record Tables := mk_Tables {
  tb_accounts : gmap Z Account; tb_metadata : gmap AccountType AccountMetadata }.

Definition tables (st : AppStateMachine) : Tables := mk_Tables (mCoA st) (mAccountMetadata st).

Definition tables_wf (t : Tables) : Prop :=
  map_Forall (λ code a, Account_wf a ∧ Account_mNominalCode a = code) (tb_accounts t) ∧
  map_Forall (λ ty m, AccountMetadata_wf m ∧ AccountMetadata_mAccountType m = ty) (tb_metadata t).

Definition with_account (t : Tables) (a : Account) : Tables :=
  mk_Tables (<[Account_mNominalCode a := a]> (tb_accounts t)) (tb_metadata t).

(** What a callback reports. *)
Definition reported (t : Tables) (c : Callback) : Tables :=
  match c with
  | onAccountInserted a | onAccountUpdated a => with_account t a
  | onAccountMetadataUpdated m =>
      mk_Tables (tb_accounts t) (<[AccountMetadata_mAccountType m := m]> (tb_metadata t))
  | onBookkeepingProcessed _ _ => t
  end.

Lemma apply_lines_reported t lines coa calls coa' calls' :
  tables_wf t → foldl reported t calls = mk_Tables coa (tb_metadata t) →
  map_Forall (λ code a, Account_wf a ∧ Account_mNominalCode a = code) coa →
  foldM apply_line (coa, calls) lines = Ret (coa', calls') →
  foldl reported t calls' = mk_Tables coa' (tb_metadata t) ∧
  map_Forall (λ code a, Account_wf a ∧ Account_mNominalCode a = code) coa'.
Proof.
  intros Ht. revert coa calls. induction lines as [|l lines IH]; intros coa calls Hr Hc Hf.
  - by injection Hf as <- <-.
  - cbn [foldM] in Hf. apply bind_Ret in Hf as ([coa1 calls1] & H1 & Hf).
    pose proof (apply_lines_spec [l] coa calls coa1 calls1) as Hwf. cbn [foldM] in Hwf.
    rewrite H1 in Hwf. destruct (Hwf eq_refl) as (_ & Hc1 & _). specialize (Hc1 Hc).
    apply apply_line_spec in H1 as (a & a' & Ha & -> & -> & _).
    eapply IH; [|exact Hc1|exact Hf]. rewrite foldl_app, Hr. simpl. unfold with_account; simpl.
    destruct (Hc1 _ _ (lookup_insert_eq _ _ _)) as [_ ->]. done.
Qed.

(** The callbacks of an event report the new tables. *)
Lemma applyEvent_reported g st e st' calls :
  Event_wf e → tables_wf (tables st) → applyEvent g st e = Ret (st', calls) →
  tables st' = foldl reported (tables st) calls ∧ tables_wf (tables st').
Proof.
  intros Hwf Ht. rewrite (applyEvent_dispatch _ _ _ Hwf). unfold Event_wf in Hwf.
  destruct (Event_body e) as [v a|v m|v j|r]; intros Ha.
  - unfold apply_AccountCreated in Ha. inv_ret. split; [done|]. split; simpl; [|apply Ht].
    apply map_Forall_insert_2; [|apply Ht]. split; [apply Hwf|done].
  - injection Ha as <- <-. split; [done|]. split; simpl; [apply Ht|].
    apply map_Forall_insert_2; [|apply Ht]. split; [apply Hwf|done].
  - apply apply_JournalEntryRecorded_Ret in Ha as (_ & coa & Hf & ->).
    eapply apply_lines_reported in Hf as [Hr Hc]; [|done|done|apply Ht].
    split; [done|]. split; [done|apply Ht].
  - inv_ret. by destruct st.
Qed.

Section mirrors.
Context `{LedgerProtos} `{PA : Proto protos_Account} `{PM : Proto protos_AccountMetadata}.

Definition ser_account (a : Account) : option string :=
  match Account_encodeTo a default_instance with
  | Ret p => Some (SerializeAsString p)
  | Fail _ => None
  end.
Definition ser_metadata (m : AccountMetadata) : option string :=
  match AccountMetadata_encodeTo m default_instance with
  | Ret p => Some (SerializeAsString p)
  | Fail _ => None
  end.
Definition metadata_key (t : AccountType) : string := pretty (AccountType_to_int t).

#[export] Instance metadata_key_inj : Inj (=) (=) metadata_key.
Proof. intros t1 t2 He. unfold metadata_key in He. apply (inj (R:=(=)) pretty) in He. by destruct t1, t2. Qed.

(** A column family holds exactly a table. *)
Definition family_mirrors {K A : Type} `{Countable K} (m : KV) (cf : ColumnFamily) (key : K → string)
    (ser : A → option string) (table : gmap K A) : Prop :=
  (∀ k, m !! (cf, key k) = table !! k ≫= ser) ∧
  (∀ s v, m !! (cf, s) = Some v → ∃ k, s = key k).

Definition mirrors (m : KV) (t : Tables) : Prop :=
  family_mirrors m CHART_OF_ACCOUNTS pretty ser_account (tb_accounts t) ∧
  family_mirrors m ACCOUNT_METADATA metadata_key ser_metadata (tb_metadata t).

Lemma family_mirrors_put {K A : Type} `{Countable K} m cf key `{!Inj (=) (=) key} ser (table : gmap K A) k a v :
  family_mirrors m cf key ser table → ser a = Some v →
  family_mirrors (<[(cf, key k) := v]> m) cf key ser (<[k := a]> table).
Proof.
  intros [H1 H2] Ha. split.
  - intros k'. destruct (decide (k' = k)) as [->|Hne]; [by rewrite !lookup_insert_eq|].
    rewrite !lookup_insert_ne; [apply H1|congruence|]. intros [= He%(inj key)]. congruence.
  - intros s v' [[[= <-] _]|[_ Hs]]%lookup_insert_Some; eauto.
Qed.

Lemma family_mirrors_other {K A : Type} `{Countable K} m cf key ser (table : gmap K A) cf' s v :
  cf' ≠ cf → family_mirrors m cf key ser table → family_mirrors (<[(cf', s) := v]> m) cf key ser table.
Proof.
  intros Hne [H1 H2]. split.
  - intros k. rewrite lookup_insert_ne by congruence. apply H1.
  - intros s' v'. rewrite lookup_insert_ne by congruence. apply H2.
Qed.

Lemma mirrors_other m t cf s v :
  cf ≠ CHART_OF_ACCOUNTS → cf ≠ ACCOUNT_METADATA → mirrors m t → mirrors (<[(cf, s) := v]> m) t.
Proof. intros ? ? [? ?]. split; by apply family_mirrors_other. Qed.

(** Reading a family back: the loop rebuilds the table. *)
Lemma load_family_spec {K A : Type} `{Countable K} m cf (key : K → string) `{!Inj (=) (=) key} ser
    (table : gmap K A) (load : gmap K A → string * string → result (gmap K A)) kvs :
  family_mirrors m cf key ser table →
  (∀ k a v acc, table !! k = Some a → ser a = Some v → acc !! k = None →
     load acc (key k, v) = Ret (<[k := a]> acc)) →
  NoDup kvs.*1 → (∀ k v, (k, v) ∈ kvs ↔ m !! (cf, k) = Some v) →
  (∀ k a, table !! k = Some a → is_Some (ser a)) → foldM load ∅ kvs = Ret table.
Proof.
  intros [Hm1 Hm2] Hload Hnd Hin Hser.
  assert (Hgen : ∀ kvs acc, NoDup kvs.*1 → (∀ s v, (s, v) ∈ kvs → m !! (cf, s) = Some v) →
    (∀ k v, (key k, v) ∈ kvs → acc !! k = None) →
    ∃ acc', foldM load acc kvs = Ret acc' ∧
      ∀ k, acc' !! k = if decide (key k ∈ kvs.*1) then table !! k else acc !! k).
  { clear kvs Hnd Hin. induction kvs as [|[s v] kvs IH]; intros acc Hnd Hin Hacc.
    - exists acc. split; [done|]. intros k. by rewrite decide_False by set_solver.
    - cbn [fmap list_fmap fst] in Hnd. apply NoDup_cons in Hnd as [Hs Hnd].
      pose proof (Hin s v ltac:(left)) as Hsv. destruct (Hm2 _ _ Hsv) as [k ->].
      rewrite Hm1 in Hsv. destruct (table !! k) as [a|] eqn:Ea; [|done]. simpl in Hsv.
      cbn [foldM]. rewrite (Hload k a v acc Ea Hsv) by (apply (Hacc k v); left). simpl.
      destruct (IH (<[k := a]> acc) Hnd) as (acc' & Hr & Hl).
      + intros s' v' Hs'. apply Hin. by right.
      + intros k' v' Hk'. rewrite lookup_insert_ne; [apply (Hacc k' v'); by right|].
        intros ->. apply Hs. by apply (list_elem_of_fmap_2 fst _ (key k', v')).
      + exists acc'. split; [done|]. intros k'. rewrite Hl. cbn [fmap list_fmap fst].
        destruct (decide (k' = k)) as [->|Hne].
        * rewrite decide_False by done. rewrite decide_True by left. by rewrite lookup_insert_eq.
        * rewrite lookup_insert_ne by done. apply decide_ext. rewrite elem_of_cons.
          split; [by right|]. intros [He%(inj key)|?]; done. }
  destruct (Hgen kvs ∅ Hnd) as (acc' & Hr & Hl); [intros s v; by apply Hin|done|].
  rewrite Hr. f_equal. apply map_eq. intros k. rewrite Hl. case_decide as Hk; [done|].
  rewrite lookup_empty. destruct (table !! k) as [a|] eqn:Ea; [|done]. exfalso. apply Hk.
  destruct (Hser k a Ea) as [v Hv]. apply (list_elem_of_fmap_2 fst kvs (key k, v)). apply Hin.
  rewrite Hm1, Ea. done.
Qed.
End mirrors.

(** ** The invariant *)
Section invariant.
Context `{LedgerProtos} `{PA : Proto protos_Account} `{PM : Proto protos_AccountMetadata} `{RocksDB D B}.
Implicit Types s : RocksDBBackedAppStateMachine D B.

(** The database as it will be after the next flush. *)
Definition pending_view s : KV := put_all (db_view (mRocksDB s)) (batch_view (mWriteBatch s)).

Definition stored_index (m : KV) : result Z :=
  match m !! (DEFAULT, kLastAppliedIndexKey) with Some v => stoull v | None => Ret 0 end.

Definition done_covered (m : KV) (st : AppStateMachine) : Prop :=
  ∀ id, is_Some (mDoneMap st !! id) → is_Some (m !! (DONE_MAP, id)).

(** [flushed]: the tables when the batch was last written. *)
Record rocks_inv (flushed : Tables) s : Prop := {
  ri_wf : tables_wf (tables (rsm_state s));
  ri_flushed_wf : tables_wf flushed;
  ri_now : mirrors (pending_view s) (tables (rsm_state s));
  ri_disk : mirrors (db_view (mRocksDB s)) flushed;
  ri_index : stored_index (db_view (mRocksDB s)) = Ret (mLastFlushedIndex s);
  ri_done : done_covered (pending_view s) (rsm_state s) }.

Lemma put_all_snoc m ops op : put_all m (ops ++ [op]) = <[op.1 := op.2]> (put_all m ops).
Proof. unfold put_all. by rewrite foldl_app. Qed.

Lemma put_spec s cf k v s' :
  put s cf k v = Ret s' →
  rsm_state s' = rsm_state s ∧ mRocksDB s' = mRocksDB s ∧ mLastFlushedIndex s' = mLastFlushedIndex s ∧
  pending_view s' = <[(cf, k) := v]> (pending_view s).
Proof.
  unfold put. destruct (Batch_Put _ _ _ _) as [b|] eqn:E; [|done]. intros [= <-]. simpl.
  split_and!; try done. unfold pending_view; simpl. rewrite (Put_spec _ _ _ _ _ E), put_all_snoc. done.
Qed.

(** A callback changes the batch only, and brings it up to date. *)
Definition same_base s s' : Prop :=
  rsm_state s' = rsm_state s ∧ mRocksDB s' = mRocksDB s ∧ mLastFlushedIndex s' = mLastFlushedIndex s.

Lemma put_account_spec s a s' t :
  put_account s a = Ret s' → mirrors (pending_view s) t →
  same_base s s' ∧ mirrors (pending_view s') (with_account t a).
Proof.
  unfold put_account. intros (p & Hp & Hput)%bind_Ret [Hc Hm].
  apply put_spec in Hput as (? & ? & ? & ->). split; [done|]. split; simpl.
  - apply (family_mirrors_put _ _ pretty); [done|]. unfold ser_account. by rewrite Hp.
  - by apply family_mirrors_other.
Qed.

Lemma callback_spec s c s' t :
  callback s c = Ret s' → mirrors (pending_view s) t →
  same_base s s' ∧ mirrors (pending_view s') (reported t c).
Proof.
  destruct c as [a|m|id vt|a]; simpl.
  - apply put_account_spec.
  - intros (p & Hp & Hput)%bind_Ret [Hc Hm]. apply put_spec in Hput as (? & ? & ? & ->).
    split; [done|]. split; simpl; [by apply family_mirrors_other|].
    apply (family_mirrors_put _ _ metadata_key); [done|]. unfold ser_metadata. by rewrite Hp.
  - intros Hput Hm. apply put_spec in Hput as (? & ? & ? & ->). split; [done|]. by apply mirrors_other.
  - apply put_account_spec.
Qed.

(** Keys stay, and done ids are added. *)
Lemma callback_keys s c s' :
  callback s c = Ret s' →
  (∀ k, is_Some (pending_view s !! k) → is_Some (pending_view s' !! k)) ∧
  (∀ id vt, c = onBookkeepingProcessed id vt → is_Some (pending_view s' !! (DONE_MAP, id))).
Proof.
  assert (Hput : ∀ s cf k v s', put s cf k v = Ret s' →
    ∀ k', is_Some (pending_view s !! k') → is_Some (pending_view s' !! k')).
  { intros ????? (_ & _ & _ & ->)%put_spec k' Hk.
    destruct (decide ((cf, k) = k')) as [<-|Hne]; [rewrite lookup_insert_eq; eauto|].
    by rewrite lookup_insert_ne. }
  destruct c as [a|m|id vt|a]; simpl; unfold put_account; intros Hc.
  - apply bind_Ret in Hc as (p & _ & Hc). split; [by eapply Hput|done].
  - apply bind_Ret in Hc as (p & _ & Hc). split; [by eapply Hput|done].
  - split; [by eapply Hput|]. intros ? ? [= -> ->]. apply put_spec in Hc as (_ & _ & _ & ->).
    rewrite lookup_insert_eq. eauto.
  - apply bind_Ret in Hc as (p & _ & Hc). split; [by eapply Hput|done].
Qed.

Lemma callbacks_spec s calls s' t :
  foldM callback s calls = Ret s' → mirrors (pending_view s) t →
  same_base s s' ∧ mirrors (pending_view s') (foldl reported t calls) ∧
  (∀ k, is_Some (pending_view s !! k) → is_Some (pending_view s' !! k)) ∧
  (∀ id vt, onBookkeepingProcessed id vt ∈ calls → is_Some (pending_view s' !! (DONE_MAP, id))).
Proof.
  revert s t. induction calls as [|c calls IH]; intros s t Hf Hm.
  - injection Hf as <-. split_and!; try done. intros ? ? Hin. by apply elem_of_nil in Hin.
  - cbn [foldM] in Hf. apply bind_Ret in Hf as (s1 & Hc & Hf).
    destruct (callback_spec _ _ _ _ Hc Hm) as [(B1 & B2 & B3) Hm1].
    destruct (callback_keys _ _ _ Hc) as [Hk Hd].
    destruct (IH _ _ Hf Hm1) as ((C1 & C2 & C3) & Hm2 & Hk2 & Hd2).
    split_and!; [by split_and!; etransitivity|done|auto|].
    intros id vt [He|Hin]%elem_of_cons; [|by eapply Hd2]. apply Hk2. by eapply Hd.
Qed.

Lemma applyEvent_new_done g st e st' calls :
  Event_wf e → applyEvent g st e = Ret (st', calls) →
  ∀ id, is_Some (mDoneMap st' !! id) → is_Some (mDoneMap st !! id) ∨
    ∃ vt, onBookkeepingProcessed id vt ∈ calls.
Proof.
  intros Hwf. rewrite (applyEvent_dispatch _ _ _ Hwf). destruct (Event_body e) as [v a|v m|v j|r]; intros Ha.
  - unfold apply_AccountCreated in Ha. inv_ret. simpl. auto.
  - injection Ha as <- <-. simpl. auto.
  - apply apply_JournalEntryRecorded_Ret in Ha as (_ & coa & Hf & ->). simpl.
    intros id [<-|[_ ?]]%lookup_insert_is_Some; [right|by left].
    assert (Hin : ∀ lines coa calls coa' calls', foldM apply_line (coa, calls) lines = Ret (coa', calls') →
      ∀ c, c ∈ calls → c ∈ calls').
    { clear. induction lines as [|l lines IH]; intros coa calls coa' calls' Hf c Hc; [by injection Hf as <- <-|].
      cbn [foldM] in Hf. apply bind_Ret in Hf as ([coa1 calls1] & H1 & Hf).
      apply apply_line_spec in H1 as (? & ? & _ & _ & -> & _). eapply IH; [done|]. set_solver. }
    eexists. eapply Hin; [done|]. by left.
  - inv_ret. simpl. auto.
Qed.

Lemma rocks_applyEvent_inv flushed g s e s' :
  Event_wf e → rocks_inv flushed s → rocks_applyEvent g s e = Ret s' →
  rocks_inv flushed s' ∧ mLastFlushedIndex s' = mLastFlushedIndex s ∧ mRocksDB s' = mRocksDB s ∧
  ∃ calls, applyEvent g (rsm_state s) e = Ret (rsm_state s', calls).
Proof.
  intros Hwf [I1 I2 I3 I4 I5 I6]. unfold rocks_applyEvent. intros ([st calls] & Ha & Hf)%bind_Ret.
  destruct (applyEvent_reported _ _ _ _ _ Hwf I1 Ha) as [Hr Ht].
  destruct (callbacks_spec _ _ _ _ Hf I3) as ((B1 & B2 & B3) & Hm & Hk & Hd). simpl in *.
  rewrite <- Hr in Hm. split; [|split_and!; [done|done|exists calls; by rewrite B1]].
  split; rewrite ?B1, ?B2, ?B3; try done.
  intros id Hid. destruct (applyEvent_new_done _ _ _ _ _ Hwf Ha id Hid) as [?|[vt Hin]]; [|by eapply Hd].
  apply Hk. by apply I6.
Qed.

(** ** Commit and recovery *)

Lemma mirrors_pending s t :
  batch_view (mWriteBatch s) = [] → mirrors (db_view (mRocksDB s)) t → mirrors (pending_view s) t.
Proof. unfold pending_view. by intros ->. Qed.

Lemma flush_spec s s' :
  flushToRocksDB s = Ret s' →
  rsm_state s' = rsm_state s ∧ mLastFlushedIndex s' = mLastFlushedIndex s ∧
  batch_view (mWriteBatch s') = [] ∧ db_view (mRocksDB s') = pending_view s.
Proof.
  unfold flushToRocksDB. destruct (DB_Write _ _) as [db|] eqn:E; [|done]. intros [= <-]. simpl.
  split_and!; try done; [apply Clear_spec|]. by rewrite (Write_spec _ _ _ E).
Qed.

Lemma commit_inv flushed s i s' :
  in_u64 i → rocks_inv flushed s → commit s i = Ret s' →
  rsm_state s' = rsm_state s ∧
  (rocks_inv flushed s' ∧ mLastFlushedIndex s' = mLastFlushedIndex s ∧
     i -ᵤ mLastFlushedIndex s < mMaxBatchSize ∨
   rocks_inv (tables (rsm_state s)) s' ∧ mLastFlushedIndex s' = i).
Proof.
  intros Hi [I1 I2 I3 I4 I5 I6]. unfold commit. intros (s1 & Hp & Hc)%bind_Ret.
  apply put_spec in Hp as (P1 & P2 & P3 & P4).
  assert (Hm : mirrors (pending_view s1) (tables (rsm_state s))) by (rewrite P4; by apply mirrors_other).
  assert (Hd : done_covered (pending_view s1) (rsm_state s)).
  { intros id Hid. rewrite P4, lookup_insert_ne by done. by apply I6. }
  destruct (Z.ltb_spec (i -ᵤ mLastFlushedIndex s1) mMaxBatchSize) as [Hlt|Hge].
  - injection Hc as <-. split; [done|]. left. split_and!; [|done|by rewrite <- P3].
    split; rewrite ?P1, ?P2, ?P3; done.
  - apply bind_Ret in Hc as (s2 & Hf & [= <-]). apply flush_spec in Hf as (F1 & F2 & F3 & F4). simpl.
    split; [congruence|]. right. split; [|done].
    assert (Hpend : pending_view (mk_Rocks (rsm_state s2) (mRocksDB s2) (mWriteBatch s2) i) = pending_view s1).
    { unfold pending_view at 1. simpl. by rewrite F3, <- F4. }
    split; simpl; rewrite ?Hpend, ?F1, ?F4, ?P1; try done.
    unfold stored_index. rewrite P4, lookup_insert_eq. by apply stoull_pretty.
Qed.

Lemma ser_account_wf a : Account_wf a → ∃ v, ser_account a = Some v ∧
  Account_initWith (snd (ParseFromString v)) = Ret a.
Proof.
  intros Hwf. destruct (Account_roundtrip a default_instance Hwf) as (p & He & Hd).
  unfold ser_account. rewrite He. eexists. split; [done|].
  by rewrite ParseFromString_SerializeAsString.
Qed.

Lemma ser_metadata_wf m : AccountMetadata_wf m → ∃ v, ser_metadata m = Some v ∧
  AccountMetadata_initWith (snd (ParseFromString v)) = Ret m.
Proof.
  intros Hwf. destruct (AccountMetadata_roundtrip m default_instance Hwf) as (p & He & Hd).
  unfold ser_metadata. rewrite He. eexists. split; [done|].
  by rewrite ParseFromString_SerializeAsString.
Qed.

Lemma load_accounts_spec kvs (d : D) t :
  tables_wf t → mirrors (db_view d) t → Iterate d CHART_OF_ACCOUNTS = Some kvs →
  foldM load_account ∅ kvs = Ret (tb_accounts t).
Proof.
  intros [Hwf _] [Hm _] [Hnd Hin]%Iterate_spec.
  apply (load_family_spec _ _ pretty ser_account (tb_accounts t) load_account kvs Hm); try done.
  - intros k a v acc Ha Hv Hacc. destruct (Hwf _ _ Ha) as [Haw Hk].
    destruct (ser_account_wf a Haw) as (v' & Hv' & Hp). simplify_eq.
    unfold load_account. cbn [fst snd]. rewrite Hp. simpl. rewrite stoull_pretty by apply Haw. simpl.
    rewrite Z.eqb_refl. simpl. by rewrite bool_decide_eq_true_2.
  - intros k a Ha. destruct (Hwf _ _ Ha) as [Haw _]. destruct (ser_account_wf a Haw) as (v & -> & _). done.
Qed.

Lemma load_metadata_spec kvs (d : D) t :
  tables_wf t → mirrors (db_view d) t → Iterate d ACCOUNT_METADATA = Some kvs →
  foldM load_metadata ∅ kvs = Ret (tb_metadata t).
Proof.
  intros [_ Hwf] [_ Hm] [Hnd Hin]%Iterate_spec.
  apply (load_family_spec _ _ metadata_key ser_metadata (tb_metadata t) load_metadata kvs Hm); try done.
  - intros k a v acc Ha Hv Hacc. destruct (Hwf _ _ Ha) as [Haw Hk].
    destruct (ser_metadata_wf a Haw) as (v' & Hv' & Hp). simplify_eq.
    unfold load_metadata, metadata_key. cbn [fst snd]. rewrite Hp. simpl.
    rewrite stoi_pretty by (destruct (AccountMetadata_mAccountType a); simpl; lia). simpl.
    rewrite Z.eqb_refl. simpl. by rewrite bool_decide_eq_true_2.
  - intros k a Ha. destruct (Hwf _ _ Ha) as [Haw _]. destruct (ser_metadata_wf a Haw) as (v & -> & _). done.
Qed.

(** The database answers. *)
Definition readable (d : D) : Prop :=
  Get d DEFAULT kLastAppliedIndexKey ≠ GetError ∧
  is_Some (Iterate d CHART_OF_ACCOUNTS) ∧ is_Some (Iterate d ACCOUNT_METADATA).

Lemma recoverSelf_spec flushed i s :
  batch_view (mWriteBatch s) = [] → readable (mRocksDB s) → tables_wf flushed →
  mirrors (db_view (mRocksDB s)) flushed → stored_index (db_view (mRocksDB s)) = Ret i →
  ∃ s', recoverSelf s = Ret (i, s') ∧ rocks_inv flushed s' ∧ tables (rsm_state s') = flushed ∧
    mDoneMap (rsm_state s') = ∅ ∧ mCtrlState (rsm_state s') = mCtrlState (rsm_state s) ∧
    mRocksDB s' = mRocksDB s ∧ mLastFlushedIndex s' = i.
Proof.
  intros Hb (Hg & [kvs1 H1] & [kvs2 H2]) Hwf Hm Hi. unfold recoverSelf.
  rewrite Count_spec, Hb. simpl. unfold loadFromRocksDB, load_family; simpl. rewrite H1, H2.
  rewrite (load_accounts_spec _ _ _ Hwf Hm H1), (load_metadata_spec _ _ _ Hwf Hm H2).
  assert (Hidx : match Get (mRocksDB s) DEFAULT kLastAppliedIndexKey with
                 | GetOk value => stoull value | GetNotFound => Ret 0 | GetError => Fail AssertFailure
                 end = Ret i).
  { unfold stored_index in Hi. destruct (Get _ _ _) as [v| |] eqn:E; [|by apply Get_not_found in E; rewrite E in Hi|done].
    apply Get_ok in E. by rewrite E in Hi. }
  rewrite Hidx. simpl. eexists. split; [reflexivity|]. simpl.
  split; [|split_and!; try done; by destruct flushed].
  assert (Ht : tables (set_mAccountMetadata (set_mCoA (clearState (rsm_state s)) (tb_accounts flushed))
    (tb_metadata flushed)) = flushed) by by destruct flushed.
  split; simpl; rewrite ?Ht; try done; [by apply mirrors_pending|]. by intros id [? ?].
Qed.

(** ** Runs of the event apply loop *)
Definition bundle_ok (b : Z * list Event) : Prop := in_u64 b.1 ∧ Forall Event_wf b.2.

Lemma rocks_applyEvents_inv flushed g es s s' :
  Forall Event_wf es → rocks_inv flushed s → foldM (rocks_applyEvent g) s es = Ret s' →
  rocks_inv flushed s' ∧ mLastFlushedIndex s' = mLastFlushedIndex s.
Proof.
  intros Hall. revert s. induction Hall as [|e es He _ IH]; intros s Hi Hf; [by injection Hf as <-|].
  cbn [foldM] in Hf. apply bind_Ret in Hf as (s1 & H1 & Hf).
  destruct (rocks_applyEvent_inv _ _ _ _ _ He Hi H1) as (Hi1 & Hx & _).
  destruct (IH _ Hi1 Hf) as [? Hy]. split; [done|]. by rewrite Hy.
Qed.

(** The bundle a flush stands for, and what may be lost behind it. *)
Lemma rocks_run g bundles s0 s :
  Forall bundle_ok bundles → rocks_inv (tables (rsm_state s0)) s0 →
  foldM (apply_bundle g) s0 bundles = Ret s →
  ∃ k sk, foldM (apply_bundle g) s0 (take k bundles) = Ret sk ∧ (k ≤ length bundles)%nat ∧
    rocks_inv (tables (rsm_state sk)) s ∧
    mLastFlushedIndex s = default (mLastFlushedIndex s0) (last (take k bundles).*1) ∧
    (∀ i, last bundles.*1 = Some i → i -ᵤ mLastFlushedIndex s < mMaxBatchSize).
Proof.
  intros Hok Hs0. revert s. induction bundles as [|[i es] bundles IH] using rev_ind; intros s Hf.
  - injection Hf as <-. exists 0%nat, s0. by split_and!.
  - apply Forall_app in Hok as [Hok [[Hi Hes] _]%Forall_cons]. simpl in Hi, Hes.
    rewrite foldM_app in Hf. apply bind_Ret in Hf as (s1 & H1 & Hf). cbn [foldM] in Hf.
    apply bind_Ret in Hf as (s2 & H2 & [= ->]). unfold apply_bundle in H2.
    apply bind_Ret in H2 as (s3 & H3 & H2).
    destruct (IH Hok _ H1) as (k & sk & Hk & Hle & Hinv & Hidx & _).
    destruct (rocks_applyEvents_inv _ _ _ _ _ Hes Hinv H3) as [Hinv3 Hidx3].
    destruct (commit_inv _ _ _ _ Hi Hinv3 H2) as [Hst [(Hi' & Hx & Hlt)|[Hi' Hx]]].
    + exists k, sk. rewrite take_app_le by done. split_and!; try done.
      * rewrite length_app. lia.
      * by rewrite Hx, Hidx3.
      * intros j. rewrite fmap_last, last_snoc. intros [= <-]. by rewrite Hx.
    + exists (length (bundles ++ [(i, es)])), s. rewrite take_ge by done. split_and!; try done.
      * rewrite foldM_app, H1. cbn [mbind result_mbind foldM]. unfold apply_bundle. rewrite H3. simpl. by rewrite H2.
      * by rewrite Hst.
      * rewrite fmap_last, last_snoc. done.
      * intros j. rewrite fmap_last, last_snoc. intros [= <-]. rewrite Hx. unfold u64.
        rewrite Z.sub_diag. done.
Qed.

(** ** Handing the state to a leader *)
Lemma swapState_done flushed m s m' s' :
  rocks_inv flushed s → swapState m s = Ret (m', s') →
  tables (msm_state m') = tables (rsm_state s) ∧ mCtrlState (msm_state m') = mCtrlState (msm_state m) ∧
  ∀ id, is_Some (pending_view s !! (DONE_MAP, id)) → snapshot_IsNotFound m' id = false.
Proof.
  intros Hi. unfold swapState. intros (s1 & Hf & [= <- <-])%bind_Ret. simpl.
  split; [done|]. split; [done|]. intros id Hid. apply flush_spec in Hf as (_ & _ & _ & Hv).
  unfold snapshot_IsNotFound; simpl. destruct (Get _ _ _) eqn:E; try done.
  apply Get_not_found in E. rewrite Hv in E. unfold pending_view in *. simpl in E. rewrite E in Hid.
  by destruct Hid.
Qed.
End invariant.

(** ** Replaying from a recovered state

    The recovered state has the tables but not the done map; the same events
    apply to it with the same effect on the tables. *)
Definition not_split (e : Event) : Prop :=
  match Event_body e with SplitEvent _ => False | _ => True end.

Definition replica (st1 st2 : AppStateMachine) : Prop :=
  tables st1 = tables st2 ∧ mDoneMap st1 ⊆ mDoneMap st2.

Lemma applyEvent_replica g st1 st2 e st2' calls :
  Event_wf e → not_split e → replica st1 st2 → applyEvent g st2 e = Ret (st2', calls) →
  ∃ st1', applyEvent g st1 e = Ret (st1', calls) ∧ replica st1' st2'.
Proof.
  intros Hwf Hns [Ht Hd]. rewrite !(applyEvent_dispatch _ _ _ Hwf). unfold not_split in Hns.
  injection Ht as Hc Hm. destruct (Event_body e) as [v a|v m|v j|r]; [..|done].
  - unfold apply_AccountCreated. rewrite Hc. intros [Hn Ha]%cassert_bind. rewrite Hn. injection Ha as <- <-.
    eexists. split; [done|]. split; [unfold tables; simpl; congruence|exact Hd].
  - intros [= <- <-]. eexists. split; [done|]. split; [unfold tables; simpl; congruence|exact Hd].
  - intros (Hn & coa & Hf & ->)%apply_JournalEntryRecorded_Ret.
    exists (mk_AppStateMachine (mCtrlState st1) (<[JournalEntry_mId j := JournalEntry_mValidTime j]> (mDoneMap st1))
      coa (mAccountMetadata st1)). split.
    + apply apply_JournalEntryRecorded_Ret. split; [by eapply lookup_weaken_None|]. exists coa. by rewrite Hc.
    + split; [unfold tables; simpl; congruence|]. simpl. by apply insert_mono.
Qed.

Lemma applyEvents_replica g es st1 st2 st2' calls2 c1 c2 :
  Forall Event_wf es → Forall not_split es → replica st1 st2 →
  foldM (λ '(s, calls) e, '(s, calls') ← applyEvent g s e; Ret (s, calls ++ calls')) (st2, c2) es = Ret (st2', calls2) →
  ∃ st1' calls1,
    foldM (λ '(s, calls) e, '(s, calls') ← applyEvent g s e; Ret (s, calls ++ calls')) (st1, c1) es = Ret (st1', calls1) ∧
    replica st1' st2'.
Proof.
  intros Hwf. revert st1 st2 c1 c2. induction Hwf as [|e es He _ IH]; intros st1 st2 c1 c2 Hns Hr Hf.
  - injection Hf as <- <-. eauto.
  - apply Forall_cons in Hns as [Hn Hns]. cbn [foldM] in Hf. apply bind_Ret in Hf as ([sx cx] & H1 & Hf).
    apply bind_Ret in H1 as ([st2a ca] & Ha & [= <- <-]).
    destruct (applyEvent_replica _ _ _ _ _ _ He Hn Hr Ha) as (st1a & Ha1 & Hr1).
    destruct (IH st1a st2a (c1 ++ ca) (c2 ++ ca) Hns Hr1 Hf) as (st1' & calls1 & Hf1 & Hr').
    exists st1', calls1. cbn [foldM]. rewrite Ha1. done.
Qed.

(** The state under the RocksDB-backed machine runs as [applyEvents]. *)
Lemma rocks_applyEvents_state `{LedgerProtos} `{PA : Proto protos_Account} `{PM : Proto protos_AccountMetadata}
    `{RocksDB D B} flushed g es (s s' : RocksDBBackedAppStateMachine D B) c :
  Forall Event_wf es → rocks_inv flushed s → foldM (rocks_applyEvent g) s es = Ret s' →
  rocks_inv flushed s' ∧ ∃ c',
    foldM (λ '(s, calls) e, '(s, calls') ← applyEvent g s e; Ret (s, calls ++ calls')) (rsm_state s, c) es =
      Ret (rsm_state s', c').
Proof.
  intros Hall. revert s c. induction Hall as [|e es He _ IH]; intros s c Hi Hf.
  - injection Hf as <-. eauto.
  - cbn [foldM] in Hf. apply bind_Ret in Hf as (s1 & H1 & Hf).
    destruct (rocks_applyEvent_inv _ _ _ _ _ He Hi H1) as (Hi1 & _ & _ & calls & Ha).
    destruct (IH _ (c ++ calls) Hi1 Hf) as (? & c' & Hc'). split; [done|]. exists c'. cbn [foldM]. by rewrite Ha.
Qed.

Lemma bundles_state `{LedgerProtos} `{PA : Proto protos_Account} `{PM : Proto protos_AccountMetadata}
    `{RocksDB D B} flushed g bundles (s s' : RocksDBBackedAppStateMachine D B) c :
  Forall bundle_ok bundles → rocks_inv flushed s → foldM (apply_bundle g) s bundles = Ret s' →
  ∃ c', foldM (λ '(s, calls) e, '(s, calls') ← applyEvent g s e; Ret (s, calls ++ calls')) (rsm_state s, c)
    (mjoin bundles.*2) = Ret (rsm_state s', c').
Proof.
  intros Hok. revert flushed s c. induction Hok as [|[i es] bundles [Hi Hes] _ IH]; intros flushed s c Hinv Hf.
  - injection Hf as <-. eauto.
  - cbn [foldM] in Hf. apply bind_Ret in Hf as (s1 & H1 & Hf). unfold apply_bundle in H1.
    apply bind_Ret in H1 as (s2 & H2 & H1). simpl in Hi, Hes.
    destruct (rocks_applyEvents_state _ _ _ _ _ c Hes Hinv H2) as (Hinv2 & c2 & Hc2).
    destruct (commit_inv _ _ _ _ Hi Hinv2 H1) as [Hst Hcm]. cbn [fmap list_fmap snd mjoin list_join].
    assert (Hi1 : ∃ fl, rocks_inv fl s1) by (destruct Hcm as [[? _]|[? _]]; eauto). destruct Hi1 as [fl Hi1].
    destruct (IH fl s1 c2 Hi1 Hf) as [c' Hc']. exists c'. rewrite foldM_app, Hc2. simpl. by rewrite <- Hst.
Qed.
