(* ===== verification/RocksTheorems.v ===== *)
(** * Main theorems of the RocksDB-backed state machine

    Recovery after a crash, and the duplicate check of a new leader; a finite
    map as database shows that the laws of [RocksDB] can be met. *)
From stdpp Require Import pretty.
From S2P Require Import Prelude Protobuf Domain Es Control Ledger.
From S2P Require Import LedgerSM LedgerProps LedgerTheorems Numeric RocksSM RocksProps.
Import Wire.
Open Scope Z_scope.

(** ** A database *)
Module MapDB.
Definition family (d : KV) (cf : ColumnFamily) : list (string * string) :=
  omap (λ kv : (ColumnFamily * string) * string,
          if decide (kv.1.1 = cf) then Some (kv.1.2, kv.2) else None) (map_to_list d).

Lemma elem_of_family d cf k v : (k, v) ∈ family d cf ↔ d !! (cf, k) = Some v.
Proof.
  unfold family. rewrite list_elem_of_omap. split.
  - intros ([[cf' k'] v'] & Hin%elem_of_map_to_list & Hx). simpl in Hx. case_decide; naive_solver.
  - intros Hl. exists ((cf, k), v). split; [by apply elem_of_map_to_list|]. simpl. by rewrite decide_True.
Qed.

Lemma family_NoDup d cf : NoDup (family d cf).*1.
Proof.
  unfold family. pose proof (NoDup_fst_map_to_list d) as Hn.
  induction (map_to_list d) as [|[[cf' k'] v'] l IH]; [constructor|].
  cbn [fmap list_fmap fst] in Hn. apply NoDup_cons in Hn as [Hx Hn]. cbn [omap list_omap fst snd].
  case_decide as Hc; [|by apply IH]. cbn [fmap list_fmap fst]. apply NoDup_cons. split; [|by apply IH].
  intros ([k v] & Hk & Hin)%list_elem_of_fmap. simpl in Hk. subst k'.
  apply list_elem_of_omap in Hin as ([[cf2 k2] v2] & Hin & Hy). simpl in Hy. case_decide; [|done].
  simplify_eq. apply Hx. exact (list_elem_of_fmap_2 fst l _ Hin).
Qed.

#[export] Instance map_db : RocksDB KV (list PutOp).
Proof.
  refine {|
    Get (d : KV) cf k := match d !! (cf, k) with Some v => GetOk v | None => GetNotFound end;
    Iterate d cf := Some (family d cf);
    DB_Write d b := Some (put_all d b);
    Batch_Put b cf k v := Some (b ++ [(cf, k, v)]);
    Batch_Count b := Z.of_nat (length b);
    Batch_Clear _ := [];
    db_view d := d;
    batch_view b := b |}.
  - intros d cf k v. by destruct (d !! (cf, k)); intros [= <-].
  - intros d cf k. by destruct (d !! (cf, k)).
  - intros d cf kvs [= <-]. split; [apply family_NoDup|]. apply elem_of_family.
  - by intros d b d' [= <-].
  - by intros b cf k v b' [= <-].
  - done.
  - done.
Defined.

#[export] Instance account_proto : Proto protos_Account :=
  packed_Proto protos_Account protos_Account_default.
#[export] Instance metadata_proto : Proto protos_AccountMetadata :=
  packed_Proto protos_AccountMetadata protos_AccountMetadata_default.

(** A fresh process on an empty database. *)
Definition fresh : RocksDBBackedAppStateMachine KV (list PutOp) :=
  mk_Rocks (initial Sample.cs) ∅ [] 0.

Lemma empty_mirrors : mirrors ∅ (tables (initial Sample.cs)).
Proof. split; split; intros; by rewrite lookup_empty in *. Qed.

Lemma fresh_inv : rocks_inv (tables (rsm_state fresh)) fresh.
Proof.
  split; try apply empty_mirrors; simpl.
  - split; apply map_Forall_empty.
  - split; apply map_Forall_empty.
  - done.
  - by intros id [? ?].
Qed.

(** The two accounts and their ranges, then a payment; the second bundle is
    far enough behind the first to be flushed, the third is not. *)
Definition ev (c : Command) : list Event :=
  match processCommand Sample.env (initial Sample.cs) c with Ret (_, es) => es | Fail _ => [] end.
Definition bundles : list (Z * list Event) :=
  [(1, ev (Sample.configure pAsset 1000 1999)); (600, ev (Sample.create pAsset 1001 500));
   (601, ev (Sample.create pLiability 2001 500));
   (602, [JournalEntryRecordedEvent_new Sample.ejunk 7 Sample.entry])].
Definition ran : RocksDBBackedAppStateMachine KV (list PutOp) :=
  match foldM (apply_bundle 0) fresh bundles with Ret s => s | Fail _ => fresh end.
Definition restarted : RocksDBBackedAppStateMachine KV (list PutOp) :=
  mk_Rocks (initial Sample.cs) (mRocksDB ran) [] 0.
Definition leader : MemoryBackedAppStateMachine KV := mk_Memory (initial Sample.cs) None.

Lemma bundles_ok : Forall bundle_ok bundles.
Proof.
  repeat (constructor; [split; [vm_compute; split; congruence|
    constructor; [|constructor]]|]); [..|constructor].
  - split; [reflexivity|]. split; [reflexivity|]. vm_compute. split_and!; congruence.
  - split; [reflexivity|]. split; [reflexivity|]. vm_compute. split_and!; congruence.
  - split; [reflexivity|]. split; [reflexivity|]. vm_compute. split_and!; congruence.
  - split; [reflexivity|]. split; [reflexivity|]. exact Sample.entry_wf.
Qed.

Lemma bundles_not_split k : Forall not_split (mjoin (drop k bundles).*2).
Proof.
  do 4 (destruct k as [|k]; [vm_compute; repeat constructor|]).
  rewrite drop_ge by (simpl; lia). constructor.
Qed.

Lemma ran_eq : foldM (apply_bundle 0) fresh bundles = Ret ran.
Proof. vm_compute. reflexivity. Qed.

Lemma swap_returns (m : MemoryBackedAppStateMachine KV) (s : RocksDBBackedAppStateMachine KV (list PutOp)) :
  ∃ m' s', swapState m s = Ret (m', s').
Proof. unfold swapState, flushToRocksDB. simpl. eauto. Qed.

Example recovered_index : ∃ s, recoverSelf restarted = Ret (600, s) ∧ size (mCoA (rsm_state s)) = 1%nat ∧
  size (mCoA (rsm_state ran)) = 2%nat.
Proof. eexists. split; [vm_compute; reflexivity|]. split; vm_compute; reflexivity. Qed.
End MapDB.
Import (hints) MapDB.

(** ** The theorems *)

(** C18. Recovery: when a process that applied a sequence of bundles dies and a
    new one opens its database, [recoverSelf] succeeds and returns the accounts
    and the metadata exactly as they were after some prefix of the bundles,
    with the id of the last bundle of that prefix; fewer than [mMaxBatchSize]
    ids lie behind; and applying the events of the remaining bundles, when there is
    no split among them, leads to the accounts and the metadata before the crash.
    The control state and the ids of recorded journal entries are not in the
    database and are not recovered; the database can be read, and holds what the
    process had written. *)
Theorem rocks_recovery `{LedgerProtos} `{PA : Proto protos_Account} `{PM : Proto protos_AccountMetadata}
    `{RocksDB D B} g bundles (s0 s crashed : RocksDBBackedAppStateMachine D B) :
  Forall bundle_ok bundles → rocks_inv (tables (rsm_state s0)) s0 →
  foldM (apply_bundle g) s0 bundles = Ret s →
  mRocksDB crashed = mRocksDB s → batch_view (mWriteBatch crashed) = [] → readable (mRocksDB s) →
  ∃ k i sk s', recoverSelf crashed = Ret (i, s') ∧ (k ≤ length bundles)%nat ∧
    foldM (apply_bundle g) s0 (take k bundles) = Ret sk ∧ tables (rsm_state s') = tables (rsm_state sk) ∧
    i = default (mLastFlushedIndex s0) (last (take k bundles).*1) ∧
    (∀ j, last bundles.*1 = Some j → j -ᵤ i < mMaxBatchSize) ∧
    (Forall not_split (mjoin (drop k bundles).*2) →
     ∃ st calls, applyEvents g (rsm_state s') (mjoin (drop k bundles).*2) = Ret (st, calls) ∧
       tables st = tables (rsm_state s)).
Proof.
  intros Hok Hs0 Hf Hdb Hb Hrd.
  destruct (rocks_run _ _ _ _ Hok Hs0 Hf) as (k & sk & Hk & Hle & Hinv & Hidx & Hlag).
  destruct (recoverSelf_spec (tables (rsm_state sk)) (mLastFlushedIndex s) crashed)
    as (s' & Hr & _ & Ht & Hd & _ & _ & _); rewrite ?Hdb; try done; try apply Hinv.
  exists k, (mLastFlushedIndex s), sk, s'. split_and!; try done. intros Hns.
  pose proof Hf as Hf2. rewrite <- (take_drop k bundles), foldM_app, Hk in Hf2. simpl in Hf2.
  rewrite <- (take_drop k bundles) in Hok. apply Forall_app in Hok as [Hok1 Hok2].
  destruct (rocks_run _ _ _ _ Hok1 Hs0 Hk) as (_ & skk & _ & _ & Hinvk & _).
  destruct (bundles_state _ _ _ _ _ [] Hok2 Hinvk Hf2) as [calls Hst].
  assert (Hwf : Forall Event_wf (mjoin (drop k bundles).*2)).
  { clear -Hok2. induction Hok2 as [|[i es] l [_ Hes] _ IH]; [constructor|]. by apply Forall_app_2. }
  eapply (applyEvents_replica _ _ (rsm_state s') _ _ _ []) in Hst as (st & c1 & Hst1 & Htb & _);
    [by exists st, c1|done|done|].
  split; [done|]. rewrite Hd. apply map_empty_subseteq.
Qed.

Lemma rocks_recovery_witness :
  ∃ i s' st calls k, recoverSelf MapDB.restarted = Ret (i, s') ∧
    applyEvents 0 (rsm_state s') (mjoin (drop k MapDB.bundles).*2) = Ret (st, calls) ∧
    tables st = tables (rsm_state MapDB.ran).
Proof.
  destruct (rocks_recovery 0 MapDB.bundles MapDB.fresh MapDB.ran MapDB.restarted)
    as (k & i & sk & s' & Hr & _ & _ & _ & _ & _ & Hst);
    [exact MapDB.bundles_ok|exact MapDB.fresh_inv|exact MapDB.ran_eq|reflexivity|reflexivity| |].
  - split; [vm_compute; discriminate|]. split; vm_compute; eauto.
  - destruct Hst as (st & calls & Ha & Ht).
    + apply MapDB.bundles_not_split.
    + exists i, s', st, calls, k. split; [exact Hr|split; [exact Ha|exact Ht]].
Defined.

(** A new leader refuses every journal entry the event apply loop has
    recorded, whether the id is still in memory, in the write batch or only on
    disk from before a restart. *)
Theorem leader_refuses_recorded `{LedgerProtos} `{PA : Proto protos_Account} `{PM : Proto protos_AccountMetadata}
    `{RocksDB D B} flushed (s s' : RocksDBBackedAppStateMachine D B) m m' env j :
  rocks_inv flushed s → swapState m s = Ret (m', s') →
  is_Some (mDoneMap (rsm_state s) !! JournalEntry_mId j) ∨
    is_Some (db_view (mRocksDB s) !! (DONE_MAP, JournalEntry_mId j)) →
  env_IsNotFound env = snapshot_IsNotFound m' →
  tables (msm_state m') = tables (rsm_state s) ∧
  ∃ h, process_RecordJournalEntry env (msm_state m') (Some j) = Ret (h, []) ∧
    hint_mCode h = JOURNAL_ENTRY_ALREADY_PROCESSED.
Proof.
  intros Hi Hs Hid He. destruct (swapState_done _ _ _ _ _ Hi Hs) as (Ht & _ & Hnf). split; [done|].
  assert (Hp : is_Some (pending_view s !! (DONE_MAP, JournalEntry_mId j))).
  { destruct Hid as [Hid|Hid]; [by apply (ri_done _ _ Hi)|]. unfold pending_view, put_all.
    generalize dependent (db_view (mRocksDB s)). induction (batch_view (mWriteBatch s)) as [|op ops IH];
      intros v Hv; [done|]. simpl. apply IH. by apply lookup_insert_is_Some'; right. }
  unfold process_RecordJournalEntry. destruct (mDoneMap (msm_state m') !! _); [by eexists|].
  rewrite He, (Hnf _ Hp). by eexists.
Qed.

Lemma leader_refuses_recorded_witness :
  ∃ m' s' h, swapState MapDB.leader MapDB.ran = Ret (m', s') ∧
    process_RecordJournalEntry (mk_ProcessEnv 7 Sample.ejunk (snapshot_IsNotFound m')) (msm_state m')
      (Some Sample.entry) = Ret (h, []) ∧ hint_mCode h = JOURNAL_ENTRY_ALREADY_PROCESSED.
Proof.
  destruct (rocks_run _ _ _ _ MapDB.bundles_ok MapDB.fresh_inv MapDB.ran_eq) as (k & sk & _ & _ & Hinv & _).
  destruct (MapDB.swap_returns MapDB.leader MapDB.ran) as (m' & s' & Es). exists m', s'.
  destruct (leader_refuses_recorded _ _ _ _ _ (mk_ProcessEnv 7 Sample.ejunk (snapshot_IsNotFound m'))
    Sample.entry Hinv Es) as (_ & h & Hh & Hc).
  - left. vm_compute. eauto.
  - reflexivity.
  - exists h. split; [exact Es|]. split; [exact Hh|exact Hc].
Defined.

(** A split is not handed over: [swapState] leaves the control state of the
    new leader as it was, and the leader answers an already applied split
    request as a new one. *)
Theorem split_not_handed_over :
  ∃ s m' s' e,
    Event_wf e ∧ rocks_applyEvent 0 MapDB.fresh e = Ret s ∧
    (SplitCommand_process SampleSplit.req (mCtrlState (rsm_state s))).2 = None ∧
    swapState MapDB.leader s = Ret (m', s') ∧
    mCtrlState (msm_state m') ≠ mCtrlState (rsm_state s) ∧
    (SplitCommand_process SampleSplit.req (mCtrlState (msm_state m'))).2 = Some SampleSplit.req.
Proof.
  do 3 eexists. exists (SplitEvent_new Sample.ejunk 7 SampleSplit.req).
  split; [reflexivity|]. split; [vm_compute; reflexivity|]. split; [vm_compute; reflexivity|].
  split; [vm_compute; reflexivity|]. split; [vm_compute; congruence|vm_compute; reflexivity].
Qed.
