(* ===== verification/Strings.v ===== *)
(** * Strings

    [std::string] as a list of characters: prefixes, appending and the last
    character.  [substr(0, n)] is [take_chars n], [substr(n)] is [skip n]. *)
From Stdlib Require Import Ascii String.
From stdpp Require Import strings.
From S2P Require Import Prelude.

Fixpoint take_chars (n : nat) (s : string) : string :=
  match n, s with S n, String c s => String c (take_chars n s) | _, _ => EmptyString end.
Fixpoint skip (n : nat) (s : string) : string :=
  match n, s with S n, String _ s => skip n s | _, _ => s end.

Lemma string_app_cons c s t : String c s +:+ t = String c (s +:+ t).
Proof. done. Qed.

Lemma list_of_app s t : list_ascii_of_string (s +:+ t) = list_ascii_of_string s ++ list_ascii_of_string t.
Proof. induction s as [|c s IH]; [done|]. rewrite string_app_cons. simpl. by rewrite IH. Qed.

Lemma string_app_inj_r s s' t : s +:+ t = s' +:+ t → s = s'.
Proof.
  intros Ht. apply (f_equal list_ascii_of_string) in Ht. rewrite !list_of_app in Ht. apply app_inv_tail in Ht.
  rewrite <- (string_of_list_ascii_of_string s), <- (string_of_list_ascii_of_string s'). by rewrite Ht.
Qed.

Lemma string_app_nil_r s : s +:+ EmptyString = s.
Proof. induction s as [|c s IH]; [done|]. by rewrite string_app_cons, IH. Qed.

Lemma string_app_assoc s t u : (s +:+ t) +:+ u = s +:+ t +:+ u.
Proof. induction s as [|c s IH]; [done|]. by rewrite !string_app_cons, IH. Qed.

Lemma take_skip n s : take_chars n s +:+ skip n s = s.
Proof. revert s. induction n as [|n IH]; intros [|c s]; simpl; try done. by rewrite string_app_cons, IH. Qed.

Lemma take_chars_app s t : take_chars (String.length s) (s +:+ t) = s.
Proof. induction s as [|c s IH]; [by destruct t|]. rewrite string_app_cons. simpl. by rewrite IH. Qed.

Lemma skip_app s t : skip (String.length s) (s +:+ t) = t.
Proof. induction s as [|c s IH]; [by destruct t|]. rewrite string_app_cons. simpl. by rewrite IH. Qed.

Lemma string_length_app s t : String.length (s +:+ t) = (String.length s + String.length t)%nat.
Proof. induction s as [|c s IH]; [done|]. rewrite string_app_cons. simpl. by rewrite IH. Qed.

Lemma skip_length n s : (n ≤ String.length s)%nat → (n + String.length (skip n s) = String.length s)%nat.
Proof. revert s. induction n as [|n IH]; intros [|c s] Hn; simpl in *; try lia. rewrite <- (IH s); lia. Qed.

Definition last_char (s : string) : option ascii := last (list_ascii_of_string s).

Lemma last_char_app s t : t ≠ EmptyString → last_char (s +:+ t) = last_char t.
Proof.
  intros Ht. unfold last_char. rewrite list_of_app. destruct t as [|c t]; [done|]. simpl list_ascii_of_string.
  rewrite last_app_cons. done.
Qed.

