(* ===== verification/ClusterInfo.v ===== *)
(** * The clusters and this node's place in them

    - src/src/infra/util/ClusterInfo.{h,cpp}: the clusters, their nodes and ports,
      as text and parsed; the answer to a [RouteSignal] (Control.v);
    - src/src/app_util/AppInfo.{h,cpp}: what the process knows of itself.

    absl, boost's property trees, INIReader and the client of the external
    configuration are classes. *)
From Stdlib Require Import Ascii String.
From stdpp Require Import gmap strings pretty sorting.
From S2P Require Import Prelude Strings Numeric.
Open Scope Z_scope.

(** ** Libraries *)
Fixpoint join (sep : ascii) (l : list string) : string :=
  match l with
  | [] => EmptyString
  | [s] => s
  | s :: l => s +:+ String sep (join sep l)
  end.

(** A string without the character. *)
Definition free_of (c : ascii) (s : string) : Prop := c ∉ list_ascii_of_string s.

(** [absl::StrSplit] at a character and [%d] of [absl::StrFormat]. *)
Class Absl := {
  StrSplit : string → ascii → list string;
  FormatInt : Z → string }.

Class AbslLaws `{Absl} := {
  StrSplit_join s sep : join sep (StrSplit s sep) = s;
  StrSplit_free s sep : Forall (free_of sep) (StrSplit s sep);
  StrSplit_some s sep : StrSplit s sep ≠ [];
  FormatInt_decimal z : 0 ≤ z → FormatInt z = pretty z }.

(** [Get], [GetInteger], [GetBoolean]: section, name, default. *)
Class INIReader (R : Type) := {
  INI_Get : R → string → string → string → string;
  INI_GetInteger : R → string → string → Z → Z;
  INI_GetBoolean : R → string → string → bool → bool }.

(** [boost::property_tree]; what throws has no value. *)
Class PropertyTree := {
  ptree : Type;
  read_json : string → option ptree;
  get_child : ptree → string → option ptree;
  ptree_data : ptree → string;
  ptree_children : ptree → list ptree }.

(** ** Nodes and clusters *)
Definition kDefaultRaftPort : Z := 5254.
Definition kDefaultGatewayPort : Z := 50055.
Definition kDefaultFetcherPort : Z := 50056.
Definition kDefaultStreamingPort : Z := 5678.
Definition kDefaultNetAdminPort : Z := 50065.
Definition kDefaultScalePort : Z := 61203.

Record Node := mk_Node {
  mNodeId : Z; mHostName : string;
  mPortForRaft : Z; mPortForGateway : Z; mPortForFetcher : Z;
  mPortForStream : Z; mPortForNetAdmin : Z; mPortForScale : Z }.

Definition Node_default (nodeId : Z) (hostName : string) : Node :=
  mk_Node nodeId hostName kDefaultRaftPort kDefaultGatewayPort kDefaultFetcherPort
    kDefaultStreamingPort kDefaultNetAdminPort kDefaultScalePort.

Record ClusterInfo := mk_ClusterInfo { ci_mClusterId : Z; mNodes : gmap Z Node }.

Definition addNode (info : ClusterInfo) (node : Node) : ClusterInfo :=
  mk_ClusterInfo (ci_mClusterId info) (<[mNodeId node := node]> (mNodes info)).

(** [std::map] is iterated in the order of its keys. *)
Definition key_order {A} (x y : Z * A) : Prop := x.1 ≤ y.1.
#[export] Instance key_order_dec {A} : RelDecision (@key_order A).
Proof. intros x y. unfold key_order. apply _. Defined.
Definition in_order {A} (m : gmap Z A) : list (Z * A) := merge_sort key_order (map_to_list m).

Section cluster.
Context `{Absl}.

Definition format_node (idx : Z) (node : Node) : string :=
  FormatInt idx +:+ "@" +:+ mHostName node +:+ ":" +:+
  join "|" (FormatInt <$> [mPortForRaft node; mPortForGateway node; mPortForFetcher node;
                           mPortForStream node; mPortForNetAdmin node; mPortForScale node]) +:+ ",".

(** [to_string] *)
Definition ClusterInfo_to_string (info : ClusterInfo) : string :=
  foldr (λ kv str, format_node kv.1 kv.2 +:+ str) EmptyString (in_order (mNodes info)).

(** A split result as a pair: what is missing is empty, what is over is dropped. *)
Definition to_pair (l : list string) : string * string :=
  (default EmptyString (l !! 0%nat), default EmptyString (l !! 1%nat)).

Definition parse_node (n : string) : result Node :=
  let hostWithPort := to_pair (StrSplit n ":") in
  let idWithHost := to_pair (StrSplit hostWithPort.1 "@") in
  nodeId ← u32 <$> stoi idWithHost.1;
  match hostWithPort.2 with
  | EmptyString => Ret (Node_default nodeId idWithHost.2)
  | portStr =>
      match StrSplit portStr "|" with
      | [p0; p1; p2; p3; p4; p5] =>
          raft ← stoi p0; gateway ← stoi p1; fetcher ← stoi p2;
          stream ← stoi p3; netAdmin ← stoi p4; scale ← stoi p5;
          Ret (mk_Node nodeId idWithHost.2 (u32 raft) (u32 gateway) (u32 fetcher) (u32 stream) (u32 netAdmin) (u32 scale))
      | _ => Fail AssertFailure
      end
  end.

Definition parse_cluster (c : string) : result ClusterInfo :=
  let clusterIdWithNodes := to_pair (StrSplit c "#") in
  clusterId ← u32 <$> stoi clusterIdWithNodes.1;
  foldM (λ info n, node ← parse_node n; Ret (addNode info node))
    (mk_ClusterInfo clusterId ∅) (StrSplit clusterIdWithNodes.2 ",").

Definition parseToClusterInfo (infoStr : string) : result (gmap Z ClusterInfo) :=
  foldM (λ all c, info ← parse_cluster c; Ret (<[ci_mClusterId info := info]> all)) ∅ (StrSplit infoStr ";").
End cluster.

(** ** The route of a cluster

    [checkHasRoute] catches every exception and answers false. *)
Section route.
Context `{PropertyTree}.

Fixpoint find_route (clusterId : Z) (infos : list ptree) : option bool :=
  match infos with
  | [] => Some false
  | v :: infos =>
      clusterNode ← get_child v "clusterId";
      match stoi (ptree_data clusterNode) with
      | Fail _ => None
      | Ret id => if clusterId =? u64 id then Some true else find_route clusterId infos
      end
  end.

Definition checkHasRoute (routeStr : string) (clusterId epoch : Z) : bool :=
  default false (
    globalRoute ← read_json routeStr;
    epochNode ← get_child globalRoute "epoch";
    match stoi (ptree_data epochNode) with
    | Fail _ => None
    | Ret routeEpoch => infos ← get_child globalRoute "routeInfos"; find_route clusterId (ptree_children infos)
    end).
End route.

(** ** Which node this is *)
Inductive RouteHandler := StartDirectly | AskClient (clusterRouteKey : string) (clusterId : Z).

Section resolve.
Context `{Absl} {R} `{INIReader R}.

(** The client built from a configuration file gives the values of keys. *)
Definition Client : Type := string → string.

Definition has_node (all : gmap Z ClusterInfo) (clusterId nodeId : Z) : bool :=
  match all !! clusterId with Some info => bool_decide (is_Some (mNodes info !! nodeId)) | None => false end.

(** The last cluster with a node on this host, and its first such node. *)
Definition find_host (hostname : string) (all : gmap Z ClusterInfo) : option (Z * Z) :=
  foldl (λ found '(clusterId, info),
    match list_find (λ kv, mHostName kv.2 = hostname) (in_order (mNodes info)) with
    | Some (_, (nodeId, _)) => Some (clusterId, nodeId)
    | None => found
    end) None (in_order all).

Definition resolveAllClusters (iniReader : R) (factory : option (string → Client)) (hostname : string)
    : result (Z * Z * gmap Z ClusterInfo * RouteHandler) :=
  cassert (bool_decide (INI_Get iniReader "cluster" "persistence.type" "UNKNOWN" = "raft"));;
  if negb (INI_GetBoolean iniReader "raft.external" "enable" false) then
    allClusterInfo ← parseToClusterInfo (INI_Get iniReader "cluster" "cluster.conf" "");
    let myClusterId := INI_GetInteger iniReader "cluster" "self.clusterId" 0 in
    let myNodeId := INI_GetInteger iniReader "cluster" "self.nodeId" 0 in
    cassert (has_node allClusterInfo myClusterId myNodeId);;
    Ret (u32 myClusterId, u32 myNodeId, allClusterInfo, StartDirectly)
  else
    let externalConfigFile := INI_Get iniReader "raft.external" "config.file" "" in
    let clusterConfKey := INI_Get iniReader "raft.external" "cluster.conf.key" "" in
    let clusterRouteKey := INI_Get iniReader "raft.external" "cluster.route.key" "" in
    cassert (bool_decide (externalConfigFile ≠ EmptyString));;
    cassert (bool_decide (clusterConfKey ≠ EmptyString));;
    match factory with
    | None => Fail UndefinedBehaviour
    | Some produce =>
        allClusterInfo ← parseToClusterInfo (produce externalConfigFile clusterConfKey);
        match find_host hostname allClusterInfo with
        | None => Fail AssertFailure
        | Some (clusterId, nodeId) => Ret (clusterId, nodeId, allClusterInfo, AskClient clusterRouteKey clusterId)
        end
    end.

(** The handler of [RouteSignal]. *)
Definition handle_RouteSignal `{PropertyTree} (client : Client) (h : RouteHandler) (epoch clusterId : Z) : result bool :=
  match h with
  | StartDirectly => Ret true
  | AskClient clusterRouteKey myClusterId =>
      cassert (myClusterId =? clusterId);;
      cassert (bool_decide (clusterRouteKey ≠ EmptyString));;
      Ret (checkHasRoute (client clusterRouteKey) myClusterId epoch)
  end.

(** ** AppInfo *)
Record AppInfoInstance := mk_AppInfoInstance {
  initialized : bool; mSubsystemId : Z; mGroupVersion : Z; mStressTestEnabled : bool; mAppVersion : string;
  mAllClusterInfo : gmap Z ClusterInfo; ai_mMyClusterId : Z; mMyNodeId : Z }.

(** The static instance; its two ids are zero, as static storage is. *)
Definition AppInfo_new : AppInfoInstance := mk_AppInfoInstance false 0 0 false "v2" ∅ 0 0.

Definition AppInfo_init (appInfo : AppInfoInstance) (reader : R) (hostname : string) : result AppInfoInstance :=
  if initialized appInfo then Ret appInfo
  else
    '(myClusterId, myNodeId, allClusterInfo, _) ← resolveAllClusters reader None hostname;
    let subsystemId := u64 (INI_GetInteger reader "app" "subsystem.id" 0) in
    cassert (0 <? subsystemId);;
    Ret (mk_AppInfoInstance true subsystemId (u64 (INI_GetInteger reader "app" "group.version" 0))
           (INI_GetBoolean reader "app" "stress.test.enabled" false) (INI_Get reader "app" "version" "v2")
           allClusterInfo myClusterId myNodeId).

(** [operator[]] of a missing key is a default value: its id is not initialised. *)
Definition getMyClusterInfo (appInfo : AppInfoInstance) : option ClusterInfo := mAllClusterInfo appInfo !! ai_mMyClusterId appInfo.

Definition getMyNode (appInfo : AppInfoInstance) : result (option Node) :=
  cassert (initialized appInfo);; Ret (getMyClusterInfo appInfo ≫= λ info, mNodes info !! mMyNodeId appInfo).

(** The key of the map has 32 bits. *)
Definition getClusterInfo (appInfo : AppInfoInstance) (clusterId : Z) : option ClusterInfo := mAllClusterInfo appInfo !! u32 clusterId.

Definition netAdminPort (appInfo : AppInfoInstance) : Z :=
  match getMyClusterInfo appInfo ≫= λ info, mNodes info !! mMyNodeId appInfo with
  | Some node => mPortForNetAdmin node
  | None => kDefaultNetAdminPort
  end.
Definition gatewayPort (appInfo : AppInfoInstance) : result Z := from_option mPortForGateway kDefaultGatewayPort <$> getMyNode appInfo.
Definition fetchPort (appInfo : AppInfoInstance) : result Z := from_option mPortForFetcher kDefaultFetcherPort <$> getMyNode appInfo.
Definition scalePort (appInfo : AppInfoInstance) : result Z := from_option mPortForScale kDefaultScalePort <$> getMyNode appInfo.
End resolve.
