(* ===== verification/ClusterTheorems.v ===== *)
(** * Cluster configurations: what is written is what is read *)
From Stdlib Require Import Ascii String.
From stdpp Require Import gmap strings pretty sorting.
From S2P Require Import Prelude Strings Numeric ClusterInfo.
Open Scope Z_scope.

(** ** Splitting *)
Lemma free_of_app c s t : free_of c (s +:+ t) ↔ free_of c s ∧ free_of c t.
Proof. unfold free_of. rewrite list_of_app, elem_of_app. naive_solver. Qed.

Lemma free_of_cons c d s : free_of c (String d s) ↔ c ≠ d ∧ free_of c s.
Proof. unfold free_of. simpl. rewrite elem_of_cons. naive_solver. Qed.

Lemma split_at sep s s' x x' :
  free_of sep s → free_of sep s' → s +:+ String sep x = s' +:+ String sep x' → s = s' ∧ x = x'.
Proof.
  revert s'. induction s as [|c s IH]; intros [|c' s'] Hs Hs' Heq; rewrite ?string_app_cons in Heq.
  - by injection Heq as <-.
  - injection Heq as <- _. by apply free_of_cons in Hs' as [? _].
  - injection Heq as -> _. by apply free_of_cons in Hs as [? _].
  - injection Heq as <- Heq. apply free_of_cons in Hs as [_ Hs], Hs' as [_ Hs']. by destruct (IH s' Hs Hs' Heq) as [-> ->].
Qed.

Lemma not_free sep s x : ¬ free_of sep (s +:+ String sep x).
Proof. rewrite free_of_app, free_of_cons. naive_solver. Qed.

Lemma join_inj sep l l' :
  l ≠ [] → l' ≠ [] → Forall (free_of sep) l → Forall (free_of sep) l' → join sep l = join sep l' → l = l'.
Proof.
  revert l'. induction l as [|s l IH]; intros [|s' l'] Hl Hl' Hf Hf' Heq; [done..|].
  apply Forall_cons in Hf as [Hs Hf], Hf' as [Hs' Hf']. destruct l as [|t l], l' as [|t' l']; simpl in Heq.
  - by subst.
  - subst s. by apply not_free in Hs.
  - subst s'. by apply not_free in Hs'.
  - apply split_at in Heq as [-> Heq]; [|done..]. f_equal. by apply IH.
Qed.

Section laws.
Context `{AbslLaws}.

Lemma StrSplit_of_join sep l : l ≠ [] → Forall (free_of sep) l → StrSplit (join sep l) sep = l.
Proof. intros Hl Hf. apply (join_inj sep); [apply StrSplit_some|done|apply StrSplit_free|done|apply StrSplit_join]. Qed.

Definition port_ok (p : Z) : Prop := 0 ≤ p ≤ 2147483647.

Lemma format_ok p : port_ok p → stoi (FormatInt p) = Ret p ∧ all_digits (FormatInt p) ∧ FormatInt p ≠ EmptyString.
Proof. intros Hp. unfold port_ok in Hp. rewrite FormatInt_decimal by lia. split; [by apply stoi_pretty|]. apply decimal_digits. lia. Qed.

Lemma digits_free c s : is_digit c = false → all_digits s → free_of c s.
Proof. intros Hc Hs Hin. eapply (proj1 (Forall_forall _ _)) in Hs; [|exact Hin]. congruence. Qed.

Lemma u32_port p : port_ok p → u32 p = p.
Proof. intros Hp. unfold u32, port_ok in *. apply Z.mod_small. lia. Qed.

(** ** A node *)
Definition ports (node : Node) : list Z :=
  [mPortForRaft node; mPortForGateway node; mPortForFetcher node; mPortForStream node; mPortForNetAdmin node; mPortForScale node].

Definition node_ok (node : Node) : Prop :=
  port_ok (mNodeId node) ∧ Forall port_ok (ports node) ∧
  Forall (λ c, free_of c (mHostName node)) (";" :: "#" :: "," :: ":" :: "@" :: [])%char.

Definition node_body (node : Node) : string :=
  FormatInt (mNodeId node) +:+ "@" +:+ mHostName node +:+ ":" +:+ join "|" (FormatInt <$> ports node).

Lemma format_node_body node : format_node (mNodeId node) node = node_body node +:+ ",".
Proof. unfold format_node, node_body, ports. by rewrite !string_app_assoc. Qed.

Lemma join_free c sep l : c ≠ sep → Forall (free_of c) l → free_of c (join sep l).
Proof.
  intros Hc. induction l as [|s l IH]; [intros _; by apply not_elem_of_nil|]. intros [Hs Hl]%Forall_cons. destruct l as [|t l]; [done|].
  change (join sep (s :: t :: l)) with (s +:+ String sep (join sep (t :: l))). apply free_of_app. split; [done|]. apply free_of_cons. auto.
Qed.

Lemma ports_free c node : is_digit c = false → c ≠ "|"%char → Forall port_ok (ports node) → free_of c (join "|" (FormatInt <$> ports node)).
Proof.
  intros Hc Hb Hp. apply join_free; [done|]. apply Forall_fmap. eapply Forall_impl; [exact Hp|]. intros p Hpp. apply digits_free; [done|]. by apply format_ok.
Qed.

Lemma node_body_free c node : node_ok node → is_digit c = false → c ≠ "|"%char → c ≠ ":"%char → c ≠ "@"%char →
  free_of c (mHostName node) → free_of c (node_body node).
Proof.
  intros (Hid & Hp & _) Hd Hb Hc Ha Hh. unfold node_body. apply free_of_app. split; [apply digits_free; [done|]; by apply format_ok|].
  change ("@" +:+ ?x) with (String "@"%char x). apply free_of_cons. split; [done|]. apply free_of_app. split; [done|].
  change (":" +:+ ?x) with (String ":"%char x). apply free_of_cons. split; [done|]. by apply ports_free.
Qed.

Lemma to_pair_two a b l : to_pair (a :: b :: l) = (a, b).
Proof. done. Qed.

Lemma parse_node_body node : node_ok node → parse_node (node_body node) = Ret node.
Proof.
  intros (Hid & Hp & Hh). rewrite !Forall_cons in Hh. destruct Hh as (_ & _ & _ & Hcolon & Hat & _).
  destruct (format_ok _ Hid) as (Hs & Hd & _). unfold parse_node.
  pose proof Hp as Hq. unfold ports in Hq. rewrite !Forall_cons in Hq. destruct Hq as (Q0 & Q1 & Q2 & Q3 & Q4 & Q5 & _).
  assert (H1 : StrSplit (node_body node) ":" = [FormatInt (mNodeId node) +:+ "@" +:+ mHostName node; join "|" (FormatInt <$> ports node)]).
  { rewrite <- (StrSplit_of_join ":"); [|done|].
    - f_equal. unfold node_body. simpl. by rewrite !string_app_assoc.
    - repeat apply Forall_cons_2; [|by apply ports_free|constructor]. apply free_of_app. split; [by apply digits_free|]. apply free_of_cons. by split. }
  assert (H2 : StrSplit (FormatInt (mNodeId node) +:+ "@" +:+ mHostName node) "@" = [FormatInt (mNodeId node); mHostName node]).
  { rewrite <- (StrSplit_of_join "@"); [done|done|]. repeat apply Forall_cons_2; [by apply digits_free|done|constructor]. }
  assert (H3 : StrSplit (join "|" (FormatInt <$> ports node)) "|" = FormatInt <$> ports node).
  { apply StrSplit_of_join; [done|]. apply Forall_fmap. eapply Forall_impl; [exact Hp|]. intros p Hpp. apply digits_free; [done|]. by apply format_ok. }
  rewrite H1. cbv zeta. rewrite to_pair_two. cbn [fst snd]. rewrite H2, to_pair_two. cbn [fst snd]. rewrite Hs. cbn [fmap result_fmap mbind result_mbind]. rewrite (u32_port _ Hid).
  destruct (join "|" (FormatInt <$> ports node)) as [|c str] eqn:Ej.
  { exfalso. destruct (format_ok _ Q0) as (_ & _ & Hne). simpl in Ej. by destruct (FormatInt (mPortForRaft node)). }
  rewrite H3. unfold ports. cbn [fmap list_fmap].
  rewrite (proj1 (format_ok _ Q0)), (proj1 (format_ok _ Q1)), (proj1 (format_ok _ Q2)), (proj1 (format_ok _ Q3)), (proj1 (format_ok _ Q4)), (proj1 (format_ok _ Q5)).
  cbn. rewrite !u32_port by done. by destruct node.
Qed.

Lemma parse_node_empty : parse_node EmptyString = Fail Thrown.
Proof.
  unfold parse_node. assert (Hs : ∀ c, StrSplit EmptyString c = [EmptyString]).
  { intros c. apply (StrSplit_of_join c [EmptyString]); [done|]. apply Forall_singleton. by apply not_elem_of_nil. }
  rewrite Hs. cbn [to_pair fst snd lookup list_lookup default from_option]. by rewrite Hs.
Qed.

(** ** A cluster *)
Definition keyed {A} (id : A → Z) (m : gmap Z A) : Prop := ∀ k a, m !! k = Some a → id a = k.

Definition cluster_ok (info : ClusterInfo) : Prop :=
  port_ok (ci_mClusterId info) ∧ mNodes info ≠ ∅ ∧ keyed mNodeId (mNodes info) ∧ map_Forall (λ _, node_ok) (mNodes info).

(** The text of a cluster: its id and what [to_string] gives, without the last comma. *)
Definition cluster_text (info : ClusterInfo) : string :=
  let nodes := ClusterInfo_to_string info in
  FormatInt (ci_mClusterId info) +:+ "#" +:+ take_chars (String.length nodes - 1) nodes.

Lemma in_order_elem {A} (m : gmap Z A) k a : (k, a) ∈ in_order m ↔ m !! k = Some a.
Proof. unfold in_order. rewrite merge_sort_Permutation. apply elem_of_map_to_list. Qed.

Lemma in_order_NoDup {A} (m : gmap Z A) : NoDup (in_order m).*1.
Proof. unfold in_order. rewrite merge_sort_Permutation. apply NoDup_fst_map_to_list. Qed.

Lemma in_order_nil {A} (m : gmap Z A) : m ≠ ∅ → in_order m ≠ [].
Proof.
  intros Hm He. apply Hm, map_eq. intros k. rewrite lookup_empty. apply eq_None_not_Some. intros [a Ha%in_order_elem].
  rewrite He in Ha. by apply not_elem_of_nil in Ha.
Qed.

Lemma foldl_insert {A} (l : list (Z * A)) (m : gmap Z A) :
  NoDup l.*1 → foldl (λ m kv, <[kv.1 := kv.2]> m) m l = list_to_map l ∪ m.
Proof.
  revert m. induction l as [|[k a] l IH]; intros m Hn; [by rewrite list_to_map_nil, (left_id_L ∅ (∪))|]. csimpl in *. apply NoDup_cons in Hn as [Hk Hn].
  rewrite IH by done. rewrite <- insert_union_l, <- insert_union_r; [done|]. by apply not_elem_of_list_to_map_1.
Qed.

Lemma in_order_rebuild {A} (m : gmap Z A) : foldl (λ (m : gmap Z A) kv, <[kv.1 := kv.2]> m) ∅ (in_order m) = m.
Proof.
  rewrite foldl_insert by apply in_order_NoDup. rewrite (right_id_L ∅ (∪)). trans (list_to_map (M := gmap Z A) (map_to_list m)); [|apply list_to_map_to_list].
  apply list_to_map_proper; [apply in_order_NoDup|]. apply merge_sort_Permutation.
Qed.

Definition bodies (info : ClusterInfo) : list string := (λ kv, node_body kv.2) <$> in_order (mNodes info).

Lemma nodes_text (l : list (Z * Node)) : l ≠ [] → (∀ k node, (k, node) ∈ l → mNodeId node = k) →
  foldr (λ kv str, format_node kv.1 kv.2 +:+ str) EmptyString l = join "," ((λ kv, node_body kv.2) <$> l) +:+ ",".
Proof.
  induction l as [|[k node] l IH]; intros Hl Hk; [done|]. assert (mNodeId node = k) as <- by (apply Hk; left).
  cbn [foldr fmap list_fmap fst snd]. rewrite format_node_body. destruct l as [|kv l]; [cbn; by rewrite string_app_nil_r|].
  rewrite IH by (done || (intros k' node' Hin; apply Hk; by right)). cbn [fmap list_fmap]. set (rest := join "," _). 
  change (join "," _) with (node_body node +:+ String ","%char rest). rewrite !string_app_assoc. done.
Qed.

Lemma to_string_text info : cluster_ok info → ClusterInfo_to_string info = join "," (bodies info) +:+ ",".
Proof.
  intros (_ & Hne & Hkey & _). apply nodes_text; [by apply in_order_nil|]. intros k node Hin%in_order_elem. by apply Hkey.
Qed.

Lemma cluster_text_eq info : cluster_ok info → cluster_text info = FormatInt (ci_mClusterId info) +:+ "#" +:+ join "," (bodies info).
Proof.
  intros Hi. unfold cluster_text. rewrite (to_string_text info Hi), string_length_app. change (String.length ",") with 1%nat.
  replace (String.length (join "," (bodies info)) + 1 - 1)%nat with (String.length (join "," (bodies info))) by lia. by rewrite take_chars_app.
Qed.

Lemma bodies_free c info : cluster_ok info → is_digit c = false → c ≠ "|"%char → c ≠ ":"%char → c ≠ "@"%char →
  c ∈ (";" :: "#" :: "," :: [])%char → Forall (free_of c) (bodies info).
Proof.
  intros (_ & _ & _ & Hok) H1 H2 H3 H4 Hc. apply Forall_fmap, Forall_forall. intros [k node] Hin%in_order_elem. specialize (Hok k node Hin).
  apply node_body_free; [done..|]. destruct Hok as (_ & _ & Hh). rewrite Forall_forall in Hh. apply Hh. set_solver.
Qed.

Lemma cluster_text_free info : cluster_ok info → free_of ";" (cluster_text info).
Proof.
  intros Hi. rewrite cluster_text_eq by done. destruct (Hi) as (Hid & _). apply free_of_app. split; [apply digits_free; [done|]; by apply format_ok|].
  apply free_of_cons. split; [done|]. apply join_free; [done|]. apply bodies_free; [done..|set_solver].
Qed.

Lemma foldM_nodes (l : list (Z * Node)) id m :
  (∀ k node, (k, node) ∈ l → mNodeId node = k ∧ node_ok node) →
  foldM (λ info n, node ← parse_node n; Ret (addNode info node)) (mk_ClusterInfo id m) ((λ kv, node_body kv.2) <$> l) =
    Ret (mk_ClusterInfo id (foldl (λ m kv, <[kv.1 := kv.2]> m) m l)).
Proof.
  revert m. induction l as [|[k node] l IH]; intros m Hl; [done|]. destruct (Hl k node) as [<- Hok]; [by left|].
  cbn [fmap list_fmap foldM fst snd]. rewrite parse_node_body by done. cbn [mbind result_mbind].
  unfold addNode at 2. cbn [ci_mClusterId mNodes]. rewrite IH by (intros k' node' Hin; apply Hl; by right). done.
Qed.

Lemma parse_cluster_text info : cluster_ok info → parse_cluster (cluster_text info) = Ret info.
Proof.
  intros Hi. rewrite cluster_text_eq by done. pose proof Hi as (Hid & Hne & Hkey & Hok). destruct (format_ok _ Hid) as (Hs & Hd & _).
  assert (H1 : StrSplit (FormatInt (ci_mClusterId info) +:+ "#" +:+ join "," (bodies info)) "#" =
    [FormatInt (ci_mClusterId info); join "," (bodies info)]).
  { rewrite <- (StrSplit_of_join "#"); [done|done|]. repeat apply Forall_cons_2; [by apply digits_free| |constructor].
    apply join_free; [done|]. apply bodies_free; [done..|set_solver]. }
  assert (H2 : StrSplit (join "," (bodies info)) "," = bodies info).
  { apply StrSplit_of_join; [|apply bodies_free; [done..|set_solver]]. unfold bodies. intros Hb%fmap_nil_inv. by apply in_order_nil in Hb. }
  unfold parse_cluster. rewrite H1, to_pair_two. cbn [fst snd]. rewrite H2, Hs. cbn [fmap result_fmap mbind result_mbind]. rewrite (u32_port _ Hid).
  unfold bodies. rewrite foldM_nodes, in_order_rebuild; [by destruct info|]. intros k node Hin%in_order_elem. split; [by apply Hkey|by eapply Hok].
Qed.

(** With the last comma there is one more node, whose id is not a number. *)
Lemma parse_trailing_comma info :
  cluster_ok info → parse_cluster (FormatInt (ci_mClusterId info) +:+ "#" +:+ ClusterInfo_to_string info) = Fail Thrown.
Proof.
  intros Hi. rewrite to_string_text by done. pose proof Hi as (Hid & Hne & Hkey & Hok). destruct (format_ok _ Hid) as (Hs & Hd & _).
  assert (Hb : bodies info ≠ []) by (unfold bodies; intros Hb%fmap_nil_inv; by apply in_order_nil in Hb).
  assert (Hj : join "," (bodies info) +:+ "," = join "," (bodies info ++ [EmptyString])).
  { clear -Hb. induction (bodies info) as [|b l IH]; [done|]. destruct l as [|b' l]; [done|].
    change (join "," ((b :: b' :: l) ++ [EmptyString])) with (b +:+ String ","%char (join "," ((b' :: l) ++ [EmptyString]))). rewrite <- IH by done.
    change (join "," (b :: b' :: l)) with (b +:+ String ","%char (join "," (b' :: l))). by rewrite string_app_assoc, string_app_cons. }
  assert (Hf : ∀ c, c ∈ ("#" :: "," :: [])%char → Forall (free_of c) (bodies info ++ [EmptyString])).
  { intros c Hc. apply Forall_app. split; [apply bodies_free; [done|set_unfold in Hc; naive_solver..|set_solver]|].
    apply Forall_singleton. by apply not_elem_of_nil. }
  rewrite Hj. assert (H1 : StrSplit (FormatInt (ci_mClusterId info) +:+ "#" +:+ join "," (bodies info ++ [EmptyString])) "#" =
    [FormatInt (ci_mClusterId info); join "," (bodies info ++ [EmptyString])]).
  { rewrite <- (StrSplit_of_join "#"); [done|done|]. repeat apply Forall_cons_2; [by apply digits_free| |constructor].
    apply join_free; [done|]. apply Hf. set_solver. }
  unfold parse_cluster. rewrite H1, to_pair_two. cbn [fst snd]. rewrite StrSplit_of_join by (try apply Hf; set_solver || by destruct (bodies info)).
  rewrite Hs. cbn [fmap result_fmap mbind result_mbind]. unfold bodies. rewrite foldM_app, foldM_nodes.
  - assert (Hemp : parse_node EmptyString = Fail Thrown) by (apply parse_node_empty). cbn. by rewrite Hemp.
  - intros k node Hin%in_order_elem. split; [by apply Hkey|by eapply Hok].
Qed.
End laws.

(** ** What parsing gives *)
Section parsed.
Context `{Absl}.

Definition parsed_info (info : ClusterInfo) : Prop :=
  0 ≤ ci_mClusterId info < 2 ^ 32 ∧ ∀ k node, mNodes info !! k = Some node → mNodeId node = k ∧ 0 ≤ k < 2 ^ 32.

Definition parsed (all : gmap Z ClusterInfo) : Prop :=
  ∀ k info, all !! k = Some info → ci_mClusterId info = k ∧ parsed_info info.

Lemma u32_range z : 0 ≤ u32 z < 2 ^ 32.
Proof. unfold u32. apply Z.mod_pos_bound. lia. Qed.

Lemma u32_small z : 0 ≤ z < 2 ^ 32 → u32 z = z.
Proof. apply Z.mod_small. Qed.

Lemma foldM_invariant {A B} (P : B → Prop) (f : B → A → result B) b l b' :
  (∀ b x b', P b → f b x = Ret b' → P b') → P b → foldM f b l = Ret b' → P b'.
Proof.
  intros Hf. revert b. induction l as [|x l IH]; intros b Hb Hl; [by injection Hl as <-|].
  simpl in Hl. apply bind_Ret in Hl as (b1 & H1 & Hl). eapply IH; [|exact Hl]. by eapply Hf.
Qed.

Lemma parse_node_id n node : parse_node n = Ret node → 0 ≤ mNodeId node < 2 ^ 32.
Proof.
  unfold parse_node. intros Hn. apply bind_Ret in Hn as (id & Hid & Hn). destruct (stoi _) as [z|]; [|done]. injection Hid as <-.
  pose proof (u32_range z). destruct (to_pair (StrSplit n ":")).2; [by injection Hn as <-|].
  destruct (StrSplit _ "|") as [|p0 [|p1 [|p2 [|p3 [|p4 [|p5 [|]]]]]]]; try done.
  repeat (apply bind_Ret in Hn as (? & _ & Hn)). by injection Hn as <-.
Qed.

Lemma parse_cluster_parsed c info : parse_cluster c = Ret info → parsed_info info.
Proof.
  unfold parse_cluster. intros Hc. apply bind_Ret in Hc as (id & Hid & Hc). destruct (stoi _) as [z|]; [|done]. injection Hid as <-.
  revert Hc. apply foldM_invariant.
  - intros b n b' [Hb Hn] Hp. apply bind_Ret in Hp as (node & Hnode & [= <-]). split; [done|]. simpl. intros k node'.
    rewrite lookup_insert_Some. intros [[<- <-]|[_ Hk]]; [split; [done|by eapply parse_node_id]|by apply Hn].
  - split; [apply u32_range|]. intros k node. simpl. by rewrite lookup_empty.
Qed.

Lemma parseToClusterInfo_parsed s all : parseToClusterInfo s = Ret all → parsed all.
Proof.
  apply foldM_invariant; [|by intros k info Hk%lookup_empty_Some]. intros m c m' Hm Hp. apply bind_Ret in Hp as (info & Hi & [= <-]).
  intros k info'. rewrite lookup_insert_Some. intros [[<- <-]|[_ Hk]]; [split; [done|by eapply parse_cluster_parsed]|by apply Hm].
Qed.

Lemma has_node_lookup all clusterId nodeId : has_node all clusterId nodeId = true →
  ∃ info node, all !! clusterId = Some info ∧ mNodes info !! nodeId = Some node.
Proof.
  unfold has_node. destruct (all !! clusterId) as [info|] eqn:Ea; [|done]. intros [node Hn]%bool_decide_eq_true. by exists info, node.
Qed.
End parsed.

(** ** Claims of the module: a sample *)
Module SampleCluster.
Fixpoint split_at_char (s : string) (sep : ascii) : list string :=
  match s with
  | EmptyString => [EmptyString]
  | String c s =>
      if Ascii.eqb c sep then EmptyString :: split_at_char s sep
      else match split_at_char s sep with [] => [] | p :: l => String c p :: l end
  end.
#[export] Instance absl : Absl := {| StrSplit := split_at_char; FormatInt := pretty |}.

Lemma split_some s sep : split_at_char s sep ≠ [].
Proof. induction s as [|c s IH]; simpl; [done|]. destruct (Ascii.eqb c sep); [done|]. by destruct (split_at_char s sep). Qed.

#[export] Instance absl_laws : AbslLaws.
Proof.
  split; simpl; [| |apply split_some|done].
  - intros s sep. induction s as [|c s IH]; [done|]. simpl. pose proof (split_some s sep) as Hs. destruct (Ascii.eqb_spec c sep) as [->|Hc].
    + destruct (split_at_char s sep) as [|p l] eqn:Es; [done|]. simpl in *. by rewrite <- IH.
    + destruct (split_at_char s sep) as [|p l] eqn:Es; [done|]. rewrite <- IH. by destruct l.
  - intros s sep. induction s as [|c s IH]; simpl; [apply Forall_singleton; by apply not_elem_of_nil|].
    destruct (Ascii.eqb_spec c sep) as [->|Hc]; [constructor; [by apply not_elem_of_nil|done]|].
    destruct (split_at_char s sep) as [|p l]; [constructor|]. apply Forall_cons in IH as [Hp Hl]. constructor; [|done]. apply free_of_cons. by split.
Qed.

Definition node (id port : Z) : Node := mk_Node id "0.0.0.0" port 50055 55055 65055 75055 85055.
Definition clusters : gmap Z ClusterInfo :=
  {[0 := mk_ClusterInfo 0 {[1 := node 1 5253; 2 := node 2 5254]}; 1 := mk_ClusterInfo 1 {[1 := node 1 5255]}]}.

(** A reader of one configuration. *)
Definition ini (conf : string) : (string → string → string) * (string → Z) :=
  (λ _ name, if bool_decide (name = "persistence.type") then "raft" else if bool_decide (name = "cluster.conf") then conf else "v2",
   λ name, if bool_decide (name = "subsystem.id") then 3 else 1).
#[export] Instance reader : INIReader ((string → string → string) * (string → Z)) := {|
  INI_Get r section name _ := r.1 section name;
  INI_GetInteger r _ name _ := r.2 name;
  INI_GetBoolean _ _ _ d := d |}.
End SampleCluster.
Import (hints) SampleCluster.

(** C32. The text of a configuration is read back: clusters whose ids and ports fit an [int]
    and whose host names have none of the separators, written as [to_string]
    writes their nodes but without the last comma, are parsed as they were.  With
    that comma, as [to_string] leaves it, parsing throws. *)
Theorem cluster_conf_roundtrip `{AbslLaws} (all : gmap Z ClusterInfo) :
  all ≠ ∅ → keyed ci_mClusterId all → map_Forall (λ _, cluster_ok) all →
  parseToClusterInfo (join ";" ((λ kv, cluster_text kv.2) <$> in_order all)) = Ret all ∧
  ∀ id info, all !! id = Some info → parse_cluster (FormatInt id +:+ "#" +:+ ClusterInfo_to_string info) = Fail Thrown.
Proof.
  intros Hne Hkey Hok. split.
  - unfold parseToClusterInfo. rewrite StrSplit_of_join.
    + rewrite <- (in_order_rebuild all) at 2. generalize (∅ : gmap Z ClusterInfo) as m.
      assert (Hl : ∀ k info, (k, info) ∈ in_order all → ci_mClusterId info = k ∧ cluster_ok info).
      { intros k info Hin%in_order_elem. split; [by apply Hkey|by eapply Hok]. }
      induction (in_order all) as [|[k info] l IH]; intros m; [done|]. destruct (Hl k info) as [<- Hi]; [by left|].
      cbn [fmap list_fmap foldM fst snd]. rewrite parse_cluster_text by done. cbn [mbind result_mbind]. rewrite IH; [done|].
      intros k' info' Hin. apply Hl. by right.
    + intros Hn%fmap_nil_inv. by apply in_order_nil in Hn.
    + apply Forall_fmap, Forall_forall. intros [k info] Hin%in_order_elem. apply cluster_text_free. by eapply Hok.
  - intros id info Hi. rewrite <- (Hkey _ _ Hi). apply parse_trailing_comma. by eapply Hok.
Qed.

Lemma cluster_conf_roundtrip_witness :
  parseToClusterInfo "0#1@0.0.0.0:5253|50055|55055|65055|75055|85055,2@0.0.0.0:5254|50055|55055|65055|75055|85055;1#1@0.0.0.0:5255|50055|55055|65055|75055|85055"
    = Ret SampleCluster.clusters.
Proof.
  refine (proj1 (cluster_conf_roundtrip SampleCluster.clusters _ _ _)).
  - vm_compute. congruence.
  - intros k info. unfold SampleCluster.clusters. rewrite lookup_insert_Some, lookup_singleton_Some. intros [[<- <-]|[_ [<- <-]]]; reflexivity.
  - assert (Hn : ∀ id p, port_ok id → port_ok p → node_ok (SampleCluster.node id p)).
    { intros id p Hid Hp. split; [exact Hid|]. split; [repeat apply Forall_cons_2; try exact Hp; try apply Forall_nil_2; vm_compute; split; congruence|].
      repeat constructor; intros Hin; repeat (apply elem_of_cons in Hin as [Hin|Hin]; [discriminate|]); by apply not_elem_of_nil in Hin. }
    intros k info. unfold SampleCluster.clusters. rewrite lookup_insert_Some, lookup_singleton_Some. intros [[_ <-]|[_ [_ <-]]];
      (split; [done|split; [vm_compute; congruence|split]]).
    + intros k' node'. simpl. rewrite lookup_insert_Some, lookup_singleton_Some. intros [[<- <-]|[_ [<- <-]]]; reflexivity.
    + intros k' node'. simpl. rewrite lookup_insert_Some, lookup_singleton_Some. intros [[_ <-]|[_ [_ <-]]]; by apply Hn.
    + intros k' node'. simpl. rewrite lookup_singleton_Some. intros [<- <-]. reflexivity.
    + intros k' node'. simpl. rewrite lookup_singleton_Some. intros [_ <-]. by apply Hn.
Defined.

(** A node that starts is one of its configuration: after [AppInfo::init] the node and
    cluster ids are the configured ones, [getMyNode] gives the node the configuration
    has under them and never a default one, and another cluster is found under exactly its
    id, as long as the id asked for has 32 bits; one with more is taken modulo
    2^32.  With an external configuration enabled the process does not start. *)
Theorem appinfo_knows_itself `{AbslLaws} `{INIReader R} (reader : R) hostname a :
  AppInfo_init AppInfo_new reader hostname = Ret a →
  INI_GetBoolean reader "raft.external" "enable" false = false ∧
  ∃ all info node, parseToClusterInfo (INI_Get reader "cluster" "cluster.conf" "") = Ret all ∧
    getMyNode a = Ret (Some node) ∧ getMyClusterInfo a = Some info ∧
    mNodeId node = INI_GetInteger reader "cluster" "self.nodeId" 0 ∧ mMyNodeId a = mNodeId node ∧
    ci_mClusterId info = INI_GetInteger reader "cluster" "self.clusterId" 0 ∧ ai_mMyClusterId a = ci_mClusterId info ∧
    0 < mSubsystemId a ∧
    ∀ id, 0 ≤ id → getClusterInfo a id = all !! (id `mod` 2 ^ 32).
Proof.
  unfold AppInfo_init. simpl. intros Ha. apply bind_Ret in Ha as ([[[clusterId nodeId] all] h] & Hr & Ha).
  apply cassert_bind in Ha as [Hsub [= <-]]. unfold resolveAllClusters in Hr. apply cassert_bind in Hr as [_ Hr].
  destruct (INI_GetBoolean reader "raft.external" "enable" false).
  { simpl in Hr. apply cassert_bind in Hr as [_ Hr]. by apply cassert_bind in Hr as [_ Hr]. }
  split; [done|]. simpl in Hr. apply bind_Ret in Hr as (all' & Hp & Hr). apply cassert_bind in Hr as [Hn Hr]. injection Hr as <- <- -> <-.
  apply has_node_lookup in Hn as (info & node & Hc & Hn). pose proof (parseToClusterInfo_parsed _ _ Hp) as Hall.
  destruct (Hall _ _ Hc) as [Hid [Hr1 Hr2]]. destruct (Hr2 _ _ Hn) as [Hnid Hr3]. rewrite Hid in Hr1.
  exists all, info, node. unfold getMyNode, getMyClusterInfo, getClusterInfo. simpl. rewrite !(u32_small _ Hr1), !(u32_small _ Hr3), Hc. simpl. rewrite Hn.
  do 4 (split; [done|]). split; [done|]. do 2 (split; [done|]). split; [by apply Z.ltb_lt|]. done.
Qed.

Lemma appinfo_knows_itself_witness :
  ∃ a, AppInfo_init AppInfo_new (SampleCluster.ini "0#1@h0;1#1@h1:5255|50055|55055|65055|75055|85055") "h1" = Ret a ∧
    ∃ node, getMyNode a = Ret (Some node) ∧ mNodeId node = 1 ∧
      getClusterInfo a (2 ^ 32 + 1) = getClusterInfo a 1.
Proof.
  destruct (AppInfo_init AppInfo_new (SampleCluster.ini "0#1@h0;1#1@h1:5255|50055|55055|65055|75055|85055") "h1") as [a|f] eqn:Ea.
  - destruct (appinfo_knows_itself _ _ a Ea) as (_ & all & info & node & _ & Hn & _ & Hid & _ & _ & _ & _ & Hc).
    exists a. split; [reflexivity|]. exists node. split; [exact Hn|]. split; [exact Hid|]. rewrite !Hc by lia. reflexivity.
  - exfalso. assert (Hok : ok (AppInfo_init AppInfo_new (SampleCluster.ini "0#1@h0;1#1@h1:5255|50055|55055|65055|75055|85055") "h1") = true) by (vm_compute; reflexivity).
    rewrite Ea in Hok. discriminate.
Defined.
