(* ===== verification/Snapshot.v ===== *)
(** * Snapshot files

    src/src/infra/es/store/SnapshotUtil.h and what it uses of
    src/src/infra/util/FileUtil.cpp: typed reading and writing of binary files,
    the names of snapshots and checkpoints, taking and loading a snapshot in a
    directory.  The state machine writes and reads the body of a snapshot; what it
    writes is a parameter. *)
From Stdlib Require Import Ascii String.
From stdpp Require Import gmap strings pretty.
From S2P Require Import Prelude Strings Numeric.
Open Scope Z_scope.

(** ** Binary streams of FileUtil

    An [ofstream] is what has been written to it, an [ifstream] what is left to
    read.  A read of more bytes than are left fails, and [checkFileState] exits.
    Numbers have the byte order of the machines the program is built for. *)
Fixpoint le_bytes (n : nat) (z : Z) : string :=
  match n with
  | O => EmptyString
  | S n => String (ascii_of_N (Z.to_N (z `mod` 256))) (le_bytes n (z / 256))
  end.

Fixpoint le_value (s : string) : Z :=
  match s with EmptyString => 0 | String c s => Z.of_N (N_of_ascii c) + 256 * le_value s end.

Definition read_bytes (n : nat) (ifs : string) : result (string * string) :=
  if (String.length ifs <? n)%nat then Fail ExitFailure else Ret (take_chars n ifs, skip n ifs).

Definition writeUint64ToFile (ofs : string) (content : Z) : string := ofs +:+ le_bytes 8 content.

Definition readUint64FromFile (ifs : string) : result (Z * string) :=
  '(bytes, ifs) ← read_bytes 8 ifs; Ret (le_value bytes, ifs).

Definition writeStrToFile (ofs : string) (content : string) : string :=
  writeUint64ToFile ofs (Z.of_nat (String.length content)) +:+ content.

(** [std::string(buffer.data())]: up to the first NUL. *)
Fixpoint c_str (s : string) : string :=
  match s with
  | EmptyString => EmptyString
  | String c s => if Ascii.eqb c zero then EmptyString else String c (c_str s)
  end.

Definition readStrFromFile (ifs : string) : result (string * string) :=
  '(size, ifs) ← readUint64FromFile ifs;
  cassert (0 <? size);;
  '(buffer, ifs) ← read_bytes (Z.to_nat size) ifs;
  Ret (c_str buffer, ifs).

(** ** Regular expressions

    What [std::regex] (the ECMAScript grammar) makes of the patterns used here:
    [[0-9]+], captured or not, the dot, which is any character but a line
    terminator, literal characters, and the end of the input.  Matching is greedy
    and backtracks; [regex_search] finds the leftmost match.  A match is the captured group and
    the whole match. *)
Inductive Item := Digits (captured : bool) | AnyChar | Literal (s : string) | EndOfInput.

Definition line_terminator (c : ascii) : bool := Ascii.eqb c "010" || Ascii.eqb c "013".

Fixpoint digit_run (s : string) : nat :=
  match s with String c s => if is_digit c then S (digit_run s) else 0 | EmptyString => 0 end.

(** The longest run of at most [n] characters that lets the rest match. *)
Fixpoint backtrack {A} (try : nat → option A) (n : nat) : option A :=
  match n with O => None | S m => match try n with Some a => Some a | None => backtrack try m end end.

Fixpoint match_here (p : list Item) (s : string) : option (string * string) :=
  match p with
  | [] => Some (EmptyString, EmptyString)
  | Digits captured :: p =>
      backtrack (λ n, '(group, m) ← match_here p (skip n s);
        Some (if captured then take_chars n s else group, take_chars n s +:+ m)) (digit_run s)
  | AnyChar :: p =>
      match s with
      | String c s => if line_terminator c then None else '(group, m) ← match_here p s; Some (group, String c m)
      | EmptyString => None
      end
  | Literal l :: p =>
      if String.prefix l s then '(group, m) ← match_here p (skip (String.length l) s); Some (group, l +:+ m) else None
  | EndOfInput :: p => match s with EmptyString => match_here p s | _ => None end
  end.

Fixpoint regex_search (p : list Item) (s : string) : option (string * string) :=
  match match_here p s with
  | Some m => Some m
  | None => match s with String _ s => regex_search p s | EmptyString => None end
  end.

(** [([0-9]+).snapshot$] and [([0-9]+)\.[0-9]+\.checkpoint$] *)
Definition snapshotRegex : list Item := [Digits true; AnyChar; Literal "snapshot"; EndOfInput].
Definition checkpointRegex : list Item :=
  [Digits true; Literal "."; Digits false; Literal ".checkpoint"; EndOfInput].

(** ** The directory

    [files]: its regular files.  [listing]: the names the iterator gives, in any
    order.  These functions are [noexcept]: an exception stops the process. *)
Definition listFiles (dir : string) (listing : list string) : list string := (λ name, dir +:+ "/" +:+ name) <$> listing.

(** [getLargestSnapshot] *)
Definition larger_snapshot (found : Z * string) (fileName : string) : result (Z * string) :=
  match regex_search snapshotRegex fileName with
  | None => Ret found
  | Some (group, m) =>
      index ← stoll group;
      Ret (if found.1 <? index then (index, m) else found)
  end.

Definition getLargestSnapshot (dir : string) (listing : list string) : result (option string) :=
  '(largestIndex, largestSnapshot) ← foldM larger_snapshot (-1, EmptyString) (listFiles dir listing);
  Ret (if negb (largestIndex =? -1) then Some largestSnapshot else None).

Definition kSnapshotSuffix : string := ".snapshot".

Definition findLatestSnapshotOffset (dir : string) (listing : list string) : result (option Z) :=
  snapshotFileOpt ← getLargestSnapshot dir listing;
  match snapshotFileOpt with
  | None | Some EmptyString => Ret None
  | Some fileName => Some <$> stoull (take_chars (String.length fileName - String.length kSnapshotSuffix) fileName)
  end.

Definition larger_checkpoint (largestIndex : Z) (dirName : string) : result Z :=
  match regex_search checkpointRegex dirName with
  | None => Ret largestIndex
  | Some (group, _) => index ← stoll group; Ret (if largestIndex <? index then index else largestIndex)
  end.

Definition findLatestCheckpointOffset (dir : string) (listing : list string) : result (option Z) :=
  largestIndex ← foldM larger_checkpoint (-1) (listFiles dir listing);
  Ret (if negb (largestIndex =? -1) then Some (u64 largestIndex) else None).

(** *** Taking and loading

    Files are named relative to the directory.  What is written to a file is safe
    from a failure of the machine once [fdatasync] has been called; until then a
    failure may leave anything in it.  The directory is never synced: a rename may
    be lost, and a file that was created may be missing. *)
Inductive FileOp := OpenTrunc (name : string) | WriteBody (name body : string) | SyncFile (name : string) | Rename (from to : string).

Record Dir := mk_Dir { dir_files : gmap string string; dir_unsynced : gset string }.

Definition run_op (d : Dir) (op : FileOp) : Dir :=
  match op with
  | OpenTrunc name => mk_Dir (<[name := EmptyString]> (dir_files d)) ({[name]} ∪ dir_unsynced d)
  | WriteBody name body => mk_Dir (<[name := body]> (dir_files d)) ({[name]} ∪ dir_unsynced d)
  | SyncFile name => mk_Dir (dir_files d) (dir_unsynced d ∖ {[name]})
  | Rename from to =>
      match dir_files d !! from with
      | None => d
      | Some body =>
          mk_Dir (<[to := body]> (delete from (dir_files d)))
            (if bool_decide (from ∈ dir_unsynced d) then {[to]} ∪ dir_unsynced d ∖ {[from]} else dir_unsynced d ∖ {[from; to]})
      end
  end.

(** Names that operations create or write to. *)
Definition touched (ops : list FileOp) : list string :=
  omap (λ op, match op with OpenTrunc name | WriteBody name _ => Some name | _ => None end) ops.

(** The directory after the process has been killed, with [k] of the operations
    done and some of the next one. *)
Definition killed_to (files : gmap string string) (ops : list FileOp) (k : nat) (files' : gmap string string) : Prop :=
  ∀ name, name ∉ touched (option_list (ops !! k)) →
    files' !! name = dir_files (foldl run_op (mk_Dir files ∅) (take k ops)) !! name.

(** The operations that are on the disk after the machine has failed: renames may be
    lost. *)
Inductive kept : list FileOp → list FileOp → Prop :=
  | kept_nil : kept [] []
  | kept_op op ops ops' : kept ops ops' → kept (op :: ops) (op :: ops')
  | kept_not from to ops ops' : kept ops ops' → kept (Rename from to :: ops) ops'.

(** The directory found then. *)
Definition crashes_to (files : gmap string string) (ops : list FileOp) (files' : gmap string string) : Prop :=
  ∃ k ops', kept (take k ops) ops' ∧
    ∀ name, name ∉ dir_unsynced (foldl run_op (mk_Dir files ∅) ops') → name ∉ touched (take (S k) ops) →
      files' !! name = dir_files (foldl run_op (mk_Dir files ∅) ops') !! name.

Section snapshots.
Context {SM : Type}.
(** [createSnapshotAndPersist]: whether it succeeds, and what it has written;
    [loadSnapshotFrom], which fails by stopping the process. *)
Context (createSnapshotAndPersist : SM → Z → bool * string) (loadSnapshotFrom : string → SM → option (SM * Z)).

Definition snapshot_name (offset : Z) : string := pretty offset +:+ kSnapshotSuffix.

(** [takeSnapshotAndPersist] when the file can be opened: its effects in order,
    and its result. *)
Definition takeSnapshotAndPersist (currentOffset : Z) (snapshotDir : string) (stateMachine : SM) : list FileOp * (bool * string) :=
  let snapshotFile := snapshot_name currentOffset in
  let tmpSnapshotFile := snapshotFile +:+ ".tmp" in
  let '(result, body) := createSnapshotAndPersist stateMachine currentOffset in
  ([OpenTrunc tmpSnapshotFile; WriteBody tmpSnapshotFile body; SyncFile tmpSnapshotFile; Rename tmpSnapshotFile snapshotFile],
   (result, snapshotDir +:+ "/" +:+ snapshotFile)).

(** [loadLatestSnapshot] *)
Definition loadLatestSnapshot (snapshotDir : string) (files : gmap string string) (listing : list string) (stateMachine : SM)
    : result (SM * option Z) :=
  snapshotFileOpt ← getLargestSnapshot snapshotDir listing;
  match snapshotFileOpt with
  | None | Some EmptyString => Ret (stateMachine, None)
  | Some snapshotFile =>
      match files !! snapshotFile with
      | None => Ret (stateMachine, None)
      | Some body =>
          match loadSnapshotFrom body stateMachine with
          | Some (stateMachine, offset) => Ret (stateMachine, Some offset)
          | None => Fail Thrown
          end
      end
  end.
End snapshots.
