(* ===== verification/SnapshotProps.v ===== *)
(** * Names of snapshots, binary streams

    What the two patterns match, which file is the latest snapshot, and what is
    read back from a stream. *)
From Stdlib Require Import Ascii String.
From stdpp Require Import gmap strings pretty.
From S2P Require Import Prelude Strings Numeric Snapshot.
Open Scope Z_scope.

(** ** Binary streams *)
Lemma read_bytes_app s rest : read_bytes (String.length s) (s +:+ rest) = Ret (s, rest).
Proof.
  unfold read_bytes. rewrite string_length_app, (proj2 (Nat.ltb_ge _ _)) by lia. by rewrite take_chars_app, skip_app.
Qed.

Lemma le_bytes_length n z : String.length (le_bytes n z) = n.
Proof. revert z. induction n as [|n IH]; intros z; simpl; [done|]. by rewrite IH. Qed.

Lemma le_value_bytes n z : 0 ≤ z < 256 ^ Z.of_nat n → le_value (le_bytes n z) = z.
Proof.
  revert z. induction n as [|n IH]; intros z Hz; [simpl in *; lia|]. rewrite Nat2Z.inj_succ, Z.pow_succ_r in Hz by lia.
  cbn [le_bytes le_value]. pose proof (Z.mod_pos_bound z 256). rewrite N_ascii_embedding by lia.
  rewrite IH by (split; [apply Z.div_pos; lia|apply Z.div_lt_upper_bound; lia]). rewrite Z2N.id by lia. pose proof (Z.div_mod z 256). lia.
Qed.

Lemma readUint64_bytes z rest : 0 ≤ z < two64 → readUint64FromFile (le_bytes 8 z +:+ rest) = Ret (z, rest).
Proof.
  intros Hz. unfold readUint64FromFile. pose proof (read_bytes_app (le_bytes 8 z) rest) as Hr. rewrite le_bytes_length in Hr.
  rewrite Hr. cbn -[le_value le_bytes]. rewrite le_value_bytes; [done|]. change (256 ^ Z.of_nat 8) with two64. done.
Qed.

Lemma c_str_id s : c_str s = s ↔ Ascii.zero ∉ list_ascii_of_string s.
Proof.
  induction s as [|c s IH]; simpl; [split; [intros _ Hx; inversion Hx|done]|]. rewrite not_elem_of_cons.
  destruct (Ascii.eqb_spec c zero) as [->|Hc]; [split; [done|by intros [? _]]|]. rewrite <- IH. split; [by intros [= ->]|by intros [_ ->]].
Qed.

(** ** What the patterns match *)
Lemma digit_run_spec n s : (n ≤ digit_run s)%nat → all_digits (take_chars n s) ∧ String.length (take_chars n s) = n.
Proof.
  revert s. induction n as [|n IH]; intros [|c s] Hn; simpl in *; try lia; try (split; [constructor|done]).
  destruct (is_digit c) eqn:Ec; [|lia]. destruct (IH s) as [Hd Hl]; [lia|]. split; [by constructor|by rewrite Hl].
Qed.

Lemma digit_run_ge g s : all_digits g → (String.length g ≤ digit_run (g +:+ s))%nat.
Proof. induction g as [|c g IH]; [simpl; lia|]. intros [Hc Hg]%Forall_cons. rewrite string_app_cons. simpl. rewrite Hc. specialize (IH Hg). lia. Qed.

Lemma backtrack_some {A} (f : nat → option A) n a : backtrack f n = Some a → ∃ k, (0 < k ≤ n)%nat ∧ f k = Some a.
Proof.
  induction n as [|n IH]; simpl; [done|]. destruct (f (Datatypes.S n)) eqn:Ef; [intros [= ->]; exists (Datatypes.S n); split; [lia|done]|].
  intros Hb. destruct (IH Hb) as (k & Hk & Hf). exists k. split; [lia|done].
Qed.

Lemma backtrack_unique {A} (f : nat → option A) n k a :
  (0 < k ≤ n)%nat → f k = Some a → (∀ j b, f j = Some b → j = k) → backtrack f n = Some a.
Proof.
  intros Hk Hf Hu. induction n as [|n IH]; simpl; [lia|]. destruct (f (Datatypes.S n)) eqn:Ef.
  - rewrite <- (Hu _ _ Ef) in Hf. congruence.
  - apply IH. destruct (decide (k = Datatypes.S n)) as [->|]; [congruence|lia].
Qed.

(** The dot, the word and the end. *)
Definition snapshot_tail : list Item := [AnyChar; Literal "snapshot"; EndOfInput].

Lemma match_tail s g m :
  match_here snapshot_tail s = Some (g, m) → ∃ c, s = String c "snapshot" ∧ line_terminator c = false ∧ m = s.
Proof.
  destruct s as [|c s]; [done|]. unfold snapshot_tail. cbn [match_here]. destruct (line_terminator c) eqn:Ec; [done|].
  destruct (String.prefix "snapshot" s) eqn:Ep; [|done]. apply prefix_correct in Ep. 
  remember (skip (String.length "snapshot") s) as t eqn:Et. destruct t as [|c' t]; [|done]. intros [= <- <-].
  exists c. pose proof (take_skip 8 s) as Hs. change (skip 8 s) with (skip (String.length "snapshot") s) in Hs. rewrite <- Et, string_app_nil_r in Hs.
  assert (Ht : take_chars 8 s = "snapshot").
  { rewrite <- Ep. clear. change (String.length "snapshot") with 8%nat. generalize 8%nat. induction s as [|c s IH]; intros [|n]; simpl; try done. by rewrite IH. }
  rewrite Ht in Hs. subst s. done.
Qed.

Lemma match_digits p s :
  match_here (Digits true :: p) s =
    backtrack (λ n, '(group, m) ← match_here p (skip n s); Some (take_chars n s, take_chars n s +:+ m)) (digit_run s).
Proof. done. Qed.

Lemma match_snapshot s g m :
  match_here snapshotRegex s = Some (g, m) ↔
  m = s ∧ g ≠ EmptyString ∧ all_digits g ∧ ∃ c, s = g +:+ String c "snapshot" ∧ line_terminator c = false.
Proof.
  change snapshotRegex with (Digits true :: snapshot_tail). rewrite match_digits. split.
  - intros (k & Hk & Hm)%backtrack_some. destruct (match_here snapshot_tail (skip k s)) as [[g' m']|] eqn:Em; [|done].
    simpl in Hm. injection Hm as <- <-. apply match_tail in Em as (c & Hs & Hc & ->). rewrite take_skip.
    destruct (digit_run_spec k s) as [Hd Hl]; [lia|]. split_and!; [done| |done|].
    + intros He. rewrite He in Hl. simpl in Hl. lia.
    + exists c. by rewrite <- Hs, take_skip.
  - intros (-> & Hg & Hd & c & -> & Hc). apply (backtrack_unique _ _ (String.length g)).
    + split; [destruct g; [done|simpl; lia]|by apply digit_run_ge].
    + rewrite skip_app, take_chars_app. cbn [match_here snapshot_tail]. rewrite Hc. done.
    + intros j b Hj. destruct (match_here snapshot_tail (skip j _)) as [[g' m']|] eqn:Em; [|done].
      apply match_tail in Em as (c' & Hs & _). assert (Hl : String.length (skip j (g +:+ String c "snapshot")) = 9%nat) by by rewrite Hs.
      destruct (decide (j ≤ String.length (g +:+ String c "snapshot"))%nat) as [Hle|Hgt].
      * pose proof (skip_length _ _ Hle) as Hsk. rewrite Hl, string_length_app in Hsk. simpl in Hsk. lia.
      * exfalso. clear -Hgt Hl. revert j Hgt Hl. generalize (g +:+ String c "snapshot") as s. induction s as [|c' s IH]; intros [|j] Hgt Hl; simpl in *; try lia.
        apply (IH j); [lia|done].
Qed.

(** ** Searching a path *)
Lemma search_cases p s r :
  regex_search p s = Some r → ∃ pre suf, s = pre +:+ suf ∧ match_here p suf = Some r.
Proof.
  induction s as [|c s IH]; simpl.
  - intros Hs. exists EmptyString, EmptyString. split; [done|]. by destruct (match_here p EmptyString).
  - destruct (match_here p (String c s)) eqn:Em; [intros [= ->]; by exists EmptyString, (String c s)|].
    intros (pre & suf & -> & Hm)%IH. by exists (String c pre), suf.
Qed.

Lemma search_skip p pre suf :
  (∀ pre1 pre2, pre = pre1 +:+ pre2 → pre2 ≠ EmptyString → match_here p (pre2 +:+ suf) = None) →
  regex_search p (pre +:+ suf) = regex_search p suf.
Proof.
  induction pre as [|c pre IH]; intros Hn; [done|]. rewrite string_app_cons. cbn [regex_search].
  rewrite <- string_app_cons, (Hn EmptyString (String c pre)) by done. apply IH. intros pre1 pre2 -> Hne. by apply (Hn (String c pre1)).
Qed.

(** A temporary file is not a snapshot. *)
Lemma search_tmp s : regex_search snapshotRegex (s +:+ ".tmp") = None.
Proof.
  destruct (regex_search _ _) as [[g m]|] eqn:Es; [|done]. apply search_cases in Es as (pre & suf & Hs & Hm).
  apply match_snapshot in Hm as (_ & _ & _ & c & -> & _). apply (f_equal last_char) in Hs.
  rewrite last_char_app, !last_char_app in Hs; [done|done|by destruct g|done].
Qed.

Lemma search_snapshot dir n :
  0 ≤ n → regex_search snapshotRegex (dir +:+ "/" +:+ snapshot_name n) = Some (pretty n, snapshot_name n).
Proof.
  intros Hn. destruct (decimal_digits n Hn) as [Hd Hne]. unfold snapshot_name, kSnapshotSuffix. rewrite <- string_app_assoc. rewrite search_skip.
  - assert (Hm : match_here snapshotRegex (pretty n +:+ ".snapshot") = Some (pretty n, pretty n +:+ ".snapshot")).
    { apply match_snapshot. split_and!; [done|done|done|]. by exists "."%char. }
    destruct (pretty n +:+ ".snapshot") eqn:Ep; [by destruct (pretty n)|]. cbn [regex_search]. by rewrite Hm.
  - intros pre1 pre2 Hpre Hp. destruct (match_here _ _) as [[g m]|] eqn:Em; [|done]. exfalso.
    apply match_snapshot in Em as (_ & _ & Hg & c & Hs & _). change (String c "snapshot") with (String c EmptyString +:+ "snapshot") in Hs.
    change ".snapshot" with ("." +:+ "snapshot") in Hs. rewrite <- !string_app_assoc in Hs. apply string_app_inj_r in Hs.
    apply (f_equal list_ascii_of_string) in Hs. rewrite !list_of_app in Hs. simpl in Hs. apply app_inj_2 in Hs as [Hs _]; [|done].
    assert (Hlast : last_char pre2 = Some "/"%char).
    { rewrite <- (last_char_app pre1), <- Hpre, last_char_app by done. done. }
    unfold all_digits in Hg. rewrite <- Hs in Hg. apply Forall_app in Hg as [Hg _]. unfold last_char in Hlast.
    apply last_Some in Hlast as [l Hl]. rewrite Hl in Hg. apply Forall_app in Hg as [_ [Hg _]%Forall_cons]. done.
Qed.

(** ** The latest snapshot *)
Definition tidy (listing : list string) : Prop :=
  ∀ name, name ∈ listing → (∃ n, 0 ≤ n < 2 ^ 63 ∧ name = snapshot_name n) ∨ ∃ base, name = base +:+ ".tmp".

Definition latest (listing : list string) (o : option Z) : Prop :=
  match o with
  | Some n => 0 ≤ n < 2 ^ 63 ∧ snapshot_name n ∈ listing ∧ ∀ m, 0 ≤ m → snapshot_name m ∈ listing → m ≤ n
  | None => ∀ m, 0 ≤ m → snapshot_name m ∉ listing
  end.

Lemma snapshot_name_inj m n : snapshot_name m = snapshot_name n → m = n.
Proof. intros Hs%string_app_inj_r. by apply pretty_Z_inj. Qed.

Lemma snapshot_not_tmp n base : snapshot_name n ≠ base +:+ ".tmp".
Proof. intros Hs%(f_equal last_char). unfold snapshot_name, kSnapshotSuffix in Hs. by rewrite !last_char_app in Hs. Qed.

Definition found_of (o : option Z) : Z * string :=
  match o with Some n => (n, snapshot_name n) | None => (-1, EmptyString) end.

Lemma larger_snapshot_latest dir before o name :
  latest before o → tidy [name] → ∃ o', larger_snapshot (found_of o) (dir +:+ "/" +:+ name) = Ret (found_of o') ∧ latest (before ++ [name]) o'.
Proof.
  intros Ho Ht. destruct (Ht name) as [(n & Hn & ->)|[base ->]]; [by apply list_elem_of_singleton| |].
  - unfold larger_snapshot. rewrite search_snapshot, stoll_pretty by lia. simpl.
    destruct (Z.ltb_spec (found_of o).1 n) as [Hlt|Hge].
    + exists (Some n). split; [done|]. split; [done|]. split; [set_solver|]. intros m Hm [Hb|Hs%list_elem_of_singleton]%elem_of_app.
      * destruct o as [k|]; simpl in *; [|by destruct (Ho m)]. destruct Ho as (_ & _ & Ho). specialize (Ho m Hm Hb). lia.
      * apply snapshot_name_inj in Hs. lia.
    + exists o. split; [done|]. destruct o as [k|]; simpl in *; [|lia]. destruct Ho as (Hk & Hin & Ho). split; [done|].
      split; [set_solver|]. intros m Hm [Hb|Hs%list_elem_of_singleton]%elem_of_app; [by apply Ho|]. apply snapshot_name_inj in Hs. lia.
  - exists o. unfold larger_snapshot. rewrite <- !string_app_assoc, search_tmp. split; [done|].
    destruct o as [k|]; simpl in *.
    + destruct Ho as (Hk & Hin & Ho). split; [done|]. split; [set_solver|].
      intros m Hm [Hb|Hs%list_elem_of_singleton]%elem_of_app; [by apply Ho|]. by destruct (snapshot_not_tmp m base).
    + intros m Hm [Hb|Hs%list_elem_of_singleton]%elem_of_app; [by apply (Ho m)|]. by destruct (snapshot_not_tmp m base).
Qed.

Lemma getLargestSnapshot_latest dir listing :
  tidy listing → ∃ o, getLargestSnapshot dir listing = Ret (snapshot_name <$> o) ∧ latest listing o.
Proof.
  intros Ht. assert (Hgo : ∀ l before o, tidy l → latest before o →
    ∃ o', foldM larger_snapshot (found_of o) (listFiles dir l) = Ret (found_of o') ∧ latest (before ++ l) o').
  { induction l as [|name l IH]; intros before o Htl Ho; [exists o; by rewrite app_nil_r|].
    destruct (larger_snapshot_latest dir before o name Ho) as (o1 & H1 & Ho1); [intros x ->%list_elem_of_singleton; apply Htl; by left|].
    destruct (IH (before ++ [name]) o1) as (o2 & H2 & Ho2); [intros x Hx; apply Htl; by right|done|].
    exists o2. rewrite <- app_assoc in Ho2. split; [|done]. unfold listFiles. csimpl. by rewrite H1. }
  destruct (Hgo listing [] None Ht) as (o & Hf & Ho); [by intros m _ Hm%not_elem_of_nil|]. exists o. split; [|done].
  unfold getLargestSnapshot. change (-1, EmptyString) with (found_of None). rewrite Hf. simpl. destruct o as [n|]; simpl; [|done].
  destruct Ho as (Hn & _). by rewrite (proj2 (Z.eqb_neq _ _)) by lia.
Qed.

Lemma latest_unique listing listing' o o' :
  (∀ m, 0 ≤ m → snapshot_name m ∈ listing ↔ snapshot_name m ∈ listing') → latest listing o → latest listing' o' → o = o'.
Proof.
  intros Hsame Ho Ho'. destruct o as [n|], o' as [n'|]; simpl in *; [| | |done].
  - destruct Ho as (Hn & Hin & Hmax), Ho' as (Hn' & Hin' & Hmax'). f_equal. apply Z.le_antisymm.
    + apply Hmax'; [lia|]. apply Hsame; [lia|done].
    + apply Hmax; [lia|]. apply Hsame; [lia|done].
  - destruct Ho as (Hn & Hin & _). destruct (Ho' n); [lia|]. apply Hsame; [lia|done].
  - destruct Ho' as (Hn & Hin & _). destruct (Ho n'); [lia|]. apply Hsame; [lia|done].
Qed.

Lemma findLatestSnapshotOffset_latest dir listing :
  tidy listing → ∃ o, findLatestSnapshotOffset dir listing = Ret o ∧ latest listing o.
Proof.
  intros Ht. destruct (getLargestSnapshot_latest dir listing Ht) as (o & Hg & Ho). exists o. split; [|done].
  unfold findLatestSnapshotOffset. rewrite Hg. destruct o as [n|]; csimpl; [|done]. destruct Ho as (Hn & _).
  pose proof (take_chars_app (pretty n) kSnapshotSuffix) as Htake. pose proof (string_length_app (pretty n) kSnapshotSuffix) as Hlen.
  unfold snapshot_name. destruct (pretty n +:+ kSnapshotSuffix) as [|c rest] eqn:En; [by destruct (pretty n)|]. change (String.length kSnapshotSuffix) with 9%nat in Hlen.
  replace (String.length (String c rest) - 9)%nat with (String.length (pretty n)) by (rewrite Hlen; lia).
  rewrite Htake, stoull_pretty by (unfold two64; lia). done.
Qed.
