(* ===== verification/SnapshotTheorems.v ===== *)
(** * Snapshots: what is loaded, crashes, the binary format *)
From Stdlib Require Import Ascii String.
From stdpp Require Import gmap strings pretty.
From S2P Require Import Prelude Strings Numeric Snapshot SnapshotProps.
Open Scope Z_scope.

(** The iterator gives every regular file once. *)
Definition lists (files : gmap string string) (listing : list string) : Prop :=
  ∀ name, name ∈ listing ↔ is_Some (files !! name).

Definition tmp_name (n : Z) : string := snapshot_name n +:+ ".tmp".

Lemma tmp_not_snapshot n : tmp_name n ≠ snapshot_name n.
Proof. intros Hs. symmetry in Hs. by apply snapshot_not_tmp in Hs. Qed.

Lemma tidy_after files files' listing listing' n :
  0 ≤ n < 2 ^ 63 → lists files listing → lists files' listing' → tidy listing →
  (∀ name, name ≠ tmp_name n → name ≠ snapshot_name n → files' !! name = files !! name) → tidy listing'.
Proof.
  intros Hn Hl Hl' Ht Hsame name Hname. destruct (decide (name = tmp_name n)) as [->|H1]; [right; by eexists|].
  destruct (decide (name = snapshot_name n)) as [->|H2]; [left; by exists n|]. apply Ht, Hl. rewrite <- (Hsame name) by done. by apply Hl'.
Qed.

Section load.
Context {SM : Type} (loadSnapshotFrom : string → SM → option (SM * Z)).
Implicit Types (files : gmap string string) (sm : SM).

Abbreviation load := (loadLatestSnapshot loadSnapshotFrom).

(** What [loadLatestSnapshot] does, by the latest snapshot. *)
Definition load_of files sm (o : option Z) : result (SM * option Z) :=
  match o with
  | None => Ret (sm, None)
  | Some n =>
      match files !! snapshot_name n with
      | None => Ret (sm, None)
      | Some body => match loadSnapshotFrom body sm with Some (sm, offset) => Ret (sm, Some offset) | None => Fail Thrown end
      end
  end.

Lemma load_latest dir files listing sm o : tidy listing → latest listing o → load dir files listing sm = load_of files sm o.
Proof.
  intros Ht Ho. destruct (getLargestSnapshot_latest dir listing Ht) as (o' & Hg & Ho').
  rewrite (latest_unique listing listing o o') by done. unfold loadLatestSnapshot. rewrite Hg. simpl. destruct o' as [n|]; simpl; [|done].
  destruct (snapshot_name n) eqn:En; [|done]. unfold snapshot_name in En. by destruct (pretty n).
Qed.

(** Where only temporary files differ, the same is loaded ... *)
Lemma load_same dir files files' listing listing' n o sm :
  lists files listing → tidy listing → latest listing o → 0 ≤ n < 2 ^ 63 → lists files' listing' →
  (∀ name, name ≠ tmp_name n → files' !! name = files !! name) → load dir files' listing' sm = load dir files listing sm.
Proof.
  intros Hl Ht Ho Hn Hl' Hf. assert (Hs : ∀ m, snapshot_name m ≠ tmp_name n) by (intros m; apply snapshot_not_tmp).
  assert (Ht' : tidy listing') by (eapply (tidy_after files files' listing); try done; intros; by apply Hf).
  destruct (getLargestSnapshot_latest dir listing' Ht') as (o' & _ & Ho').
  assert (o = o') as <-.
  { eapply latest_unique; [|done|done]. intros m Hm. by rewrite (Hl _), (Hl' _), Hf. }
  rewrite (load_latest dir files' listing' sm o), (load_latest dir files listing sm o) by done.
  unfold load_of. destruct o as [m|]; [|done]. by rewrite Hf.
Qed.

(** ... and with a new snapshot the larger of the two. *)
Definition load_new (body : string) sm : result (SM * option Z) :=
  match loadSnapshotFrom body sm with Some (s, offset) => Ret (s, Some offset) | None => Fail Thrown end.

(** No snapshot has a larger offset. *)
Definition none_above (o : option Z) (n : Z) : bool := match o with Some m => m <=? n | None => true end.

Lemma load_renamed dir files files' listing listing' n o body sm :
  lists files listing → tidy listing → latest listing o → 0 ≤ n < 2 ^ 63 → lists files' listing' →
  (∀ name, name ≠ tmp_name n → name ≠ snapshot_name n → files' !! name = files !! name) → files' !! snapshot_name n = Some body →
  load dir files' listing' sm = if none_above o n then load_new body sm else load dir files listing sm.
Proof.
  intros Hl Ht Ho Hn Hl' Hf Hnew. assert (Ht' : tidy listing') by (eapply (tidy_after files files' listing); done).
  assert (Hin' : ∀ m, 0 ≤ m → m ≠ n → snapshot_name m ∈ listing' ↔ snapshot_name m ∈ listing).
  { intros m Hm Hne. rewrite (Hl _), (Hl' _), Hf; [done|apply snapshot_not_tmp|intros Hx%snapshot_name_inj; done]. }
  destruct (none_above o n) eqn:Hmax.
  - rewrite (load_latest dir files' listing' sm (Some n)); [by unfold load_of; rewrite Hnew|done|].
    split; [done|]. split; [apply Hl'; rewrite Hnew; by eexists|]. intros m Hm Hin. destruct (decide (m = n)) as [->|Hne]; [lia|].
    apply Hin' in Hin; [|lia|done]. destruct o as [k0|]; [|by destruct (Ho m)].
    destruct Ho as (_ & _ & Hle). specialize (Hle m Hm Hin). simpl in Hmax. apply Z.leb_le in Hmax. lia.
  - destruct o as [m|]; [|done]. simpl in Hmax. apply Z.leb_gt in Hmax.
    destruct Ho as (Hm & Hin & Hle). assert (m ≠ n) as Hne by lia.
    rewrite (load_latest dir files' listing' sm (Some m)), (load_latest dir files listing sm (Some m)); [|done|exact (conj Hm (conj Hin Hle))|done|].
    + unfold load_of. rewrite Hf; [done|apply snapshot_not_tmp|intros Hx%snapshot_name_inj; lia].
    + split; [exact Hm|]. split; [apply Hin'; [lia|lia|done]|]. intros m' Hm' Hin2. destruct (decide (m' = n)) as [->|Hne']; [lia|].
      apply Hle; [done|]. apply Hin'; [lia|done|done].
Qed.
End load.

Section take.
Context {SM : Type} (createSnapshotAndPersist : SM → Z → bool * string).
Implicit Types (files : gmap string string) (sm : SM).

Abbreviation take_ops n dir sm := (takeSnapshotAndPersist createSnapshotAndPersist n dir sm).1.

(** The operations but the rename. *)
Definition writes n sm : list FileOp :=
  [OpenTrunc (tmp_name n); WriteBody (tmp_name n) (createSnapshotAndPersist sm n).2; SyncFile (tmp_name n)].

Lemma take_ops_eq n dir sm : take_ops n dir sm = writes n sm ++ [Rename (tmp_name n) (snapshot_name n)].
Proof. unfold takeSnapshotAndPersist, writes. by destruct (createSnapshotAndPersist sm n) as [r body]. Qed.

Lemma touched_ops k n dir sm name : name ∈ touched (take k (take_ops n dir sm)) → name = tmp_name n.
Proof.
  rewrite take_ops_eq. unfold writes. destruct k as [|[|[|[|k]]]]; simpl; rewrite ?take_nil; simpl;
    intros Hin; repeat (apply elem_of_cons in Hin as [->|Hin]; [done|]); by apply elem_of_nil in Hin.
Qed.

(** Without the rename only the temporary file differs. *)
Lemma ops_before files n sm k :
  let d := foldl run_op (mk_Dir files ∅) (take k (writes n sm)) in
  (∀ name, name ≠ tmp_name n → dir_files d !! name = files !! name) ∧ dir_unsynced d ⊆ {[tmp_name n]}.
Proof.
  unfold writes. destruct k as [|[|[|k]]]; simpl; rewrite ?take_nil; (split; [intros name Hname; simpl; by rewrite ?lookup_insert_ne|set_solver]).
Qed.

Lemma ops_after files n dir sm :
  let d := foldl run_op (mk_Dir files ∅) (take_ops n dir sm) in
  (∀ name, name ≠ tmp_name n → name ≠ snapshot_name n → dir_files d !! name = files !! name) ∧
  dir_files d !! snapshot_name n = Some (createSnapshotAndPersist sm n).2 ∧ dir_unsynced d = ∅.
Proof.
  unfold takeSnapshotAndPersist. destruct (createSnapshotAndPersist sm n) as [r body]. fold (tmp_name n). simpl. rewrite lookup_insert_eq.
  rewrite bool_decide_eq_false_2 by set_solver. simpl. pose proof (tmp_not_snapshot n). split_and!.
  - intros name H1 H2. rewrite lookup_insert_ne, lookup_delete_ne, !lookup_insert_ne by done. done.
  - by rewrite lookup_insert_eq.
  - set_solver.
Qed.

(** What may be on the disk: some of the writes, or everything. *)
Lemma kept_writes k n sm ops' : kept (take k (writes n sm)) ops' → ops' = take k (writes n sm).
Proof.
  unfold writes. intros Hk. destruct k as [|[|[|k]]]; cbn [take] in Hk |- *; rewrite ?take_nil in Hk |- *;
    repeat match goal with H : kept _ _ |- _ => inversion H; subst; clear H end; done.
Qed.

Lemma kept_ops k n dir sm ops' : kept (take k (take_ops n dir sm)) ops' →
  ops' = take k (writes n sm) ∨ ops' = take_ops n dir sm.
Proof.
  rewrite take_ops_eq. destruct (decide (k ≤ 3)%nat) as [Hk|Hk].
  - rewrite take_app_le by done. intros Hs%kept_writes. by left.
  - rewrite take_app_ge by (simpl; lia). rewrite (take_ge (writes n sm) k) by (simpl; lia).
    assert (Ht : take (k - length (writes n sm)) [Rename (tmp_name n) (snapshot_name n)] = [Rename (tmp_name n) (snapshot_name n)])
      by (apply take_ge; simpl; lia). rewrite Ht. unfold writes. simpl. intros Hs.
    repeat match goal with H : kept _ _ |- _ => inversion H; subst; clear H end; [by right|by left].
Qed.
End take.

(** C31. Crashes while a snapshot is taken, in a directory of snapshots (of offsets
    below 2^63) and temporary files whose contents are on the disk, listed in any
    order.  If the process is killed, the next start loads what it would have loaded
    before, until the rename has happened, and from then on the new snapshot, whole
    (or that of a larger offset).  If the machine fails, whenever that is, the next
    start loads one of the two, never a torn one.  But the rename may be lost, as the
    directory is never synced: even after [takeSnapshotAndPersist] has returned the
    next start may load what it would have loaded before. *)
Theorem snapshot_crash_safe {SM} (create : SM → Z → bool * string) (loadFrom : string → SM → option (SM * Z))
    dir files listing o n (sm sm0 : SM) :
  lists files listing → tidy listing → latest listing o → 0 ≤ n < 2 ^ 63 →
  let ops := (takeSnapshotAndPersist create n dir sm).1 in
  let load files listing := loadLatestSnapshot loadFrom dir files listing sm0 in
  let old := load files listing in
  let new := if none_above o n then load_new loadFrom (create sm n).2 sm0 else old in
  (∀ k files' listing', killed_to files ops k files' → lists files' listing' →
     load files' listing' = if (k <? 4)%nat then old else new) ∧
  (∀ files' listing', crashes_to files ops files' → lists files' listing' → load files' listing' = old ∨ load files' listing' = new) ∧
  ∃ files', crashes_to files ops files' ∧ ∀ listing', lists files' listing' → load files' listing' = old.
Proof.
  intros Hl Ht Ho Hn ops load old new. destruct (ops_after create files n dir sm) as (Hsame & Hnew & Hun). fold ops in Hsame, Hnew, Hun.
  split_and!.
  - intros k files' listing' Hk Hl'. assert (Hf : ∀ name, name ≠ tmp_name n →
      files' !! name = dir_files (foldl run_op (mk_Dir files ∅) (take k ops)) !! name).
    { intros name Hname. apply Hk. intros Hin. apply Hname, (touched_ops create (S k) n dir sm). fold ops.
      destruct (ops !! k) as [op|] eqn:Ek; [|by apply elem_of_nil in Hin]. rewrite (take_S_r _ _ _ Ek). unfold touched in *.
      rewrite omap_app. apply elem_of_app. by right. }
    destruct (Nat.ltb_spec k 4) as [Hlt|Hge].
    + eapply (load_same loadFrom dir files files' listing listing' n o); try done. intros name Hname. rewrite Hf by done.
      unfold ops. rewrite take_ops_eq, take_app_le by (simpl; lia). by apply ops_before.
    + rewrite take_ge in Hf by (unfold ops; rewrite take_ops_eq; simpl; lia).
      eapply (load_renamed loadFrom dir files files' listing listing' n o); try done; [intros name H1 H2; by rewrite Hf, Hsame|].
      by rewrite Hf by apply snapshot_not_tmp.
  - intros files' listing' (k & ops' & Hk & Hc) Hl'.
    assert (Hf : ∀ name, name ∉ dir_unsynced (foldl run_op (mk_Dir files ∅) ops') → name ≠ tmp_name n →
      files' !! name = dir_files (foldl run_op (mk_Dir files ∅) ops') !! name).
    { intros name Hu Hname. apply Hc; [done|]. by intros Hin%(touched_ops create (S k) n dir sm). }
    apply kept_ops in Hk as [-> | ->].
    + left. eapply (load_same loadFrom dir files files' listing listing' n o); try done. intros name Hname.
      destruct (ops_before create files n sm k) as [Hb Hu]. rewrite Hf; [by apply Hb|set_solver|done].
    + right. fold ops in Hf. rewrite Hun in Hf.
      eapply (load_renamed loadFrom dir files files' listing listing' n o); try done; [intros name H1 H2; by rewrite Hf, Hsame by set_solver|].
      rewrite Hf; [done|set_solver|apply snapshot_not_tmp].
  - exists files. split; [|intros listing' Hl'; by eapply (load_same loadFrom dir files files listing listing' n o)].
    exists 4%nat, (writes create n sm). split; [|intros name _ Hname].
    + unfold ops. rewrite take_ops_eq. unfold writes. simpl. repeat constructor.
    + symmetry. apply (ops_before create files n sm 3). intros ->. apply Hname. unfold ops. rewrite take_ops_eq. by left.
Qed.

Definition sample_files : gmap string string := {["5.snapshot" := "old"]}.

Lemma sample_lists : lists sample_files ["5.snapshot"].
Proof. intros name. unfold sample_files. rewrite list_elem_of_singleton, lookup_singleton_is_Some. done. Qed.

Lemma sample_tidy : tidy ["5.snapshot"].
Proof. intros name ->%list_elem_of_singleton. left. exists 5. split; [lia|reflexivity]. Qed.

Lemma sample_latest : latest ["5.snapshot"] (Some 5).
Proof.
  split; [lia|]. split; [by left|]. intros m Hm Hin%list_elem_of_singleton. apply (snapshot_name_inj m 5) in Hin. lia.
Qed.

Lemma sample_killed :
  killed_to sample_files (takeSnapshotAndPersist (λ (sm : string) n, (true, "new")) 7 "d" EmptyString).1 1
    (<["7.snapshot.tmp" := "ne"]> sample_files).
Proof.
  intros name Hname. change (touched _) with ["7.snapshot.tmp"] in Hname.
  change (dir_files _) with (<["7.snapshot.tmp" := EmptyString]> sample_files). by rewrite !lookup_insert_ne by set_solver.
Qed.

Lemma sample_lists_killed : lists (<["7.snapshot.tmp" := "ne"]> sample_files) ["7.snapshot.tmp"; "5.snapshot"].
Proof. intros name. unfold sample_files. rewrite lookup_insert_is_Some', lookup_singleton_is_Some. set_solver. Qed.

Lemma sample_offset : 0 ≤ 7 < 2 ^ 63.
Proof. lia. Qed.

Lemma snapshot_crash_safe_witness :
  loadLatestSnapshot (λ body (sm : string), Some (body, 7)) "d"
    (<["7.snapshot.tmp" := "ne"]> sample_files) ["7.snapshot.tmp"; "5.snapshot"] EmptyString =
  loadLatestSnapshot (λ body (sm : string), Some (body, 7)) "d" sample_files ["5.snapshot"] EmptyString.
Proof.
  exact (proj1 (snapshot_crash_safe (λ (sm : string) n, (true, "new")) (λ body (sm : string), Some (body, 7)) "d" sample_files
    ["5.snapshot"] (Some 5) 7 EmptyString EmptyString sample_lists sample_tidy sample_latest sample_offset) _ _ _
    sample_killed sample_lists_killed).
Defined.

(** What is read back of a string written to a binary file: the characters up to the
    first NUL, and the rest of the stream is where it should be; a string without NUL
    comes back whole.  An empty string can be written but not read: the reader's
    assertion stops the process. *)
Theorem file_string_roundtrip content rest :
  Z.of_nat (String.length content) < two64 →
  readStrFromFile (writeStrToFile EmptyString content +:+ rest) =
    (if (String.length content =? 0)%nat then Fail AssertFailure else Ret (c_str content, rest)) ∧
  (c_str content = content ↔ Ascii.zero ∉ list_ascii_of_string content).
Proof.
  intros Hlen. split; [|apply c_str_id]. unfold readStrFromFile, writeStrToFile, writeUint64ToFile.
  change (EmptyString +:+ le_bytes 8 ?z) with (le_bytes 8 z). rewrite string_app_assoc, readUint64_bytes by lia. cbn -[le_bytes].
  destruct (Nat.eqb_spec (String.length content) 0) as [->|Hne]; [done|]. rewrite (proj2 (Z.ltb_lt _ _)) by lia. cbn.
  by rewrite Nat2Z.id, read_bytes_app.
Qed.

Lemma file_string_roundtrip_witness :
  readStrFromFile (writeStrToFile EmptyString "snapshot" +:+ "rest") = Ret ("snapshot", "rest").
Proof. refine (proj1 (file_string_roundtrip "snapshot" "rest" _)). reflexivity. Defined.

(** The pattern is searched in the whole path and not anchored at its begin: a copy of
    a snapshot kept under another name hides the snapshots with smaller offsets,
    and nothing is loaded. *)
Lemma copy_hides_snapshots {SM} (loadFrom : string → SM → option (SM * Z)) old new (sm : SM) :
  loadLatestSnapshot loadFrom "d" {["5.snapshot" := old; "backup-9.snapshot" := new]} ["5.snapshot"; "backup-9.snapshot"] sm = Ret (sm, None).
Proof. reflexivity. Qed.

(** The dot before the suffix is not escaped either. *)
Lemma unescaped_dot : getLargestSnapshot "d" ["15snapshot"] = Ret (Some "15snapshot").
Proof. reflexivity. Qed.
