(* ===== verification/SQLite.v ===== *)
(** * Standalone mode: the store on SQLite, replay, recovery

    infra/es/store/SQLiteStoreDao, SQLiteCommandEventStore,
    ReadonlySQLiteCommandEventStore, infra/util/IdGenerator and the standalone part
    of app_util/CommandProcessLoop.h.  SQLite is the class [SQLite], one operation
    per statement the DAO executes, the tables are those of app_util/app.sql. *)
From stdpp Require Import gmap sorting.
From S2P Require Import Prelude Protobuf Domain Es Control Ledger LedgerSM Snapshot.
Open Scope Z_scope.

(** ** Rows

    Integers are bound as signed 64-bit values, types as [int]. *)
Definition i32 (z : Z) : Z := (z + 2 ^ 31) `mod` 2 ^ 32 - 2 ^ 31.

Record CommandRow := mk_CommandRow {
  cr_id : Z; cr_type : Z; cr_createdTime : Z; cr_creatorId : Z; cr_groupId : Z; cr_groupVersion : Z; cr_payload : string }.

Record EventRow := mk_EventRow {
  er_id : Z; er_type : Z; er_commandId : Z; er_createdTime : Z; er_creatorId : Z; er_groupId : Z; er_groupVersion : Z;
  er_payload : string }.

(** The results of [sqlite3_step] on a query. *)
Inductive Fetched (Row : Type) := FetchedRow (row : Row) | FetchedDone | FetchedError.
Arguments FetchedRow {Row} row. Arguments FetchedDone {Row}. Arguments FetchedError {Row}.

(** [false]: a result code other than [SQLITE_OK] and [SQLITE_DONE].  The rows of
    [SELECT .. WHERE COMMANDID=?1] come with whether the statement ends with
    [SQLITE_DONE].  [sql_open]: the file as the next process opens it. *)
Class SQLite (Db : Type) := {
  sql_open : Db → Db;
  sql_begin : Db → bool * Db;
  sql_commit : Db → bool * Db;
  sql_insert_command : CommandRow → Db → bool * Db;
  sql_insert_event : EventRow → Db → bool * Db;
  sql_next_command : Db → Z → Fetched CommandRow;
  sql_next_event : Db → Z → Fetched EventRow;
  sql_events_of_command : Db → Z → list EventRow * bool;
  sqlite3_errmsg : Db → string }.

(** The two tables, by primary key. *)
Record Tables := mk_Tables { tab_command : gmap Z CommandRow; tab_event : gmap Z EventRow }.

(** What SQLite documents: changes of a transaction are seen by its own connection
    and reach the file when [COMMIT] succeeds; a primary key is unique; a query
    that succeeds gives the rows its text selects, in any order when the text has
    no [ORDER BY], as that for the events of a command. *)
Class SQLiteSpec (Db : Type) `{SQLite Db} := {
  tables : Db → Tables;
  in_transaction : Db → bool;
  kept_open db : in_transaction (sql_open db) = false;
  kept_idle db : in_transaction db = false → tables (sql_open db) = tables db;
  begin_kept db b db' : sql_begin db = (b, db') →
    tables (sql_open db') = tables (sql_open db) ∧
    (b = true → in_transaction db' = true ∧ tables db' = tables db);
  insert_command_kept row db b db' : in_transaction db = true → sql_insert_command row db = (b, db') →
    tables (sql_open db') = tables (sql_open db) ∧
    (b = true → in_transaction db' = true ∧ tab_command (tables db) !! cr_id row = None ∧
      tables db' = mk_Tables (<[cr_id row := row]> (tab_command (tables db))) (tab_event (tables db)));
  insert_event_kept row db b db' : in_transaction db = true → sql_insert_event row db = (b, db') →
    tables (sql_open db') = tables (sql_open db) ∧
    (b = true → in_transaction db' = true ∧ tab_event (tables db) !! er_id row = None ∧
      tables db' = mk_Tables (tab_command (tables db)) (<[er_id row := row]> (tab_event (tables db))));
  commit_kept db b db' : in_transaction db = true → sql_commit db = (b, db') →
    if b then in_transaction db' = false ∧ tables db' = tables db
    else tables (sql_open db') = tables (sql_open db);
  next_command_row db id row : sql_next_command db id = FetchedRow row →
    tab_command (tables db) !! cr_id row = Some row ∧ id < cr_id row ∧
    ∀ id', id < id' < cr_id row → tab_command (tables db) !! id' = None;
  next_command_done db id : sql_next_command db id = FetchedDone → ∀ id', id < id' → tab_command (tables db) !! id' = None;
  events_of_command_rows db id rows : sql_events_of_command db id = (rows, true) →
    NoDup rows ∧ ∀ row, row ∈ rows ↔ tab_event (tables db) !! er_id row = Some row ∧ er_commandId row = id }.

(** ** IdGenerator *)
Definition getNextId (mCurrentId : Z) : Z := u64 (mCurrentId + 1).

Definition setCurrentId (mCurrentId id : Z) : result Z := if id <? mCurrentId then Fail Thrown else Ret id.

Section store.
Context `{LedgerProtos} {Db : Type} `{SQLite Db}.

(** ** SQLiteStoreDao

    What persisting leaves: the database, the replies given, and the fault that
    ended it, if any. *)
Record Persisting := mk_Persisting { ps_db : Db; ps_replies : list Reply; ps_fault : option fault }.

(** [handleResultCode] *)
Definition handleResultCode (rc : bool) (command : option Command) (db : Db) (replies : list Reply) : Persisting :=
  if rc then
    mk_Persisting db (replies ++ option_list (command ≫= λ c, Command_onPersisted c "Success")) None
  else
    mk_Persisting db (replies ++ option_list (command ≫= λ c, Command_onPersistFailed c 503 (sqlite3_errmsg db) None)) (Some Thrown).

(** The values bound to the INSERT; [-1] binds the text up to its first null
    character. *)
Definition CommandRow_of (c : Command) : CommandRow :=
  let m := Command_mMetaData c in
  mk_CommandRow (i64 (mId m)) (i32 (mType m)) (i64 (mCreatedTimeInNanos m)) (i64 (mCreatorId m)) (i64 (mGroupId m))
    (i64 (mGroupVersion m)) (c_str (Command_encodeToString c)).

Definition EventRow_of (e : Event) (eventString : string) : EventRow :=
  let m := Event_mMetaData e in
  mk_EventRow (i64 (mId m)) (i32 (mType m)) (i64 (mCommandId m)) (i64 (mCreatedTimeInNanos m)) (i64 (mCreatorId m))
    (i64 (mGroupId m)) (i64 (mGroupVersion m)) (c_str eventString).

Fixpoint persist_commands (db : Db) (replies : list Reply) (commands : list Command) : Persisting :=
  match commands with
  | [] => mk_Persisting db replies None
  | c :: commands =>
      if negb (0 <? Command_getId c) then mk_Persisting db replies (Some AssertFailure)
      else
        let '(rc, db) := sql_insert_command (CommandRow_of c) db in
        let p := handleResultCode rc (Some c) db replies in
        match ps_fault p with
        | Some _ => p
        | None => persist_commands (ps_db p) (ps_replies p) commands
        end
  end.

Fixpoint persist_events (db : Db) (replies : list Reply) (events : list Event) : Persisting :=
  match events with
  | [] => mk_Persisting db replies None
  | e :: events =>
      if negb ((0 <? mId (Event_mMetaData e)) && (0 <? mCommandId (Event_mMetaData e))) then
        mk_Persisting db replies (Some AssertFailure)
      else
        match Event_encodeToString e with
        | Fail f => mk_Persisting db replies (Some f)
        | Ret eventString =>
            let '(rc, db) := sql_insert_event (EventRow_of e eventString) db in
            let p := handleResultCode rc None db replies in
            match ps_fault p with
            | Some _ => p
            | None => persist_events (ps_db p) (ps_replies p) events
            end
        end
  end.

(** [persist]: the events first, then the commands, in one transaction. *)
Definition Dao_persist (db : Db) (replies : list Reply) (commands : list Command) (events : list Event) : Persisting :=
  let '(rc, db) := sql_begin db in
  if negb rc then mk_Persisting db replies (Some Thrown)
  else
    let p := persist_events db replies events in
    match ps_fault p with
    | Some _ => p
    | None =>
        let p := persist_commands (ps_db p) (ps_replies p) commands in
        match ps_fault p with
        | Some _ => p
        | None =>
            let '(rc, db) := sql_commit (ps_db p) in
            mk_Persisting db (ps_replies p) (if rc then None else Some Thrown)
        end
    end.

(** *** Queries

    [id >= 0] always holds, [id] is unsigned.  [None] is the null pointer. *)
Definition CommandMetaData_of_row (r : CommandRow) : CommandMetaData :=
  mk_CommandMetaData
    (mk_MetaData (u64 (cr_id r)) (cr_type r) (u64 (cr_createdTime r)) 0 0 0 (u64 (cr_creatorId r)) (u64 (cr_groupId r))
       (u64 (cr_groupVersion r)) EmptyString) None.

Definition EventMetaData_of_row (r : EventRow) : EventMetaData :=
  mk_EventMetaData
    (mk_MetaData (u64 (er_id r)) (er_type r) (u64 (er_createdTime r)) 0 0 0 (u64 (er_creatorId r)) (u64 (er_groupId r))
       (u64 (er_groupVersion r)) EmptyString) (u64 (er_commandId r)).

Definition populateCommand (junk : MetaData) (r : CommandRow) : result (option Command) :=
  decodeCommandFromString junk (CommandMetaData_of_row r) (c_str (cr_payload r)).

Definition populateEvent (junk : EventMetaData) (r : EventRow) : result (option Event) :=
  decodeEventFromString junk (EventMetaData_of_row r) (c_str (er_payload r)).

Definition findNextCommand (junk : MetaData) (db : Db) (id : Z) : result (option Command) :=
  match sql_next_command db (i64 id) with
  | FetchedRow r => populateCommand junk r
  | FetchedDone => Ret None
  | FetchedError => Fail Thrown
  end.

Definition findNextEvent (junk : EventMetaData) (db : Db) (id : Z) : result (option Event) :=
  match sql_next_event db (i64 id) with
  | FetchedRow r => populateEvent junk r
  | FetchedDone => Ret None
  | FetchedError => Fail Thrown
  end.

Fixpoint populate_events (junk : EventMetaData) (rows : list EventRow) : result (list (option Event)) :=
  match rows with
  | [] => Ret []
  | r :: rows => e ← populateEvent junk r; es ← populate_events junk rows; Ret (e :: es)
  end.

Definition getEventsByCommandId (junk : EventMetaData) (db : Db) (id : Z) : result (list (option Event)) :=
  let '(rows, rc) := sql_events_of_command db (i64 id) in
  events ← populate_events junk rows;
  if rc : bool then Ret events else Fail Thrown.

(** ** SQLiteCommandEventStore

    [ss_batch]: what the turn of [run] under way has taken from the queue.  A fault
    is an exception [run] does not catch, or an assertion: the process is gone. *)
Record SQLiteStore := mk_SQLiteStore {
  ss_db : Db;
  mCommandEventQueue : list (Command * list Event);
  ss_batch : list (Command * list Event);
  mCommandIdGenerator : Z;
  mEventIdGenerator : Z;
  ss_replies : list Reply;
  mShouldExit : bool;
  ss_fault : option fault }.
Implicit Types s : SQLiteStore.

Definition SQLiteStore_new (db : Db) (commandId eventId : Z) : SQLiteStore :=
  mk_SQLiteStore db [] [] commandId eventId [] false None.

(** The loop that numbers the events, and the generator after it. *)
Fixpoint stamp_events (commandId : Z) (mCurrentId : Z) (events : list Event) : list Event * Z :=
  match events with
  | [] => ([], mCurrentId)
  | e :: events =>
      let eventId := getNextId mCurrentId in
      let '(events, mCurrentId) := stamp_events commandId eventId events in
      (Event_setIds e eventId commandId :: events, mCurrentId)
  end.

(** [persistAsync]: the entry shares the objects that are numbered.  A stopped
    queue throws, which is caught. *)
Definition SQLite_persistAsync s (command : Command) (events : list Event) (code : Z) (message : string) : SQLiteStore :=
  match events with
  | [] =>
      mk_SQLiteStore (ss_db s) (mCommandEventQueue s) (ss_batch s) (mCommandIdGenerator s) (mEventIdGenerator s)
        (ss_replies s ++ option_list (Command_onPersisted command message)) (mShouldExit s) (ss_fault s)
  | _ =>
      let commandId := getNextId (mCommandIdGenerator s) in
      let '(events, eventId) := stamp_events commandId (mEventIdGenerator s) events in
      let entry := (Command_setId command commandId, events) in
      mk_SQLiteStore (ss_db s) (if mShouldExit s then mCommandEventQueue s else mCommandEventQueue s ++ [entry]) (ss_batch s)
        commandId eventId (ss_replies s) (mShouldExit s) (ss_fault s)
  end.

(** The first half of a turn: the first entry and the [restTotal] others the queue
    was seen to hold. *)
Definition SQLite_capture s (restTotal : nat) : SQLiteStore :=
  mk_SQLiteStore (ss_db s) (drop (S restTotal) (mCommandEventQueue s)) (take (S restTotal) (mCommandEventQueue s))
    (mCommandIdGenerator s) (mEventIdGenerator s) (ss_replies s) (mShouldExit s) (ss_fault s).

(** The second half: nothing is persisted once the store is down. *)
Definition SQLite_persist_batch s : SQLiteStore :=
  if mShouldExit s then
    mk_SQLiteStore (ss_db s) (mCommandEventQueue s) [] (mCommandIdGenerator s) (mEventIdGenerator s) (ss_replies s)
      (mShouldExit s) (ss_fault s)
  else
    let p := Dao_persist (ss_db s) (ss_replies s) (ss_batch s).*1 (concat (ss_batch s).*2) in
    mk_SQLiteStore (ps_db p) (mCommandEventQueue s) [] (mCommandIdGenerator s) (mEventIdGenerator s) (ps_replies p)
      (mShouldExit s) (ps_fault p).

Definition SQLite_shutdown s : SQLiteStore :=
  mk_SQLiteStore (ss_db s) (mCommandEventQueue s) (ss_batch s) (mCommandIdGenerator s) (mEventIdGenerator s) (ss_replies s)
    true (ss_fault s).

(** Steps of the loop that persists and of its callers, in any order.  A step that
    is not possible does nothing. *)
Inductive StoreStep :=
  | SqPersistAsync (command : Command) (events : list Event) (code : Z) (message : string)
  | SqCapture (restTotal : nat)
  | SqPersistBatch
  | SqShutdown.

Definition store_exec s (step : StoreStep) : SQLiteStore :=
  match ss_fault s with
  | Some _ => s
  | None =>
      match step with
      | SqPersistAsync command events code message => SQLite_persistAsync s command events code message
      | SqCapture restTotal =>
          if negb (mShouldExit s) && bool_decide (ss_batch s = []) && bool_decide (restTotal < length (mCommandEventQueue s))%nat
          then SQLite_capture s restTotal else s
      | SqPersistBatch => if bool_decide (ss_batch s = []) then s else SQLite_persist_batch s
      | SqShutdown => SQLite_shutdown s
      end
  end.

(** The entry a step puts into the queue. *)
Definition store_accepts s (step : StoreStep) : list (Command * list Event) :=
  drop (length (mCommandEventQueue s)) (mCommandEventQueue (store_exec s step)).

Fixpoint store_run s (steps : list StoreStep) : SQLiteStore * list (Command * list Event) :=
  match steps with
  | [] => (s, [])
  | step :: steps =>
      let '(t, later) := store_run (store_exec s step) steps in
      (t, store_accepts s step ++ later)
  end.

(** ** ReadonlySQLiteCommandEventStore

    With the generators it shares with the store. *)
Record SQLiteReader := mk_SQLiteReader {
  mCurrentLoadedEventOffset : Z;
  mCurrentLoadedCommandOffset : Z;
  mNeedUpdateId : bool;
  sr_command_id : Z;
  sr_event_id : Z }.
Implicit Types r : SQLiteReader.

Definition SQLiteReader_new (needUpdateId : bool) : SQLiteReader := mk_SQLiteReader 0 0 needUpdateId 0 0.

Definition Reader_setCurrentOffset r (currentOffset : Z) : SQLiteReader :=
  mk_SQLiteReader (mCurrentLoadedEventOffset r) currentOffset (mNeedUpdateId r) (sr_command_id r) (sr_event_id r).

Definition Reader_update_command_id r (id : Z) : result SQLiteReader :=
  if mNeedUpdateId r then
    id ← setCurrentId (sr_command_id r) id;
    Ret (mk_SQLiteReader (mCurrentLoadedEventOffset r) (mCurrentLoadedCommandOffset r) (mNeedUpdateId r) id (sr_event_id r))
  else Ret r.

Definition Reader_update_event_id r (id : Z) : result SQLiteReader :=
  if mNeedUpdateId r then
    id ← setCurrentId (sr_event_id r) id;
    Ret (mk_SQLiteReader (mCurrentLoadedEventOffset r) (mCurrentLoadedCommandOffset r) (mNeedUpdateId r) (sr_command_id r) id)
  else Ret r.

Definition Reader_loadNextEvent (junk : EventMetaData) (db : Db) r : result (option Event * SQLiteReader) :=
  ptr ← findNextEvent junk db (mCurrentLoadedEventOffset r);
  match ptr with
  | None => Ret (None, r)
  | Some e =>
      let id := mId (Event_mMetaData e) in
      let r := mk_SQLiteReader id (mCurrentLoadedCommandOffset r) (mNeedUpdateId r) (sr_command_id r) (sr_event_id r) in
      r ← Reader_update_event_id r id;
      r ← Reader_update_command_id r (mCommandId (Event_mMetaData e));
      Ret (Some e, r)
  end.

Definition Reader_loadNextCommand (junk : MetaData) (db : Db) r : result (option Command * SQLiteReader) :=
  ptr ← findNextCommand junk db (mCurrentLoadedCommandOffset r);
  match ptr with
  | None => Ret (None, r)
  | Some c => r ← Reader_update_command_id (Reader_setCurrentOffset r (Command_getId c)) (Command_getId c); Ret (Some c, r)
  end.

Definition Reader_loadCommandAfter (junk : MetaData) (db : Db) r (commandId : Z) : result (option Command * SQLiteReader) :=
  Reader_loadNextCommand junk db (Reader_setCurrentOffset r commandId).

Definition Reader_loadNextCommandEvents (junk : MetaData) (ejunk : EventMetaData) (db : Db) r
    : result (option (Command * list (option Event)) * SQLiteReader) :=
  '(command, r) ← Reader_loadNextCommand junk db r;
  match command with
  | None => Ret (None, r)
  | Some c =>
      events ← getEventsByCommandId ejunk db (mCurrentLoadedCommandOffset r);
      match last events with
      | None => Ret (Some (c, events), r)
      | Some back =>
          if mNeedUpdateId r then
            match back with
            | None => Fail UndefinedBehaviour
            | Some e => r ← Reader_update_event_id r (mId (Event_mMetaData e)); Ret (Some (c, events), r)
            end
          else Ret (Some (c, events), r)
      end
  end.

(** [loadCommandEventsList] *)
Definition Reader_loadCommandEventsList r : result SQLiteReader := Fail Thrown.

(** ** CommandProcessLoop, standalone mode *)
Inductive DeploymentMode := Standalone | Distributed.

Section replay.
Context {SM : Type} (applyEvent : SM → Event → result SM).

(** One event of the inner loop, [*eventPtr]. *)
Definition replay_event (state : SM * Z) (eventPtr : option Event) : result (SM * Z) :=
  match eventPtr with
  | None => Fail UndefinedBehaviour
  | Some e => sm ← applyEvent state.1 e; Ret (sm, state.2 + 1)
  end.

(** [while (commandEventsOpt)], at most [fuel] times; [None]: not finished.
    [eventCount] is an [int], of which only whether it is zero matters: it would
    overflow with 2^31 events. *)
Fixpoint replay_loop (junk : MetaData) (ejunk : EventMetaData) (db : Db) (fuel : nat) r (state : SM * Z) (currentCommandId : Z)
    : result (option (SM * SQLiteReader * option Z)) :=
  match fuel with
  | O => Ret None
  | S fuel =>
      '(commandEventsOpt, r) ← Reader_loadNextCommandEvents junk ejunk db r;
      match commandEventsOpt with
      | None => Ret (Some (state.1, r, if state.2 =? 0 then None else Some currentCommandId))
      | Some (c, events) =>
          state ← foldM replay_event state events;
          replay_loop junk ejunk db fuel r state (Command_getId c)
      end
  end.

(** [replayEvents]; [currentCommandId] is not initialised. *)
Definition replayEvents (mode : DeploymentMode) junk ejunk (db : Db) (fuel : nat) (uninitialised : Z) r (offset : option Z) (sm : SM)
    : result (option (SM * SQLiteReader * option Z)) :=
  match mode with
  | Distributed => Fail AssertFailure
  | Standalone =>
      let r := match offset with Some offset => Reader_setCurrentOffset r offset | None => r end in
      replay_loop junk ejunk db fuel r (sm, 0) uninitialised
  end.

(** [recoverOnce] with a memory-backed state machine *)
Definition recoverOnce (mode : DeploymentMode) junk ejunk (loadSnapshotFrom : string → SM → option (SM * Z)) (mRecovered : bool)
    (snapshotDir : string) (files : gmap string string) (listing : list string) (db : Db) (fuel : nat) (uninitialised : Z) r (sm : SM)
    : result (option (SM * SQLiteReader * option Z)) :=
  match mode with
  | Distributed => Fail AssertFailure
  | Standalone =>
      if mRecovered then Fail Thrown
      else
        '(sm, offset) ← loadLatestSnapshot loadSnapshotFrom snapshotDir files listing sm;
        replayEvents mode junk ejunk db fuel uninitialised r offset sm
  end.

(** [recoverOnce] with a RocksDB-backed one *)
Definition recoverOnce_rocksdb (mode : DeploymentMode) : result unit :=
  match mode with Distributed => Fail AssertFailure | Standalone => Fail Thrown end.
End replay.

(** The loop with its store: one turn of [run], which is [processCommand] of the
    ledger on the next command. *)
Record StandaloneLoop := mk_StandaloneLoop { sl_mAppStateMachine : AppStateMachine; sl_mLastCommandId : Z; sl_store : SQLiteStore }.

Definition run_iteration (env : ProcessEnv) (groupId : Z) (l : StandaloneLoop) (command : Command) : result StandaloneLoop :=
  let command := Command_setId command (sl_mLastCommandId l) in
  '(hint, events, sm, _) ← processCommandAndApply env groupId (sl_mAppStateMachine l) command [];
  match events with
  | [] =>
      Ret (mk_StandaloneLoop sm (sl_mLastCommandId l)
             (SQLite_persistAsync (sl_store l) command [] (hint_mCode hint) (hint_mMessage hint)))
  | _ =>
      let id := u64 (sl_mLastCommandId l + 1) in
      Ret (mk_StandaloneLoop sm id
             (SQLite_persistAsync (sl_store l) (Command_setId command id) events (hint_mCode hint) (hint_mMessage hint)))
  end.
End store.
Arguments Persisting : clear implicits.
Arguments SQLiteStore : clear implicits.
