(* ===== verification/SQLiteProps.v ===== *)
(** * The SQLite store: its invariant and what a reader finds

    What the tables hold after any steps of the store, and that replaying them
    gives the stored commands and events back in order. *)
From stdpp Require Import gmap sorting.
From S2P Require Import Prelude Protobuf Domain Es Control Ledger LedgerSM Snapshot SnapshotProps SQLite.
Open Scope Z_scope.

(** ** Values through the columns *)
Lemma u64_i64 z : in_u64 z → u64 (i64 z) = z.
Proof.
  intros Hz. unfold i64. rewrite (u64_small z) by done. case_match; [by rewrite u64_small|].
  unfold in_u64, u64, two64 in *. rewrite <- (Z.mod_unique (z - 2 ^ 64) (2 ^ 64) (-1) z); lia.
Qed.

Lemma i64_small z : 0 ≤ z < 2 ^ 63 → i64 z = z.
Proof. intros Hz. unfold i64. rewrite u64_small by (unfold in_u64, two64; lia). case_match; lia. Qed.

Lemma c_str_idem s : c_str (c_str s) = c_str s.
Proof. induction s as [|c s IH]; simpl; [done|]. destruct (Ascii.eqb c Ascii.zero) eqn:E; simpl; [done|]. by rewrite E, IH. Qed.

(** The tracking context has no column. *)
Definition untracked (m : MetaData) : MetaData :=
  mk_MetaData (mId m) (mType m) (mCreatedTimeInNanos m) (mProcessTimeInNanos m) (mLeaderReadyTimeInNanos m)
    (mFinishTimeInNanos m) (mCreatorId m) (mGroupId m) (mGroupVersion m) EmptyString.

Definition Command_untracked (c : Command) : Command :=
  mk_Command (mk_CommandMetaData (untracked (Command_mMetaData c)) (mRequestHandle (Command_mMetaData c))) (Command_body c).

Definition Event_untracked (e : Event) : Event :=
  mk_Event (mk_EventMetaData (untracked (Event_mMetaData e)) (mCommandId (Event_mMetaData e))) (Event_body e).

Definition meta_fits (m : MetaData) : Prop :=
  in_u64 (mCreatedTimeInNanos m) ∧ in_u64 (mCreatorId m) ∧ in_u64 (mGroupId m) ∧ in_u64 (mGroupVersion m).

Section props.
Context `{LedgerProtos}.

(** What a reader gets for a stored command or event. *)
Definition Command_stored (c : Command) : Command := Command_persisted (Command_untracked c).
Definition Event_stored (e : Event) : Event := Event_persisted (Event_untracked e).

(** Commands and events the columns can hold: no null character in the payload. *)
Definition command_fits (c : Command) : Prop :=
  Command_wf c ∧ meta_fits (Command_mMetaData c) ∧ c_str (Command_encodeToString c) = Command_encodeToString c.

Definition event_fits (e : Event) : Prop :=
  Event_wf e ∧ meta_fits (Event_mMetaData e) ∧ ∀ s, Event_encodeToString e = Ret s → c_str s = s.

Lemma wf_type_i32 c : Command_wf c → i32 (mType (Command_mMetaData c)) = mType (Command_mMetaData c).
Proof. unfold Command_wf, Command_getType. by destruct (Command_body c); [intros [-> _]..|intros ->]. Qed.

Lemma wf_event_type_i32 e : Event_wf e → i32 (mType (Event_mMetaData e)) = mType (Event_mMetaData e).
Proof. unfold Event_wf, Event_getType. by destruct (Event_body e); [intros [-> _]..|intros ->]. Qed.

Lemma populateCommand_stored junk c :
  command_fits c → 0 ≤ Command_getId c < 2 ^ 63 → populateCommand junk (CommandRow_of c) = Ret (Some (Command_stored c)).
Proof.
  intros (Hwf & (Hc & Hcr & Hg & Hv) & Hnul) Hid.
  assert (Hr := Command_roundtrip junk (Command_untracked c) CommandEntry_default Hwf).
  unfold decodeCommand, encodeCommand in Hr. unfold populateCommand, Command_stored. rewrite <- Hr. f_equal.
  - unfold CommandMetaData_of_row, CommandMetaData_of_entry, MetaData_of_CommandEntry. simpl.
    assert (Ht := Command_wf_type c Hwf). unfold Command_getType, Command_getId in *.
    rewrite !u64_i64 by (try done; unfold in_u64, two64; lia). rewrite (wf_type_i32 c Hwf), (i64_u64 _ Ht). done.
  - simpl. by rewrite c_str_idem.
Qed.

Lemma populateEvent_stored junk e s :
  event_fits e → Event_encodeToString e = Ret s → 0 ≤ mId (Event_mMetaData e) < 2 ^ 63 → 0 ≤ mCommandId (Event_mMetaData e) < 2 ^ 63 →
  populateEvent junk (EventRow_of e s) = Ret (Some (Event_stored e)).
Proof.
  intros (Hwf & (Hc & Hcr & Hg & Hv) & Hnul) Hs Hid Hcid.
  destruct (Event_roundtrip junk (Event_untracked e) EventEntry_default Hwf) as (ee & He & Hd).
  unfold encodeEvent in He. change (Event_encodeToString (Event_untracked e)) with (Event_encodeToString e) in He.
  rewrite Hs in He. simpl in He. injection He as <-.
  unfold decodeEvent in Hd. unfold populateEvent, Event_stored. rewrite <- Hd. f_equal.
  - unfold EventMetaData_of_row, EventMetaData_of_entry, MetaData_of_EventEntry. simpl.
    assert (Ht := Event_wf_type e Hwf). unfold Event_getType in *.
    rewrite !u64_i64 by (try done; unfold in_u64, two64; lia). rewrite (wf_event_type_i32 e Hwf), (i64_u64 _ Ht). done.
  - simpl. rewrite c_str_idem. auto.
Qed.
End props.

(** ** One transaction *)
Section transaction.
Context `{LedgerProtos} {Db : Type} `{SQLiteSpec Db}.
Implicit Types (db : Db) (T : Tables).

Definition kept db : Tables := tables (sql_open db).

(** [row] is what the INSERT for [e] writes. *)
Definition is_event_row (e : Event) (row : EventRow) : Prop := ∃ s, Event_encodeToString e = Ret s ∧ row = EventRow_of e s.

(** [T'] has the rows of [T] and those of [commands] and [events]. *)
Definition extends T T' (commands : list Command) (events : list Event) : Prop :=
  (∀ id row, tab_command T' !! id = Some row ↔
    tab_command T !! id = Some row ∨ ∃ c, c ∈ commands ∧ row = CommandRow_of c ∧ id = cr_id row) ∧
  (∀ id row, tab_event T' !! id = Some row ↔
    tab_event T !! id = Some row ∨ ∃ e, e ∈ events ∧ is_event_row e row ∧ id = er_id row).

Lemma extends_nil T : extends T T [] [].
Proof. split; intros; split; [by left|intros [?|(? & ?%elem_of_nil & _)]; done|by left|intros [?|(? & ?%elem_of_nil & _)]; done]. Qed.

Lemma extends_trans T T' T'' cs es cs' es' :
  extends T T' cs es → extends T' T'' cs' es' → extends T T'' (cs ++ cs') (es ++ es').
Proof.
  intros [Hc He] [Hc' He']. split; intros id row.
  - rewrite Hc', Hc. setoid_rewrite elem_of_app. naive_solver.
  - rewrite He', He. setoid_rewrite elem_of_app. naive_solver.
Qed.

Lemma extends_command T c :
  tab_command T !! cr_id (CommandRow_of c) = None →
  extends T (mk_Tables (<[cr_id (CommandRow_of c) := CommandRow_of c]> (tab_command T)) (tab_event T)) [c] [].
Proof.
  intros Hn. split; intros id row; simpl tab_command; simpl tab_event.
  - rewrite lookup_insert_Some. setoid_rewrite list_elem_of_singleton. split; [naive_solver|].
    intros [Hl|(? & -> & -> & ->)]; [right; split; [intros Heq; simpl in Hn; rewrite Heq in Hn; congruence|done]|by left].
  - split; [by left|intros [?|(? & ?%elem_of_nil & _)]; done].
Qed.

Lemma extends_event T e row :
  is_event_row e row → tab_event T !! er_id row = None →
  extends T (mk_Tables (tab_command T) (<[er_id row := row]> (tab_event T))) [] [e].
Proof.
  intros Hrow Hn. split; intros id row'; simpl tab_command; simpl tab_event.
  - split; [by left|intros [?|(? & ?%elem_of_nil & _)]; done].
  - rewrite lookup_insert_Some. setoid_rewrite list_elem_of_singleton. split; [naive_solver|].
    intros [Hl|(? & -> & Hr' & ->)]; [right; split; [intros Heq; simpl in Hn; rewrite Heq in Hn; congruence|done]|left].
    destruct Hrow as (s & Hs & ->), Hr' as (s' & Hs' & ->). assert (s = s') as -> by congruence. done.
Qed.

(** What [persist] leaves of an open transaction, with the rows added so far. *)
Definition inside db (p : Persisting Db) (commands : list Command) (events : list Event) : Prop :=
  kept (ps_db p) = kept db ∧
  (ps_fault p = None → in_transaction (ps_db p) = true ∧ extends (tables db) (tables (ps_db p)) commands events).

Lemma inside_start db replies : in_transaction db = true → inside db (mk_Persisting db replies None) [] [].
Proof. intros Ht. split; [done|]. intros _. split; [done|]. apply extends_nil. Qed.

Lemma inside_fault db db' replies f cs es : kept db' = kept db → inside db (mk_Persisting db' replies (Some f)) cs es.
Proof. intros Hk. by split. Qed.

Lemma inside_trans db db' p cs es cs' es' :
  kept db' = kept db → extends (tables db) (tables db') cs es → inside db' p cs' es' → inside db p (cs ++ cs') (es ++ es').
Proof.
  intros Hk He [Hk' Hok]. split; [congruence|]. intros Hf. destruct (Hok Hf) as [Ht He']. split; [done|].
  eapply extends_trans; eauto.
Qed.

Lemma persist_commands_spec db replies commands :
  in_transaction db = true → inside db (persist_commands db replies commands) commands [].
Proof.
  revert db replies; induction commands as [|c commands IH]; intros db replies Ht; simpl; [by apply inside_start|].
  case_match; [by apply inside_fault|].
  destruct (sql_insert_command (CommandRow_of c) db) as [rc db'] eqn:Hi.
  destruct (insert_command_kept _ _ _ _ Ht Hi) as [Hk Hok]. unfold handleResultCode. destruct rc; simpl; [|by apply inside_fault].
  destruct (Hok eq_refl) as (Ht' & Hn & Htab). apply (inside_trans db db' _ [c] [] commands []).
  - exact Hk.
  - rewrite Htab. by apply extends_command.
  - by apply IH.
Qed.

Lemma persist_events_spec db replies events :
  in_transaction db = true → inside db (persist_events db replies events) [] events.
Proof.
  revert db replies; induction events as [|e events IH]; intros db replies Ht; simpl; [by apply inside_start|].
  case_match; [by apply inside_fault|].
  destruct (Event_encodeToString e) as [s|f] eqn:Hs; [|by apply inside_fault].
  destruct (sql_insert_event (EventRow_of e s) db) as [rc db'] eqn:Hi.
  destruct (insert_event_kept _ _ _ _ Ht Hi) as [Hk Hok]. unfold handleResultCode. destruct rc; simpl; [|by apply inside_fault].
  destruct (Hok eq_refl) as (Ht' & Hn & Htab). apply (inside_trans db db' _ [] [e] [] events).
  - exact Hk.
  - rewrite Htab. apply (extends_event _ e); [by exists s|done].
  - by apply IH.
Qed.

(** All or nothing. *)
Lemma Dao_persist_spec db replies commands events p :
  in_transaction db = false → p = Dao_persist db replies commands events →
  match ps_fault p with
  | None => in_transaction (ps_db p) = false ∧ extends (tables db) (tables (ps_db p)) commands events
  | Some _ => kept (ps_db p) = tables db
  end.
Proof.
  intros Hidle ->. assert (Hkept : kept db = tables db) by by apply kept_idle.
  unfold Dao_persist. destruct (sql_begin db) as [rc db1] eqn:Hb.
  destruct (begin_kept _ _ _ Hb) as [Hk1 Hok1]. destruct rc; simpl; [|unfold kept in *; congruence].
  destruct (Hok1 eq_refl) as [Ht1 Htab1].
  destruct (persist_events_spec db1 replies events Ht1) as [Hk2 Hok2].
  destruct (ps_fault (persist_events db1 replies events)) eqn:Hf2; [rewrite Hf2; unfold kept in *; congruence|].
  destruct (Hok2 eq_refl) as [Ht2 He2]. set (p2 := persist_events db1 replies events) in *.
  destruct (persist_commands_spec (ps_db p2) (ps_replies p2) commands Ht2) as [Hk3 Hok3].
  destruct (ps_fault (persist_commands (ps_db p2) (ps_replies p2) commands)) eqn:Hf3; [rewrite Hf3; unfold kept in *; congruence|].
  destruct (Hok3 eq_refl) as [Ht3 He3]. set (p3 := persist_commands (ps_db p2) (ps_replies p2) commands) in *.
  destruct (sql_commit (ps_db p3)) as [rc db4] eqn:Hcm. assert (Hc := commit_kept _ _ _ Ht3 Hcm).
  destruct rc; simpl; [|unfold kept in *; congruence]. destruct Hc as [Ht4 Htab4]. split; [done|].
  rewrite Htab4, <- Htab1. assert (He := extends_trans _ _ _ _ _ _ _ He2 He3). simpl in He. by rewrite app_nil_r in He.
Qed.
End transaction.

(** ** The store *)
Definition n_events (bs : list (Command * list Event)) : nat := length (concat bs.*2).

(** Ids count from 1, without a gap. *)
Definition numbered (bs : list (Command * list Event)) : Prop :=
  ∀ i b, bs !! i = Some b →
    Command_getId b.1 = Z.of_nat i + 1 ∧ b.2 ≠ [] ∧
    ∀ j e, b.2 !! j = Some e →
      mCommandId (Event_mMetaData e) = Z.of_nat i + 1 ∧ mId (Event_mMetaData e) = Z.of_nat (n_events (take i bs) + j) + 1.

Lemma n_events_app bs bs' : n_events (bs ++ bs') = (n_events bs + n_events bs')%nat.
Proof. unfold n_events. by rewrite fmap_app, concat_app, length_app. Qed.

Lemma numbered_take bs bs' : numbered (bs ++ bs') → numbered bs.
Proof.
  intros Hn i b Hi. assert (Hlt := lookup_lt_Some _ _ _ Hi).
  specialize (Hn i b). rewrite take_app_le in Hn by lia. apply Hn. by rewrite lookup_app_l.
Qed.

Lemma numbered_snoc bs b :
  numbered bs → Command_getId b.1 = Z.of_nat (length bs) + 1 → b.2 ≠ [] →
  (∀ j e, b.2 !! j = Some e → mCommandId (Event_mMetaData e) = Z.of_nat (length bs) + 1 ∧
    mId (Event_mMetaData e) = Z.of_nat (n_events bs + j) + 1) →
  numbered (bs ++ [b]).
Proof.
  intros Hn Hid Hne Hes i b' [Hi|[Hge Hi]]%lookup_app_Some.
  - rewrite take_app_le by (apply lookup_lt_Some in Hi; lia). by apply Hn.
  - apply list_lookup_singleton_Some in Hi as [Hi <-]. replace i with (length bs) in * by lia.
    rewrite take_app_length. auto.
Qed.

Lemma stamp_events_spec commandId gen es :
  0 ≤ gen → gen + Z.of_nat (length es) < 2 ^ 63 →
  (stamp_events commandId gen es).2 = gen + Z.of_nat (length es) ∧
  length (stamp_events commandId gen es).1 = length es ∧
  ∀ j e', (stamp_events commandId gen es).1 !! j = Some e' →
    ∃ e, es !! j = Some e ∧ e' = Event_setIds e (gen + Z.of_nat j + 1) commandId.
Proof.
  revert gen; induction es as [|e es IH]; intros gen Hge Hlt; simpl in *; [split_and!; [lia|done|done]|].
  assert (Hnext : getNextId gen = gen + 1) by (unfold getNextId; apply u64_small; unfold in_u64, two64; lia).
  rewrite Hnext. destruct (stamp_events commandId (gen + 1) es) as [es' gen'] eqn:E.
  destruct (IH (gen + 1)) as (Hg & Hl & Hj); [lia..|]. rewrite E in Hg, Hl, Hj. simpl in *. split_and!; [lia|lia|].
  intros [|j] e'; simpl.
  - intros [= <-]. exists e. split; [done|]. f_equal. lia.
  - intros (e0 & ? & ->)%Hj. exists e0. split; [done|]. f_equal. lia.
Qed.

Section store.
Context `{LedgerProtos} {Db : Type} `{SQLiteSpec Db}.
Implicit Types (s : SQLiteStore Db) (bs : list (Command * list Event)).

Definition entry_fits (b : Command * list Event) : Prop := command_fits b.1 ∧ Forall event_fits b.2.

Lemma Command_setId_fits c id : command_fits c → command_fits (Command_setId c id).
Proof. intros (Hwf & Hm & Hs). by split_and!. Qed.

Lemma Event_setIds_fits e id cid : event_fits e → event_fits (Event_setIds e id cid).
Proof. intros (Hwf & Hm & Hs). by split_and!. Qed.

(** The tables hold exactly [bs]. *)
Definition holds (T : Tables) bs : Prop := extends (mk_Tables ∅ ∅) T bs.*1 (concat bs.*2).

Lemma holds_empty : holds (mk_Tables ∅ ∅) [].
Proof. apply extends_nil. Qed.

Record store_inv accepted s : Prop := {
  si_ids : numbered accepted;
  si_fits : Forall entry_fits accepted;
  si_kept : ∃ saved rest, accepted = saved ++ rest ∧ holds (kept (ss_db s)) saved ∧
    (ss_fault s = None → mShouldExit s = false → rest = ss_batch s ++ mCommandEventQueue s);
  si_idle : ss_fault s = None → in_transaction (ss_db s) = false;
  si_gens : ss_fault s = None → mShouldExit s = false →
    mCommandIdGenerator s = Z.of_nat (length accepted) ∧ mEventIdGenerator s = Z.of_nat (n_events accepted) }.

Definition step_fits (step : StoreStep) : Prop :=
  match step with
  | SqPersistAsync command events _ _ => command_fits command ∧ Forall event_fits events
  | _ => True
  end.

Definition step_events (step : StoreStep) : nat :=
  match step with SqPersistAsync _ events _ _ => length events | _ => 0%nat end.

Lemma n_events_ge bs : numbered bs → (length bs ≤ n_events bs)%nat.
Proof.
  induction bs as [|b bs IH] using rev_ind; intros Hn; [done|].
  rewrite n_events_app, length_app. apply numbered_take in Hn as IHn. specialize (IH IHn).
  destruct (Hn (length bs) b) as (_ & Hne & _); [by rewrite lookup_app_r, Nat.sub_diag by lia|].
  unfold n_events at 2. simpl. rewrite app_nil_r. destruct b.2; simpl; [done|lia].
Qed.

Lemma persistAsync_inv accepted s command events code message :
  store_inv accepted s → ss_fault s = None → command_fits command → Forall event_fits events →
  Z.of_nat (n_events accepted + length events) < 2 ^ 63 →
  store_inv (accepted ++ drop (length (mCommandEventQueue s)) (mCommandEventQueue (SQLite_persistAsync s command events code message)))
    (SQLite_persistAsync s command events code message).
Proof.
  intros [Hids Hfits (saved & rest & Hacc & Hkept & Hrest) Hidle Hgens] Hnf Hc Hes Hlt.
  unfold SQLite_persistAsync. destruct events as [|e0 events0]; [|remember (e0 :: events0) as events eqn:Ee].
  { simpl. rewrite drop_all, app_nil_r. split; simpl; eauto 10. }
  destruct (stamp_events _ _ events) as [events' gen'] eqn:Est. simpl.
  destruct (mShouldExit s) eqn:Hexit; simpl.
  { rewrite drop_all, app_nil_r. split; simpl; try done; eauto 10. }
  rewrite drop_app_length. destruct (Hgens Hnf eq_refl) as [Hg1 Hg2].
  assert (Hlen := n_events_ge _ Hids).
  assert (Hnext : getNextId (mCommandIdGenerator s) = Z.of_nat (length accepted) + 1).
  { unfold getNextId. rewrite Hg1. apply u64_small. unfold in_u64, two64. lia. }
  destruct (stamp_events_spec (getNextId (mCommandIdGenerator s)) (mEventIdGenerator s) events) as (Hgen' & Hl & Hj); [lia..|].
  rewrite Est in Hgen', Hl, Hj. simpl in *. rewrite Hnext in *. split; simpl.
  - apply numbered_snoc; simpl; [done|done| |].
    + intros ->. by subst events.
    + intros j e (e1 & _ & ->)%Hj. simpl. split; [done|]. lia.
  - apply Forall_app. split; [done|]. apply Forall_singleton. split; simpl; [by apply Command_setId_fits|].
    apply Forall_lookup. intros j e (e1 & He1 & ->)%Hj. apply Event_setIds_fits. by eapply Forall_lookup_1.
  - exists saved, (rest ++ [(Command_setId command (Z.of_nat (length accepted) + 1), events')]).
    split_and!; [by rewrite Hacc, app_assoc|done|]. intros _ _. by rewrite Hrest, app_assoc by done.
  - done.
  - intros _ _. rewrite length_app, n_events_app. unfold n_events at 2. simpl. rewrite app_nil_r. lia.
Qed.

Lemma persist_batch_inv accepted s :
  store_inv accepted s → ss_fault s = None → store_inv accepted (SQLite_persist_batch s).
Proof.
  intros [Hids Hfits (saved & rest & Hacc & Hkept & Hrest) Hidle Hgens] Hnf. unfold SQLite_persist_batch.
  destruct (mShouldExit s) eqn:Hexit; simpl.
  { split; simpl; try done. exists saved, rest. by split_and!. }
  set (p := Dao_persist (ss_db s) (ss_replies s) (ss_batch s).*1 (concat (ss_batch s).*2)).
  assert (Hp := Dao_persist_spec _ _ _ _ p (Hidle Hnf) eq_refl). assert (Hk : kept (ss_db s) = tables (ss_db s)) by (apply kept_idle; auto).
  destruct (ps_fault p) as [f|] eqn:Hf.
  - split; simpl; try done. exists saved, rest.
    split_and!; [done| |done]. by rewrite Hp, <- Hk.
  - destruct Hp as [Hidle' Hext]. split; simpl; try done.
    + exists (saved ++ ss_batch s), (mCommandEventQueue s). split_and!.
      * by rewrite Hacc, Hrest, app_assoc by done.
      * unfold kept. rewrite kept_idle by done. unfold holds. rewrite fmap_app, fmap_app, concat_app.
        eapply extends_trans; [exact Hkept|]. by rewrite Hk.
      * done.
    + intros _ _. by apply Hgens.
Qed.

Lemma store_step_inv accepted s step :
  store_inv accepted s → step_fits step → Z.of_nat (n_events accepted + step_events step) < 2 ^ 63 →
  store_inv (accepted ++ store_accepts s step) (store_exec s step).
Proof.
  intros I Hfit Hlt. unfold store_accepts, store_exec. destruct (ss_fault s) eqn:Hnf; [by rewrite drop_all, app_nil_r|].
  destruct step as [command events code message|restTotal| |]; simpl in *.
  - destruct Hfit. by apply persistAsync_inv.
  - case_match eqn:Hcond; [|by rewrite drop_all, app_nil_r].
    apply andb_prop in Hcond as [[Hexit Hb]%andb_prop Hle]. apply bool_decide_eq_true in Hb, Hle. simpl.
    rewrite drop_ge, app_nil_r by (rewrite length_drop; lia).
    destruct I as [Hids Hfits (saved & rest & Hacc & Hkept & Hrest) Hidle Hgens]. split; simpl; try done.
    exists saved, rest. split_and!; [done..|]. intros _ He. rewrite take_drop, Hrest by done. by rewrite Hb.
  - case_bool_decide; [by rewrite drop_all, app_nil_r|].
    replace (mCommandEventQueue (SQLite_persist_batch s)) with (mCommandEventQueue s) by (unfold SQLite_persist_batch; by case_match).
    rewrite drop_all, app_nil_r. by apply persist_batch_inv.
  - rewrite drop_all, app_nil_r. destruct I as [Hids Hfits (saved & rest & Hacc & Hkept & Hrest) Hidle Hgens].
    split; simpl; try done. exists saved, rest. by split_and!.
Qed.

Lemma n_events_drop bs : n_events (drop (length bs) bs) = 0%nat.
Proof. by rewrite drop_all. Qed.

Lemma store_accepts_events s step : (n_events (store_accepts s step) ≤ step_events step)%nat.
Proof.
  unfold store_accepts, store_exec. destruct (ss_fault s); [rewrite n_events_drop; lia|].
  destruct step as [command events code message|restTotal| |]; simpl.
  - unfold SQLite_persistAsync. destruct events as [|e events]; [rewrite n_events_drop; lia|].
    assert (Hlen : ∀ cid g es, length (stamp_events cid g es).1 = length es).
    { intros cid g es. revert g; induction es as [|e1 es IH]; intros g; simpl; [done|].
      specialize (IH (getNextId g)). destruct (stamp_events cid (getNextId g) es). simpl in *. lia. }
    specialize (Hlen (getNextId (mCommandIdGenerator s)) (mEventIdGenerator s) (e :: events)).
    destruct (stamp_events _ _ (e :: events)) as [es' g']. simpl in *. destruct (mShouldExit s); [rewrite n_events_drop; lia|].
    rewrite drop_app_length. unfold n_events. simpl. rewrite app_nil_r. lia.
  - case_match; [|rewrite n_events_drop; lia]. simpl. rewrite drop_ge; [done|]. rewrite length_drop. lia.
  - case_bool_decide; [rewrite n_events_drop; lia|]. unfold SQLite_persist_batch. case_match; simpl; rewrite n_events_drop; lia.
  - rewrite n_events_drop. lia.
Qed.

Lemma store_run_inv accepted s steps t later :
  store_inv accepted s → Forall step_fits steps →
  Z.of_nat (n_events accepted + sum_list_with step_events steps) < 2 ^ 63 →
  store_run s steps = (t, later) → store_inv (accepted ++ later) t.
Proof.
  revert accepted s later; induction steps as [|step steps IH]; intros accepted s later I Hf Hlt Hrun; simpl in *.
  - injection Hrun as <- <-. by rewrite app_nil_r.
  - destruct (store_run (store_exec s step) steps) as [t' later'] eqn:E. injection Hrun as <- <-.
    inversion Hf; subst. rewrite app_assoc. eapply IH; [apply store_step_inv; [done|done|lia]|done| |exact E].
    assert (Hle := store_accepts_events s step). rewrite n_events_app. lia.
Qed.

(** Callers give a command one event at most. *)
Definition single_event (step : StoreStep) : Prop := (step_events step ≤ 1)%nat.

Lemma store_run_single s steps t later :
  Forall single_event steps → store_run s steps = (t, later) → Forall (λ b, length b.2 ≤ 1)%nat later.
Proof.
  revert s later; induction steps as [|step steps IH]; simpl; intros s later Hsingle Hrun; [by injection Hrun as _ <-|].
  destruct (store_run (store_exec s step) steps) as [t' later'] eqn:E. injection Hrun as <- <-.
  inversion Hsingle as [|? ? Hstep Hsteps]; subst. apply Forall_app. split; [|by eapply IH].
  assert (Hle := store_accepts_events s step). unfold single_event in Hstep.
  apply Forall_forall. intros b [l1 [l2 Hl]]%list_elem_of_split. rewrite Hl, n_events_app in Hle.
  unfold n_events in Hle at 2. simpl in Hle. rewrite length_app in Hle. lia.
Qed.

Lemma store_new_inv db :
  in_transaction db = false → tables db = mk_Tables ∅ ∅ → store_inv [] (SQLiteStore_new db 0 0).
Proof.
  intros Hidle Htab. split; simpl; try done.
  exists [], []. split_and!; [done| |done]. unfold kept. rewrite kept_idle, Htab by done. apply holds_empty.
Qed.
End store.
