(* ===== verification/SQLiteReplay.v ===== *)
(** * Replaying the SQLite store

    A reader over tables that hold some bundles: what each query finds, what one
    load gives, and the state after a replay. *)
From stdpp Require Import gmap sorting.
From S2P Require Import Prelude Protobuf Domain Es Control Ledger LedgerSM Snapshot SQLite SQLiteProps.
Open Scope Z_scope.

Section replay.
Context `{LedgerProtos} {Db : Type} `{SQLiteSpec Db}.
Implicit Types (db : Db) (bs : list (Command * list Event)) (r : SQLiteReader).

(** Queries succeed. *)
Definition reads_work db : Prop :=
  ∀ id, sql_next_command db id ≠ FetchedError ∧ (sql_events_of_command db id).2 = true.

Definition event_row (e : Event) : EventRow :=
  EventRow_of e match Event_encodeToString e with Ret s => s | Fail _ => EmptyString end.

Lemma is_event_row_iff e row : event_fits e → is_event_row e row ↔ row = event_row e.
Proof.
  intros (Hwf & _). destruct (Event_body_roundtrip e Hwf) as (s & Hs & _). unfold is_event_row, event_row. rewrite Hs.
  split; [by intros (? & [= <-] & ->)|intros ->; eauto].
Qed.

(** Tables that hold numbered bundles within the range of a column. *)
Record stored_bundles db bs : Prop := {
  sb_holds : holds (tables db) bs;
  sb_numbered : numbered bs;
  sb_fits : Forall entry_fits bs;
  sb_small : Z.of_nat (n_events bs) < 2 ^ 63 }.

Lemma bundles_index db bs i b :
  stored_bundles db bs → bs !! i = Some b → Z.of_nat i + 1 < 2 ^ 63 ∧ cr_id (CommandRow_of b.1) = Z.of_nat i + 1.
Proof.
  intros [_ Hn _ Hs] Hi. assert (Hlt := lookup_lt_Some _ _ _ Hi). assert (Hle := n_events_ge bs Hn).
  split; [lia|]. destruct (Hn i b Hi) as (Hid & _). simpl. unfold Command_getId in Hid. rewrite Hid. apply i64_small. lia.
Qed.

Lemma command_lookup db bs id row :
  stored_bundles db bs →
  tab_command (tables db) !! id = Some row ↔ ∃ i b, bs !! i = Some b ∧ row = CommandRow_of b.1 ∧ id = Z.of_nat i + 1.
Proof.
  intros S. destruct (sb_holds _ _ S) as [Hc _]. rewrite Hc. simpl tab_command. rewrite lookup_empty. split.
  - intros [[=]|(c & Hin & -> & ->)]. apply list_elem_of_fmap in Hin as (b & -> & [i Hi]%list_elem_of_lookup).
    exists i, b. split_and!; [done..|]. by apply (bundles_index db bs).
  - intros (i & b & Hi & -> & ->). right. exists b.1. split_and!; [|done|].
    + apply list_elem_of_fmap. exists b. split; [done|]. by apply list_elem_of_lookup_2 with i.
    + symmetry. by apply (bundles_index db bs).
Qed.

Lemma next_command_at db bs i b :
  stored_bundles db bs → reads_work db → bs !! i = Some b → sql_next_command db (Z.of_nat i) = FetchedRow (CommandRow_of b.1).
Proof.
  intros S Hw Hi. assert (Hthere : tab_command (tables db) !! (Z.of_nat i + 1) = Some (CommandRow_of b.1)).
  { apply (command_lookup db bs); eauto. }
  destruct (sql_next_command db (Z.of_nat i)) as [row| |] eqn:Hf; [|exfalso|by destruct (Hw (Z.of_nat i))].
  - destruct (next_command_row _ _ _ Hf) as (Hrow & Hlt & Hleast).
    assert (Heq := proj1 (command_lookup db bs _ _ S) Hrow). destruct Heq as (k & b' & Hk & -> & Hid).
    destruct (decide (k = i)) as [->|Hne]; [by simplify_eq|].
    rewrite (Hleast (Z.of_nat i + 1)) in Hthere; [done|]. lia.
  - rewrite (next_command_done _ _ Hf) in Hthere; [done|lia].
Qed.

Lemma next_command_end db bs offset :
  stored_bundles db bs → reads_work db → Z.of_nat (length bs) ≤ offset → sql_next_command db offset = FetchedDone.
Proof.
  intros S Hw Hge. destruct (sql_next_command db offset) as [row| |] eqn:Hf; [exfalso|done|by destruct (Hw offset)].
  destruct (next_command_row _ _ _ Hf) as (Hrow & Hlt & _).
  apply (command_lookup db bs _ _ S) in Hrow as (k & b' & Hk%lookup_lt_Some & -> & Hid). lia.
Qed.

(** *** The events of a command

    Which the reader applies in the order of the rows; that order is given by the
    tables when there is one. *)
Definition one_event_each bs : Prop := Forall (λ b, length b.2 ≤ 1)%nat bs.

Lemma n_events_take_le bs i b : bs !! i = Some b → (n_events (take i bs) + length b.2 ≤ n_events bs)%nat.
Proof.
  intros Hi. rewrite <- (take_drop_middle bs i b Hi) at 2. rewrite n_events_app.
  replace (b :: drop (S i) bs) with ([b] ++ drop (S i) bs) by done. rewrite n_events_app.
  unfold n_events at 3. simpl. rewrite app_nil_r. lia.
Qed.

Lemma event_ids db bs i b j e :
  stored_bundles db bs → bs !! i = Some b → b.2 !! j = Some e →
  0 < mId (Event_mMetaData e) < 2 ^ 63 ∧ 0 < mCommandId (Event_mMetaData e) < 2 ^ 63 ∧
  er_id (event_row e) = Z.of_nat (n_events (take i bs) + j) + 1 ∧ er_commandId (event_row e) = Z.of_nat i + 1.
Proof.
  intros S Hi Hj. destruct (sb_numbered _ _ S i b Hi) as (_ & _ & Hes). destruct (Hes j e Hj) as [Hc Hid].
  assert (Htake := n_events_take_le bs i b Hi). assert (Hjl := lookup_lt_Some _ _ _ Hj). assert (Hsm := sb_small _ _ S).
  destruct (bundles_index db bs i b S Hi) as [Hlt _]. simpl. rewrite Hc, Hid, !i64_small by lia. lia.
Qed.

Lemma elem_of_concat {A} (x : A) (ls : list (list A)) : x ∈ concat ls ↔ ∃ l, l ∈ ls ∧ x ∈ l.
Proof. rewrite list_elem_of_In, in_concat. by setoid_rewrite list_elem_of_In. Qed.

Lemma rows_sorted (es : list Event) base :
  (∀ j e, es !! j = Some e → er_id (event_row e) = base + Z.of_nat j) →
  StronglySorted (λ row1 row2, er_id row1 < er_id row2) (event_row <$> es).
Proof.
  revert base; induction es as [|e es IH]; intros base Hids; [constructor|]. rewrite fmap_cons. constructor.
  - apply (IH (base + 1)). intros j e' Hj. rewrite (Hids (S j) e' Hj). lia.
  - apply Forall_lookup. intros j row Hj. apply list_lookup_fmap_Some in Hj as (e' & -> & Hj).
    rewrite (Hids 0%nat e eq_refl), (Hids (S j) e' Hj). lia.
Qed.

(** The rows of a command, in the order SQLite chooses. *)
Lemma rows_permuted db bs i b rows :
  stored_bundles db bs → bs !! i = Some b → sql_events_of_command db (Z.of_nat i + 1) = (rows, true) →
  rows ≡ₚ event_row <$> b.2.
Proof.
  intros S Hi Hr. destruct (events_of_command_rows _ _ _ Hr) as [Hnd Hrows].
  assert (Hsorted : StronglySorted (λ row1 row2, er_id row1 < er_id row2) (event_row <$> b.2)).
  { apply (rows_sorted _ (Z.of_nat (n_events (take i bs)) + 1)). intros j e Hj.
    destruct (event_ids db bs i b j e S Hi Hj) as (_ & _ & -> & _). lia. }
  apply NoDup_Permutation; [done| |].
  { clear -Hsorted. induction Hsorted as [|row rows Hs IH Hall]; constructor; [|done].
    intros Hin. rewrite Forall_forall in Hall. specialize (Hall _ Hin). lia. }
  intros row. rewrite Hrows. destruct (sb_holds _ _ S) as [_ He]. rewrite He. simpl tab_event. rewrite lookup_empty. split.
  - intros [[[=]|(e & Hin & Hrow & _)] Hcid]. apply elem_of_concat in Hin as (es & (b' & -> & [i' Hi']%list_elem_of_lookup)%list_elem_of_fmap & Hin).
    apply list_elem_of_lookup in Hin as [j Hj].
    assert (Hf : event_fits e).
    { destruct (Forall_lookup_1 _ _ _ _ (sb_fits _ _ S) Hi') as [_ Hf]. by eapply Forall_lookup_1. }
    apply (is_event_row_iff _ _ Hf) in Hrow as ->. destruct (event_ids db bs i' b' j e S Hi' Hj) as (_ & _ & _ & Hc).
    assert (i' = i) as -> by lia. simplify_eq. apply list_elem_of_fmap. eauto using list_elem_of_lookup_2.
  - intros (e & -> & [j Hj]%list_elem_of_lookup)%list_elem_of_fmap.
    destruct (event_ids db bs i b j e S Hi Hj) as (_ & _ & _ & Hc). split; [|done]. right. exists e. split_and!; [|  |done].
    + apply elem_of_concat. exists b.2. split; [|by eapply list_elem_of_lookup_2].
      apply list_elem_of_fmap. eauto using list_elem_of_lookup_2.
    + apply is_event_row_iff; [|done]. destruct (Forall_lookup_1 _ _ _ _ (sb_fits _ _ S) Hi) as [_ Hf]. by eapply Forall_lookup_1.
Qed.

Lemma rows_at db bs i b :
  stored_bundles db bs → one_event_each bs → reads_work db → bs !! i = Some b →
  sql_events_of_command db (Z.of_nat i + 1) = (event_row <$> b.2, true).
Proof.
  intros S Hone Hw Hi. destruct (sql_events_of_command db (Z.of_nat i + 1)) as [rows rc] eqn:Hr.
  assert (rc = true) as -> by (destruct (Hw (Z.of_nat i + 1)) as [_ Hrc]; by rewrite Hr in Hrc).
  f_equal. assert (Hp := rows_permuted db bs i b rows S Hi Hr). assert (Hlen := Forall_lookup_1 _ _ _ _ Hone Hi). simpl in Hlen.
  destruct b.2 as [|e [|e' es]]; simpl in *; [by apply Permutation_nil_r in Hp|by apply Permutation_singleton_r in Hp|lia].
Qed.

Lemma populate_rows junk db bs i b :
  stored_bundles db bs → bs !! i = Some b → populate_events junk (event_row <$> b.2) = Ret (Some <$> (Event_stored <$> b.2)).
Proof.
  intros S Hi. destruct (Forall_lookup_1 _ _ _ _ (sb_fits _ _ S) Hi) as [_ Hf].
  assert (Hids : ∀ e, e ∈ b.2 → 0 < mId (Event_mMetaData e) < 2 ^ 63 ∧ 0 < mCommandId (Event_mMetaData e) < 2 ^ 63).
  { intros e [j Hj]%list_elem_of_lookup. destruct (event_ids db bs i b j e S Hi Hj) as (? & ? & _). done. }
  clear Hi. induction b.2 as [|e es IH]; csimpl; [done|]. inversion Hf as [|? ? Hfe Hfes]; subst.
  destruct (Hids e) as [Hid Hcid]; [constructor|]. destruct Hfe as (Hwf & Hm & Hn).
  destruct (Event_body_roundtrip e Hwf) as (str & Hs & _).
  assert (event_row e = EventRow_of e str) as -> by (unfold event_row; by rewrite Hs).
  rewrite (populateEvent_stored junk e str) by (try done; lia). simpl.
  rewrite IH; [done|done|]. intros e' He'. apply Hids. by constructor.
Qed.

(** *** One load *)
Definition reader_at r bs (i : nat) : SQLiteReader :=
  mk_SQLiteReader (mCurrentLoadedEventOffset r) (Z.of_nat i) (mNeedUpdateId r)
    (if mNeedUpdateId r then Z.of_nat i else sr_command_id r)
    (if mNeedUpdateId r then Z.of_nat (n_events (take i bs)) else sr_event_id r).

(** The generators are not beyond the first [i] bundles. *)
Definition ids_behind r bs (i : nat) : Prop :=
  mNeedUpdateId r = true → sr_command_id r ≤ Z.of_nat i ∧ sr_event_id r ≤ Z.of_nat (n_events (take i bs)).

Lemma n_events_take_S bs i b : bs !! i = Some b → n_events (take (S i) bs) = (n_events (take i bs) + length b.2)%nat.
Proof.
  intros Hi. rewrite (take_S_r _ _ _ Hi), n_events_app. unfold n_events at 2. simpl. by rewrite app_nil_r.
Qed.

Lemma load_at junk ejunk db bs i b r :
  stored_bundles db bs → one_event_each bs → reads_work db → bs !! i = Some b → mCurrentLoadedCommandOffset r = Z.of_nat i →
  ids_behind r bs i →
  Reader_loadNextCommandEvents junk ejunk db r =
    Ret (Some (Command_stored b.1, Some <$> (Event_stored <$> b.2)), reader_at r bs (S i)).
Proof.
  intros S Hone Hw Hi Ho Hids. destruct (bundles_index db bs i b S Hi) as [Hlt _].
  destruct (Forall_lookup_1 _ _ _ _ (sb_fits _ _ S) Hi) as [Hcf _].
  destruct (sb_numbered _ _ S i b Hi) as (Hid & Hne & Hes).
  unfold Reader_loadNextCommandEvents, Reader_loadNextCommand, findNextCommand. rewrite Ho, i64_small by lia.
  rewrite (next_command_at db bs i b S Hw Hi). rewrite populateCommand_stored by (try done; lia). simpl.
  change (Command_getId (Command_stored b.1)) with (Command_getId b.1). rewrite Hid.
  unfold Reader_update_command_id, setCurrentId, reader_at, ids_behind in *. simpl.
  assert (Hev : getEventsByCommandId ejunk db (Z.of_nat i + 1) = Ret (Some <$> (Event_stored <$> b.2))).
  { unfold getEventsByCommandId. rewrite i64_small by lia. rewrite (rows_at db bs i b S Hone Hw Hi).
    by rewrite (populate_rows ejunk db bs i b S Hi). }
  destruct (exists_last Hne) as (es & e & Hlast). rewrite (n_events_take_S bs i b Hi).
  assert (He : mId (Event_mMetaData e) = Z.of_nat (n_events (take i bs) + length b.2)).
  { destruct (Hes (length es) e) as [_ ->]; [by rewrite Hlast, lookup_app_r, Nat.sub_diag by lia|].
    rewrite Hlast, length_app. simpl. lia. }
  destruct (mNeedUpdateId r) eqn:Hneed; simpl.
  - destruct (Hids eq_refl) as [Hc Hevid]. case_match eqn:Hlt1; [apply Z.ltb_lt in Hlt1; lia|]. simpl. rewrite Hev. simpl.
    rewrite Hlast, !fmap_app. csimpl. rewrite last_snoc. simpl. unfold Reader_update_event_id, setCurrentId. simpl.
    change (mId (Event_mMetaData (Event_stored e))) with (mId (Event_mMetaData e)). rewrite He.
    case_match eqn:Hlt2; [apply Z.ltb_lt in Hlt2; lia|]. simpl. do 3 f_equal; [lia..|by rewrite Hlast].
  - rewrite Hev. simpl. rewrite Hlast, !fmap_app. csimpl. rewrite last_snoc. simpl. rewrite Hneed.
    unfold Reader_setCurrentOffset. simpl. do 3 f_equal; [lia|exact Hneed].
Qed.

Lemma load_end junk ejunk db bs r :
  stored_bundles db bs → reads_work db → Z.of_nat (length bs) ≤ mCurrentLoadedCommandOffset r < 2 ^ 63 →
  Reader_loadNextCommandEvents junk ejunk db r = Ret (None, r).
Proof.
  intros S Hw Ho. unfold Reader_loadNextCommandEvents, Reader_loadNextCommand, findNextCommand.
  rewrite i64_small by lia. by rewrite (next_command_end db bs) by (try done; lia).
Qed.

(** *** The replay *)
Context {SM : Type} (applyEvent : SM → Event → result SM).

Definition events_after bs (i : nat) : list Event := Event_stored <$> concat (drop i bs).*2.

Lemma replay_bundle sm count es :
  foldM (replay_event applyEvent) (sm, count) (Some <$> es) =
  (sm' ← foldM applyEvent sm es; Ret (sm', count + Z.of_nat (length es))).
Proof.
  revert sm count; induction es as [|e es IH]; intros sm count; simpl; [by rewrite Z.add_0_r|].
  destruct (applyEvent sm e) as [sm'|f]; simpl; [|done]. rewrite IH.
  destruct (foldM applyEvent sm' es); simpl; [|done]. do 2 f_equal. lia.
Qed.

Lemma reader_at_at r bs i j : reader_at (reader_at r bs i) bs j = reader_at r bs j.
Proof. unfold reader_at. simpl. by destruct (mNeedUpdateId r). Qed.

Lemma events_after_S bs i b : bs !! i = Some b → events_after bs i = (Event_stored <$> b.2) ++ events_after bs (S i).
Proof.
  intros Hi. unfold events_after. rewrite (drop_S _ _ _ Hi). simpl. by rewrite fmap_app.
Qed.

Lemma replay_loop_spec junk ejunk db bs fuel i r sm count cur :
  stored_bundles db bs → one_event_each bs → reads_work db → (i ≤ length bs)%nat → (length bs - i < fuel)%nat → 0 ≤ count →
  mCurrentLoadedCommandOffset r = Z.of_nat i → ids_behind r bs i →
  replay_loop applyEvent junk ejunk db fuel r (sm, count) cur =
    (sm' ← foldM applyEvent sm (events_after bs i);
     Ret (Some (sm', (if decide (i < length bs)%nat then reader_at r bs (length bs) else r),
       if count + Z.of_nat (length (events_after bs i)) =? 0 then None
       else Some (if decide (i < length bs)%nat then Z.of_nat (length bs) else cur)))).
Proof.
  intros S Hone Hw. revert i r sm count cur. induction fuel as [|fuel IH]; intros i r sm count cur Hle Hfuel Hcount Ho Hids; [lia|].
  simpl. destruct (decide (i < length bs)%nat) as [Hlt|Hge].
  - destruct (lookup_lt_is_Some_2 bs i Hlt) as [b Hi]. rewrite (load_at _ _ db bs i b) by done. simpl.
    rewrite replay_bundle, (events_after_S bs i b Hi), foldM_app.
    destruct (foldM applyEvent sm (Event_stored <$> b.2)) as [sm1|f]; simpl; [|done].
    rewrite (IH (Datatypes.S i)); [|lia|lia|lia|done|].
    + destruct (foldM applyEvent sm1 (events_after bs (Datatypes.S i))) as [sm2|f]; simpl; [|done]. do 2 f_equal.
      rewrite length_app, Nat2Z.inj_add, Z.add_assoc. f_equal; [f_equal|case_match; [done|f_equal]].
      * case_decide; [apply reader_at_at|]. by replace (Datatypes.S i) with (length bs) by lia.
      * case_decide; [done|]. change (Command_getId (Command_stored b.1)) with (Command_getId b.1).
        destruct (sb_numbered _ _ S i b Hi) as (-> & _). lia.
    + unfold ids_behind. simpl. intros ->. lia.
  - assert (i = length bs) as -> by lia. assert (Hsm := sb_small _ _ S). assert (Hn := n_events_ge bs (sb_numbered _ _ S)).
    rewrite (load_end _ _ db bs) by (try done; lia). simpl. unfold events_after. rewrite drop_all. simpl. by rewrite Z.add_0_r.
Qed.
End replay.
