(* ===== verification/SQLiteTheorems.v ===== *)
(** * Standalone mode: the theorems

    A restart replays what was committed; what a snapshot and a failing commit do
    to it.  [MemSQL] is a SQLite in memory. *)
From stdpp Require Import gmap sorting.
From S2P Require Import Prelude Protobuf Domain Es Control Ledger LedgerSM LedgerProps LedgerTheorems Snapshot SQLite SQLiteProps SQLiteReplay.
Open Scope Z_scope.

(** ** SQLite in memory *)
Section keyed.
Context {Row : Type} (key : Row → Z).

(** A table from its rows, and its rows by primary key. *)
Definition table (rows : list Row) : gmap Z Row := list_to_map ((λ row, (key row, row)) <$> rows).
Definition scan (rows : list Row) : list Row := omap (λ k, table rows !! k) (merge_sort Z.le (elements (dom (table rows)))).

Lemma table_key rows k row : table rows !! k = Some row → key row = k.
Proof. intros Hk. apply elem_of_list_to_map_2, list_elem_of_fmap in Hk as (? & [= -> ->] & _). done. Qed.

Lemma table_cons row rows : table (row :: rows) = <[key row := row]> (table rows).
Proof. done. Qed.

Lemma scan_elem rows row : row ∈ scan rows ↔ table rows !! key row = Some row.
Proof.
  unfold scan. rewrite list_elem_of_omap. split.
  - intros (k & _ & Hk). by rewrite (table_key _ _ _ Hk).
  - intros Hk. exists (key row). split; [|done]. rewrite merge_sort_Permutation. apply elem_of_elements, elem_of_dom. eauto.
Qed.

Lemma scan_sorted rows : StronglySorted (λ row1 row2, key row1 < key row2) (scan rows).
Proof.
  unfold scan. assert (Hnd : NoDup (merge_sort Z.le (elements (dom (table rows))))).
  { rewrite merge_sort_Permutation. apply NoDup_elements. }
  assert (Hs : StronglySorted Z.le (merge_sort Z.le (elements (dom (table rows))))) by (apply StronglySorted_merge_sort; apply _).
  induction Hs as [|k ks Hs IH Hall]; simpl; [constructor|]. apply NoDup_cons in Hnd as [Hk Hnd].
  destruct (table rows !! k) as [row|] eqn:Hrow; [|by apply IH]. constructor; [by apply IH|].
  apply Forall_forall. intros row' (k' & Hk' & Hrow')%list_elem_of_omap. rewrite Forall_forall in Hall.
  rewrite (table_key _ _ _ Hrow), (table_key _ _ _ Hrow'). specialize (Hall k' Hk').
  assert (k ≠ k') by (intros ->; done). lia.
Qed.

Lemma scan_nodup rows : NoDup (scan rows).
Proof.
  assert (Hs := scan_sorted rows). induction Hs as [|row rows' Hs IH Hall]; constructor; [|done].
  intros Hin. rewrite Forall_forall in Hall. specialize (Hall _ Hin). lia.
Qed.
End keyed.

Lemma filter_strongly_sorted {A} (R : A → A → Prop) (P : A → Prop) `{∀ x, Decision (P x)} l :
  StronglySorted R l → StronglySorted R (filter P l).
Proof.
  induction 1 as [|x l Hs IH Hall]; [constructor|]. rewrite filter_cons. case_decide; [|done]. constructor; [done|].
  apply Forall_forall. intros y [_ Hy]%list_elem_of_filter. rewrite Forall_forall in Hall. auto.
Qed.

Module MemSQL.
Record Db := mk_Db {
  db_commands : list CommandRow; db_events : list EventRow; db_saved : list CommandRow * list EventRow;
  db_open : bool; db_commits : bool }.

Definition after_id (id : Z) (rows : list CommandRow) : list CommandRow := filter (λ row, id < cr_id row) (scan cr_id rows).

#[export] Instance sqlite : SQLite Db := {|
  sql_open db :=
    if db_open db then mk_Db (db_saved db).1 (db_saved db).2 (db_saved db) false (db_commits db) else db;
  sql_begin db :=
    if db_open db then (false, db) else (true, mk_Db (db_commands db) (db_events db) (db_commands db, db_events db) true (db_commits db));
  sql_commit db :=
    if db_commits db then (true, mk_Db (db_commands db) (db_events db) (db_saved db) false true) else (false, db);
  sql_insert_command row db :=
    match table cr_id (db_commands db) !! cr_id row with
    | Some _ => (false, db)
    | None => (true, mk_Db (row :: db_commands db) (db_events db) (db_saved db) (db_open db) (db_commits db))
    end;
  sql_insert_event row db :=
    match table er_id (db_events db) !! er_id row with
    | Some _ => (false, db)
    | None => (true, mk_Db (db_commands db) (row :: db_events db) (db_saved db) (db_open db) (db_commits db))
    end;
  sql_next_command db id := match after_id id (db_commands db) with row :: _ => FetchedRow row | [] => FetchedDone end;
  sql_next_event db id :=
    match filter (λ row, id < er_id row) (scan er_id (db_events db)) with row :: _ => FetchedRow row | [] => FetchedDone end;
  sql_events_of_command db id := (filter (λ row, er_commandId row = id) (scan er_id (db_events db)), true);
  sqlite3_errmsg _ := "constraint failed" |}.

Lemma next_row db id row rows :
  after_id id (db_commands db) = row :: rows →
  table cr_id (db_commands db) !! cr_id row = Some row ∧ id < cr_id row ∧
  ∀ id', id < id' < cr_id row → table cr_id (db_commands db) !! id' = None.
Proof.
  intros Ha. assert (Hin : ∀ row', row' ∈ after_id id (db_commands db) ↔ id < cr_id row' ∧ table cr_id (db_commands db) !! cr_id row' = Some row').
  { intros row'. unfold after_id. by rewrite list_elem_of_filter, scan_elem. }
  destruct (proj1 (Hin row)) as [Hlt Hrow]; [rewrite Ha; constructor|]. split_and!; [done..|].
  intros id' Hid'. destruct (table cr_id (db_commands db) !! id') as [row'|] eqn:Hr; [exfalso|done].
  assert (Hkey := table_key _ _ _ _ Hr). assert (Hin' : row' ∈ after_id id (db_commands db)) by (apply Hin; rewrite Hkey; split; [lia|done]).
  assert (Hs : StronglySorted (λ row1 row2, cr_id row1 < cr_id row2) (after_id id (db_commands db))) by apply filter_strongly_sorted, scan_sorted.
  rewrite Ha in Hin', Hs. inversion Hs as [|? ? _ Hall]; subst. apply elem_of_cons in Hin' as [->|Hin']; [lia|].
  rewrite Forall_forall in Hall. specialize (Hall _ Hin'). lia.
Qed.

Lemma next_none db id : after_id id (db_commands db) = [] → ∀ id', id < id' → table cr_id (db_commands db) !! id' = None.
Proof.
  intros Ha id' Hlt. destruct (table cr_id (db_commands db) !! id') as [row'|] eqn:Hr; [exfalso|done].
  assert (Hkey := table_key _ _ _ _ Hr). apply (not_elem_of_nil row'). rewrite <- Ha. unfold after_id.
  apply list_elem_of_filter. split; [lia|]. apply scan_elem. by rewrite Hkey.
Qed.

#[export] Instance sqlite_spec : SQLiteSpec Db.
Proof.
  refine {| tables db := mk_Tables (table cr_id (db_commands db)) (table er_id (db_events db)); in_transaction := db_open |}.
  - intros db. simpl. by destruct (db_open db) eqn:E.
  - intros db E. simpl. by rewrite E.
  - intros db b db'. simpl. destruct (db_open db) eqn:E; intros [= <- <-]; simpl; [by rewrite E|done].
  - intros row db b db' E. simpl. rewrite E. destruct (table cr_id (db_commands db) !! cr_id row) eqn:Hr; intros [= <- <-]; simpl; by rewrite ?E.
  - intros row db b db' E. simpl. rewrite E. destruct (table er_id (db_events db) !! er_id row) eqn:Hr; intros [= <- <-]; simpl; by rewrite ?E.
  - intros db b db' E. simpl. destruct (db_commits db); intros [= <- <-]; simpl; rewrite ?E; done.
  - intros db id row. simpl. destruct (after_id id (db_commands db)) eqn:Ha; intros [= <-]. by eapply next_row.
  - intros db id. simpl. destruct (after_id id (db_commands db)) eqn:Ha; [|done]. intros _. by apply next_none.
  - intros db id rows. simpl. intros [= <-]. split; [apply NoDup_filter, scan_nodup|].
    intros row. rewrite list_elem_of_filter, scan_elem. tauto.
Defined.

Lemma reads (db : Db) : reads_work db.
Proof. intros id. split; [|done]. simpl. by destruct (after_id id (db_commands db)). Qed.

Definition empty (commits : bool) : Db := mk_Db [] [] ([], []) false commits.

Lemma empty_idle commits : in_transaction (empty commits) = false.
Proof. reflexivity. Qed.

Lemma empty_tables commits : tables (empty commits) = mk_Tables ∅ ∅.
Proof. reflexivity. Qed.
End MemSQL.

(** ** Restart *)
Section theorems.
Context `{LedgerProtos} {Db : Type} `{SQLiteSpec Db}.
Implicit Types (db : Db) (s : SQLiteStore Db).

(** What the store of a fresh database leaves in its file. *)
Lemma file_of_run db steps s accepted :
  in_transaction db = false → tables db = mk_Tables ∅ ∅ → Forall step_fits steps →
  Z.of_nat (sum_list_with step_events steps) < 2 ^ 63 →
  store_run (SQLiteStore_new db 0 0) steps = (s, accepted) →
  ∃ saved rest, accepted = saved ++ rest ∧
    (ss_fault s = None → mShouldExit s = false → rest = ss_batch s ++ mCommandEventQueue s) ∧
    stored_bundles (sql_open (ss_db s)) saved.
Proof.
  intros Hidle Hempty Hfits Hlt Hrun.
  assert (I := store_run_inv [] _ steps s accepted (store_new_inv db Hidle Hempty) Hfits Hlt Hrun). simpl in I.
  assert (Hn : (n_events accepted ≤ sum_list_with step_events steps)%nat).
  { clear -Hrun. revert accepted Hrun. generalize (SQLiteStore_new db 0 0).
    induction steps as [|step steps IH]; simpl; intros s0 accepted.
    - by intros [= _ <-].
    - destruct (store_run (store_exec s0 step) steps) as [t later] eqn:E. intros [= -> <-]. rewrite n_events_app.
      specialize (IH _ _ E). assert (Ha := store_accepts_events s0 step). lia. }
  destruct (si_kept _ _ I) as (saved & rest & -> & Hholds & Hrest). exists saved, rest. split_and!; [done..|].
  rewrite n_events_app in Hn. split; [exact Hholds|by eapply numbered_take, si_ids| |lia].
  by apply (Forall_app _ saved rest), (si_fits _ _ I).
Qed.

(** C30. The standalone store survives a restart.  It starts on an empty database
    and callers hand it commands with one event at most, as the ledger makes them
    (the query for the events of a command has no ORDER BY, so with several their
    order is SQLite's), whose payloads have no null character (they would be stored
    cut) and whose metadata fit their columns, fewer than 2^63 events in all; the
    queries of the next process succeed.  Then, however callers, turns of the
    persist loop, shutdown and failures of SQLite interleave, the file holds the
    first accepted entries, all of them but those still in the queue or in the batch
    under way while the store is up; a replay by the next process, from the
    beginning or from a snapshot taken behind the [i]-th, applies the events of
    exactly the entries after it, in order, once each, as decoded; and unless the
    snapshot covers the whole file the generators of ids end where those of the
    first process stood. *)
Theorem sqlite_restart_replays {SM} (applyEvent : SM → Event → result SM) db steps s accepted junk ejunk uninitialised :
  in_transaction db = false → tables db = mk_Tables ∅ ∅ → Forall step_fits steps → Forall single_event steps →
  Z.of_nat (sum_list_with step_events steps) < 2 ^ 63 →
  store_run (SQLiteStore_new db 0 0) steps = (s, accepted) → reads_work (sql_open (ss_db s)) →
  ∃ saved rest, accepted = saved ++ rest ∧
    (ss_fault s = None → mShouldExit s = false → rest = ss_batch s ++ mCommandEventQueue s) ∧
    ∀ (snapshot : option nat) sm fuel, let i := default 0%nat snapshot in (i ≤ length saved)%nat → (length saved < fuel)%nat →
      replayEvents applyEvent Standalone junk ejunk (sql_open (ss_db s)) fuel uninitialised (SQLiteReader_new true)
        (Z.of_nat <$> snapshot) sm =
      (sm' ← foldM applyEvent sm (events_after saved i);
       Ret (Some (sm',
         (if decide (i < length saved)%nat
          then mk_SQLiteReader 0 (Z.of_nat (length saved)) true (Z.of_nat (length saved)) (Z.of_nat (n_events saved))
          else mk_SQLiteReader 0 (Z.of_nat i) true 0 0),
         if decide (i < length saved)%nat then Some (Z.of_nat (length saved)) else None))).
Proof.
  intros Hidle Hempty Hfits Hsingle Hlt Hrun Hreads.
  destruct (file_of_run db steps s accepted Hidle Hempty Hfits Hlt Hrun) as (saved & rest & Hacc & Hrest & S).
  assert (Hone := store_run_single _ _ _ _ Hsingle Hrun). rewrite Hacc in Hone. apply Forall_app in Hone as [Hone _].
  exists saved, rest. split_and!; [done..|]. intros snapshot sm fuel i Hi Hfuel. unfold replayEvents.
  assert (Hr : match Z.of_nat <$> snapshot with
    | Some offset => Reader_setCurrentOffset (SQLiteReader_new true) offset | None => SQLiteReader_new true end
    = mk_SQLiteReader 0 (Z.of_nat i) true 0 0) by (unfold i; by destruct snapshot).
  rewrite Hr. clear Hr. rewrite (replay_loop_spec applyEvent junk ejunk _ saved fuel i) by (try done; try lia; intros _; simpl; lia).
  destruct (foldM applyEvent sm (events_after saved i)) as [sm'|f]; simpl; [|done]. case_decide as Hlti; simpl.
  - unfold reader_at. simpl. rewrite take_ge by done.
    destruct (lookup_lt_is_Some_2 saved i Hlti) as [b Hb]. rewrite (events_after_S saved i b Hb), length_app, length_fmap.
    destruct (sb_numbered _ _ S i b Hb) as (_ & Hne & _). destruct b.2; [done|]. by case_match eqn:E; [apply Z.eqb_eq in E; simpl in E; lia|].
  - unfold events_after. assert (i = length saved) as -> by lia. by rewrite drop_all.
Qed.

(** C37. A snapshot that covers the whole file is fatal in standalone mode: nothing
    is left to replay, so the generators stay at zero, the next accepted command
    takes an id that is in the file, and persisting its batch throws, which nobody
    catches; the file keeps what it had and no client of the batch is answered. *)
Theorem sqlite_snapshot_restart_stuck {SM} (applyEvent : SM → Event → result SM) db bs junk ejunk fuel uninitialised (sm : SM)
    command events code message :
  stored_bundles db bs → bs ≠ [] → reads_work db → in_transaction db = false → (0 < fuel)%nat → events ≠ [] → Forall event_fits events →
  ∃ r, replayEvents applyEvent Standalone junk ejunk db fuel uninitialised (SQLiteReader_new true) (Some (Z.of_nat (length bs))) sm
       = Ret (Some (sm, r, None)) ∧
    let s := (store_run (SQLiteStore_new db (sr_command_id r) (sr_event_id r))
                [SqPersistAsync command events code message; SqCapture 0; SqPersistBatch]).1 in
    ss_fault s = Some Thrown ∧ ss_replies s = [] ∧ kept (ss_db s) = tables db.
Proof.
  intros S Hne Hreads Hidle Hfuel Hev Hfits. exists (mk_SQLiteReader 0 (Z.of_nat (length bs)) true 0 0). split.
  { unfold replayEvents. simpl. destruct fuel as [|fuel]; [lia|]. simpl. assert (Hsm := sb_small _ _ S).
    assert (Hle := n_events_ge bs (sb_numbered _ _ S)). by rewrite (load_end _ _ db bs) by (try done; simpl; lia). }
  destruct bs as [|b bs]; [done|]. destruct (sb_numbered _ _ S 0%nat b eq_refl) as (_ & Hbne & _).
  destruct b.2 as [|e0 es0] eqn:Hb; [done|]. destruct events as [|e events]; [done|]. clear Hev.
  destruct (event_ids db (b :: bs) 0 b 0 e0 S eq_refl) as (_ & _ & Hid & _); [by rewrite Hb|].
  assert (Hthere : tab_event (tables db) !! 1 = Some (event_row e0)).
  { destruct (sb_holds _ _ S) as [_ He]. apply He. right. exists e0. rewrite Hid. split_and!; [|  |done].
    - apply elem_of_concat. exists b.2. split; [constructor|]. rewrite Hb. constructor.
    - apply is_event_row_iff; [|done]. assert (Hf := sb_fits _ _ S). inversion Hf as [|? ? [_ Hfe] _]; subst.
      rewrite Hb in Hfe. by inversion Hfe. }
  unfold store_run, store_exec, SQLiteStore_new, SQLite_persistAsync, SQLite_capture, SQLite_persist_batch. simpl.
  destruct (stamp_events _ (getNextId 0) events) as [es gen] eqn:Est. simpl.
  unfold Dao_persist. simpl. destruct (sql_begin db) as [rc db1] eqn:Hbegin. destruct (begin_kept _ _ _ Hbegin) as [Hk1 Hok1].
  assert (Hkept : kept db = tables db) by by apply kept_idle.
  destruct rc; simpl; [|unfold kept in *; split_and!; [done..|congruence]].
  destruct (Hok1 eq_refl) as [Ht1 Htab1]. inversion Hfits as [|? ? Hfe _]; subst. destruct Hfe as (Hwf & _).
  change (getNextId 0) with 1. simpl. change (Event_encodeToString (Event_setIds e 1 1)) with (Event_encodeToString e).
  destruct (Event_body_roundtrip e Hwf) as (str & Hs & _). rewrite Hs.
  destruct (sql_insert_event (EventRow_of (Event_setIds e 1 1) str) db1) as [rc db2] eqn:Hins.
  destruct (insert_event_kept _ _ _ _ Ht1 Hins) as [Hk2 Hok2]. unfold handleResultCode.
  destruct rc; simpl; [exfalso|unfold kept in *; split_and!; [done..|congruence]].
  destruct (Hok2 eq_refl) as (_ & Hn & _). rewrite Htab1 in Hn. change (er_id (EventRow_of (Event_setIds e 1 1) str)) with 1 in Hn. congruence.
Qed.

(** Clients are answered while the transaction is open: when COMMIT fails they have
    all been told success, and the file holds nothing of theirs. *)
Lemma answers_precede_commit db replies commands events db1 p1 p2 db2 :
  in_transaction db = false → sql_begin db = (true, db1) →
  p1 = persist_events db1 replies events → ps_fault p1 = None →
  p2 = persist_commands (ps_db p1) (ps_replies p1) commands → ps_fault p2 = None →
  sql_commit (ps_db p2) = (false, db2) →
  let p := Dao_persist db replies commands events in
  ps_fault p = Some Thrown ∧ kept (ps_db p) = tables db ∧
  ps_replies p = replies ++ omap (λ c, Command_onPersisted c "Success") commands.
Proof.
  intros Hidle Hb Hp1 Hf1 Hp2 Hf2 Hc p.
  assert (Hspec := Dao_persist_spec db replies commands events p Hidle eq_refl). revert Hspec. unfold p, Dao_persist.
  rewrite Hb. simpl. rewrite <- Hp1, Hf1, <- Hp2, Hf2, Hc. simpl. intros Hk. split_and!; [done..|].
  assert (He : ∀ es db replies p, p = persist_events db replies es → ps_fault p = None → ps_replies p = replies).
  { clear. induction es as [|e es IH]; simpl; intros db replies p ->; [done|]. case_match; [done|].
    destruct (Event_encodeToString e); [|done]. destruct (sql_insert_event _ db) as [[] db']; simpl; [|done].
    intros Hf. by rewrite (IH _ _ _ eq_refl Hf), app_nil_r. }
  assert (Hcm : ∀ cs db replies p, p = persist_commands db replies cs → ps_fault p = None →
    ps_replies p = replies ++ omap (λ c, Command_onPersisted c "Success") cs).
  { clear. induction cs as [|c cs IH]; simpl; intros db replies p ->; [by rewrite app_nil_r|]. case_match; [done|].
    destruct (sql_insert_command _ db) as [[] db']; simpl; [|done].
    intros Hf. rewrite (IH _ _ _ eq_refl Hf), <- app_assoc. f_equal. by destruct (Command_onPersisted c "Success"). }
  by rewrite (Hcm _ _ _ _ Hp2 Hf2), (He _ _ _ _ Hp1 Hf1).
Qed.
End theorems.

(** ** Three commands and a restart

    The first is persisted alone, the second and third together, a fourth is in
    the queue when the process stops. *)
Module SampleSQL.
Import (hints) Wire MemSQL.
Definition apply (sm : AppStateMachine) (e : Event) : result AppStateMachine := '(sm, _) ← applyEvent 0 sm e; Ret sm.
Definition process (sm : AppStateMachine) (c : Command) : list Event * AppStateMachine :=
  match processCommandAndApply Sample.env 0 sm c [] with Ret (_, events, sm, _) => (events, sm) | Fail _ => ([], sm) end.

Definition c1 := Sample.configure pAsset 1000 1999.
Definition c2 := Sample.configure pLiability 2000 2999.
Definition c3 := Sample.create pAsset 1001 500.
Definition s0 : AppStateMachine := initial Sample.cs.
Definition e1 : list Event := (process s0 c1).1.
Definition s1 : AppStateMachine := (process s0 c1).2.
Definition e2 : list Event := (process s1 c2).1.
Definition s2 : AppStateMachine := (process s1 c2).2.
Definition e3 : list Event := (process s2 c3).1.

Definition steps : list StoreStep :=
  [SqPersistAsync c1 e1 200 "ok"; SqPersistAsync c2 e2 200 "ok"; SqCapture 0; SqPersistAsync c3 e3 200 "ok"; SqPersistBatch;
   SqCapture 1; SqPersistBatch; SqPersistAsync c2 e2 200 "ok"].

Definition ended : SQLiteStore MemSQL.Db * list (Command * list Event) := store_run (SQLiteStore_new (MemSQL.empty true) 0 0) steps.

Ltac fits :=
  split; [split; [split; [reflexivity|vm_compute; reflexivity]|split; [vm_compute; split_and!; congruence|vm_compute; reflexivity]]|];
  constructor; [|constructor]; split; [split; [reflexivity|split; [reflexivity|vm_compute; split_and!; congruence]]|];
  split; [vm_compute; split_and!; congruence|];
  intros s Hs; vm_compute in Hs; injection Hs as <-; vm_compute; reflexivity.

Lemma steps_fit : Forall step_fits steps.
Proof. repeat (constructor; [first [exact I|fits]|]). constructor. Qed.

Lemma steps_single : Forall single_event steps.
Proof. repeat (constructor; [vm_compute; lia|]). constructor. Qed.

Lemma ended_lengths saved rest :
  ended.2 = saved ++ rest → rest = ss_batch ended.1 ++ mCommandEventQueue ended.1 → length saved = 3%nat.
Proof.
  intros Hacc Hrest. apply (f_equal length) in Hacc, Hrest. rewrite length_app in Hacc.
  assert (length ended.2 = 4%nat ∧ length (ss_batch ended.1 ++ mCommandEventQueue ended.1) = 1%nat) as [??] by (split; vm_compute; reflexivity).
  lia.
Qed.

Lemma ended_fault : ss_fault ended.1 = None ∧ mShouldExit ended.1 = false.
Proof. split; vm_compute; reflexivity. Qed.
End SampleSQL.

Import (hints) Wire MemSQL.

Lemma sqlite_restart_replays_witness :
  ∃ saved rest, SampleSQL.ended.2 = saved ++ rest ∧ length saved = 3%nat ∧
    replayEvents SampleSQL.apply Standalone Sample.junk Sample.ejunk (sql_open (ss_db SampleSQL.ended.1)) 10 0
      (SQLiteReader_new true) (Some 1) SampleSQL.s1 =
    (sm' ← foldM SampleSQL.apply SampleSQL.s1 (events_after saved 1);
     Ret (Some (sm', mk_SQLiteReader 0 3 true 3 (Z.of_nat (n_events saved)), Some 3))).
Proof.
  destruct (sqlite_restart_replays SampleSQL.apply (MemSQL.empty true) SampleSQL.steps SampleSQL.ended.1 SampleSQL.ended.2
    Sample.junk Sample.ejunk 0 (MemSQL.empty_idle true) (MemSQL.empty_tables true) SampleSQL.steps_fit SampleSQL.steps_single
    ltac:(vm_compute; reflexivity) ltac:(unfold SampleSQL.ended; destruct (store_run _ _); reflexivity) (MemSQL.reads _))
    as (saved & rest & Hacc & Hrest & Hreplay).
  specialize (Hrest (proj1 SampleSQL.ended_fault) (proj2 SampleSQL.ended_fault)).
  assert (Hlen := SampleSQL.ended_lengths saved rest Hacc Hrest).
  exists saved, rest. split; [exact Hacc|]. split; [exact Hlen|].
  rewrite Hlen in Hreplay. assert (Hlt : (default 0 (Some 1) < 3)%nat) by (simpl; lia).
  etransitivity; [exact (Hreplay (Some 1%nat) SampleSQL.s1 10%nat (Nat.lt_le_incl _ _ Hlt) ltac:(lia))|].
  change (default 0%nat (Some 1%nat)) with 1%nat in *. rewrite decide_True by exact Hlt. reflexivity.
Defined.

(** *** Recovery from a snapshot of everything *)
Lemma sample_stored : stored_bundles (ss_db SampleSQL.ended.1) (take 3 SampleSQL.ended.2).
Proof.
  destruct (file_of_run (MemSQL.empty true) SampleSQL.steps SampleSQL.ended.1 SampleSQL.ended.2 (MemSQL.empty_idle true) (MemSQL.empty_tables true) SampleSQL.steps_fit
    ltac:(vm_compute; reflexivity) ltac:(unfold SampleSQL.ended; destruct (store_run _ _); reflexivity)) as (saved & rest & Hacc & Hrest & S).
  specialize (Hrest (proj1 SampleSQL.ended_fault) (proj2 SampleSQL.ended_fault)).
  assert (Hlen := SampleSQL.ended_lengths saved rest Hacc Hrest).
  rewrite Hacc, take_app_le, take_ge by lia. exact S.
Qed.

Lemma sqlite_snapshot_restart_stuck_witness :
  ∃ r, replayEvents SampleSQL.apply Standalone Sample.junk Sample.ejunk (ss_db SampleSQL.ended.1) 1 0 (SQLiteReader_new true) (Some 3) SampleSQL.s2
       = Ret (Some (SampleSQL.s2, r, None)) ∧
    let s := (store_run (SQLiteStore_new (ss_db SampleSQL.ended.1) (sr_command_id r) (sr_event_id r))
                [SqPersistAsync SampleSQL.c2 SampleSQL.e2 200 "ok"; SqCapture 0; SqPersistBatch]).1 in
    ss_fault s = Some Thrown ∧ ss_replies s = [] ∧ kept (ss_db s) = tables (ss_db SampleSQL.ended.1).
Proof.
  apply (sqlite_snapshot_restart_stuck SampleSQL.apply (ss_db SampleSQL.ended.1) (take 3 SampleSQL.ended.2) Sample.junk Sample.ejunk 1 0
    SampleSQL.s2 SampleSQL.c2 SampleSQL.e2 200 "ok" sample_stored).
  - vm_compute. discriminate.
  - apply MemSQL.reads.
  - vm_compute. reflexivity.
  - lia.
  - vm_compute. discriminate.
  - apply (Forall_lookup_1 _ _ 1 _ SampleSQL.steps_fit eq_refl).
Defined.
