(* ===== verification/NetAdmin.v ===== *)
(** * The administration server

    src/src/app_util/NetAdminServer.h over NetAdminServiceProvider.h: snapshots,
    truncation of the log and hotfixes, of each at most one at a time; queries;
    the start and the end of copying another cluster's log.  The provider of the
    ledger is the event apply loop (ApplyLoop.v) over the Raft core. *)
From Stdlib Require Import String.
From stdpp Require Import gmap strings pretty.
From S2P Require Import Prelude Strings Control RaftLog RaftCore ClusterInfo.
Open Scope Z_scope.

(** ** The provider

    [result]: a call that aborts the process.  [executeHotfix], [syncLog] and
    [terminateSyncMode] have default implementations. *)
Class NetAdminServiceProvider (P : Type) := {
  na_takeSnapshotAndPersist : P → result (bool * string * P);
  na_truncatePrefix : Z → P → result P;
  na_executeHotfix : string → P → result (bool * P);
  na_lastApplied : P → Z;
  na_queryCtrlState : P → CtrlState → CtrlState;
  na_syncLog : list string → string → P → result (bool * P);
  na_terminateSyncMode : string → Z → P → result (bool * string * P) }.

Definition default_executeHotfix {P} (hotfix : string) (p : P) : result (bool * P) := Ret (true, p).
Definition default_syncLog {P} (targets : list string) (planId : string) (p : P) : result (bool * P) := Ret (false, p).
Definition default_terminateSyncMode {P} (planId : string) (tagCommitIndex : Z) (p : P) : result (bool * string * P) :=
  Ret (false, EmptyString, p).

(** ** Requests that run one at a time *)
Inductive AdminKind := KSnapshot | KTruncatePrefix | KHotfix.
#[export] Instance AdminKind_eq_dec : EqDecision AdminKind.
Proof. solve_decision. Defined.

Inductive AdminRequest :=
  CreateSnapshot_Request | TruncatePrefix_Request (firstIndexKept : Z) | Hotfix_Request (payload : string).

Definition kind_of (request : AdminRequest) : AdminKind :=
  match request with
  | CreateSnapshot_Request => KSnapshot
  | TruncatePrefix_Request _ => KTruncatePrefix
  | Hotfix_Request _ => KHotfix
  end.

Inductive ResponseType := UNKNOWN | PROCESSING | SUCCESS | FAILED.

Record AdminResponse := mk_AdminResponse { ar_type : ResponseType; ar_message : string }.

(** A call is past [compare_exchange_strong], or has its reply and will reset the flag. *)
Inductive AdminCall := Running (request : AdminRequest) | Leaving (request : AdminRequest) (reply : AdminResponse).

Definition call_request (c : AdminCall) : AdminRequest :=
  match c with Running r => r | Leaving r _ => r end.

Record NetAdminServer (P : Type) := mk_NetAdminServer {
  mSnapshotIsRunning : bool; mTruncatePrefixIsRunning : bool; mHotfixIsRunning : bool;
  mServiceProvider : P;
  na_calls : gmap nat AdminCall;
  na_answers : list (nat * AdminResponse) }.
Arguments mk_NetAdminServer {P}. Arguments mSnapshotIsRunning {P}. Arguments mTruncatePrefixIsRunning {P}.
Arguments mHotfixIsRunning {P}. Arguments mServiceProvider {P}. Arguments na_calls {P}. Arguments na_answers {P}.

Section server.
Context `{NetAdminServiceProvider P}.
Implicit Types s : NetAdminServer P.

Definition NetAdminServer_new (provider : P) : NetAdminServer P := mk_NetAdminServer false false false provider ∅ [].

Definition is_running s (k : AdminKind) : bool :=
  match k with
  | KSnapshot => mSnapshotIsRunning s
  | KTruncatePrefix => mTruncatePrefixIsRunning s
  | KHotfix => mHotfixIsRunning s
  end.

Definition set_running s (k : AdminKind) (b : bool) : NetAdminServer P :=
  match k with
  | KSnapshot => mk_NetAdminServer b (mTruncatePrefixIsRunning s) (mHotfixIsRunning s) (mServiceProvider s) (na_calls s) (na_answers s)
  | KTruncatePrefix => mk_NetAdminServer (mSnapshotIsRunning s) b (mHotfixIsRunning s) (mServiceProvider s) (na_calls s) (na_answers s)
  | KHotfix => mk_NetAdminServer (mSnapshotIsRunning s) (mTruncatePrefixIsRunning s) b (mServiceProvider s) (na_calls s) (na_answers s)
  end.

Definition set_call s (id : nat) (c : option AdminCall) : NetAdminServer P :=
  mk_NetAdminServer (mSnapshotIsRunning s) (mTruncatePrefixIsRunning s) (mHotfixIsRunning s) (mServiceProvider s)
    (partial_alter (λ _, c) id (na_calls s)) (na_answers s).

Definition answer s (id : nat) (reply : AdminResponse) : NetAdminServer P :=
  mk_NetAdminServer (mSnapshotIsRunning s) (mTruncatePrefixIsRunning s) (mHotfixIsRunning s) (mServiceProvider s)
    (na_calls s) (na_answers s ++ [(id, reply)]).

Definition set_provider s (p : P) : NetAdminServer P :=
  mk_NetAdminServer (mSnapshotIsRunning s) (mTruncatePrefixIsRunning s) (mHotfixIsRunning s) p (na_calls s) (na_answers s).

(** The body of each handler, between the flag and its reset. *)
Definition CreateSnapshot_body (p : P) : result (AdminResponse * P) :=
  '(succeed, snapshotPath, p) ← na_takeSnapshotAndPersist p;
  Ret (mk_AdminResponse (if succeed : bool then SUCCESS else FAILED) snapshotPath, p).

Definition TruncatePrefix_body (firstIndexKept : Z) (p : P) : result (AdminResponse * P) :=
  p ← na_truncatePrefix firstIndexKept p;
  Ret (mk_AdminResponse SUCCESS "OK", p).

Definition Hotfix_body (payload : string) (p : P) : result (AdminResponse * P) :=
  '(succeed, p) ← na_executeHotfix payload p;
  Ret (mk_AdminResponse (if succeed : bool then SUCCESS else FAILED)
         (if succeed : bool then "Hotfix has been done successfully" else "Failed to apply the hotfix"), p).

Definition serve (request : AdminRequest) (p : P) : result (AdminResponse * P) :=
  match request with
  | CreateSnapshot_Request => CreateSnapshot_body p
  | TruncatePrefix_Request firstIndexKept => TruncatePrefix_body firstIndexKept p
  | Hotfix_Request payload => Hotfix_body payload p
  end.

(** *** The handlers as steps of the server's threads *)
Inductive AdminStep := AdEnter (id : nat) (request : AdminRequest) | AdServe (id : nat) | AdLeave (id : nat).

Definition admin_exec s (step : AdminStep) : result (NetAdminServer P) :=
  match step with
  | AdEnter id request =>
      if is_running s (kind_of request) then Ret (answer s id (mk_AdminResponse PROCESSING EmptyString))
      else Ret (set_call (set_running s (kind_of request) true) id (Some (Running request)))
  | AdServe id =>
      match na_calls s !! id with
      | Some (Running request) =>
          '(reply, p) ← serve request (mServiceProvider s);
          Ret (set_call (set_provider s p) id (Some (Leaving request reply)))
      | _ => Ret s
      end
  | AdLeave id =>
      match na_calls s !! id with
      | Some (Leaving request reply) =>
          Ret (answer (set_call (set_running s (kind_of request) false) id None) id reply)
      | _ => Ret s
      end
  end.

(** ** The other requests

    [raftState]: the answer to the [QuerySignal]. *)
Record RaftState := mk_RaftState { rs_mFirstIndex : Z; rs_mLastIndex : Z; rs_mCommitIndex : Z; rs_mRole : RaftRole }.

Definition query_signal `{Log L} (c : RaftCore L) : RaftState :=
  mk_RaftState (getFirstLogIndex (core_mLog c)) (getLastLogIndex (core_mLog c)) (mCommitIndex c) (mRaftRole c).

Inductive Query_Role := Query_LEADER | Query_FOLLOWER | Query_CANDIDATE | Query_SYNCER | Query_UNKNOWN.

Definition getRole (raftRole : RaftRole) : Query_Role :=
  match raftRole with
  | Leader => Query_LEADER | Follower => Query_FOLLOWER | Candidate => Query_CANDIDATE | Syncer => Query_SYNCER
  end.

Record Query_StateResponse := mk_Query_StateResponse {
  qs_code : Z; qs_message : string; qs_commitIndex : Z; qs_lastApplied : Z; qs_firstIndex : Z;
  qs_clusterInfo : string; qs_splitState : option SplitState; qs_role : Query_Role }.

(** [getMyClusterInfo] of an unknown cluster has no nodes. *)
Definition NetAdmin_Query `{Absl} (junkClusterId junkStartIndex : Z) (appInfo : AppInfoInstance) (raftState : RaftState) (p : P)
    : Query_StateResponse :=
  let ctrlState := na_queryCtrlState p (CtrlState_new junkClusterId junkStartIndex) in
  mk_Query_StateResponse 200 "ok" (rs_mCommitIndex raftState) (na_lastApplied p) (rs_mFirstIndex raftState)
    (from_option ClusterInfo_to_string EmptyString (getMyClusterInfo appInfo))
    (if CtrlState_hasState ctrlState then Some (CtrlState_buildProto ctrlState) else None)
    (getRole (rs_mRole raftState)).

Record ResponseHeader := mk_ResponseHeader { hd_code : Z; hd_message : string }.

Definition sync_target (node : Node) : string := mHostName node +:+ ":" +:+ pretty (mPortForStream node).

Definition NetAdmin_SyncLog (appInfo : AppInfoInstance) (raftState : RaftState) (planId : string) (fromClusterId : Z) (p : P)
    : result (ResponseHeader * P) :=
  match getClusterInfo appInfo fromClusterId with
  | None => Ret (mk_ResponseHeader 400 "no such clusterId", p)
  | Some fromCluster =>
      if negb (bool_decide (rs_mRole raftState = Syncer)) then Ret (mk_ResponseHeader 400 "it not sync mode", p)
      else
        '(r, p) ← na_syncLog ((λ kv, sync_target kv.2) <$> in_order (mNodes fromCluster)) planId p;
        Ret (mk_ResponseHeader (if r : bool then 200 else 503) EmptyString, p)
  end.

Definition NetAdmin_Startup (planId : string) (tagCommitIndex : Z) (p : P) : result (ResponseHeader * P) :=
  '(r, errMsg, p) ← na_terminateSyncMode planId tagCommitIndex p;
  Ret (if r : bool then mk_ResponseHeader 200 "ok" else mk_ResponseHeader 400 errMsg, p).
End server.
Arguments NetAdminServer_new {P}.
