(* ===== verification/ApplyLoop.v ===== *)
(** * The event apply loop

    src/src/app_util/EventApplyLoop.h: a node's replica of the application state.
    The loop takes the bundles of committed entries from its store (AsyncLoad.v),
    applies their events to a state machine and commits; when the node becomes the
    leader, the command process loop takes the state over and the store is torn
    down; then the loop recovers.  [EventApplyLoopBase] is over the class
    [ApplyMachine] of its state machines, [EventApplyLoop<.., true>] is the
    instance for RocksSM.v, and [EventApplyLoop<.., false>] the section on
    snapshots. *)
From S2P Require Import Prelude Protobuf Crypto Domain Es Control Ledger LedgerSM LedgerProps.
From S2P Require Import RaftLog RaftCore Pipeline AsyncLoad RocksSM RocksProps.
Open Scope Z_scope.

(** ** The state machine of a loop

    What the loop calls of it; [am_recover] gives the offset recovered, if there
    is one.  [T] is the state machine of the command process loop. *)
Class ApplyMachine (SM T : Type) := {
  am_applyEvent : Z → SM → Event → result SM;
  am_commit : SM → Z → result SM;
  am_swapState : T → SM → result (T * SM);
  am_recover : SM → result (option Z * SM) }.

#[export] Instance rocks_machine `{LedgerProtos} `{Proto protos_Account} `{Proto protos_AccountMetadata} `{RocksDB D B} :
  ApplyMachine (RocksDBBackedAppStateMachine D B) (MemoryBackedAppStateMachine D) := {|
  am_applyEvent := rocks_applyEvent;
  am_commit := commit;
  am_swapState := swapState;
  am_recover s := '(index, s) ← recoverSelf s; Ret (Some index, s) |}.

(** ** The loop *)

(** [eal_locked]: a hand-over holds [mLoopMutex], waiting for the threads of the
    store. *)
Record EventApplyLoop (SM : Type) := mk_EAL {
  mReadonlyCommandEventStore : AsyncCES;
  mShouldRecover : bool;
  eal_machine : SM;
  mLastAppliedLogEntryIndex : Z;
  eal_locked : bool }.
Arguments mk_EAL {SM}. Arguments mReadonlyCommandEventStore {SM}. Arguments mShouldRecover {SM}.
Arguments eal_machine {SM}. Arguments mLastAppliedLogEntryIndex {SM}. Arguments eal_locked {SM}.

Section loop.
Context {SM T : Type} `{ApplyMachine SM T}.
Context (groupId : Z).
Implicit Types (e : EventApplyLoop SM).

Definition EAL_set_ces e (ces : AsyncCES) : EventApplyLoop SM :=
  mk_EAL ces (mShouldRecover e) (eal_machine e) (mLastAppliedLogEntryIndex e) (eal_locked e).

(** [recoverSelf] *)
Definition EAL_recoverSelf e : result (EventApplyLoop SM) :=
  '(readOffsetOpt, machine) ← am_recover (eal_machine e);
  let lastApplied := default (mLastAppliedLogEntryIndex e) readOffsetOpt in
  ces ← match readOffsetOpt with
        | Some offset => AC_setCurrentOffset (mReadonlyCommandEventStore e) offset
        | None => Ret (mReadonlyCommandEventStore e)
        end;
  Ret (mk_EAL (AC_init ces) false machine lastApplied (eal_locked e)).

(** The constructor. *)
Definition EAL_new (machine : SM) : result (EventApplyLoop SM) :=
  EAL_recoverSelf (mk_EAL AsyncCES_new false machine 0 false).

(** The loop over the events of a bundle. *)
Definition EAL_apply (machine : SM) (events : list (option Event)) : result SM :=
  foldM (λ m eventPtr, match eventPtr with Some event => am_applyEvent groupId m event | None => Fail UndefinedBehaviour end) machine events.

(** One turn of [run], under [mLoopMutex]. *)
Definition EAL_turn e : result (EventApplyLoop SM) :=
  e ← (if mShouldRecover e then EAL_recoverSelf e else Ret e);
  '(ces, commandEventsOpt) ← AC_loadNextCommandEvents (mReadonlyCommandEventStore e);
  let e := EAL_set_ces e ces in
  match commandEventsOpt with
  | None => Ret e
  | Some (command, events) =>
      machine ← EAL_apply (eal_machine e) events;
      match command with
      | None => Fail UndefinedBehaviour
      | Some c =>
          machine ← am_commit machine (Command_getId c);
          Ret (mk_EAL ces (mShouldRecover e) machine (Command_getId c) (eal_locked e))
      end
  end.

(** [swapStateAndTeardown], up to the joins in [teardown] ... *)
Definition EAL_swapState (target : T) e : result (T * EventApplyLoop SM) :=
  '(target, machine) ← am_swapState target (eal_machine e);
  Ret (target, mk_EAL (AC_stop (mReadonlyCommandEventStore e)) (mShouldRecover e) machine
                 (mLastAppliedLogEntryIndex e) true).

(** ... and once the threads are done. *)
Definition EAL_teardown e : EventApplyLoop SM :=
  mk_EAL (AC_clear (mReadonlyCommandEventStore e)) true (eal_machine e) (mLastAppliedLogEntryIndex e) false.

Definition EAL_lastApplied e : Z := mLastAppliedLogEntryIndex e.

(** *** Interleavings

    A turn of the loop, a turn of a thread of the store, a hand-over, its end, and
    the end of the process: a new one opens what [survives] of the machine. *)
Inductive EalStep (L : Type) :=
  | EalTurn | EalThread (step : ThreadStep L) | EalSwap (target : T) | EalJoined | EalRestart.
Arguments EalTurn {L}. Arguments EalThread {L}. Arguments EalSwap {L}. Arguments EalJoined {L}. Arguments EalRestart {L}.

Definition eal_exec `{LedgerProtos} `{Proto RaftPayload} `{OpenSSL} `{Log L} junk ejunk crypto (survives : SM → SM)
    e (step : EalStep L) : result (EventApplyLoop SM) :=
  match step with
  | EalTurn => if eal_locked e then Ret e else EAL_turn e
  | EalThread t => ces ← thread_exec junk ejunk crypto (mReadonlyCommandEventStore e) t; Ret (EAL_set_ces e ces)
  | EalSwap target => if eal_locked e then Ret e else '(_, e) ← EAL_swapState target e; Ret e
  | EalJoined => if eal_locked e && AC_joinable (mReadonlyCommandEventStore e) then Ret (EAL_teardown e) else Ret e
  | EalRestart => EAL_new (survives (eal_machine e))
  end.
End loop.
Arguments EalTurn {T L}. Arguments EalThread {T L}. Arguments EalSwap {T L}. Arguments EalJoined {T L}. Arguments EalRestart {T L}.

(** ** [EventApplyLoop<.., true>]: snapshots are checkpoints of the database *)
Definition createCheckpoint (baseDir : string) : result string := cassert false;; Ret EmptyString.

Definition EAL_rocks_takeSnapshotAndPersist (isLeader : bool) (snapshotDir : string) : result (bool * string) :=
  if isLeader then Ret (false, "leader no longer takes snapshot"%string)
  else
    checkpointPath ← createCheckpoint snapshotDir;
    Ret (true, checkpointPath).

(** A process that dies keeps its database and loses the rest. *)
Definition rocks_survives {D B} (fresh : AppStateMachine) (empty : B) (s : RocksDBBackedAppStateMachine D B)
    : RocksDBBackedAppStateMachine D B :=
  mk_Rocks fresh (mRocksDB s) empty 0.

(** ** [EventApplyLoop<.., false>]: snapshots of a state machine in memory

    [clear] is its [clearState], [load] is [SnapshotUtil::loadLatestSnapshot]. *)
Section memory.
Context {SM T : Type} (applyEvent : Z → SM → Event → result SM) (swap : T → SM → result (T * SM)).
Context (clear : SM → SM) (load : SM → option Z * SM).

Definition memory_machine : ApplyMachine SM T := {|
  am_applyEvent := applyEvent;
  am_commit s _ := Ret s;
  am_swapState := swap;
  am_recover s := Ret (load (clear s)) |}.

(** The offset and the state [SnapshotUtil::takeSnapshotAndPersist] is called
    with, if it is called. *)
Definition EAL_memory_takeSnapshotAndPersist (e : EventApplyLoop SM) : option (Z * SM) :=
  if mShouldRecover e then None else Some (mLastAppliedLogEntryIndex e, eal_machine e).

(** Without a snapshot to load, the offset of the state before the hand-over
    stays with the cleared state. *)
Lemma recover_without_snapshot (e : EventApplyLoop SM) :
  load (clear (eal_machine e)) = (None, clear (eal_machine e)) →
  ∃ e', @EAL_recoverSelf SM T memory_machine e = Ret e' ∧
    EAL_memory_takeSnapshotAndPersist e' = Some (mLastAppliedLogEntryIndex e, clear (eal_machine e)).
Proof. intros Hl. unfold EAL_recoverSelf. simpl. rewrite Hl. simpl. by eexists. Qed.
End memory.
