(* ===== verification/ApplyProps.v ===== *)
(** * The event apply loop against the committed log

    The reference is the accounts and the metadata after the events of the first
    [i] committed entries, one after the other.  The loop's tables are those of the
    reference at its last applied index, and what its database holds is the
    reference at the index stored with it, whatever the threads, hand-overs to a
    leader and the ends of the process in between. *)
From stdpp Require Import pretty.
From S2P Require Import Prelude Protobuf Crypto Domain Es Control Ledger LedgerSM LedgerProps.
From S2P Require Import RaftLog RaftCore Pipeline CommandProps AsyncLoad RocksSM RocksProps ApplyLoop.
Open Scope Z_scope.

(** Applying events, with the callbacks collected. *)
Abbreviation apply_all g := (foldM (λ '(s, calls) ev, '(s, calls') ← applyEvent g s ev; Ret (s, calls ++ calls'))).

(** ** Decoding a sequence of entries *)
Section decode.
Context `{LedgerProtos} `{Proto RaftPayload} `{OpenSSL}.
Context (junk : MetaData) (ejunk : EventMetaData) (crypto : CryptoUtil).
Abbreviation decode := (decryptEntries junk ejunk crypto).

Lemma decode_cons e es :
  decode (e :: es) = (ob ← decryptEntry junk ejunk crypto e; bs ← decode es; Ret (option_list ob ++ bs)).
Proof.
  change (e :: es) with ([e] ++ es). rewrite decryptEntries_app.
  assert (He : decode [e] = (ob ← decryptEntry junk ejunk crypto e; Ret (option_list ob))).
  { unfold decryptEntries. simpl. by destruct (decryptEntry junk ejunk crypto e) as [[b|]|]. }
  rewrite He. by destruct (decryptEntry junk ejunk crypto e).
Qed.

(** The entry a bundle comes from. *)
Lemma decode_split es out b rest : decode es = Ret (out ++ b :: rest) →
  ∃ m e, es !! m = Some e ∧ decryptEntry junk ejunk crypto e = Ret (Some b) ∧
    decode (take m es) = Ret out ∧ decode (take (S m) es) = Ret (out ++ [b]).
Proof.
  revert out; induction es as [|e es IH]; intros out Hd; [by destruct out|].
  rewrite decode_cons in Hd. apply bind_Ret in Hd as (ob & He & Hd). apply bind_Ret in Hd as (bs & Hes & Hd). injection Hd as Hd.
  assert (Hdeep : ∀ out', bs = out' ++ b :: rest → out = option_list ob ++ out' →
    ∃ m e', (e :: es) !! m = Some e' ∧ decryptEntry junk ejunk crypto e' = Ret (Some b) ∧
      decode (take m (e :: es)) = Ret out ∧ decode (take (S m) (e :: es)) = Ret (out ++ [b])).
  { intros out' -> ->. destruct (IH out' Hes) as (m & e' & Hm & Hb & Ht & Hts). exists (S m), e'.
    cbn [lookup list_lookup take]. rewrite !decode_cons, He. cbn [take] in Hts. simpl. rewrite Ht. simpl in Hts. rewrite Hts. simpl.
    split_and!; [done|done|done|]. by rewrite app_assoc. }
  destruct ob as [b'|]; simpl in Hd; [|by apply (Hdeep out)].
  destruct out as [|b2 out']; [injection Hd as -> _|injection Hd as -> Hbs; by apply (Hdeep out')].
  exists O, e. cbn [take]. rewrite decode_cons, He. done.
Qed.

Lemma decode_app_inv es1 es2 bs : decode (es1 ++ es2) = Ret bs → ∃ b1 b2, decode es1 = Ret b1 ∧ decode es2 = Ret b2 ∧ bs = b1 ++ b2.
Proof. rewrite decryptEntries_app. intros (b1 & Hd1 & (b2 & Hd2 & [= <-])%bind_Ret)%bind_Ret. by exists b1, b2. Qed.

Lemma decode_take m es bs : decode es = Ret bs → ∃ b1, decode (take m es) = Ret b1 ∧ b1 `prefix_of` bs.
Proof. rewrite <- (take_drop m es) at 1. intros (b1 & b2 & Hd & _ & ->)%decode_app_inv. exists b1. split; [done|by exists b2]. Qed.

Lemma decode_drop m es bs : decode es = Ret bs → ∃ b2, decode (drop m es) = Ret b2.
Proof. rewrite <- (take_drop m es) at 1. intros (b1 & b2 & _ & Hd & _)%decode_app_inv. by exists b2. Qed.

(** Of two prefixes with the bundles before [b] and with [b], the second is the
    longer one. *)
Lemma decode_take_lt es a m out b :
  decode (take a es) = Ret out → decode (take (S m) es) = Ret (out ++ [b]) → (a ≤ m)%nat.
Proof.
  intros Ha Hm. destruct (decide (a ≤ m)%nat) as [|Hn]; [done|]. exfalso.
  destruct (decode_take (S m) (take a es) _ Ha) as (b1 & Hb1 & Hp). rewrite take_take, Nat.min_l in Hb1 by lia.
  assert (b1 = out ++ [b]) as -> by congruence. apply prefix_length in Hp. rewrite length_app in Hp. simpl in Hp. lia.
Qed.
End decode.

(** ** The reference *)

(** What an event does to the accounts and the metadata: what [applyEvent] does to
    them in a state that has them, remembers no journal entry and has no control
    state.  A split leaves them alone. *)
Definition event_tables (t : Tables) (e : Event) : result Tables :=
  match Event_body e with
  | SplitEvent _ => Ret t
  | _ =>
      '(st, _) ← applyEvent 0 (mk_AppStateMachine (CtrlState_new 0 0) ∅ (tb_accounts t) (tb_metadata t)) e;
      Ret (tables st)
  end.

Definition events_tables : Tables → list Event → result Tables := foldM event_tables.

Lemma applyEvent_tables g st e st' calls :
  Event_wf e → applyEvent g st e = Ret (st', calls) → event_tables (tables st) e = Ret (tables st').
Proof.
  intros Hwf Ha. unfold event_tables. rewrite (applyEvent_dispatch _ _ _ Hwf) in Ha. rewrite (applyEvent_dispatch _ _ _ Hwf).
  destruct (Event_body e) as [v a|v m|v j|r].
  - unfold apply_AccountCreated in *. apply cassert_bind in Ha as [Hn [= <- <-]]. simpl. by rewrite Hn.
  - by injection Ha as <- <-.
  - apply apply_JournalEntryRecorded_Ret in Ha as (_ & coa & Hf & ->).
    unfold apply_JournalEntryRecorded. cbn -[foldM]. by rewrite Hf.
  - by apply bind_Ret in Ha as (cs & _ & [= <- <-]).
Qed.

Lemma applyEvents_tables g es st calls st' calls' :
  Forall Event_wf es → apply_all g (st, calls) es = Ret (st', calls') → events_tables (tables st) es = Ret (tables st').
Proof.
  intros Hwf. revert st calls. induction Hwf as [|e es He _ IH]; intros st calls Hf; [by injection Hf as <- _|].
  unfold events_tables. cbn [foldM] in *. apply bind_Ret in Hf as ([st1 c1] & Ha & Hf). apply bind_Ret in Ha as ([st1' c2] & Ha & [= <- <-]).
  rewrite (applyEvent_tables _ _ _ _ _ He Ha). simpl. by eapply IH.
Qed.

Definition bundle_events (b : Bundle) : list Event := omap id b.2.

Lemma bundle_events_some c (es : list Event) : bundle_events (c, Some <$> es) = es.
Proof. unfold bundle_events. simpl. induction es as [|e es IH]; [done|]. csimpl. f_equal. exact IH. Qed.

(** The tables after the events of some bundles. *)
Definition bundles_tables (t : Tables) (bs : list Bundle) : result Tables := events_tables t (mjoin (bundle_events <$> bs)).

Lemma bundles_tables_app t bs bs' : bundles_tables t (bs ++ bs') = (t' ← bundles_tables t bs; bundles_tables t' bs').
Proof. unfold bundles_tables, events_tables. by rewrite fmap_app, join_app, foldM_app. Qed.

Section reference.
Context `{LedgerProtos} `{Proto RaftPayload} `{OpenSSL}.
Context (junk : MetaData) (ejunk : EventMetaData) (crypto : CryptoUtil).
Context (E : list LogEntry) (t0 : Tables).
Abbreviation decode := (decryptEntries junk ejunk crypto).

(** [t] are the tables after the events of the first [i] entries. *)
Definition reference (i : nat) (t : Tables) : Prop :=
  ∃ bs, decode (take i E) = Ret bs ∧ bundles_tables t0 bs = Ret t.

(** The entries are such as a leader makes them ([made_log_ok] below): the keys
    decrypt them, a command carries the index of its entry as id, and its events are
    well formed.  Nothing is asked of what the events do. *)
Record log_ok : Prop := {
  lo_length : Z.of_nat (length E) < two64;
  lo_decodes : ∃ bs, decode E = Ret bs;
  lo_entry k e b : E !! k = Some e → decryptEntry junk ejunk crypto e = Ret (Some b) →
    ∃ c es, b = (Some c, Some <$> es) ∧ Command_getId c = Z.of_nat (S k) ∧ Forall Event_wf es }.

Lemma reference_0 : reference 0 t0.
Proof. by exists []. Qed.

Lemma reference_unique i t t' : reference i t → reference i t' → t = t'.
Proof. intros (bs & Hb & Ha) (bs' & Hb' & Ha'). assert (bs = bs') as <- by congruence. congruence. Qed.

(** From one index to a later one with a single bundle in between. *)
Lemma reference_step o out b a m t t' :
  decode (take a (drop o E)) = Ret out → decode (take m (drop o E)) = Ret (out ++ [b]) →
  reference (o + a) t → events_tables t (bundle_events b) = Ret t' → reference (o + m) t'.
Proof.
  intros Ha Hm (bs & Hd & Happ) Hb. rewrite <- take_take_drop in Hd.
  apply decode_app_inv in Hd as (b1 & b2 & Hd1 & Hd2 & ->). assert (b2 = out) as -> by congruence.
  exists (b1 ++ (out ++ [b])). split.
  - by rewrite <- take_take_drop, decryptEntries_app, Hd1; simpl; rewrite Hm.
  - rewrite app_assoc, bundles_tables_app, Happ. unfold bundles_tables. simpl. by rewrite app_nil_r.
Qed.

Lemma log_ok_slice o n : log_ok → ∃ bs, decode (take n (drop o E)) = Ret bs.
Proof.
  intros [_ (all & Hall) _]. destruct (decode_drop _ _ _ o E all Hall) as (b1 & Hb1).
  destruct (decode_take _ _ _ n _ _ Hb1) as (b2 & Hb2 & _). by exists b2.
Qed.

Lemma decode_commands o n bs : log_ok → decode (take n (drop o E)) = Ret bs → Forall (λ b : Bundle, is_Some b.1) bs.
Proof.
  intros Hok. revert o bs. induction n as [|n IH]; intros o bs Hd; [by injection Hd as <-|].
  destruct (drop o E) as [|e es] eqn:Ed; [by injection Hd as <-|]. cbn [take] in Hd. rewrite decode_cons in Hd.
  apply bind_Ret in Hd as (ob & He & Hd). apply bind_Ret in Hd as (b2 & Hb2 & [= <-]).
  assert (Ee : E !! o = Some e) by (rewrite <- (Nat.add_0_r o), <- lookup_drop, Ed; done).
  assert (Es : es = drop (S o) E) by (rewrite (drop_S _ _ _ Ee) in Ed; congruence). rewrite Es in Hb2.
  apply Forall_app. split; [|by eapply IH]. destruct ob as [b|]; [|done].
  destruct (lo_entry Hok _ _ _ Ee He) as (c & es' & -> & _). by constructor.
Qed.
End reference.

(** ** Logs of leaders *)
Section made.
Context `{LedgerProtos} `{Proto RaftPayload} `{OpenSSL} (ByteSizeLong : LogEntry → Z).
Context (junk : MetaData) (ejunk : EventMetaData) (crypto : CryptoUtil).

(** The entry at [k]: a noop, or what a leader with some of the keys made of a
    command with the id of that entry and its events. *)
Inductive leader_entry (k : nat) : LogEntry → Prop :=
  | leader_noop e : le_noop e = true → leader_entry k e
  | leader_made writer p r :
      make_request ByteSizeLong writer p = Ret r → extends_keys writer crypto →
      (mEnabled writer = true → le_secret_key_version (cr_mEntry (pe_request p)) ≠ kInvalidSecKeyVersion) →
      le_noop (cr_mEntry (pe_request p)) = false → Command_wf (pe_command p) → Forall Event_wf (pe_events p) →
      pe_events p ≠ [] → Command_getId (pe_command p) = Z.of_nat (S k) → leader_entry k (cr_mEntry r).

Lemma leader_entry_decodes k e : leader_entry k e →
  ∃ ob, decryptEntry junk ejunk crypto e = Ret ob ∧
    ∀ b, ob = Some b → ∃ c es, b = (Some c, Some <$> es) ∧ Command_getId c = Z.of_nat (S k) ∧ Forall Event_wf es.
Proof.
  intros [e' Hn|writer p r Hr Hk Hv Hn Hc He Hne Hid].
  - exists None. split; [|done]. unfold decryptEntry. by rewrite Hn.
  - eexists. split; [by apply (decryptEntry_make_request ByteSizeLong junk ejunk writer crypto p r)|]. intros b [= <-].
    exists (Command_persisted (pe_command p)), (Event_persisted <$> pe_events p). split; [by rewrite <- list_fmap_compose|].
    split; [exact Hid|]. apply Forall_fmap. eapply Forall_impl; [exact He|]. intros ev Hev. by apply persisted_wf.
Qed.

(** Such logs are those of the theorems about replicas. *)
Lemma made_log_ok E :
  Z.of_nat (length E) < two64 → (∀ k e, E !! k = Some e → leader_entry k e) → log_ok junk ejunk crypto E.
Proof.
  intros Hlen Hall. split; [done| |].
  - clear Hlen. assert (Hd : Forall (λ e, ∃ ob, decryptEntry junk ejunk crypto e = Ret ob) E).
    { apply Forall_lookup. intros k e He. destruct (leader_entry_decodes k e (Hall k e He)) as (ob & Hob & _). by exists ob. }
    clear Hall. induction Hd as [|e E [ob Hob] _ [bs Hbs]]; [by exists []|]. exists (option_list ob ++ bs).
    by rewrite decode_cons, Hob, Hbs.
  - intros k e b He Hb. destruct (leader_entry_decodes k e (Hall k e He)) as (ob & Hob & Hx). apply Hx. congruence.
Qed.
End made.

(** ** A database that does not fail *)
Section reliable.
Context `{LedgerProtos} `{PA : Proto protos_Account} `{PM : Proto protos_AccountMetadata} `{RocksDB D B}.
Implicit Types s : RocksDBBackedAppStateMachine D B.

Record reliable : Prop := {
  rel_put (b : B) cf k v : is_Some (Batch_Put b cf k v);
  rel_write (d : D) (b : B) : is_Some (DB_Write d b);
  rel_read (d : D) : readable d }.

Definition callback_wf (c : Callback) : Prop :=
  match c with
  | onAccountInserted a | onAccountUpdated a => Account_wf a
  | onAccountMetadataUpdated m => AccountMetadata_wf m
  | onBookkeepingProcessed _ _ => True
  end.

Lemma apply_lines_calls_wf lines coa calls coa' calls' :
  map_Forall (λ code a, Account_wf a ∧ Account_mNominalCode a = code) coa → Forall callback_wf calls →
  foldM apply_line (coa, calls) lines = Ret (coa', calls') → Forall callback_wf calls'.
Proof.
  revert coa calls. induction lines as [|l lines IH]; intros coa calls Hc Hall Hf; [by injection Hf as <- <-|].
  cbn [foldM] in Hf. apply bind_Ret in Hf as ([coa1 calls1] & H1' & Hf).
  pose proof (apply_lines_spec [l] coa calls coa1 calls1) as Hwf. cbn [foldM] in Hwf.
  rewrite H1' in Hwf. destruct (Hwf eq_refl) as (_ & Hc1 & _). specialize (Hc1 Hc).
  apply apply_line_spec in H1' as (a & a' & Ha & -> & -> & _).
  eapply IH; [exact Hc1| |exact Hf]. apply Forall_app. split; [done|]. constructor; [|done].
  exact (proj1 (Hc1 _ _ (lookup_insert_eq _ _ _))).
Qed.

Lemma applyEvent_calls_wf g st e st' calls :
  Event_wf e → tables_wf (tables st) → applyEvent g st e = Ret (st', calls) → Forall callback_wf calls.
Proof.
  intros Hwf Ht. rewrite (applyEvent_dispatch _ _ _ Hwf). unfold Event_wf in Hwf.
  destruct (Event_body e) as [v a|v m|v j|r]; intros Ha.
  - unfold apply_AccountCreated in Ha. inv_ret. constructor; [|done]. apply Hwf.
  - injection Ha as <- <-. constructor; [|done]. apply Hwf.
  - apply apply_JournalEntryRecorded_Ret in Ha as (_ & coa & Hf & ->).
    eapply apply_lines_calls_wf; [apply Ht| |exact Hf]. by constructor.
  - inv_ret. constructor.
Qed.

Lemma put_total s cf k v : reliable → ∃ s', put s cf k v = Ret s'.
Proof. intros Hr. unfold put. destruct (rel_put Hr (mWriteBatch s) cf k v) as [b ->]. by eexists. Qed.

Lemma callback_total s c : reliable → callback_wf c → ∃ s', callback s c = Ret s'.
Proof.
  intros Hr Hc. assert (Ha : ∀ a, Account_wf a → ∃ s', put_account s a = Ret s').
  { intros a Hw. unfold put_account. destruct (Account_roundtrip a default_instance Hw) as (p & -> & _). by apply put_total. }
  destruct c as [a|m|id vt|a]; simpl; [by apply Ha| |by apply put_total|by apply Ha].
  destruct (AccountMetadata_roundtrip m default_instance Hc) as (p & -> & _). by apply put_total.
Qed.

Lemma callbacks_total s calls : reliable → Forall callback_wf calls → ∃ s', foldM callback s calls = Ret s'.
Proof.
  intros Hr Hall. destruct (foldM_total (λ _ : RocksDBBackedAppStateMachine D B, True) callback calls s) as (s' & Hs & _); [|done|by exists s'].
  intros x c _ Hin. rewrite Forall_forall in Hall. destruct (callback_total x c Hr (Hall c Hin)) as [y Hy]. by exists y.
Qed.

(** Where the ledger applies events, its database takes them. *)
Lemma rocks_applyEvents_total flushed g es s c x :
  reliable → Forall Event_wf es → rocks_inv flushed s → apply_all g (rsm_state s, c) es = Ret x →
  ∃ s', foldM (rocks_applyEvent g) s es = Ret s'.
Proof.
  intros Hr Hwf. revert s c. induction Hwf as [|e es He _ IH]; intros s c Hi Hf; [by exists s|].
  cbn [foldM] in *. apply bind_Ret in Hf as ([st1 c1] & Hst & Hf). apply bind_Ret in Hst as ([st1' calls] & Ha & [= <- <-]).
  destruct (callbacks_total (mk_Rocks st1' (mRocksDB s) (mWriteBatch s) (mLastFlushedIndex s)) calls Hr) as [s1 Hs1].
  { eapply applyEvent_calls_wf; [exact He|apply Hi|exact Ha]. }
  assert (H1' : rocks_applyEvent g s e = Ret s1) by (unfold rocks_applyEvent; rewrite Ha; exact Hs1).
  destruct (rocks_applyEvent_inv _ _ _ _ _ He Hi H1') as (Hi1 & _ & _ & calls2 & Hx). rewrite Ha in Hx. injection Hx as -> _.
  destruct (IH s1 _ Hi1 Hf) as [s' Hs']. exists s'. by rewrite H1'.
Qed.

Lemma commit_total s i : reliable → ∃ s', commit s i = Ret s'.
Proof.
  intros Hr. unfold commit. destruct (put_total s DEFAULT kLastAppliedIndexKey (pretty i) Hr) as [s1 ->]. simpl.
  destruct (_ <? _); [by eexists|]. unfold flushToRocksDB. destruct (rel_write Hr (mRocksDB s1) (mWriteBatch s1)) as [d ->]. by eexists.
Qed.

Lemma recoverSelf_readable s i s' : recoverSelf s = Ret (i, s') → readable (mRocksDB s).
Proof.
  unfold recoverSelf, loadFromRocksDB, load_family. simpl. intros [_ (s1 & (j & Hg & (coa & Hc & (ms & Hm & _)%bind_Ret)%bind_Ret)%bind_Ret & _)%bind_Ret]%cassert_bind.
  split; [intros Hx; by rewrite Hx in Hg|]. split.
  - destruct (Iterate _ CHART_OF_ACCOUNTS); [done|done].
  - destruct (Iterate _ ACCOUNT_METADATA); [done|done].
Qed.
End reliable.
Arguments reliable D B {_}.
