(* ===== verification/ApplyInv.v ===== *)
(** * The invariant of the event apply loop

    Three situations: the loop runs, a hand-over waits for the threads of the
    store, or the store is down and the loop will recover.  Every step keeps the
    invariant; on a database that does not fail a step can fail in one way only: the
    ledger refuses an event of the next bundle. *)
From S2P Require Import Prelude Protobuf Crypto Domain Es Control Ledger LedgerSM LedgerProps.
From S2P Require Import Numeric RaftLog RaftCore Pipeline CommandProps AsyncLoad AsyncProgress RocksSM RocksProps ApplyLoop ApplyProps.
Open Scope Z_scope.

Section invariant.
Context `{LedgerProtos} `{PA : Proto protos_Account} `{PM : Proto protos_AccountMetadata} `{RocksDB D B}.
Context `{Proto RaftPayload} `{OpenSSL} `{LogSpec L}.
Context (junk : MetaData) (ejunk : EventMetaData) (crypto : CryptoUtil).
Context (E : list LogEntry) (groupId : Z) (st0 : AppStateMachine) (empty : B).
Hypothesis log_good : log_ok junk ejunk crypto E.
Hypothesis empty_batch : batch_view empty = [].
Abbreviation Machine := (RocksDBBackedAppStateMachine D B).
Abbreviation Loop := (EventApplyLoop Machine).
Abbreviation decode := (decryptEntries junk ejunk crypto).
Abbreviation reference := (reference junk ejunk crypto E (tables st0)).
Abbreviation exec := (eal_exec (L := L) (T := MemoryBackedAppStateMachine D) groupId junk ejunk crypto (rocks_survives st0 empty)).
Implicit Types (e : Loop) (ces : AsyncCES).

(** What the database holds. *)
Definition disk_ok (s : Machine) : Prop :=
  ∃ f t, (f ≤ length E)%nat ∧ reference f t ∧ tables_wf t ∧ mirrors (db_view (mRocksDB s)) t ∧
    stored_index (db_view (mRocksDB s)) = Ret (Z.of_nat f).

Definition stopped (s : Machine) : Prop := disk_ok s ∧ batch_view (mWriteBatch s) = [].

Definition cleared ces : Prop := ces = AC_clear ces ∨ ces = AsyncCES_new.

(** The loop runs and has applied the first [A] entries. *)
Record live (A : nat) e : Prop := {
  li_last : mLastAppliedLogEntryIndex e = Z.of_nat A;
  li_range : (A ≤ length E)%nat;
  li_ces : ∃ o out, (o ≤ A)%nat ∧ ces_inv junk ejunk crypto E o out (mReadonlyCommandEventStore e) ∧
    decode (take (A - o) (drop o E)) = Ret out;
  li_up : up (mReadonlyCommandEventStore e);
  li_flushed : ∃ f t, (f ≤ A)%nat ∧ reference f t ∧ mLastFlushedIndex (eal_machine e) = Z.of_nat f ∧
    rocks_inv t (eal_machine e);
  li_pending : stored_index (pending_view (eal_machine e)) = Ret (Z.of_nat A);
  li_state : reference A (tables (rsm_state (eal_machine e))) }.

Definition eal_inv e : Prop :=
  if eal_locked e then stopped (eal_machine e) ∧ ∃ o out, ces_inv junk ejunk crypto E o out (mReadonlyCommandEventStore e)
  else if mShouldRecover e then stopped (eal_machine e) ∧ cleared (mReadonlyCommandEventStore e)
  else ∃ A, live A e.

Lemma live_disk A e : live A e → disk_ok (eal_machine e).
Proof.
  intros [_ Hr _ _ (f & t & Hf & Href & Hi & [I1 I2 I3 I4 I5 I6]) _ _]. exists f, t.
  split_and!; [lia|done|done|done|by rewrite I5, Hi].
Qed.

Lemma eal_inv_disk e : eal_inv e → disk_ok (eal_machine e).
Proof.
  unfold eal_inv. destruct (eal_locked e); [by intros [[? _] _]|]. destruct (mShouldRecover e); [by intros [[? _] _]|].
  intros [A HA]. by eapply live_disk.
Qed.

Lemma survives_stopped s : disk_ok s → stopped (rocks_survives st0 empty s).
Proof. intros Hd. by split. Qed.

(** *** The index in the write batch *)
Lemma commit_pending (s s' : Machine) i : in_u64 i → commit s i = Ret s' → stored_index (pending_view s') = Ret i.
Proof.
  intros Hi. unfold commit. intros (s1 & Hp & Hc)%bind_Ret. apply put_spec in Hp as (_ & _ & _ & Hv).
  assert (Hs : stored_index (pending_view s1) = Ret i) by (rewrite Hv; unfold stored_index; rewrite lookup_insert_eq; by apply stoull_pretty).
  split_if Hc; [by injection Hc as <-|]. apply bind_Ret in Hc as (s2 & Hf & [= <-]). apply flush_spec in Hf as (_ & _ & Hb & Hd).
  unfold pending_view. simpl. rewrite Hb, Hd. exact Hs.
Qed.

Lemma recoverSelf_pending (s : Machine) i s' :
  batch_view (mWriteBatch s) = [] → recoverSelf s = Ret (i, s') → stored_index (pending_view s') = stored_index (db_view (mRocksDB s)).
Proof.
  intros Hb. unfold recoverSelf, loadFromRocksDB. simpl.
  intros [_ (s1 & (j & _ & (coa & _ & (ms & _ & [= <-])%bind_Ret)%bind_Ret)%bind_Ret & [= _ <-])%bind_Ret]%cassert_bind.
  unfold pending_view. simpl. by rewrite Hb.
Qed.

(** *** The threads stay up *)
Lemma thread_up ces t ces' : up ces → thread_exec (L := L) junk ejunk crypto ces t = Ret ces' → up ces'.
Proof.
  intros [Hr Ht] Hx. destruct (exec_up junk ejunk crypto (ces, []) (CesThread t) (ces', [])) as (Hr' & Ht' & _);
    [simpl; by rewrite Hx|]. split; simpl in *; congruence.
Qed.

Lemma next_up ces ob ces' : up ces → AC_loadNextCommandEvents ces = Ret (ces', ob) → up ces'.
Proof.
  intros [Hr Ht] Hx. destruct (exec_up (L := L) junk ejunk crypto (ces, []) CesNext (ces', option_list ob)) as (Hr' & Ht' & _);
    [simpl; by rewrite Hx|]. split; simpl in *; congruence.
Qed.

(** *** Recovering *)
Lemma cleared_start ces o ces' : (o ≤ length E)%nat → cleared ces → AC_setCurrentOffset ces (Z.of_nat o) = Ret ces' →
  ces_inv junk ejunk crypto E o [] (AC_init ces').
Proof. intros Ho [->| ->] Hs; eapply ces_inv_start; try exact Hs; done. Qed.

Lemma cleared_offset ces i : cleared ces → ∃ ces', AC_setCurrentOffset ces i = Ret ces'.
Proof. intros [->| ->]; by eexists. Qed.

Lemma loop_recover_live e e' :
  stopped (eal_machine e) → cleared (mReadonlyCommandEventStore e) → EAL_recoverSelf e = Ret e' →
  mShouldRecover e' = false ∧ eal_locked e' = eal_locked e ∧ ∃ A, live A e'.
Proof.
  intros [(f & t & Hf & Href & Hwf & Hm & Hs) Hb] Hcl Hr. unfold EAL_recoverSelf in Hr. simpl in Hr.
  apply bind_Ret in Hr as ([oi s'] & Hrec & Hr). apply bind_Ret in Hrec as ([i s2] & Hrec & [= <- <-]). simpl in Hr.
  pose proof (recoverSelf_readable _ _ _ Hrec) as Hrd.
  destruct (recoverSelf_spec t (Z.of_nat f) (eal_machine e) Hb Hrd Hwf Hm Hs) as (s3 & Hrec' & Hinv & Ht & _ & _ & _ & Hi).
  rewrite Hrec in Hrec'. injection Hrec' as -> ->. pose proof (recoverSelf_pending _ _ _ Hb Hrec) as Hp. rewrite Hs in Hp.
  apply bind_Ret in Hr as (ces & Hces & [= <-]). split; [done|]. split; [done|].
  exists f. split; simpl; try done.
  - exists f, []. split; [done|]. split; [by eapply cleared_start|]. by rewrite Nat.sub_diag.
  - by exists f, t.
  - by rewrite Ht.
Qed.

Lemma recover_total e :
  readable (mRocksDB (eal_machine e)) → stopped (eal_machine e) → cleared (mReadonlyCommandEventStore e) →
  ∃ e', EAL_recoverSelf e = Ret e'.
Proof.
  intros Hrd [(f & t & Hf & Href & Hwf & Hm & Hs) Hb] Hcl. unfold EAL_recoverSelf. simpl.
  destruct (recoverSelf_spec t (Z.of_nat f) (eal_machine e) Hb Hrd Hwf Hm Hs) as (s' & -> & _). simpl.
  destruct (cleared_offset _ (Z.of_nat f) Hcl) as [ces ->]. by eexists.
Qed.

(** *** A turn *)

(** The bundle the store hands out is that of the next entry with one. *)
Lemma next_bundle A e ces b :
  live A e → AC_loadNextCommandEvents (mReadonlyCommandEventStore e) = Ret (ces, Some b) →
  ∃ A' o out c (es : list Event), b = (Some c, Some <$> es) ∧ Command_getId c = Z.of_nat A' ∧ (A < A' ≤ length E)%nat ∧ (o ≤ A)%nat ∧
    Forall Event_wf es ∧ ces_inv junk ejunk crypto E o (out ++ [b]) ces ∧ decode (take (A' - o) (drop o E)) = Ret (out ++ [b]) ∧
    ∀ t, events_tables (tables (rsm_state (eal_machine e))) es = Ret t → reference A' t.
Proof.
  intros [_ HA (o & out & Ho & Hinv & Hout) _ _ _ Hst] Hn.
  pose proof (AC_next_inv _ _ _ _ _ _ _ _ _ Hinv Hn) as Hinv'. simpl in Hinv'.
  destruct (ces_inv_handed _ _ _ _ _ _ _ Hinv') as (n & _ & Hd). rewrite <- app_assoc in Hd.
  destruct (decode_split _ _ _ _ _ _ _ Hd) as (m & en & Hm & Hen & Ht & Hts).
  assert (Hmn : (m < n)%nat) by (apply lookup_lt_Some in Hm; rewrite length_take in Hm; lia).
  rewrite take_take, Nat.min_l in Ht, Hts by lia. rewrite lookup_take_lt, lookup_drop in Hm by done.
  destruct (lo_entry _ _ _ _ log_good _ _ _ Hm Hen) as (c & es & -> & Hc & Hwf).
  pose proof (decode_take_lt _ _ _ _ _ _ _ _ Hout Hts) as Ham. replace A with (o + (A - o))%nat in Hst by lia.
  exists (o + S m)%nat, o, out, c, es. apply lookup_lt_Some in Hm. replace (o + S m - o)%nat with (S m) by lia.
  split_and!; try done; [rewrite Hc; lia|lia|lia|].
  intros t Hrun. eapply reference_step; [exact Hout|exact Hts|exact Hst|]. by rewrite bundle_events_some.
Qed.

Lemma EAL_apply_events (s : Machine) (es : list Event) : EAL_apply groupId s (Some <$> es) = foldM (rocks_applyEvent groupId) s es.
Proof.
  unfold EAL_apply. revert s. induction es as [|ev es IH]; intros s; [done|]. csimpl. cbn [foldM].
  destruct (am_applyEvent groupId s ev) as [s1|x] eqn:Ea; simpl in *; rewrite Ea; simpl; [apply IH|done].
Qed.

Lemma live_next_none A e ces :
  live A e → AC_loadNextCommandEvents (mReadonlyCommandEventStore e) = Ret (ces, None) → live A (EAL_set_ces e ces).
Proof.
  intros [I1 I2 (o & out & Ho & Hinv & Hout) I4 I5 I6 I7] Hn. split; simpl; try done; [|by eapply next_up]. exists o, out. split; [done|]. split; [|done].
  pose proof (AC_next_inv _ _ _ _ _ _ _ _ _ Hinv Hn) as Hi. simpl in Hi. by rewrite app_nil_r in Hi.
Qed.

Lemma turn_live A e e' :
  live A e → mShouldRecover e = false → EAL_turn groupId e = Ret e' →
  mShouldRecover e' = false ∧ eal_locked e' = eal_locked e ∧ ∃ A', (A ≤ A')%nat ∧ live A' e'.
Proof.
  intros Hl Hf Ht. unfold EAL_turn in Ht. rewrite Hf in Ht. simpl in Ht. apply bind_Ret in Ht as ([ces ob] & Hn & Ht).
  destruct ob as [b|].
  2:{ injection Ht as <-. split; [done|]. split; [done|]. exists A. split; [done|]. by apply live_next_none. }
  destruct (next_bundle _ _ _ _ Hl Hn) as (A' & o & out & c & es & -> & Hc & HA' & Ho & Hwf & Hces & Hout & Href).
  cbv iota in Ht. apply bind_Ret in Ht as (s1 & Hs1 & Ht). apply bind_Ret in Ht as (s2 & Hs2 & [= <-]).
  rewrite EAL_apply_events in Hs1. destruct Hl as [_ _ _ Hup (f & tf & Hfa & Hfr & Hfi & Hinv) _ _].
  destruct (rocks_applyEvents_state _ _ _ _ _ [] Hwf Hinv Hs1) as (Hinv1 & c1 & Hst1).
  destruct (rocks_applyEvents_inv _ _ _ _ _ Hwf Hinv Hs1) as [_ Hidx1].
  apply applyEvents_tables, Href in Hst1; [|done]. pose proof (lo_length _ _ _ _ log_good) as Hlen. simpl in Hs2.
  destruct (commit_inv tf s1 (Command_getId c) s2) as [Hst3 Hcases]; [unfold in_u64; rewrite Hc; lia|done|done|].
  split; [done|]. split; [done|]. exists A'. split; [lia|]. split; simpl; [done|lia|by exists o, (out ++ [(Some c, Some <$> es)]); split_and!; [lia|..]|by eapply next_up| | |].
  - destruct Hcases as [(Hi & Hx & _)|[Hi Hx]].
    + exists f, tf. split_and!; [lia|done|by rewrite Hx, Hidx1|done].
    + exists A', (tables (rsm_state s1)). split_and!; [lia|done|by rewrite Hx|done].
  - rewrite <- Hc. apply (commit_pending s1); [unfold in_u64; rewrite Hc; lia|done].
  - by rewrite Hst3.
Qed.

Lemma AC_next_total o out ces :
  ces_inv junk ejunk crypto E o out ces → ∃ ces' ob, AC_loadNextCommandEvents ces = Ret (ces', ob).
Proof.
  intros Hi. unfold AC_loadNextCommandEvents.
  set (ces1 := AC_set_base ces _). assert (Hi1 : ces_inv junk ejunk crypto E o out ces1) by by destruct Hi.
  assert (Htry : ∃ ces2, (if Nat.eqb (length (mCachedBundles (ac_base ces1))) 0 then AC_tryAsyncLoadBundles ces1 else Ret ces1) = Ret ces2).
  { destruct (Nat.eqb _ 0) eqn:En; [|by eexists]. unfold AC_tryAsyncLoadBundles. rewrite En. simpl.
    destruct (ac_queue ces) as [|t q]; [by eexists|]. destruct (negb _); by eexists. }
  destruct Htry as [ces2 Hces2]. rewrite Hces2. simpl.
  assert (Hi2 : ces_inv junk ejunk crypto E o out ces2).
  { split_if Hces2; [by eapply AC_try_inv|by injection Hces2 as <-]. }
  destruct (ces_inv_handed _ _ _ _ _ _ _ Hi2) as (n & _ & Hd).
  apply (decode_commands _ _ _ _ _ _ _ log_good) in Hd. apply Forall_app in Hd as [_ Hd].
  destruct (mCachedBundles (ac_base ces2)) as [|[oc es] rest]; [by do 2 eexists|].
  apply Forall_cons in Hd as [[c Hc] _]. simpl in Hc. subst oc. by do 2 eexists.
Qed.

(** The one way in which a turn fails on a database that does not: the ledger
    refuses an event of the bundle it is handed. *)
Definition turn_refused e : Prop :=
  ∃ e1 ces c (es : list Event) f, (if mShouldRecover e then EAL_recoverSelf e else Ret e) = Ret e1 ∧
    AC_loadNextCommandEvents (mReadonlyCommandEventStore e1) = Ret (ces, Some (Some c, Some <$> es)) ∧
    applyEvents groupId (rsm_state (eal_machine e1)) es = Fail f.

Lemma turn_live_total A e : reliable D B → live A e → mShouldRecover e = false →
  (∃ e', EAL_turn groupId e = Ret e') ∨ turn_refused e.
Proof.
  intros Hr Hl Hf. pose proof Hl as [_ _ (o & out & _ & Hinv & _) _ _ _ _].
  destruct (AC_next_total _ _ _ Hinv) as (ces & [b|] & Hn); unfold EAL_turn; rewrite Hf; simpl; rewrite Hn; simpl; [|left; by eexists].
  destruct (next_bundle _ _ _ _ Hl Hn) as (A' & _ & _ & c & es & -> & _ & _ & _ & Hwf & _).
  destruct (applyEvents groupId (rsm_state (eal_machine e)) es) as [x|fl] eqn:Ea; [left|right; exists e, ces, c, es, fl; by rewrite Hf].
  rewrite EAL_apply_events. destruct Hl as [_ _ _ _ (f & tf & _ & _ & _ & Hi) _ _].
  destruct (rocks_applyEvents_total _ _ _ _ _ _ Hr Hwf Hi Ea) as [s1 ->]. simpl.
  destruct (commit_total s1 (Command_getId c) Hr) as [s2 ->]. by eexists.
Qed.

(** *** The threads of the store *)
Lemma RaftCore_getEntries_total (raft : RaftCore L) start n :
  sees E raft → lv_first (log_view (core_mLog raft)) ≤ start ≤ mCommitIndex raft → start + n - 1 ≤ mCommitIndex raft →
  ∃ es, RaftCore_getEntries raft start n = Ret es.
Proof.
  intros (Hi & Hl & _) [Hf Hs] Hn. unfold RaftCore_getEntries. rewrite (proj2 (Z.leb_le _ _)) by done. simpl.
  destruct (spec_getEntries (core_mLog raft) start (mMaxLenInBytes (mConf raft)) n Hi Hf) as (es & k & Hg & _); [lia|]. by exists es.
Qed.

Lemma thread_total o out ces t :
  ces_inv junk ejunk crypto E o out ces → thread_ready E ces t → ∃ ces', thread_exec (L := L) junk ejunk crypto ces t = Ret ces'.
Proof.
  intros Hi Hr. destruct t as [|raft| | | |n]; simpl in *; try by eexists.
  - unfold AC_load. destruct (ac_load_at ces); try by eexists. destruct (_ <=? _); [by eexists|].
    destruct (Z.leb_spec (mCommitIndex raft) (mLoadedIndex (ac_base ces))); [by eexists|]. destruct Hr as [Hs Hf].
    destruct (RaftCore_getEntries_total raft (mLoadedIndex (ac_base ces) + 1) (mCommitIndex raft - mLoadedIndex (ac_base ces)) Hs)
      as [es ->]; [lia|lia|by eexists].
  - unfold AC_finish. destruct (bool_decide (n ∈ ac_doing ces)) eqn:Eb; [|by eexists]. simpl. apply bool_decide_eq_true in Eb.
    pose proof (ai_doing _ _ _ _ _ _ _ Hi n Eb) as Hn. destruct (lookup_lt_is_Some_2 (ac_queue ces) (n - ac_popped ces)) as [t Ht]; [lia|].
    rewrite Ht. destruct (ai_entries _ _ _ _ _ _ _ Hi) as (hs & _ & He).
    destruct (log_ok_slice _ _ _ _ o (Z.to_nat (mLoadedIndex (ac_base ces)) - o) log_good) as (b2 & Hb2). unfold slice in He. rewrite <- He in Hb2.
    apply decode_app_inv in Hb2 as (_ & b3 & _ & Hb3 & _). apply decode_app_inv in Hb3 as (b4 & _ & Hb4 & _ & _).
    rewrite <- (take_drop_middle _ _ _ Ht), fmap_app, join_app in Hb4. apply decode_app_inv in Hb4 as (_ & b5 & _ & Hb5 & _).
    csimpl in Hb5. apply decode_app_inv in Hb5 as (b6 & _ & -> & _). by eexists.
Qed.

Lemma thread_cleared ces t : cleared ces → thread_exec (L := L) junk ejunk crypto ces t = Ret ces.
Proof. intros Hc. destruct t; destruct Hc as [->| ->]; simpl; try done; by rewrite bool_decide_eq_false_2 by (by apply not_elem_of_nil). Qed.

(** *** Hand-over *)
Lemma flush_stopped (s s' : Machine) :
  flushToRocksDB s = Ret s' → batch_view (mWriteBatch s') = [] ∧ db_view (mRocksDB s') = pending_view s.
Proof. by intros (_ & _ & ? & ?)%flush_spec. Qed.

Lemma swap_stopped e (m m' : MemoryBackedAppStateMachine D) s' :
  eal_inv e → eal_locked e = false → swapState m (eal_machine e) = Ret (m', s') → stopped s'.
Proof.
  unfold eal_inv. intros He Hl Hs. rewrite Hl in He. unfold swapState in Hs. apply bind_Ret in Hs as (s1 & Hf & [= _ <-]).
  apply flush_stopped in Hf as [Hb Hd]. split; [|done]. unfold disk_ok. rewrite Hd. unfold pending_view. simpl.
  destruct (mShouldRecover e).
  - destruct He as [[(f & t & Hf & Href & Hwf & Hm & Hi) Hb'] _]. rewrite Hb'. by exists f, t.
  - destruct He as [A [I1 I2 _ _ (f & tf & _ & _ & _ & [R1 _ R3 _ _ _]) Hp Hst]]. by exists A, (tables (rsm_state (eal_machine e))).
Qed.

Lemma swap_total e (m : MemoryBackedAppStateMachine D) : reliable D B → ∃ x, swapState m (eal_machine e) = Ret x.
Proof.
  intros Hr. unfold swapState, flushToRocksDB. simpl. destruct (rel_write Hr (mRocksDB (eal_machine e)) (mWriteBatch (eal_machine e))) as [d ->].
  by eexists.
Qed.

Lemma inv_has_ces e : eal_inv e → eal_locked e = true ∨ mShouldRecover e = false →
  ∃ o out, ces_inv junk ejunk crypto E o out (mReadonlyCommandEventStore e).
Proof.
  unfold eal_inv. intros He Hc. destruct (eal_locked e); [apply He|]. destruct Hc as [|Hc]; [done|]. rewrite Hc in He.
  destruct He as [A [_ _ (o & out & _ & Hi & _) _ _ _ _]]. by exists o, out.
Qed.

Lemma cleared_inv ces : cleared ces → ces_inv junk ejunk crypto E 0 [] ces.
Proof.
  assert (Hn : ∀ r t, ces_inv junk ejunk crypto E 0 [] (mk_AsyncCES (mk_ReadonlyRaftCES 0 0 0 []) [] r t LoadTest 0 0 [])).
  { intros r t. split; simpl; try done; [lia| |by intros ? ?%not_elem_of_nil|constructor]. by exists []. }
  intros [->| ->]; apply Hn.
Qed.

(** ** Steps *)
Definition eal_ready e (step : EalStep (T := MemoryBackedAppStateMachine D) L) : Prop :=
  match step with EalThread t => thread_ready E (mReadonlyCommandEventStore e) t | _ => True end.

Inductive eal_step e e' : Prop :=
  | eal_step_intro step : eal_ready e step → exec e step = Ret e' → eal_step e e'.

Lemma stop_inv o out ces : ces_inv junk ejunk crypto E o out ces → ces_inv junk ejunk crypto E o out (AC_stop ces).
Proof. by intros [I1 I2 I3 I4 I5 I6]. Qed.

Lemma new_inv s e : disk_ok s → EAL_new (rocks_survives st0 empty s) = Ret e → eal_inv e.
Proof.
  intros Hd Hn. apply loop_recover_live in Hn as (Hf & Hl & Hlive); simpl in *; [|by apply survives_stopped|by right].
  unfold eal_inv. by rewrite Hl, Hf.
Qed.

Lemma eal_step_inv e e' : eal_inv e → eal_step e e' → eal_inv e'.
Proof.
  intros He [step Hr Hx]. destruct step as [|t|m| |]; simpl in Hx.
  - destruct (eal_locked e) eqn:El; [by injection Hx as <-|]. unfold eal_inv in He. rewrite El in He.
    destruct (mShouldRecover e) eqn:Ef.
    + destruct He as [Hs Hc]. unfold EAL_turn in Hx. rewrite Ef in Hx. apply bind_Ret in Hx as (e1 & Hrec & Hx).
      destruct (loop_recover_live _ _ Hs Hc Hrec) as (Hf1 & Hl1 & A & HA).
      assert (Ht : EAL_turn groupId e1 = Ret e') by (unfold EAL_turn; rewrite Hf1; exact Hx).
      destruct (turn_live _ _ _ HA Hf1 Ht) as (Hf2 & Hl2 & A' & _ & HA'). unfold eal_inv. rewrite Hl2, Hl1, El, Hf2. by exists A'.
    + destruct He as [A HA]. destruct (turn_live _ _ _ HA Ef Hx) as (Hf2 & Hl2 & A' & _ & HA').
      unfold eal_inv. rewrite Hl2, El, Hf2. by exists A'.
  - apply bind_Ret in Hx as (ces & Ht & [= <-]). simpl in Hr. unfold eal_inv in *. simpl. destruct (eal_locked e).
    + destruct He as (Hs & o & out & Hi). split; [done|]. exists o, out. by eapply thread_exec_inv.
    + destruct (mShouldRecover e).
      * destruct He as [Hs Hc]. rewrite thread_cleared in Ht by done. injection Ht as <-. done.
      * destruct He as [A [I1 I2 (o & out & Ho & Hi & Hout) I4 I5 I6 I7]]. exists A. split; simpl; try done; [|by eapply thread_up].
        exists o, out. split_and!; [done|by eapply thread_exec_inv|done].
  - destruct (eal_locked e) eqn:El; [by injection Hx as <-|]. apply bind_Ret in Hx as ([m' e1] & Hs & [= <-]). unfold EAL_swapState in Hs.
    apply bind_Ret in Hs as ([m2 s'] & Hs & [= _ <-]). simpl in Hs. unfold eal_inv. simpl. split; [by eapply swap_stopped|].
    destruct (mShouldRecover e) eqn:Ef.
    + unfold eal_inv in He. rewrite El, Ef in He. exists O, []. apply stop_inv, cleared_inv, He.
    + destruct (inv_has_ces e He) as (o & out & Hi); [by right|]. exists o, out. by apply stop_inv.
  - destruct (eal_locked e && AC_joinable _) eqn:Ej; [|by injection Hx as <-]. injection Hx as <-. apply andb_true_iff in Ej as [El _].
    unfold eal_inv in *. rewrite El in He. simpl. split; [apply He|]. by left.
  - eapply new_inv; [by apply eal_inv_disk|exact Hx].
Qed.

Lemma eal_steps_inv e e' : eal_inv e → rtc eal_step e e' → eal_inv e'.
Proof. intros He. induction 1 as [|e e1 e' Hs _ IH]; [done|]. apply IH. by eapply eal_step_inv. Qed.

Lemma eal_step_total e step : reliable D B → eal_inv e → eal_ready e step →
  (∃ e', exec e step = Ret e') ∨ (step = EalTurn ∧ eal_locked e = false ∧ turn_refused e).
Proof.
  intros Hr He Hok. destruct step as [|t|m| |]; simpl in *.
  - destruct (eal_locked e) eqn:El; [left; by eexists|]. unfold eal_inv in He. rewrite El in He. destruct (mShouldRecover e) eqn:Ef.
    + destruct He as [Hs Hc]. destruct (recover_total e (rel_read Hr _) Hs Hc) as [e1 Hrec].
      destruct (loop_recover_live _ _ Hs Hc Hrec) as (Hf1 & _ & A & HA).
      destruct (turn_live_total A e1 Hr HA Hf1) as [[e2 He2]|(e2 & ces & c & es & f & He2 & Hn & Ha)].
      * left. exists e2. unfold EAL_turn in *. rewrite Ef, Hrec. rewrite Hf1 in He2. exact He2.
      * right. rewrite Hf1 in He2. injection He2 as <-. split; [done|]. split; [done|]. exists e1, ces, c, es, f. by rewrite Ef.
    + destruct He as [A HA]. destruct (turn_live_total A e Hr HA Ef); [by left|by right].
  - left. destruct (mShouldRecover e) eqn:Ef; destruct (eal_locked e) eqn:El.
    1,3,4: destruct (inv_has_ces e He) as (o & out & Hi); [rewrite El, Ef; tauto|]; destruct (thread_total _ _ _ _ Hi Hok) as [ces ->]; by eexists.
    unfold eal_inv in He. rewrite El, Ef in He. rewrite thread_cleared by apply He. by eexists.
  - left. destruct (eal_locked e); [by eexists|]. unfold EAL_swapState. simpl. destruct (swap_total e m Hr) as [[m' s'] ->]. by eexists.
  - left. destruct (_ && _); by eexists.
  - left. apply recover_total; simpl; [apply (rel_read Hr)|by apply survives_stopped, eal_inv_disk|by right].
Qed.

(** ** Catching up

    Turns of the store's threads and of its reader, as steps of the loop. *)
Lemma live_thread A e t ces :
  live A e → thread_ready E (mReadonlyCommandEventStore e) t →
  thread_exec (L := L) junk ejunk crypto (mReadonlyCommandEventStore e) t = Ret ces → live A (EAL_set_ces e ces).
Proof.
  intros [I1 I2 (o & out & Ho & Hi & Hout) I4 I5 I6 I7] Hr Ht. split; simpl; try done; [|by eapply thread_up].
  exists o, out. split_and!; [done|by eapply thread_exec_inv|done].
Qed.

Definition running e : Prop := eal_locked e = false ∧ mShouldRecover e = false.

Lemma turn_store e e' : mShouldRecover e = false → EAL_turn groupId e = Ret e' →
  ∃ ob, AC_loadNextCommandEvents (mReadonlyCommandEventStore e) = Ret (mReadonlyCommandEventStore e', ob).
Proof.
  intros Hf Ht. unfold EAL_turn in Ht. rewrite Hf in Ht. simpl in Ht. apply bind_Ret in Ht as ([ces ob] & Hn & Ht).
  exists ob. rewrite Hn. destruct ob as [[[c|] es]|]; [| |by injection Ht as <-].
  - apply bind_Ret in Ht as (? & _ & Ht). by apply bind_Ret in Ht as (? & _ & [= <-]).
  - by apply bind_Ret in Ht as (? & _ & ?).
Qed.

Lemma lift_steps steps A e out x :
  reliable D B → live A e → running e → forallb (negb ∘ moves) steps = true →
  foldM (ces_exec (L := L) junk ejunk crypto) (mReadonlyCommandEventStore e, out) steps = Ret x →
  ∃ e' A', rtc eal_step e e' ∧ live A' e' ∧ running e' ∧ (mReadonlyCommandEventStore e' = x.1 ∨ turn_refused e').
Proof.
  intros Hr. revert A e out. induction steps as [|step steps IH]; intros A e out Hl [Hu Hf] Hm Hx.
  { injection Hx as <-. exists e, A. split_and!; try done. by left. }
  cbn [foldM] in Hx. apply bind_Ret in Hx as ([ces1 out1] & Hs & Hx). simpl in Hm. apply andb_true_iff in Hm as [Hm Hms].
  assert (Hone : (∃ e1 A1, eal_step e e1 ∧ live A1 e1 ∧ running e1 ∧ mReadonlyCommandEventStore e1 = ces1) ∨ turn_refused e).
  { destruct step as [t|]; simpl in Hs.
    - apply bind_Ret in Hs as (ces & Ht & [= <- <-]). assert (Hok : thread_ready E (mReadonlyCommandEventStore e) t) by by destruct t.
      left. exists (EAL_set_ces e ces), A. split_and!; [|by eapply live_thread|done|done]. apply (eal_step_intro _ _ (EalThread t)); [done|].
      simpl. by rewrite Ht.
    - apply bind_Ret in Hs as ([ces ob] & Hn & [= <- <-]). destruct (turn_live_total A e Hr Hl Hf) as [[e1 He1]|Hre]; [left|by right].
      destruct (turn_live _ _ _ Hl Hf He1) as (Hf1 & Hu1 & A1 & _ & Hl1). destruct (turn_store _ _ Hf He1) as (ob' & Hn').
      exists e1, A1. split_and!; [|done|by split; congruence|congruence]. apply (eal_step_intro _ _ EalTurn); [done|]. simpl. by rewrite Hu. }
  destruct Hone as [(e1 & A1 & Hst & Hl1 & Hrun1 & Hces)|Hre]; [|exists e, A; split_and!; try done; by right]. rewrite <- Hces in Hx.
  destruct (IH A1 e1 out1 Hl1 Hrun1 Hms Hx) as (e2 & A2 & Hst2 & Hl2 & Hrun2 & Hc2).
  exists e2, A2. split_and!; try done. by eapply rtc_l.
Qed.

(** With nothing left to hand out, the loop is at the last loaded entry. *)
Lemma drained_reference A e :
  live A e → drained (mReadonlyCommandEventStore e) →
  reference (Z.to_nat (mLoadedIndex (ac_base (mReadonlyCommandEventStore e)))) (tables (rsm_state (eal_machine e))).
Proof.
  intros [_ _ (o & out & Ho & Hi & Hout) _ _ _ (bs & Hbs & Ha)] (Hc & Hq & Hh).
  destruct (ai_entries _ _ _ _ _ _ _ Hi) as (hs & Hd & He). rewrite Hc, app_nil_r in Hd. rewrite Hq, Hh in He. simpl in He. rewrite app_nil_r in He.
  pose proof (ai_offset _ _ _ _ _ _ _ Hi) as [Hof _].
  set (n := Z.to_nat _) in *. exists bs. split; [|done].
  replace n with (o + (n - o))%nat by lia. replace A with (o + (A - o))%nat in Hbs by lia. rewrite <- take_take_drop in Hbs |- *.
  fold (slice E o n). rewrite <- He. rewrite decryptEntries_app in Hbs |- *. by rewrite Hd, <- Hout.
Qed.

Lemma catch_up A e : reliable D B → live A e → running e →
  ∃ e', rtc eal_step e e' ∧ running e' ∧
    (reference (Z.to_nat (mLoadedIndex (ac_base (mReadonlyCommandEventStore e)))) (tables (rsm_state (eal_machine e'))) ∨ turn_refused e').
Proof.
  intros Hr Hl Hrun. pose proof Hl as [_ _ (o & out & Ho & Hi & Hout) Hup _ _ _].
  destruct (drain (L := L) junk ejunk crypto E o _ out Hi) as (steps & x & Hx & Hm & Hd).
  - unfold good, slice. simpl.
    destruct (log_ok_slice _ _ _ _ o (Z.to_nat (mLoadedIndex (ac_base (mReadonlyCommandEventStore e))) - o) log_good) as (b2 & Hb2).
    exists b2. split; [done|]. by eapply decode_commands.
  - done.
  - destruct (lift_steps steps A e out x Hr Hl Hrun Hm Hx) as (e' & A' & Hst & Hl' & Hrun' & [Hces|Hre]); exists e'; (split; [done|]); (split; [done|]).
    2: by right.
    left. rewrite <- Hces in Hd. pose proof (drained_reference A' e' Hl' Hd) as Href.
    destruct (run_up junk ejunk crypto _ _ _ Hx) as (_ & _ & Hld). rewrite <- Hces in Hld. simpl in Hld. by rewrite Hld in Href by done.
Qed.

(** ** Schedules *)
Definition step_serves (step : EalStep (T := MemoryBackedAppStateMachine D) L) : Prop :=
  match step with EalThread t => thread_ok E 0 t | _ => True end.

Lemma step_serves_ready e step : eal_inv e → step_serves step → eal_ready e step.
Proof.
  intros He. destruct step as [|t|m| |]; simpl; try done. intros Ht.
  assert (Hces : ∃ o out, ces_inv junk ejunk crypto E o out (mReadonlyCommandEventStore e)).
  { unfold eal_inv in He. destruct (eal_locked e); [apply He|]. destruct (mShouldRecover e).
    - exists O, []. apply cleared_inv, He.
    - destruct He as [A [_ _ (o & out & _ & Hi & _) _ _ _ _]]. by exists o, out. }
  destruct Hces as (o & out & [Ho _ _ _ _ _]). destruct t; simpl in *; try done. split; [apply Ht|]. destruct Ht as [_ Hf]. lia.
Qed.

Lemma schedule_reaches steps e e' : eal_inv e → Forall step_serves steps → foldM exec e steps = Ret e' → rtc eal_step e e'.
Proof.
  intros He Hall. revert e He. induction Hall as [|step steps Hs _ IH]; intros e He Hf; [by injection Hf as <-|].
  cbn [foldM] in Hf. apply bind_Ret in Hf as (e1 & Hx & Hf).
  assert (Hst : eal_step e e1) by (econstructor; [by apply step_serves_ready|done]). eapply rtc_l; [exact Hst|].
  apply IH; [by eapply eal_step_inv|done].
Qed.

(** The database of a node that has never run. *)
Lemma first_disk (db : D) : tables_wf (tables st0) → mirrors (db_view db) (tables st0) → stored_index (db_view db) = Ret 0 →
  disk_ok (mk_Rocks st0 db empty 0).
Proof. intros Hwf Hm Hi. exists O, (tables st0). split_and!; [lia|apply reference_0|done..]. Qed.
End invariant.
