(* ===== verification/ApplyTheorems.v ===== *)
(** * Main theorems of the event apply loop

    Each committed command takes effect exactly once; on a database that does not
    fail the loop goes on, and catches up, unless the ledger refuses an event. *)
From S2P Require Import Prelude Protobuf Crypto Domain Es Control Ledger LedgerSM LedgerProps LedgerTheorems Numeric.
From S2P Require Import RaftLog RaftCore RaftTheorems Pipeline CommandLoop CommandProps CommandTheorems.
From S2P Require Import AsyncLoad AsyncProgress AsyncTheorems RocksSM RocksProps RocksTheorems ApplyLoop ApplyProps ApplyInv.
Import Wire.
Import (hints) SampleRaft XorSSL SamplePipe MapDB.
Open Scope Z_scope.

(** ** A run

    The committed log of the sample of asynchronous loading: the account metadata
    of one account type, and an account.  The loop applies both, hands its state
    over, recovers, and its process restarts. *)
Module SampleApply.
Definition Step : Type := EalStep (T := MemoryBackedAppStateMachine KV) InMemoryLog.
Definition st0 : AppStateMachine := initial Sample.cs.
Definition db : RocksDBBackedAppStateMachine KV (list PutOp) := mk_Rocks st0 ∅ [] 0.
Definition start : EventApplyLoop (RocksDBBackedAppStateMachine KV (list PutOp)) :=
  match EAL_new (T := MemoryBackedAppStateMachine KV) db with Ret e => e | Fail _ => mk_EAL AsyncCES_new true db 0 true end.
Definition threads : list Step :=
  map EalThread [ThLoadEnter; ThDecryptEnter; ThLoad SampleLoad.raft; ThPush; ThClaim; ThFinish 0].
Definition exec := eal_exec (L := InMemoryLog) (T := MemoryBackedAppStateMachine KV) 0 Sample.junk Sample.ejunk SamplePipe.crypto
  (rocks_survives st0 ([] : list PutOp)).
Definition run (e : EventApplyLoop _) (steps : list Step) := match foldM exec e steps with Ret e => e | Fail _ => e end.
Definition applied := run start (threads ++ [EalTurn; EalTurn; EalTurn]).
Definition recovered := run applied [EalSwap MapDB.leader; EalJoined; EalTurn].

Example run_index : mLastAppliedLogEntryIndex applied = 3 ∧ mLastAppliedLogEntryIndex recovered = 3 ∧
  mLastFlushedIndex (eal_machine applied) = 0 ∧ mLastFlushedIndex (eal_machine recovered) = 3 ∧
  size (mCoA (rsm_state (eal_machine recovered))) = size (mCoA (rsm_state (eal_machine applied))).
Proof. vm_compute. split_and!; reflexivity. Qed.

Definition entry (k : nat) : LogEntry := default SampleRaft.noop (SampleLoad.entries !! k).
Definition bundle (k : nat) : Bundle :=
  match decryptEntry Sample.junk Sample.ejunk SamplePipe.crypto (entry k) with
  | Ret (Some b) => b | _ => (None, []) end.
Definition command (k : nat) : Command := default (Sample.configure pAsset 1000 1999) (bundle k).1.
Definition events (k : nat) : list Event := bundle_events (bundle k).

Lemma bundle_eq k b : k = 1%nat ∨ k = 2%nat →
  decryptEntry Sample.junk Sample.ejunk SamplePipe.crypto (entry k) = Ret (Some b) → b = (Some (command k), Some <$> events k).
Proof.
  intros Hk Hb. assert (Hbk : bundle k = b) by (unfold bundle; by rewrite Hb). rewrite <- Hbk.
  destruct Hk as [->| ->]; vm_compute; reflexivity.
Qed.

Definition event_1 : list Event := Eval vm_compute in events 1.
Definition event_2 : list Event := Eval vm_compute in events 2.

Lemma events_eq : events 1 = event_1 ∧ events 2 = event_2.
Proof. split; vm_compute; reflexivity. Qed.

Lemma events_wf k : k = 1%nat ∨ k = 2%nat → Forall Event_wf (events k).
Proof.
  intros [->| ->]; [rewrite (proj1 events_eq)|rewrite (proj2 events_eq)]; (constructor; [|constructor]).
  - split; [reflexivity|]. split; [reflexivity|]. vm_compute. split_and!; congruence.
  - split; [reflexivity|]. split; [reflexivity|]. vm_compute. split_and!; congruence.
Qed.

Lemma command_id k : k = 1%nat ∨ k = 2%nat → Command_getId (command k) = Z.of_nat (S k).
Proof. intros [->| ->]; vm_compute; reflexivity. Qed.

Lemma sample_log_ok : log_ok Sample.junk Sample.ejunk SamplePipe.crypto SampleLoad.entries.
Proof.
  split; [vm_compute; reflexivity| |].
  - assert (Hd : ok (decryptEntries Sample.junk Sample.ejunk SamplePipe.crypto SampleLoad.entries) = true) by (vm_compute; reflexivity).
    destruct (decryptEntries _ _ _ _) as [bs|]; [by exists bs|done].
  - intros k e b He Hb. assert (Hk : e = entry k) by (unfold entry; by rewrite He). rewrite Hk in Hb.
    assert (Hlt : (k < 3)%nat) by (apply lookup_lt_Some in He; vm_compute in He; lia).
    assert (Hc : k = 0%nat ∨ k = 1%nat ∨ k = 2%nat) by lia. destruct Hc as [->|Hc]; [vm_compute in Hb; discriminate|].
    exists (command k), (events k). split; [by apply bundle_eq|]. split; [by apply command_id|by apply events_wf].
Qed.

Lemma start_eq : EAL_new (T := MemoryBackedAppStateMachine KV) (rocks_survives st0 ([] : list PutOp) db) = Ret start.
Proof. vm_compute. reflexivity. Qed.

Lemma db_disk : tables_wf (tables st0) ∧ mirrors (db_view (∅ : KV)) (tables st0) ∧ stored_index (db_view (∅ : KV)) = Ret 0.
Proof. split; [|split; [apply MapDB.empty_mirrors|done]]. split; apply map_Forall_empty. Qed.

Abbreviation inv := (eal_inv Sample.junk Sample.ejunk SamplePipe.crypto SampleLoad.entries st0).
Abbreviation step := (eal_step (L := InMemoryLog) Sample.junk Sample.ejunk SamplePipe.crypto SampleLoad.entries 0 st0 ([] : list PutOp)).

Lemma no_puts : batch_view (D := KV) ([] : list PutOp) = [].
Proof. reflexivity. Qed.

Lemma start_inv : inv start.
Proof.
  apply (new_inv _ _ _ _ _ ([] : list PutOp) no_puts db start).
  - destruct db_disk as (Hwf & Hm & Hi). by apply (first_disk _ _ _ _ _ ([] : list PutOp) (∅ : KV)).
  - exact start_eq.
Qed.

Lemma reaches e steps e' : inv e → Forall (step_serves SampleLoad.entries) steps → foldM exec e steps = Ret e' → rtc step e e'.
Proof. intros He Hs Hf. by apply (schedule_reaches _ _ _ _ _ _ _ sample_log_ok no_puts steps). Qed.

Lemma sample_raft_serves : serves SampleLoad.entries 0 SampleLoad.raft.
Proof. split; [apply SampleLoad.raft_serves|vm_compute; congruence]. Qed.

Lemma serving : Forall (step_serves SampleLoad.entries)
  (threads ++ [EalTurn; EalTurn; EalTurn] ++ [EalSwap MapDB.leader; EalJoined; EalTurn]).
Proof. repeat (constructor; [first [exact sample_raft_serves|done]|]). constructor. Qed.

Lemma recovered_eq : foldM exec start (threads ++ [EalTurn; EalTurn; EalTurn] ++ [EalSwap MapDB.leader; EalJoined; EalTurn]) = Ret recovered.
Proof. vm_compute. reflexivity. Qed.

Lemma recovered_reached : rtc step start recovered.
Proof. exact (reaches _ _ _ start_inv serving recovered_eq). Qed.

Definition loaded := run start threads.

Lemma run_ok e steps : ok (foldM exec e steps) = true → foldM exec e steps = Ret (run e steps).
Proof. unfold run. by destruct (foldM exec e steps). Qed.

Lemma loaded_eq : foldM exec start threads = Ret loaded.
Proof. apply run_ok. vm_compute. reflexivity. Qed.

Lemma loading : Forall (step_serves SampleLoad.entries) threads.
Proof. pose proof serving as Hs. by apply Forall_app in Hs as [Hs _]. Qed.

Lemma loaded_reached : rtc step start loaded.
Proof. exact (reaches _ _ _ start_inv loading loaded_eq). Qed.

Lemma map_db_reliable : reliable KV (list PutOp).
Proof.
  split; [by eexists|by eexists|]. intros d. split; [|split; by eexists]. simpl. by destruct (d !! _).
Qed.
End SampleApply.

(** ** The theorems *)
Section theorems.
Context `{LedgerProtos} `{PA : Proto protos_Account} `{PM : Proto protos_AccountMetadata} `{RocksDB D B}.
Context `{Proto RaftPayload} `{OpenSSL} `{LogSpec L}.
Context (junk : MetaData) (ejunk : EventMetaData) (crypto : CryptoUtil).
Context (E : list LogEntry) (groupId : Z) (st0 : AppStateMachine) (empty : B).
Abbreviation steps := (rtc (eal_step (L := L) (D := D) junk ejunk crypto E groupId st0 empty)).

Lemma started_inv (db : D) e0 :
  batch_view empty = [] → tables_wf (tables st0) → mirrors (db_view db) (tables st0) → stored_index (db_view db) = Ret 0 →
  EAL_new (T := MemoryBackedAppStateMachine D) (mk_Rocks st0 db empty 0) = Ret e0 → eal_inv junk ejunk crypto E st0 e0.
Proof. intros Hb Hwf Hm Hi Hnew. eapply (new_inv _ _ _ _ _ _ Hb (mk_Rocks st0 db empty 0)); [by apply first_disk|exact Hnew]. Qed.

(** C11. Every committed command takes effect exactly once on a replica.  Take a loop
    started on the database of a node that has never run, and a committed log with
    entries such as leaders make them: its keys decrypt them, commands carry the
    index of their entry as id, events are well formed ([log_ok]; it does not ask
    that they can be applied).  Whatever the turns of the loop and of the threads of
    its store, the hand-overs of the state to a leader and the ends of the process,
    as long as no step failed: when the loop is running its accounts and metadata
    are those after the events of exactly the first [A] committed entries, each
    applied once and in order, where [A] is the applied index it reports. *)
Theorem eal_exactly_once (db : D) e0 e :
  log_ok junk ejunk crypto E → batch_view empty = [] →
  tables_wf (tables st0) → mirrors (db_view db) (tables st0) → stored_index (db_view db) = Ret 0 →
  EAL_new (T := MemoryBackedAppStateMachine D) (mk_Rocks st0 db empty 0) = Ret e0 → steps e0 e →
  eal_locked e = false → mShouldRecover e = false →
  ∃ A bs, EAL_lastApplied e = Z.of_nat A ∧ (A ≤ length E)%nat ∧
    decryptEntries junk ejunk crypto (take A E) = Ret bs ∧
    bundles_tables (tables st0) bs = Ret (tables (rsm_state (eal_machine e))).
Proof.
  intros Hlog Hb Hwf Hm Hi Hnew Hst Hl Hf. pose proof (started_inv db e0 Hb Hwf Hm Hi Hnew) as He0.
  pose proof (eal_steps_inv _ _ _ _ _ _ _ Hlog Hb _ _ He0 Hst) as He. unfold eal_inv in He. rewrite Hl, Hf in He.
  destruct He as [A [I1 I2 _ _ _ _ (bs & Hbs & Ha)]]. by exists A, bs.
Qed.

(** C12. What can stop the loop.  For a log as in C11 and a database whose calls
    succeed, every step from a reachable state, whatever threads, hand-overs and
    restarts came before, is carried out (no assertion fails, no missing command or
    event is dereferenced, no task that is gone is touched), but for one case: it is
    a turn, and the ledger's [applyEvent] refuses an event of the bundle the store
    has handed out. *)
Theorem eal_stops_only_if_refused (db : D) e0 e step :
  log_ok junk ejunk crypto E → batch_view empty = [] → reliable D B →
  tables_wf (tables st0) → mirrors (db_view db) (tables st0) → stored_index (db_view db) = Ret 0 →
  EAL_new (T := MemoryBackedAppStateMachine D) (mk_Rocks st0 db empty 0) = Ret e0 → steps e0 e →
  eal_ready E e step →
  (∃ e', eal_exec (L := L) groupId junk ejunk crypto (rocks_survives st0 empty) e step = Ret e') ∨
  (step = EalTurn ∧ eal_locked e = false ∧
   ∃ e1 ces c (es : list Event) f, (if mShouldRecover e then EAL_recoverSelf e else Ret e) = Ret e1 ∧
     AC_loadNextCommandEvents (mReadonlyCommandEventStore e1) = Ret (ces, Some (Some c, Some <$> es)) ∧
     applyEvents groupId (rsm_state (eal_machine e1)) es = Fail f).
Proof.
  intros Hlog Hb Hr Hwf Hm Hi Hnew Hst Hok. pose proof (started_inv db e0 Hb Hwf Hm Hi Hnew) as He0.
  apply (eal_step_total _ _ _ _ _ _ _ Hlog Hb _ _ Hr); [|done]. exact (eal_steps_inv _ _ _ _ _ _ _ Hlog Hb _ _ He0 Hst).
Qed.

(** C20. The loop catches up.  For a log as in C11 and a database whose calls succeed,
    from every reachable state in which it runs, some turns of its own and of the
    threads of its store lead to a running loop whose accounts and metadata are
    those after all the entries its store had loaded, unless they lead to one whose
    next turn the ledger refuses. *)
Theorem eal_catches_up (db : D) e0 e :
  log_ok junk ejunk crypto E → batch_view empty = [] → reliable D B →
  tables_wf (tables st0) → mirrors (db_view db) (tables st0) → stored_index (db_view db) = Ret 0 →
  EAL_new (T := MemoryBackedAppStateMachine D) (mk_Rocks st0 db empty 0) = Ret e0 → steps e0 e →
  eal_locked e = false → mShouldRecover e = false →
  ∃ e', steps e e' ∧ eal_locked e' = false ∧ mShouldRecover e' = false ∧
    ((∃ bs, decryptEntries junk ejunk crypto (take (Z.to_nat (mLoadedIndex (ac_base (mReadonlyCommandEventStore e)))) E) = Ret bs ∧
       bundles_tables (tables st0) bs = Ret (tables (rsm_state (eal_machine e')))) ∨
     turn_refused groupId e').
Proof.
  intros Hlog Hb Hr Hwf Hm Hi Hnew Hst Hl Hf. pose proof (started_inv db e0 Hb Hwf Hm Hi Hnew) as He0.
  pose proof (eal_steps_inv _ _ _ _ _ _ _ Hlog Hb _ _ He0 Hst) as He. unfold eal_inv in He. rewrite Hl, Hf in He.
  destruct He as [A HA]. destruct (catch_up junk ejunk crypto E groupId st0 empty Hlog A e Hr HA) as (e' & Hst' & [Hl' Hf'] & Hend); [done|].
  by exists e'.
Qed.
End theorems.

(** ** The run satisfies them *)
Lemma eal_exactly_once_witness :
  ∃ A bs, EAL_lastApplied SampleApply.recovered = Z.of_nat A ∧
    decryptEntries Sample.junk Sample.ejunk SamplePipe.crypto (take A SampleLoad.entries) = Ret bs ∧
    bundles_tables (tables SampleApply.st0) bs = Ret (tables (rsm_state (eal_machine SampleApply.recovered))).
Proof.
  destruct (eal_exactly_once (L := InMemoryLog) Sample.junk Sample.ejunk SamplePipe.crypto SampleLoad.entries 0 SampleApply.st0
    ([] : list PutOp) (∅ : KV) SampleApply.start SampleApply.recovered) as (A & bs & HA & _ & Hbs & Ha).
  - exact SampleApply.sample_log_ok.
  - reflexivity.
  - exact (proj1 SampleApply.db_disk).
  - exact (proj1 (proj2 SampleApply.db_disk)).
  - exact (proj2 (proj2 SampleApply.db_disk)).
  - exact SampleApply.start_eq.
  - exact SampleApply.recovered_reached.
  - vm_compute. reflexivity.
  - vm_compute. reflexivity.
  - exists A, bs. split; [exact HA|]. split; [exact Hbs|exact Ha].
Defined.

Lemma eal_stops_only_if_refused_witness :
  ∃ e', SampleApply.exec SampleApply.recovered EalRestart = Ret e'.
Proof.
  destruct (eal_stops_only_if_refused (L := InMemoryLog) Sample.junk Sample.ejunk SamplePipe.crypto SampleLoad.entries 0 SampleApply.st0
    ([] : list PutOp) (∅ : KV) SampleApply.start SampleApply.recovered EalRestart) as [He|[Hs _]].
  - exact SampleApply.sample_log_ok.
  - reflexivity.
  - exact SampleApply.map_db_reliable.
  - exact (proj1 SampleApply.db_disk).
  - exact (proj1 (proj2 SampleApply.db_disk)).
  - exact (proj2 (proj2 SampleApply.db_disk)).
  - exact SampleApply.start_eq.
  - exact SampleApply.recovered_reached.
  - exact I.
  - exact He.
  - discriminate.
Defined.

Lemma eal_catches_up_witness :
  mLoadedIndex (ac_base (mReadonlyCommandEventStore SampleApply.loaded)) = 3 ∧
  mLastAppliedLogEntryIndex SampleApply.loaded = 0 ∧
  ∃ e', rtc SampleApply.step SampleApply.loaded e' ∧
    ((∃ bs, decryptEntries Sample.junk Sample.ejunk SamplePipe.crypto (take 3 SampleLoad.entries) = Ret bs ∧
       bundles_tables (tables SampleApply.st0) bs = Ret (tables (rsm_state (eal_machine e')))) ∨
     turn_refused 0 e').
Proof.
  assert (Hl : mLoadedIndex (ac_base (mReadonlyCommandEventStore SampleApply.loaded)) = 3) by (vm_compute; reflexivity).
  split; [exact Hl|]. split; [vm_compute; reflexivity|].
  destruct (eal_catches_up (L := InMemoryLog) Sample.junk Sample.ejunk SamplePipe.crypto SampleLoad.entries 0 SampleApply.st0
    ([] : list PutOp) (∅ : KV) SampleApply.start SampleApply.loaded) as (e' & Hst & _ & _ & Hend).
  - exact SampleApply.sample_log_ok.
  - reflexivity.
  - exact SampleApply.map_db_reliable.
  - exact (proj1 SampleApply.db_disk).
  - exact (proj1 (proj2 SampleApply.db_disk)).
  - exact (proj2 (proj2 SampleApply.db_disk)).
  - exact SampleApply.start_eq.
  - exact SampleApply.loaded_reached.
  - vm_compute. reflexivity.
  - vm_compute. reflexivity.
  - rewrite Hl in Hend. exists e'. split; [exact Hst|exact Hend].
Defined.
