(* ===== verification/NetAdminTheorems.v ===== *)
(** * The administration server: exclusion, and what the ledger's provider answers *)
From Stdlib Require Import String.
From stdpp Require Import gmap strings pretty.
From S2P Require Import Prelude Strings Control RaftLog RaftCore RaftTheorems ClusterInfo ClusterTheorems AsyncLoad ApplyLoop NetAdmin.
Open Scope Z_scope.

(** ** At most one of a kind *)
Section exclusion.
Context `{NetAdminServiceProvider P}.
Implicit Types s : NetAdminServer P.

Definition step_enters (step : AdminStep) : list nat := match step with AdEnter id _ => [id] | _ => [] end.
Definition entered (steps : list AdminStep) : list nat := steps ≫= step_enters.

Record admin_inv (ids : list nat) s : Prop := {
  ad_flag id c : na_calls s !! id = Some c → is_running s (kind_of (call_request c)) = true;
  ad_call k : is_running s k = true → ∃ id c, na_calls s !! id = Some c ∧ kind_of (call_request c) = k;
  ad_unique id1 c1 id2 c2 : na_calls s !! id1 = Some c1 → na_calls s !! id2 = Some c2 →
    kind_of (call_request c1) = kind_of (call_request c2) → id1 = id2;
  ad_ids id : id ∈ ids ↔ is_Some (na_calls s !! id) ∨ id ∈ (na_answers s).*1;
  ad_once id : is_Some (na_calls s !! id) → id ∉ (na_answers s).*1;
  ad_nodup : NoDup (na_answers s).*1 }.

Lemma is_running_set s k b k' : is_running (set_running s k b) k' = if decide (k' = k) then b else is_running s k'.
Proof. by destruct k, k'. Qed.

Lemma set_running_rest s k b :
  na_calls (set_running s k b) = na_calls s ∧ na_answers (set_running s k b) = na_answers s.
Proof. by destruct k. Qed.

Lemma is_running_calls s k b id c reply k' :
  is_running (set_call s id c) k' = is_running s k' ∧ is_running (answer s id reply) k' = is_running s k' ∧
  is_running (answer (set_call (set_running s k b) id c) id reply) k' = is_running (set_running s k b) k'.
Proof. by destruct k, k'. Qed.

Lemma answered_app (l : list (nat * AdminResponse)) id reply : (l ++ [(id, reply)]).*1 = l.*1 ++ [id].
Proof. by rewrite fmap_app. Qed.

(** Entering a call that is turned away, or that runs. *)
Lemma inv_answer ids s id reply : admin_inv ids s → id ∉ ids → admin_inv (id :: ids) (answer s id reply).
Proof.
  intros [I1 I2 I3 I4 I5 I6] Hid. assert (Hno : ¬ is_Some (na_calls s !! id) ∧ id ∉ (na_answers s).*1).
  { rewrite I4 in Hid. naive_solver. }
  split; simpl; try done.
  - intros id'. rewrite elem_of_cons, I4, answered_app, elem_of_app, list_elem_of_singleton. naive_solver.
  - intros id' Hc. rewrite answered_app, elem_of_app, list_elem_of_singleton. intros [Hx|Hx]; [by eapply I5|]. simpl in Hx. naive_solver.
  - rewrite answered_app. apply NoDup_app. split; [done|]. split; [|apply NoDup_singleton]. intros x Hx ->%list_elem_of_singleton. naive_solver.
Qed.

Lemma inv_enter ids s id request :
  admin_inv ids s → id ∉ ids → is_running s (kind_of request) = false →
  admin_inv (id :: ids) (set_call (set_running s (kind_of request) true) id (Some (Running request))).
Proof.
  intros [I1 I2 I3 I4 I5 I6] Hid Hr. destruct (set_running_rest s (kind_of request) true) as [Hcalls Hans].
  assert (Hno : na_calls s !! id = None ∧ id ∉ (na_answers s).*1).
  { rewrite I4 in Hid. split; [apply eq_None_not_Some|]; naive_solver. }
  assert (Hk : ∀ id' c', na_calls s !! id' = Some c' → kind_of (call_request c') ≠ kind_of request) by (intros id' c' Hc' Hx; apply I1 in Hc'; congruence).
  split; simpl; rewrite ?Hcalls, ?Hans.
  - intros id' c'. rewrite (proj1 (is_running_calls _ (kind_of request) true id _ (mk_AdminResponse UNKNOWN EmptyString) _)), is_running_set.
    destruct (decide (id' = id)) as [->|Hne]; [rewrite lookup_partial_alter_eq; intros [= <-]; by rewrite decide_True|].
    rewrite lookup_partial_alter_ne by done. intros Hc'. case_decide; [done|]. by apply I1 in Hc'.
  - intros k. rewrite (proj1 (is_running_calls _ (kind_of request) true id _ (mk_AdminResponse UNKNOWN EmptyString) _)), is_running_set.
    case_decide as Hd; [subst; intros _; exists id, (Running request); by rewrite lookup_partial_alter_eq|].
    intros (id' & c' & Hc' & <-)%I2. exists id', c'. rewrite lookup_partial_alter_ne; [done|]. intros <-. naive_solver.
  - intros id1 c1 id2 c2. destruct (decide (id1 = id)) as [->|H1], (decide (id2 = id)) as [->|H2]; rewrite ?lookup_partial_alter_eq, ?lookup_partial_alter_ne by done; try done.
    + intros [= <-] Hc2 Hx. by destruct (Hk _ _ Hc2).
    + intros Hc1 [= <-] Hx. by destruct (Hk _ _ Hc1).
    + by apply I3.
  - intros id'. rewrite elem_of_cons, I4. destruct (decide (id' = id)) as [->|Hne]; [rewrite lookup_partial_alter_eq|rewrite lookup_partial_alter_ne by done]; naive_solver.
  - intros id'. destruct (decide (id' = id)) as [->|Hne]; [naive_solver|rewrite lookup_partial_alter_ne by done]. apply I5.
  - done.
Qed.

Lemma inv_serve ids s id request reply p :
  admin_inv ids s → na_calls s !! id = Some (Running request) →
  admin_inv ids (set_call (set_provider s p) id (Some (Leaving request reply))).
Proof.
  intros [I1 I2 I3 I4 I5 I6] Hc.
  assert (Hl : ∀ id' c', partial_alter (λ _, Some (Leaving request reply)) id (na_calls s) !! id' = Some c' →
    ∃ c, na_calls s !! id' = Some c ∧ call_request c = call_request c').
  { intros id' c'. destruct (decide (id' = id)) as [->|Hne]; [rewrite lookup_partial_alter_eq; intros [= <-]; by eexists|].
    rewrite lookup_partial_alter_ne by done. by eexists. }
  assert (Hsome : ∀ id', is_Some (partial_alter (λ _, Some (Leaving request reply)) id (na_calls s) !! id') ↔ is_Some (na_calls s !! id')).
  { intros id'. destruct (decide (id' = id)) as [->|Hne]; [rewrite lookup_partial_alter_eq, Hc; naive_solver|by rewrite lookup_partial_alter_ne]. }
  split; simpl.
  - intros id' c' (c & Hc' & <-)%Hl. by apply I1 in Hc'; destruct (kind_of _).
  - intros k Hk. destruct (I2 k) as (id' & c' & Hc' & Hkc); [by destruct k|]. destruct (decide (id' = id)) as [->|Hne].
    + exists id, (Leaving request reply). rewrite lookup_partial_alter_eq. split; [done|]. rewrite Hc in Hc'. by injection Hc' as <-.
    + exists id', c'. by rewrite lookup_partial_alter_ne.
  - intros id1 c1 id2 c2 (d1 & Hd1 & <-)%Hl (d2 & Hd2 & <-)%Hl. by apply I3.
  - intros id'. by rewrite Hsome.
  - intros id' Hx%Hsome. by apply I5.
  - done.
Qed.

Lemma inv_leave ids s id request reply :
  admin_inv ids s → na_calls s !! id = Some (Leaving request reply) →
  admin_inv ids (answer (set_call (set_running s (kind_of request) false) id None) id reply).
Proof.
  intros [I1 I2 I3 I4 I5 I6] Hc. destruct (set_running_rest s (kind_of request) false) as [Hcalls Hans].
  assert (Hl : ∀ id' c', partial_alter (λ _, None) id (na_calls s) !! id' = Some c' → id' ≠ id ∧ na_calls s !! id' = Some c').
  { intros id' c'. destruct (decide (id' = id)) as [->|Hne]; [by rewrite lookup_partial_alter_eq|]. by rewrite lookup_partial_alter_ne. }
  split; simpl; rewrite ?Hcalls, ?Hans.
  - intros id' c' [Hne Hc']%Hl. rewrite (proj2 (proj2 (is_running_calls s (kind_of request) false id None reply _))), is_running_set.
    case_decide as Hd; [|by apply I1 in Hc']. destruct Hne. by eapply I3.
  - intros k. rewrite (proj2 (proj2 (is_running_calls s (kind_of request) false id None reply _))), is_running_set. case_decide as Hd; [done|].
    intros (id' & c' & Hc' & <-)%I2. exists id', c'. rewrite lookup_partial_alter_ne; [done|]. intros <-. rewrite Hc in Hc'. by injection Hc' as <-.
  - intros id1 c1 id2 c2 [_ H1]%Hl [_ H2]%Hl. by apply I3.
  - intros id'. rewrite answered_app, elem_of_app, list_elem_of_singleton, I4. simpl. destruct (decide (id' = id)) as [->|Hne].
    + rewrite lookup_partial_alter_eq. naive_solver.
    + rewrite lookup_partial_alter_ne by done. naive_solver.
  - intros id' [c' [Hne Hc']%Hl]. rewrite answered_app, elem_of_app, list_elem_of_singleton. simpl. specialize (I5 id'). naive_solver.
  - rewrite answered_app. apply NoDup_app. split; [done|]. split; [|apply NoDup_singleton]. intros x Hx ->%list_elem_of_singleton. eapply I5; [by rewrite Hc|done].
Qed.

Lemma admin_step_inv ids s step s' :
  admin_inv ids s → NoDup (step_enters step ++ ids) → admin_exec s step = Ret s' → admin_inv (step_enters step ++ ids) s'.
Proof.
  intros Hi Hn Hs. destruct step as [id request|id|id]; simpl in *.
  - apply NoDup_cons in Hn as [Hid _]. destruct (is_running s (kind_of request)) eqn:Er; injection Hs as <-; [by apply inv_answer|by apply inv_enter].
  - destruct (na_calls s !! id) as [[request|]|] eqn:Ec; try (by injection Hs as <-). apply bind_Ret in Hs as ([reply p] & _ & [= <-]). by apply inv_serve.
  - destruct (na_calls s !! id) as [[|request reply]|] eqn:Ec; try (by injection Hs as <-). injection Hs as <-. by apply inv_leave.
Qed.

Lemma admin_run_inv steps ids s s' :
  admin_inv ids s → NoDup (entered steps ++ ids) → foldM admin_exec s steps = Ret s' →
  ∃ ids', admin_inv ids' s' ∧ ∀ id, id ∈ ids' ↔ id ∈ entered steps ∨ id ∈ ids.
Proof.
  revert ids s. induction steps as [|step steps IH]; intros ids s Hi Hn Hs; [injection Hs as <-; exists ids; set_solver|].
  simpl in Hs. apply bind_Ret in Hs as (s1 & H1 & Hs). change (entered (step :: steps)) with (step_enters step ++ entered steps) in *.
  assert (Hn2 : NoDup (entered steps ++ step_enters step ++ ids)) by by rewrite Permutation_app_swap_app, app_assoc.
  apply (admin_step_inv ids) in H1; [|done|by apply NoDup_app in Hn2 as (_ & _ & ?)].
  destruct (IH _ _ H1 Hn2 Hs) as (ids' & Hi' & Hx). exists ids'. split; [done|]. intros id. rewrite Hx, !elem_of_app. naive_solver.
Qed.
End exclusion.

(** ** The ledger's provider

    The event apply loop over RocksDB: it takes snapshots, truncates the log and
    tells how far it is, and leaves the rest at the defaults. *)
Definition ledger_provider {SM L} `{Log L} (snapshotDir : string) : NetAdminServiceProvider (EventApplyLoop SM * RaftCore L) := {|
  na_takeSnapshotAndPersist p :=
    r ← EAL_rocks_takeSnapshotAndPersist (bool_decide (mRaftRole p.2 = Leader)) snapshotDir; Ret (r, p);
  na_truncatePrefix offsetKept p := core ← RaftCore_truncatePrefix p.2 offsetKept; Ret (p.1, core);
  na_executeHotfix := default_executeHotfix;
  na_lastApplied p := mLastAppliedLogEntryIndex p.1;
  na_queryCtrlState _ state := state;
  na_syncLog := default_syncLog;
  na_terminateSyncMode := default_terminateSyncMode |}.

(** ** Claims of the module *)

(** C33. Requests of one kind exclude each other: in every interleaving of the server's
    threads, over any provider, at most one snapshot, one truncation and one hotfix
    is between its flag and the reset of the flag, a flag is set exactly while
    there is one, and every call is either still in progress or answered exactly
    once. *)
Theorem admin_exclusive `{NetAdminServiceProvider P} provider steps (s : NetAdminServer P) :
  NoDup (entered steps) → foldM admin_exec (NetAdminServer_new provider) steps = Ret s →
  (∀ id1 c1 id2 c2, na_calls s !! id1 = Some c1 → na_calls s !! id2 = Some c2 →
    kind_of (call_request c1) = kind_of (call_request c2) → id1 = id2) ∧
  (∀ k, is_running s k = true ↔ ∃ id c, na_calls s !! id = Some c ∧ kind_of (call_request c) = k) ∧
  NoDup (na_answers s).*1 ∧
  (∀ id, id ∈ entered steps ↔ is_Some (na_calls s !! id) ∨ id ∈ (na_answers s).*1) ∧
  (∀ id, is_Some (na_calls s !! id) → id ∉ (na_answers s).*1).
Proof.
  intros Hn Hs. destruct (admin_run_inv steps [] (NetAdminServer_new provider) s) as (ids & [I1 I2 I3 I4 I5 I6] & Hids); [|by rewrite app_nil_r|done|].
  - split; simpl; [intros id c|by intros []|intros id1 c1 id2 c2| |intros id [c Hc]|constructor]; rewrite ?lookup_empty; try done.
    intros id. rewrite lookup_empty. split; [by intros Hx%not_elem_of_nil|]. by intros [[c Hc]|Hx%not_elem_of_nil].
  - split; [exact I3|]. split; [|split; [done|split; [|done]]].
    + intros k. split; [apply I2|]. intros (id & c & Hc & <-). by eapply I1.
    + intros id. rewrite <- I4, Hids. split; [by left|]. by intros [|Hx%not_elem_of_nil].
Qed.

Module SampleAdmin.
#[export] Instance provider : NetAdminServiceProvider nat := {|
  na_takeSnapshotAndPersist n := Ret (true, "snapshot", n);
  na_truncatePrefix _ n := Ret n;
  na_executeHotfix := default_executeHotfix;
  na_lastApplied := Z.of_nat;
  na_queryCtrlState _ state := state;
  na_syncLog := default_syncLog;
  na_terminateSyncMode := default_terminateSyncMode |}.
Definition steps : list AdminStep :=
  [AdEnter 1 CreateSnapshot_Request; AdEnter 2 CreateSnapshot_Request; AdServe 1; AdEnter 3 (TruncatePrefix_Request 5); AdLeave 1].
End SampleAdmin.
Import (hints) SampleAdmin SampleRaft.

Lemma admin_exclusive_witness :
  ∃ s : NetAdminServer nat, foldM admin_exec (NetAdminServer_new 0%nat) SampleAdmin.steps = Ret s ∧
    NoDup (na_answers s).*1 ∧ ∀ id, is_Some (na_calls s !! id) → id ∉ (na_answers s).*1.
Proof.
  eexists. split; [reflexivity|].
  refine (let Hx := admin_exclusive 0%nat SampleAdmin.steps _ _ eq_refl in conj (proj1 (proj2 (proj2 Hx))) (proj2 (proj2 (proj2 (proj2 Hx))))).
  vm_compute. repeat (constructor; [intros Hin; repeat (apply elem_of_cons in Hin as [Hin|Hin]; [discriminate|]); by apply not_elem_of_nil in Hin|]). constructor.
Defined.

(** What the ledger answers its administrator: a snapshot is refused by a leader and
    stops every other node; a truncation is carried out up to the commit index, and
    beyond it stops the node instead of being refused; a hotfix does nothing and
    succeeds; copying another cluster's log cannot be started or ended, and the
    split state is never reported. *)
Lemma ledger_admin_verdict {SM} `{LogSpec L} dir (e : EventApplyLoop SM) (core : RaftCore L) :
  let serve := serve (H := ledger_provider (SM := SM) (L := L) dir) in
  serve CreateSnapshot_Request (e, core) =
    (if bool_decide (mRaftRole core = Leader) then Ret (mk_AdminResponse FAILED "leader no longer takes snapshot", (e, core))
     else Fail AssertFailure) ∧
  (∀ k, serve (TruncatePrefix_Request k) (e, core) =
    if k <=? mCommitIndex core then Ret (mk_AdminResponse SUCCESS "OK", (e, set_mLog core (truncatePrefix (core_mLog core) k)))
    else Fail AssertFailure) ∧
  (∀ payload, serve (Hotfix_Request payload) (e, core) = Ret (mk_AdminResponse SUCCESS "Hotfix has been done successfully", (e, core))) ∧
  (∀ appInfo state planId from r p, NetAdmin_SyncLog (H := ledger_provider dir) appInfo state planId from (e, core) = Ret (r, p) →
    p = (e, core) ∧ hd_code r ≠ 200) ∧
  (∀ planId tag, NetAdmin_Startup (H := ledger_provider dir) planId tag (e, core) = Ret (mk_ResponseHeader 400 EmptyString, (e, core))) ∧
  (∀ (absl : Absl) a b appInfo state, qs_splitState (NetAdmin_Query (H := ledger_provider dir) a b appInfo state (e, core)) = None).
Proof.
  split_and!.
  - simpl. unfold CreateSnapshot_body. simpl. unfold EAL_rocks_takeSnapshotAndPersist. by destruct (bool_decide _).
  - intros k. simpl. unfold TruncatePrefix_body. simpl. unfold RaftCore_truncatePrefix. simpl. by destruct (k <=? mCommitIndex core).
  - done.
  - intros appInfo state planId from r p. unfold NetAdmin_SyncLog. destruct (getClusterInfo appInfo from); [|by intros [= <- <-]].
    destruct (negb _); [by intros [= <- <-]|]. simpl. by intros [= <- <-].
  - done.
  - done.
Qed.

Example ledger_admin_stops_the_node :
  let e := mk_EAL AsyncCES_new false tt 0 false in
  let core := SampleRaft.node 1 in
  serve (H := ledger_provider (L := InMemoryLog) "dir") (TruncatePrefix_Request 7) (e, core) = Fail AssertFailure ∧
  serve (H := ledger_provider (L := InMemoryLog) "dir") CreateSnapshot_Request (e, core) = Fail AssertFailure.
Proof.
  intros e core. destruct (ledger_admin_verdict "dir" e core) as (Hs & Ht & _). split.
  - etransitivity; [exact (Ht 7)|vm_compute; reflexivity].
  - etransitivity; [exact Hs|vm_compute; reflexivity].
Qed.
