(* ===== verification/Receiver.v ===== *)
(** * The request receiver and the life of a request

    src/src/app_ledger/should_be_generated/app/RequestReceiver.cpp and
    calldatas/RequestCallData.h, with the parts they feed: the command queue, the
    command process loop (CommandLoop.v) and the reply loop.  A request lives in a
    call data object that is passed on by its address, as the tag of the
    completion queue, as the handle of its command and as the handle of a reply
    task, and that frees itself once its reply is sent.  The memory is a heap of
    live objects, so that the use of a freed one is a result.  gRPC gives each
    operation started on a completion queue back exactly once; its server waits for
    the calls in progress when it shuts down, and the completion queue takes no
    operation after its own shutdown. *)
From stdpp Require Import gmap.
From S2P Require Import Prelude Protobuf Crypto Domain Es Control Ledger LedgerSM RaftLog RaftCore Pipeline CommandLoop.
Open Scope Z_scope.

(** ** Call data of the three requests *)
Inductive CallKind := ConfigureKind | CreateKind | RecordKind.

Inductive RpcCall :=
  | ConfigureCall (self : CallData ConfigureAccountMetadata_Request)
  | CreateCall (self : CallData CreateAccount_Request)
  | RecordCall (self : CallData RecordJournalEntry_Request).

Inductive RpcRequest :=
  | ConfigureRpc (r : ConfigureAccountMetadata_Request) | CreateRpc (r : CreateAccount_Request) | RecordRpc (r : RecordJournalEntry_Request).

Definition call_kind (call : RpcCall) : CallKind :=
  match call with ConfigureCall _ => ConfigureKind | CreateCall _ => CreateKind | RecordCall _ => RecordKind end.
Definition call_status (call : RpcCall) : CallStatus :=
  match call with
  | ConfigureCall self => cd_mCallStatus self | CreateCall self => cd_mCallStatus self | RecordCall self => cd_mCallStatus self
  end.
Definition call_this (call : RpcCall) : Z :=
  match call with ConfigureCall self => cd_this self | CreateCall self => cd_this self | RecordCall self => cd_this self end.

(** The members of a new object; [status] as the constructor leaves it. *)
Definition fresh_call (kind : CallKind) (id : Z) (status : CallStatus) : RpcCall :=
  let response := mk_Response 0 EmptyString EmptyString in
  match kind with
  | ConfigureKind => ConfigureCall (mk_CallData id status (mk_ConfigureRequest protos_AccountMetadata_default) response)
  | CreateKind => CreateCall (mk_CallData id status (mk_CreateRequest protos_Account_default) response)
  | RecordKind => RecordCall (mk_CallData id status (mk_RecordRequest None) response)
  end.

(** [proceed] of the class. *)
Definition call_proceed (info : AppInfo) (junk : MetaData) (now : Z) (stopped : option string) (call : RpcCall)
    : result (RpcCall * list CallAction) :=
  match call with
  | ConfigureCall self => '(self, acts) ← ConfigureAccountMetadata_proceed info junk now stopped self; Ret (ConfigureCall self, acts)
  | CreateCall self => '(self, acts) ← CreateAccount_proceed info junk now stopped self; Ret (CreateCall self, acts)
  | RecordCall self => '(self, acts) ← RecordJournalEntry_proceed info junk now stopped self; Ret (RecordCall self, acts)
  end.

(** [fillResultAndReply] *)
Definition call_fillResultAndReply (call : RpcCall) (code : Z) (message : string) (leaderId : option Z)
    : RpcCall * list CallAction :=
  match call with
  | ConfigureCall self => let '(self, acts) := CallData_fillResultAndReply self code message leaderId in (ConfigureCall self, acts)
  | CreateCall self => let '(self, acts) := CallData_fillResultAndReply self code message leaderId in (CreateCall self, acts)
  | RecordCall self => let '(self, acts) := CallData_fillResultAndReply self code message leaderId in (RecordCall self, acts)
  end.

(** gRPC fills [mRequest] of the object whose kind the request has. *)
Definition call_fill (call : RpcCall) (request : RpcRequest) : option RpcCall :=
  match call, request with
  | ConfigureCall self, ConfigureRpc r => Some (ConfigureCall (mk_CallData (cd_this self) (cd_mCallStatus self) r (cd_mResponse self)))
  | CreateCall self, CreateRpc r => Some (CreateCall (mk_CallData (cd_this self) (cd_mCallStatus self) r (cd_mResponse self)))
  | RecordCall self, RecordRpc r => Some (RecordCall (mk_CallData (cd_this self) (cd_mCallStatus self) r (cd_mResponse self)))
  | _, _ => None
  end.

(** The command [proceed] makes of a request. *)
Definition request_command (junk : MetaData) (now : Z) (request : RpcRequest) : result Command :=
  match request with
  | ConfigureRpc r => ConfigureAccountMetadataCommand_new junk now r
  | CreateRpc r => CreateAccountCommand_new junk now r
  | RecordRpc r => RecordJournalEntryCommand_new junk now r
  end.

(** ** The server

    [rq_waiting], [rq_finishing]: operations the completion queue has not given
    back; [rq_queue], [rq_closed]: the command queue, first in first out (Queue.v);
    [rq_down]: the completion queue is shut down; [rq_arrived], [rq_replies]:
    histories of the requests that arrived and of the replies handed to gRPC. *)
Record RequestServer := mk_RequestServer {
  rq_heap : gmap Z RpcCall;
  rq_next : Z;
  rq_waiting : gset Z;
  rq_finishing : gset Z;
  rq_queue : list Command;
  rq_closed : bool;
  rq_loop : CommandProcessLoop;
  rq_down : bool;
  rq_arrived : list Z;
  rq_replies : list (Z * Response) }.
Implicit Types s : RequestServer.

Definition set_heap s (heap : gmap Z RpcCall) : RequestServer :=
  mk_RequestServer heap (rq_next s) (rq_waiting s) (rq_finishing s) (rq_queue s) (rq_closed s) (rq_loop s) (rq_down s)
    (rq_arrived s) (rq_replies s).
Definition set_operations s (waiting finishing : gset Z) : RequestServer :=
  mk_RequestServer (rq_heap s) (rq_next s) waiting finishing (rq_queue s) (rq_closed s) (rq_loop s) (rq_down s)
    (rq_arrived s) (rq_replies s).
Definition set_work s (queue : list Command) (loop : CommandProcessLoop) : RequestServer :=
  mk_RequestServer (rq_heap s) (rq_next s) (rq_waiting s) (rq_finishing s) queue (rq_closed s) loop (rq_down s)
    (rq_arrived s) (rq_replies s).
Definition set_history s (arrived : list Z) (replies : list (Z * Response)) : RequestServer :=
  mk_RequestServer (rq_heap s) (rq_next s) (rq_waiting s) (rq_finishing s) (rq_queue s) (rq_closed s) (rq_loop s) (rq_down s)
    arrived replies.

Definition call_at s (id : Z) : result RpcCall :=
  match rq_heap s !! id with Some call => Ret call | None => Fail UndefinedBehaviour end.
Definition put_call s (id : Z) (call : RpcCall) : RequestServer := set_heap s (<[id := call]> (rq_heap s)).
Definition delete_call s (id : Z) : RequestServer := set_heap s (delete id (rq_heap s)).

(** [new CallData(..)]: the constructor calls [proceed] in [CREATE], which announces
    the object to the service (new_call_proceeds below). *)
Definition new_CallData (kind : CallKind) s : RequestServer :=
  let id := rq_next s in
  mk_RequestServer (<[id := fresh_call kind id PROCESS]> (rq_heap s)) (id + 1) ({[id]} ∪ rq_waiting s) (rq_finishing s)
    (rq_queue s) (rq_closed s) (rq_loop s) (rq_down s) (rq_arrived s) (rq_replies s).

(** An action of the object at [id]. *)
Definition perform (id : Z) (kind : CallKind) s (action : CallAction) : result RequestServer :=
  match action with
  | RequestRpc => Ret (set_operations s ({[id]} ∪ rq_waiting s) (rq_finishing s))
  | NewCallData => Ret (new_CallData kind s)
  | Enqueue c => Ret (set_work s (rq_queue s ++ [c]) (rq_loop s))
  | Ledger.Finish r =>
      if rq_down s then Fail UndefinedBehaviour
      else Ret (set_history (set_operations s (rq_waiting s) ({[id]} ∪ rq_finishing s)) (rq_arrived s) (rq_replies s ++ [(id, r)]))
  | DeleteThis => Ret (delete_call s id)
  end.

(** [fillResultAndReply] through a handle. *)
Definition answer (reply : option Reply) s : result RequestServer :=
  match reply with
  | None => Ret s
  | Some reply =>
      call ← call_at s (reply_to reply);
      let '(call', acts) := call_fillResultAndReply call (reply_code reply) (reply_message reply) (reply_leader reply) in
      foldM (perform (reply_to reply) (call_kind call)) (put_call s (reply_to reply) call') acts
  end.

(** ** Steps

    What the completion queue gives back, one turn of the process loop, one step of
    the threads of the reply loop ([Push] is not theirs), the shutdown of the
    command queue and of the receiver.  A step that is not possible does nothing. *)
Inductive RequestStep :=
  | RqArrives (id : Z) (request : RpcRequest) (now : Z)
  | RqGivenUp (id : Z)
  | RqSent (id : Z) (ok : bool)
  | RqProcess (e : LoopEnv)
  | RqReply (step : ReplyStep)
  | RqClose
  | RqStop.

Section server.
Context (crypto : CryptoUtil) (groupId : Z) (info : AppInfo) (junk : MetaData).

(** [proceed] and [failOver] of the object at [id]. *)
Definition rq_proceed (now : Z) (id : Z) s : result RequestServer :=
  call ← call_at s id;
  '(call', acts) ← call_proceed info junk now (if rq_closed s then Some "Queue has stopped." else None) call;
  foldM (perform id (call_kind call)) (put_call s id call') acts.

Definition rq_failOver (id : Z) s : result RequestServer :=
  call ← call_at s id;
  Ret (delete_call (new_CallData (call_kind call) s) id).

(** [stop]: [mServer->Shutdown()] is waiting as long as a call has not got its
    reply; then the completion queue is shut down and drained, and nothing is done
    about what comes out of it. *)
Definition in_progress s : bool := negb (bool_decide (length (rq_arrived s) = length (rq_replies s))).

Definition RequestReceiver_stop s : RequestServer :=
  if rq_down s || in_progress s then s
  else mk_RequestServer (rq_heap s) (rq_next s) ∅ ∅ (rq_queue s) (rq_closed s) (rq_loop s) true (rq_arrived s) (rq_replies s).

Definition close_queue s : RequestServer :=
  mk_RequestServer (rq_heap s) (rq_next s) (rq_waiting s) (rq_finishing s) (rq_queue s) true (rq_loop s) (rq_down s)
    (rq_arrived s) (rq_replies s).

Definition set_replies (l : CommandProcessLoop) (r : RaftReplyLoop) : CommandProcessLoop :=
  let store := mCommandEventStore l in
  mk_CommandProcessLoop (mAppStateMachine l) (mLastCommandId l)
    (mk_RaftCES r (mRaftLogStore store) (mLastCheckedTerm store) (mLastCheckedRole store)).

Definition replies_of s : RaftReplyLoop := mRaftReplyLoop (mCommandEventStore (rq_loop s)).

(** One step of the reply loop, with the reply given in it. *)
Definition reply_given (l : RaftReplyLoop) (step : ReplyStep) : option Reply :=
  match step with
  | CommandLoop.Finish n isCommitted hint =>
      match mTaskQueue l !! (n - rl_popped l)%nat with Some task => replyTask task isCommitted hint | None => None end
  | _ => None
  end.

Definition is_push (step : ReplyStep) : bool := match step with Push _ _ _ _ _ => true | _ => false end.

Definition request_exec s (step : RequestStep) : result RequestServer :=
  match step with
  | RqArrives id request now =>
      if bool_decide (id ∈ rq_waiting s) then
        call ← call_at s id;
        match call_fill call request with
        | None => Ret s
        | Some call =>
            let s := set_operations (put_call s id call) (rq_waiting s ∖ {[id]}) (rq_finishing s) in
            rq_proceed now id (set_history s (rq_arrived s ++ [id]) (rq_replies s))
        end
      else Ret s
  | RqGivenUp id =>
      if bool_decide (id ∈ rq_waiting s)
      then rq_failOver id (set_operations s (rq_waiting s ∖ {[id]}) (rq_finishing s)) else Ret s
  | RqSent id ok =>
      if bool_decide (id ∈ rq_finishing s) then
        let s := set_operations s (rq_waiting s) (rq_finishing s ∖ {[id]}) in
        if ok then rq_proceed 0 id s else rq_failOver id s
      else Ret s
  | RqProcess e =>
      match rq_queue s with
      | [] => Ret s
      | command :: queue =>
          match runDistributed_iteration crypto groupId e (rq_loop s) command with
          | None => Ret s
          | Some r => '(loop, reply) ← r; answer reply (set_work s queue loop)
          end
      end
  | RqReply step =>
      if is_push step then Ret s
      else
        match reply_exec (replies_of s) step with
        | None => Ret s
        | Some l => answer (reply_given (replies_of s) step) (set_work s (rq_queue s) (set_replies (rq_loop s) l))
        end
  | RqClose => Ret (close_queue s)
  | RqStop => Ret (RequestReceiver_stop s)
  end.

(** [startListen] makes one object for each of two kinds. *)
Definition RequestServer_new (loop : CommandProcessLoop) : RequestServer :=
  new_CallData CreateKind (new_CallData ConfigureKind (mk_RequestServer ∅ 0 ∅ ∅ [] false loop false [] [])).

(** [App::shutdown], what it does to the command queue and the receiver. *)
Definition App_shutdown : list RequestStep := [RqClose; RqStop].
End server.

(** The constructor's call of [proceed]. *)
Lemma new_call_proceeds info junk now stopped kind id :
  call_proceed info junk now stopped (fresh_call kind id CREATE) = Ret (fresh_call kind id PROCESS, [RequestRpc]).
Proof. by destruct kind. Qed.
