(* ===== verification/ReceiverTheorems.v ===== *)
(** * The life of a request: no freed object is used, one reply per request

    Every object of [Receiver] is in one place: with the completion queue, as a
    waiting call or a reply to be sent, or as the handle of a queued command or of
    a reply task. *)
From stdpp Require Import gmap.
From S2P Require Import Prelude Protobuf Crypto Domain Es Control Ledger LedgerSM LedgerProps LedgerTheorems RaftLog RaftCore.
From S2P Require Import Pipeline CommandLoop CommandProps CommandTheorems Receiver.
Import Wire.
Import (hints) XorSSL SamplePipe.
Open Scope Z_scope.
Implicit Types s : RequestServer.

(** ** Where handles are *)
Definition handles (c : Command) : list Z := option_list (mRequestHandle (Command_mMetaData c)).
Definition open_handles (t : Task) : list Z := if task_flag t =? 2 then [] else option_list (task_handle t).
Definition unanswered (l : RaftReplyLoop) : list Z := mTaskQueue l ≫= open_handles.
Definition loop_unanswered (l : CommandProcessLoop) : list Z := unanswered (mRaftReplyLoop (mCommandEventStore l)).
Definition pending s : list Z := (rq_queue s ≫= handles) ++ loop_unanswered (rq_loop s).
Definition replied (r : option Reply) : list Z := match r with Some r => [reply_to r] | None => [] end.

Lemma set_flag_split q k t f : q !! k = Some t →
  q ≫= open_handles ≡ₚ open_handles t ++ ((take k q ++ drop (S k) q) ≫= open_handles) ∧
  set_flag q k f ≫= open_handles ≡ₚ open_handles (Task_set_flag t f) ++ ((take k q ++ drop (S k) q) ≫= open_handles).
Proof.
  intros Ht. assert (Hlt := lookup_lt_Some _ _ _ Ht). split.
  - rewrite <- (take_drop_middle q k t Ht) at 1. rewrite !bind_app, bind_cons. solve_Permutation.
  - unfold set_flag. rewrite Ht, insert_take_drop by done. rewrite !bind_app, bind_cons. solve_Permutation.
Qed.

Lemma push_unanswered l i t h code message :
  unanswered (pushTask l i t h code message) = unanswered l ++ option_list h.
Proof. unfold unanswered, pushTask. simpl. rewrite bind_app. f_equal. apply app_nil_r. Qed.

Lemma step_unanswered l step l' : is_push step = false → reply_exec l step = Some l' →
  unanswered l ≡ₚ replied (reply_given l step) ++ unanswered l'.
Proof.
  destruct step as [| |n isCommitted hint|]; simpl; [done|..]; intros _.
  - unfold claimTask. destruct (first_initial (mTaskQueue l)) as [k|] eqn:Ek; [|done]. intros [= <-].
    apply first_initial_spec in Ek as (t & Ht & Hf). unfold unanswered. simpl.
    destruct (set_flag_split _ _ _ 1 Ht) as [-> ->]. unfold open_handles at 1 3. by rewrite Hf.
  - unfold finishTask. destruct (Nat.ltb _ _); [done|]. destruct (mTaskQueue l !! (n - rl_popped l)%nat) as [t|] eqn:Ht; [|done].
    destruct (Z.eqb_spec (task_flag t) 1) as [Hf|]; [|done]. intros [= <-]. unfold unanswered. simpl.
    destruct (set_flag_split _ _ _ 2 Ht) as [-> ->]. unfold open_handles at 1 3. rewrite Hf. simpl.
    unfold replyTask. destruct (task_handle t); reflexivity.
  - unfold popTask, unanswered. intros [= <-]. destruct (mTaskQueue l) as [|t q] eqn:Eq; [by rewrite Eq|].
    destruct (Z.eqb_spec (task_flag t) 2) as [Hf|]; [|by rewrite Eq]. simpl. unfold open_handles at 1. by rewrite Hf.
Qed.

Lemma process_unanswered crypto env g l c l' :
  CPL_processCommand crypto env g l c = Ret l' → loop_unanswered l' = loop_unanswered l ++ handles c.
Proof.
  unfold CPL_processCommand. intros ([[[h evs] sm] calls] & _ & Hr)%bind_Ret.
  unfold loop_unanswered. destruct evs; injection Hr as <-; apply push_unanswered.
Qed.

Lemma iteration_unanswered crypto g e l c l' reply :
  runDistributed_iteration crypto g e l c = Some (Ret (l', reply)) →
  loop_unanswered l' ++ replied reply = loop_unanswered l ++ handles c.
Proof.
  unfold runDistributed_iteration, detectTransition. destruct (refresh _ _) as [store|]; [|done]. intros [= Hr].
  apply bind_Ret in Hr as ([ces t] & Hd & Hr). apply bind_Ret in Hd as (t' & _ & [= <- <-]).
  assert (Hrej : ∀ hint, replied (Command_onPersistFailed c 301 "Not a leader any longer" hint) = handles c).
  { intros hint. unfold Command_onPersistFailed, handles. by destruct (mRequestHandle _). }
  destruct t'; simpl in Hr; unfold onBecomeLeader, reject in Hr;
    try (destruct (le_ready e =? 0)); try (injection Hr as <- <-; by rewrite Hrej);
    apply bind_Ret in Hr as (l1 & Hp & [= <- <-]); rewrite app_nil_r; apply process_unanswered in Hp; exact Hp.
Qed.

(** ** Ownership

    [held]: what a step has taken from its place and not put back; [P]: the handles
    of queued commands and of open reply tasks. *)
Section ownership.
Implicit Types (heap : gmap Z RpcCall) (W F : gset Z) (P held : list Z) (n id : Z) (call : RpcCall).

Definition is_open heap id : Prop := ∃ call, heap !! id = Some call ∧ call_status call = PROCESS ∧ call_this call = id.
Definition is_answered heap id : Prop := ∃ call, heap !! id = Some call ∧ call_status call = FINISH.

Record owned held heap n W F P : Prop := {
  ow_next id : is_Some (heap !! id) → id < n;
  ow_places : held ++ elements W ++ elements F ++ P ≡ₚ elements (dom heap);
  ow_waiting id : id ∈ W → is_open heap id;
  ow_pending id : id ∈ P → is_open heap id;
  ow_finishing id : id ∈ F → is_answered heap id }.

Lemma owned_perm held heap n W F P P' : P ≡ₚ P' → owned held heap n W F P → owned held heap n W F P'.
Proof.
  intros HP [I1 I2 I3 I4 I5]. split; [done| |done| |done]; [by rewrite <- HP|]. intros id Hid. apply I4. by rewrite HP.
Qed.

Lemma owned_NoDup held heap n W F P : owned held heap n W F P → NoDup (held ++ elements W ++ elements F ++ P).
Proof. intros I. rewrite (ow_places _ _ _ _ _ _ I). apply NoDup_elements. Qed.

Lemma owned_live held heap n W F P id :
  owned held heap n W F P → id ∈ held ++ elements W ++ elements F ++ P → is_Some (heap !! id).
Proof. intros I. rewrite (ow_places _ _ _ _ _ _ I). by rewrite elem_of_elements, elem_of_dom. Qed.

Lemma keeps_open heap id id' call : id' ≠ id → is_open heap id' → is_open (<[id := call]> heap) id'.
Proof. intros Hne (c & Hc & ?). exists c. by rewrite lookup_insert_ne. Qed.
Lemma keeps_answered heap id id' call : id' ≠ id → is_answered heap id' → is_answered (<[id := call]> heap) id'.
Proof. intros Hne (c & Hc & ?). exists c. by rewrite lookup_insert_ne. Qed.

Lemma owned_new held heap n W F P kind : owned held heap n W F P →
  owned held (<[n := fresh_call kind n PROCESS]> heap) (n + 1) ({[n]} ∪ W) F P.
Proof.
  intros I. assert (Hnew : heap !! n = None).
  { destruct (heap !! n) eqn:E; [|done]. assert (n < n) by (apply (ow_next _ _ _ _ _ _ I); by rewrite E). lia. }
  assert (Hfree : ∀ id, id ∈ held ++ elements W ++ elements F ++ P → id ≠ n).
  { intros id Hid ->. destruct (owned_live _ _ _ _ _ _ _ I Hid) as [? ?]. congruence. }
  assert (HW : n ∉ W). { intros Hin. apply (Hfree n); [|done]. set_solver. }
  split.
  - intros id [->|[? ?]]%lookup_insert_is_Some; [lia|]. assert (id < n) by by apply I. lia.
  - rewrite elements_union_singleton, dom_insert_L, elements_union_singleton by (done || by apply not_elem_of_dom).
    rewrite <- (ow_places _ _ _ _ _ _ I). solve_Permutation.
  - intros id [->%elem_of_singleton|Hid]%elem_of_union.
    + exists (fresh_call kind n PROCESS). rewrite lookup_insert_eq. by destruct kind.
    + apply keeps_open; [set_solver|by apply (ow_waiting _ _ _ _ _ _ I)].
  - intros id Hid. apply keeps_open; [set_solver|by apply (ow_pending _ _ _ _ _ _ I)].
  - intros id Hid. apply keeps_answered; [set_solver|by apply (ow_finishing _ _ _ _ _ _ I)].
Qed.

Lemma elements_take (X : gset Z) id : id ∈ X → elements X ≡ₚ id :: elements (X ∖ {[id]}).
Proof.
  intros Hid. rewrite (union_difference_singleton_L id X Hid) at 1. apply elements_union_singleton. set_solver.
Qed.

Lemma owned_take_waiting heap n W F P id : id ∈ W → owned [] heap n W F P →
  owned [id] heap n (W ∖ {[id]}) F P ∧ is_open heap id.
Proof.
  intros Hid [I1 I2 I3 I4 I5]. split; [|by apply I3]. split; [done| |set_solver|done|done].
  rewrite <- I2, (elements_take W id Hid). solve_Permutation.
Qed.

Lemma owned_take_finishing heap n W F P id : id ∈ F → owned [] heap n W F P →
  owned [id] heap n W (F ∖ {[id]}) P ∧ is_answered heap id.
Proof.
  intros Hid [I1 I2 I3 I4 I5]. split; [|by apply I5]. split; [done| |done|done|set_solver].
  rewrite <- I2, (elements_take F id Hid). solve_Permutation.
Qed.

Lemma owned_take_pending heap n W F P id : owned [] heap n W F (id :: P) → owned [id] heap n W F P ∧ is_open heap id.
Proof.
  intros [I1 I2 I3 I4 I5]. split; [|apply I4; set_solver]. split; [done| |done|set_solver|done]. rewrite <- I2. solve_Permutation.
Qed.

Lemma held_apart heap n W F P id : owned [id] heap n W F P → is_Some (heap !! id) ∧ (id ∉ W) ∧ (id ∉ F) ∧ (id ∉ P).
Proof.
  intros I. split; [apply (owned_live _ _ _ _ _ _ id I); set_solver|].
  assert (Hd := owned_NoDup _ _ _ _ _ _ I). apply NoDup_cons in Hd as [Hn _]. set_solver.
Qed.

Lemma owned_put heap n W F P id call : owned [id] heap n W F P → owned [id] (<[id := call]> heap) n W F P.
Proof.
  intros I. destruct (held_apart _ _ _ _ _ _ I) as (Hs & HW & HF & HP). split.
  - intros id' [->|[? ?]]%lookup_insert_is_Some; by apply I.
  - rewrite dom_insert_lookup_L by done. apply I.
  - intros id' Hid. apply keeps_open; [set_solver|by apply (ow_waiting _ _ _ _ _ _ I)].
  - intros id' Hid. apply keeps_open; [set_solver|by apply (ow_pending _ _ _ _ _ _ I)].
  - intros id' Hid. apply keeps_answered; [set_solver|by apply (ow_finishing _ _ _ _ _ _ I)].
Qed.

Lemma owned_finish heap n W F P id : owned [id] heap n W F P → is_answered heap id → owned [] heap n W ({[id]} ∪ F) P.
Proof.
  intros I Ha. destruct (held_apart _ _ _ _ _ _ I) as (_ & _ & HF & _). destruct I as [I1 I2 I3 I4 I5]. split; [done| |done|done|set_solver].
  rewrite elements_union_singleton by done. rewrite <- I2. solve_Permutation.
Qed.

Lemma owned_pend heap n W F P id : owned [id] heap n W F P → is_open heap id → owned [] heap n W F (P ++ [id]).
Proof.
  intros [I1 I2 I3 I4 I5] Ho. split; [done| |done|set_solver|done]. rewrite <- I2. solve_Permutation.
Qed.

Lemma owned_delete heap n W F P id : owned [id] heap n W F P → owned [] (delete id heap) n W F P.
Proof.
  intros I. destruct (held_apart _ _ _ _ _ _ I) as (Hs & HW & HF & HP).
  assert (Hk : ∀ id', id' ≠ id → delete id heap !! id' = heap !! id') by (intros; by rewrite lookup_delete_ne).
  split.
  - intros id' [? [? ?]%lookup_delete_Some]. apply I. by eexists.
  - apply (Permutation_app_inv_l [id]). rewrite (ow_places _ _ _ _ _ _ I).
    rewrite dom_delete_L. apply elements_take. by apply elem_of_dom.
  - intros id' Hid. unfold is_open. rewrite Hk by set_solver. by apply (ow_waiting _ _ _ _ _ _ I).
  - intros id' Hid. unfold is_open. rewrite Hk by set_solver. by apply (ow_pending _ _ _ _ _ _ I).
  - intros id' Hid. unfold is_answered. rewrite Hk by set_solver. by apply (ow_finishing _ _ _ _ _ _ I).
Qed.
End ownership.

(** ** The classes *)
Definition call_request (call : RpcCall) : RpcRequest :=
  match call with
  | ConfigureCall self => ConfigureRpc (cd_mRequest self) | CreateCall self => CreateRpc (cd_mRequest self)
  | RecordCall self => RecordRpc (cd_mRequest self)
  end.

Lemma call_fill_spec call request call' : call_fill call request = Some call' →
  call_status call' = call_status call ∧ call_this call' = call_this call ∧ call_request call' = request.
Proof. by destruct call, request; intros [= <-]. Qed.

Lemma CallData_open {R} make info junk now stopped (self : CallData R) : cd_mCallStatus self = PROCESS →
  (∃ f, CallData_proceed make info junk now stopped self = Fail f ∧ make junk now (cd_mRequest self) = Fail f) ∨
  (∃ c, CallData_proceed make info junk now stopped self = Ret (self, [NewCallData; Enqueue c]) ∧ handles c = [cd_this self]) ∨
  (∃ self' r, CallData_proceed make info junk now stopped self = Ret (self', [NewCallData; Ledger.Finish r]) ∧
    cd_mCallStatus self' = FINISH).
Proof.
  intros Hp. unfold CallData_proceed. rewrite Hp. destruct (make junk now (cd_mRequest self)) as [c|f]; simpl; [|left; by exists f].
  right. case_bool_decide; simpl; [destruct stopped|]; [right|left; by eexists|right]; do 2 eexists; by split.
Qed.

Lemma call_proceed_open info junk now stopped call : call_status call = PROCESS →
  (∃ f, call_proceed info junk now stopped call = Fail f ∧ request_command junk now (call_request call) = Fail f) ∨
  (∃ c, call_proceed info junk now stopped call = Ret (call, [NewCallData; Enqueue c]) ∧ handles c = [call_this call]) ∨
  (∃ call' r, call_proceed info junk now stopped call = Ret (call', [NewCallData; Ledger.Finish r]) ∧ call_status call' = FINISH).
Proof.
  destruct call as [self|self|self]; simpl; intros Hp.
  - destruct (CallData_open ConfigureAccountMetadataCommand_new info junk now stopped self Hp) as [(f & E & ?)|[(c & E & ?)|(self' & r & E & ?)]];
      unfold ConfigureAccountMetadata_proceed; rewrite E; simpl; [left|right; left|right; right]; repeat eexists; done.
  - destruct (CallData_open CreateAccountCommand_new info junk now stopped self Hp) as [(f & E & ?)|[(c & E & ?)|(self' & r & E & ?)]];
      unfold CreateAccount_proceed; rewrite E; simpl; [left|right; left|right; right]; repeat eexists; done.
  - destruct (CallData_open RecordJournalEntryCommand_new info junk now stopped self Hp) as [(f & E & ?)|[(c & E & ?)|(self' & r & E & ?)]];
      unfold RecordJournalEntry_proceed; rewrite E; simpl; [left|right; left|right; right]; repeat eexists; done.
Qed.

Lemma call_proceed_answered info junk now stopped call : call_status call = FINISH →
  call_proceed info junk now stopped call = Ret (call, [DeleteThis]).
Proof.
  destruct call as [self|self|self]; simpl; intros Hf;
    unfold ConfigureAccountMetadata_proceed, CreateAccount_proceed, RecordJournalEntry_proceed, CallData_proceed; by rewrite Hf.
Qed.

Lemma call_reply_spec call code message leader :
  ∃ call' r, call_fillResultAndReply call code message leader = (call', [Ledger.Finish r]) ∧ call_status call' = FINISH.
Proof. destruct call; simpl; by do 2 eexists. Qed.

(** ** The invariant

    [due]: requests that have arrived and that the step has neither answered nor
    put somewhere. *)
Record rq_inv (held due : list Z) s : Prop := {
  ri_owned : owned held (rq_heap s) (rq_next s) (rq_waiting s) (rq_finishing s) (pending s);
  ri_arrived : rq_arrived s ≡ₚ due ++ (rq_replies s).*1 ++ pending s;
  ri_once : NoDup (rq_arrived s) ∧ ∀ id, id ∈ rq_arrived s → id < rq_next s ∧ id ∉ rq_waiting s;
  ri_up : rq_down s = false }.

Lemma inv_new held due kind s : rq_inv held due s → rq_inv held due (new_CallData kind s).
Proof.
  intros [I1 I2 [I3 I4] I5]. split; [by apply owned_new|done| |done]. split; [done|]. intros id Hid%I4. simpl. split; [lia|]. set_solver by lia.
Qed.

Lemma inv_put due id call s : rq_inv [id] due s → rq_inv [id] due (put_call s id call).
Proof. intros [I1 I2 I3 I4]. split; [by apply owned_put|done..]. Qed.

Lemma inv_finish id kind r s : rq_inv [id] [id] s → is_answered (rq_heap s) id →
  ∃ s', perform id kind s (Ledger.Finish r) = Ret s' ∧ rq_inv [] [] s'.
Proof.
  intros [I1 I2 I3 I4] Ha. eexists. split; [simpl; by rewrite I4|]. split; [by apply owned_finish| |done..].
  unfold set_history. cbn. rewrite I2, fmap_app. unfold pending. cbn. solve_Permutation.
Qed.

Lemma pending_enqueue s c : pending (set_work s (rq_queue s ++ [c]) (rq_loop s)) ≡ₚ pending s ++ handles c.
Proof. unfold pending. cbn. rewrite bind_app. cbn. solve_Permutation. Qed.

Lemma inv_enqueue id kind c s : rq_inv [id] [id] s → is_open (rq_heap s) id → handles c = [id] →
  ∃ s', perform id kind s (Enqueue c) = Ret s' ∧ rq_inv [] [] s'.
Proof.
  intros [I1 I2 I3 I4] Ho Hc. eexists. split; [done|]. assert (HP := pending_enqueue s c). rewrite Hc in HP. split.
  - eapply owned_perm; [symmetry; exact HP|]. by apply owned_pend.
  - rewrite HP. cbn. rewrite I2. solve_Permutation.
  - done.
  - done.
Qed.

Lemma inv_delete id s : rq_inv [id] [] s → rq_inv [] [] (delete_call s id).
Proof. intros [I1 I2 I3 I4]. split; [by apply owned_delete|done..]. Qed.

(** ** Steps *)
Section steps.
Context (crypto : CryptoUtil) (groupId : Z) (info : AppInfo) (junk : MetaData).
Abbreviation exec := (request_exec crypto groupId info junk).
Abbreviation proceed := (rq_proceed info junk).

Lemma held_old id due kind s call : rq_inv [id] due s → rq_heap (new_CallData kind (put_call s id call)) !! id = Some call.
Proof.
  intros [I1 _ _ _]. destruct (held_apart _ _ _ _ _ _ I1) as [Hs _]. assert (id < rq_next s) by by eapply ow_next.
  cbn. rewrite lookup_insert_ne by lia. by rewrite lookup_insert_eq.
Qed.

Lemma proceed_open_inv now id s call :
  rq_inv [id] [id] s → rq_heap s !! id = Some call → call_status call = PROCESS → call_this call = id →
  match proceed now id s with
  | Ret s' => rq_inv [] [] s'
  | Fail f => request_command junk now (call_request call) = Fail f
  end.
Proof.
  intros I Hc Hp Ht. unfold rq_proceed, call_at. rewrite Hc. cbn [mbind result_mbind].
  assert (I' := λ call', inv_new _ _ (call_kind call) _ (inv_put _ id call' _ I)).
  assert (Hl := λ call', held_old id [id] (call_kind call) s call' I).
  destruct (call_proceed_open info junk now (if rq_closed s then Some "Queue has stopped." else None) call Hp)
    as [(f & -> & Hf)|[(c & -> & Hh)|(call' & r & -> & Hf)]]; [exact Hf| |]; cbn [mbind result_mbind foldM perform].
  - destruct (inv_enqueue id (call_kind call) c _ (I' call)) as (s' & E & Hs'); [by exists call|congruence|].
    cbn [perform] in E. injection E as <-. exact Hs'.
  - destruct (inv_finish id (call_kind call) r _ (I' call')) as (s' & E & Hs'); [by exists call'|].
    cbn [perform] in E. rewrite E. exact Hs'.
Qed.

Lemma proceed_answered_inv now id s : rq_inv [id] [] s → is_answered (rq_heap s) id →
  ∃ s', proceed now id s = Ret s' ∧ rq_inv [] [] s'.
Proof.
  intros I (call & Hc & Hf). unfold rq_proceed, call_at. rewrite Hc. cbn [mbind result_mbind].
  rewrite call_proceed_answered by done. eexists. split; [done|]. by apply inv_delete, inv_put.
Qed.

Lemma failOver_inv id s : rq_inv [id] [] s → ∃ s', rq_failOver id s = Ret s' ∧ rq_inv [] [] s'.
Proof.
  intros I. destruct (held_apart _ _ _ _ _ _ (ri_owned _ _ _ I)) as [[call Hc] _]. unfold rq_failOver, call_at. rewrite Hc.
  eexists. split; [done|]. by apply inv_delete, inv_new.
Qed.

Lemma answer_inv reply s : rq_inv (replied reply) (replied reply) s → (∀ id, id ∈ replied reply → is_open (rq_heap s) id) →
  ∃ s', answer reply s = Ret s' ∧ rq_inv [] [] s'.
Proof.
  destruct reply as [reply|]; simpl; intros I Ho; [|by exists s]. destruct (Ho (reply_to reply)) as (call & Hc & _); [set_solver|].
  unfold call_at. rewrite Hc. cbn [mbind result_mbind].
  destruct (call_reply_spec call (reply_code reply) (reply_message reply) (reply_leader reply)) as (call' & r & -> & Hf).
  destruct (inv_finish (reply_to reply) (call_kind call) r _ (inv_put _ _ call' _ I)) as (s' & E & Hs').
  - exists call'. cbn. by rewrite lookup_insert_eq.
  - exists s'. split; [|done]. cbn [foldM]. rewrite E. done.
Qed.

Lemma take_waiting_inv id s : id ∈ rq_waiting s → rq_inv [] [] s →
  rq_inv [id] [] (set_operations s (rq_waiting s ∖ {[id]}) (rq_finishing s)) ∧ is_open (rq_heap s) id.
Proof.
  intros Hid [I1 I2 [I3 I4] I5]. apply (owned_take_waiting _ _ _ _ _ id Hid) in I1 as [I1 Ho]. split; [|done].
  split; [done..| |done]. split; [done|]. intros id' Hid'%I4. cbn. set_solver.
Qed.

Lemma take_finishing_inv id s : id ∈ rq_finishing s → rq_inv [] [] s →
  rq_inv [id] [] (set_operations s (rq_waiting s) (rq_finishing s ∖ {[id]})) ∧ is_answered (rq_heap s) id.
Proof.
  intros Hid [I1 I2 I3 I4]. apply (owned_take_finishing _ _ _ _ _ id Hid) in I1 as [I1 Ho]. by split.
Qed.

Lemma arrived_inv id s : (id ∉ rq_arrived s) → (id ∉ rq_waiting s) →
  rq_inv [id] [] s → rq_inv [id] [id] (set_history s (rq_arrived s ++ [id]) (rq_replies s)).
Proof.
  intros Hnew HW [I1 I2 [I3 I4] I5]. destruct (held_apart _ _ _ _ _ _ I1) as [Hs _].
  split; [done| | |done].
  - cbn. rewrite I2. unfold pending. cbn. solve_Permutation.
  - cbn. split; [apply NoDup_app; split_and!; [done|set_solver|apply NoDup_singleton]|].
    intros id' [Hid| ->%list_elem_of_singleton]%elem_of_app; [by apply I4|]. split; [by eapply ow_next|done].
Qed.

Lemma work_inv queue loop reply s : rq_inv [] [] s → pending s ≡ₚ replied reply ++ pending (set_work s queue loop) →
  rq_inv (replied reply) (replied reply) (set_work s queue loop) ∧ ∀ id, id ∈ replied reply → is_open (rq_heap s) id.
Proof.
  intros [I1 I2 I3 I4] HP. split.
  - split; [|by rewrite I2, HP; cbn; solve_Permutation|done..]. apply (owned_perm _ _ _ _ _ _ _ HP) in I1.
    destruct reply as [reply|]; cbn [replied] in *; [|done]. by apply owned_take_pending in I1 as [I1 _].
  - intros id Hid. eapply ow_pending; [exact I1|]. rewrite HP. set_solver.
Qed.

(** After [stop] no call is left. *)
Record rq_stopped s : Prop := {
  rs_down : rq_down s = true;
  rs_drained : rq_waiting s = ∅ ∧ rq_finishing s = ∅;
  rs_pending : pending s = [];
  rs_arrived : NoDup (rq_arrived s) ∧ rq_arrived s ≡ₚ (rq_replies s).*1 }.

Definition rq_ok s : Prop := rq_inv [] [] s ∨ rq_stopped s.

(** Where a step may fail: in the constructor of the command, and in processing it. *)
Definition may_fail s (step : RequestStep) (f : fault) : Prop :=
  match step with
  | RqArrives _ request now => request_command junk now request = Fail f
  | RqProcess e => ∃ c queue, rq_queue s = c :: queue ∧ runDistributed_iteration crypto groupId e (rq_loop s) c = Some (Fail f)
  | _ => False
  end.

Definition step_ok s step (r : result RequestServer) : Prop :=
  match r with Ret s' => rq_ok s' | Fail f => may_fail s step f end.

Lemma ret_ok s step (r : result RequestServer) : (∃ s', r = Ret s' ∧ rq_inv [] [] s') → step_ok s step r.
Proof. intros (s' & -> & I). by left. Qed.

(** The work of the loops, answered or with nothing to answer. *)
Lemma answer_ok s step queue loop reply :
  rq_ok s → pending s ≡ₚ replied reply ++ pending (set_work s queue loop) → step_ok s step (answer reply (set_work s queue loop)).
Proof.
  intros [I|[D1 D2 D3 D4]] HP.
  - destruct (work_inv queue loop reply s I HP) as [I' Ho]. apply ret_ok. by apply answer_inv.
  - rewrite D3 in HP. apply Permutation_nil in HP. apply app_eq_nil in HP as [Hr HP].
    destruct reply; [done|]. right. by split.
Qed.

Lemma arrives_ok s id request now : rq_ok s → step_ok s (RqArrives id request now) (exec s (RqArrives id request now)).
Proof.
  intros Hok. simpl. case_bool_decide as Hid; [|exact Hok].
  destruct Hok as [I|[_ [D _] _ _]]; [|by rewrite D in Hid]. destruct (take_waiting_inv id s Hid I) as [I' (call & Hc & Hp & Ht)].
  unfold call_at at 1. rewrite Hc. cbn [mbind result_mbind]. destruct (call_fill call request) as [call'|] eqn:Ef; [|by left].
  apply call_fill_spec in Ef as (Hp' & Ht' & Hreq).
  assert (Hnew : id ∉ rq_arrived s). { intros Hin. destruct (ri_once _ _ _ I) as [_ Hall]. by destruct (Hall id Hin) as [_ []]. }
  set (s1 := put_call (set_operations s (rq_waiting s ∖ {[id]}) (rq_finishing s)) id call').
  assert (HW : id ∉ rq_waiting s1) by (cbn; set_solver).
  assert (I2 := arrived_inv id s1 Hnew HW (inv_put [] id call' _ I')).
  assert (Hlook : rq_heap s1 !! id = Some call') by apply lookup_insert_eq.
  assert (Hgo := proceed_open_inv now id _ call' I2 Hlook ltac:(congruence) ltac:(congruence)).
  change (step_ok s (RqArrives id request now) (proceed now id (set_history s1 (rq_arrived s1 ++ [id]) (rq_replies s1)))).
  destruct (proceed now id _); [by left|]. simpl. by rewrite Hreq in Hgo.
Qed.

Lemma stop_ok s : rq_ok s → rq_ok (RequestReceiver_stop s).
Proof.
  intros Hok. unfold RequestReceiver_stop, in_progress. destruct (rq_down s) eqn:Ed; [done|]. case_bool_decide as Hlen; [|done].
  right. destruct Hok as [[I1 I2 [I3 I4] I5]|[D _ _ _]]; [|congruence]. cbn in I2. rewrite I2, length_app, length_fmap in Hlen.
  assert (HP : pending s = []) by (apply nil_length_inv; lia). rewrite HP, app_nil_r in I2. by split.
Qed.

Lemma exec_ok s step : rq_ok s → step_ok s step (exec s step).
Proof.
  intros Hok. destruct step as [id request now|id|id ok|e|step| |].
  - by apply arrives_ok.
  - simpl. case_bool_decide as Hid; [|exact Hok]. destruct Hok as [I|[_ [D _] _ _]]; [|by rewrite D in Hid].
    apply ret_ok, failOver_inv. by apply take_waiting_inv.
  - simpl. case_bool_decide as Hid; [|exact Hok]. destruct Hok as [I|[_ [_ D] _ _]]; [|by rewrite D in Hid].
    destruct (take_finishing_inv id s Hid I) as [I' Ha]. apply ret_ok. destruct ok; [by apply proceed_answered_inv|by apply failOver_inv].
  - simpl. destruct (rq_queue s) as [|c queue] eqn:Eq; [exact Hok|].
    destruct (runDistributed_iteration crypto groupId e (rq_loop s) c) as [[[loop reply]|f]|] eqn:Er; [|by exists c, queue|exact Hok].
    apply answer_ok; [done|]. apply iteration_unanswered in Er. unfold pending. cbn [set_work rq_queue rq_loop].
    rewrite Eq, bind_cons, (Permutation_app_comm (handles c)), <- (app_assoc _ (handles c)), (Permutation_app_comm (handles c)), <- Er.
    solve_Permutation.
  - simpl. destruct (is_push step) eqn:Ep; [exact Hok|]. destruct (reply_exec (replies_of s) step) as [l|] eqn:El; [|exact Hok].
    apply answer_ok; [done|]. apply step_unanswered in El; [|done]. unfold pending, loop_unanswered. cbn [set_work rq_queue rq_loop set_replies mCommandEventStore mRaftReplyLoop].
    unfold replies_of in El. rewrite El. solve_Permutation.
  - simpl. destruct Hok as [[I1 I2 I3 I4]|[D1 D2 D3 D4]]; [left|right]; by split.
  - simpl. by apply stop_ok.
Qed.

Lemma new_ok loop : loop_unanswered loop = [] → rq_ok (RequestServer_new loop).
Proof.
  intros Hl. left. apply inv_new, inv_new.
  assert (HP : pending (mk_RequestServer ∅ 0 ∅ ∅ [] false loop false [] []) = []) by exact Hl.
  split; [|by rewrite HP| |done]; [|split; [constructor|intros id []%elem_of_nil]].
  rewrite HP. split; cbn; [by intros id [? ?]|done|set_solver..].
Qed.

Lemma request_run_ok loop steps s : loop_unanswered loop = [] → foldM exec (RequestServer_new loop) steps = Ret s → rq_ok s.
Proof.
  intros Hl. apply new_ok in Hl. revert Hl. generalize (RequestServer_new loop). induction steps as [|step steps IH]; intros s0 H0 Hr.
  - by injection Hr as <-.
  - simpl in Hr. apply bind_Ret in Hr as (s1 & H1 & Hr). apply (IH s1); [|done]. assert (Hs := exec_ok s0 step H0). by rewrite H1 in Hs.
Qed.
End steps.

(** ** Requests of two clients

    A configuration that is accepted, an account that is refused at once, an
    account that is still queued when the application shuts down. *)
Module SampleRequests.
Definition env : LoopEnv := mk_LoopEnv [mk_RoleSample 1 Leader 1] 0 (initial Sample.cs) (Some 1) Sample.env.
Definition metadata : RpcRequest := ConfigureRpc (mk_ConfigureRequest (mk_protos_AccountMetadata 1 pAsset 1000 1999)).
Definition exec := request_exec SamplePipe.crypto 0 (mk_AppInfo 1 0 0) Sample.junk.
Definition steps : list RequestStep :=
  [RqArrives 0 metadata 5; RqArrives 1 (CreateRpc (mk_CreateRequest (Sample.account pUnknownAccountType 1001 500))) 6;
   RqProcess env; RqReply Claim; RqSent 1 true; RqReply (CommandLoop.Finish 0 true None); RqReply Pop; RqSent 0 false;
   RqArrives 3 (CreateRpc (mk_CreateRequest (Sample.account pAsset 1001 500))) 7] ++ App_shutdown.
Definition server : RequestServer :=
  match foldM exec (RequestServer_new SamplePipe.loop) steps with Ret s => s | Fail _ => RequestServer_new SamplePipe.loop end.

Lemma request_run_eq : foldM exec (RequestServer_new SamplePipe.loop) steps = Ret server.
Proof. vm_compute. reflexivity. Qed.

Example results :
  ((λ x, (x.1, resp_code x.2)) <$> rq_replies server, pending server, rq_arrived server, rq_down server) =
  ([(1, 400); (0, 200)], [3], [0; 1; 3], false).
Proof. vm_compute. reflexivity. Qed.

(** A reply that cannot be sent leaves one more object that waits: there is always
    one already. *)
Example failed_reply_adds_listener :
  let waiting steps := match foldM exec (RequestServer_new SamplePipe.loop) steps with
    | Ret s => Some (size (rq_waiting s)) | Fail _ => None end in
  waiting (take 7 steps) = Some 2%nat ∧ waiting (take 8 steps) = Some 3%nat.
Proof. vm_compute. split; reflexivity. Qed.

(** The queued command is processed and answered, then the receiver stops. *)
Example stops_when_answered :
  match foldM exec server [RqStop; RqProcess env; RqStop; RqReply Claim; RqReply (CommandLoop.Finish 1 true None); RqStop] with
  | Ret s => (rq_replies s).*1 = [1; 0; 3] ∧ rq_down s = true ∧ pending s = []
  | Fail _ => False
  end.
Proof. vm_compute. split_and!; reflexivity. Qed.
End SampleRequests.

(** C6. Every request is answered exactly once.  In whatever order requests arrive,
    waits are given up, commands are processed, reply tasks claimed and finished,
    replies sent or lost, the queue closed and the receiver stopped: no request
    arrives under the address of another, each one that arrived has got one reply,
    or is in one place from which it will be answered, as the handle of one queued
    command or of one open reply task; every object alive is in one place, so that
    none leaks while the server is up; and a step fails only where the command's
    constructor or its processing does: no freed object is used, nothing is started
    on the completion queue after its shutdown. *)
Theorem requests_answered_once crypto groupId info junk loop steps s :
  loop_unanswered loop = [] → foldM (request_exec crypto groupId info junk) (RequestServer_new loop) steps = Ret s →
  (NoDup (rq_arrived s) ∧ rq_arrived s ≡ₚ (rq_replies s).*1 ++ pending s) ∧
  (if rq_down s then pending s = []
   else elements (rq_waiting s) ++ elements (rq_finishing s) ++ pending s ≡ₚ elements (dom (rq_heap s))) ∧
  ∀ step f, request_exec crypto groupId info junk s step = Fail f → may_fail crypto groupId junk s step f.
Proof.
  intros Hl Hr. assert (Hok := request_run_ok crypto groupId info junk loop steps s Hl Hr). split; [|split].
  - destruct Hok as [[_ I2 [I3 _] _]|[_ _ D3 [D4 D5]]]; [done|]. by rewrite D3, app_nil_r.
  - destruct Hok as [[I1 _ _ I4]|[D1 _ D3 _]]; [|by rewrite D1]. rewrite I4. exact (ow_places _ _ _ _ _ _ I1).
  - intros step f Hf. assert (Hs := exec_ok crypto groupId info junk s step Hok). by rewrite Hf in Hs.
Qed.

Lemma requests_answered_once_witness :
  pending SampleRequests.server = [3] ∧
  NoDup (rq_arrived SampleRequests.server) ∧
  rq_arrived SampleRequests.server ≡ₚ (rq_replies SampleRequests.server).*1 ++ pending SampleRequests.server.
Proof.
  split; [vm_compute; reflexivity|].
  destruct (requests_answered_once SamplePipe.crypto 0 (mk_AppInfo 1 0 0) Sample.junk SamplePipe.loop SampleRequests.steps
    SampleRequests.server) as ([Hd Ha] & _ & _).
  - reflexivity.
  - exact SampleRequests.request_run_eq.
  - split; [exact Hd|exact Ha].
Defined.
