(* ===== verification/System.v ===== *)
(** * The system: cluster, pipeline and apply loops together

    What nodes of one run of the cluster have committed is one sequence of entries;
    apply loops that load from them are served that sequence, whatever nodes and
    points of the run they load from, and a success of the reply loop is about it. *)
From S2P Require Import Prelude Protobuf Crypto Domain Es Control Ledger LedgerSM LedgerProps.
From S2P Require Import RaftLog RaftCore RaftHandlers RaftCluster RaftReplication RaftSpec RaftSafety RaftSteps RaftRefine RaftReceive RaftDurable.
From S2P Require Import RaftDurableTheorems Pipeline CommandLoop CommandProps AsyncLoad RocksSM RocksProps ApplyLoop ApplyProps ApplyInv.
Open Scope Z_scope.

(** ** One run of the cluster *)
Section history.
Context `{LogMeta L} `{!LogSpec L} (conf : RaftConf) (addresses : gmap Z string).
Implicit Types (s : Cluster (L:=L)) (c raft : RaftCore L) (h : list (Cluster (L:=L))).
Abbreviation later := (rtc (durable_step conf addresses)).

(** States of one run, in order. *)
Record run_history s0 h : Prop := {
  rh_start : durable_initial conf addresses s0;
  rh_run s : s ∈ h → later s0 s;
  rh_order : StronglySorted later h }.

(** A node as it was at one of them. *)
Definition observed h raft : Prop := ∃ s n, s ∈ h ∧ cl_nodes s !! n = Some raft.

Definition committed_log raft : list LogEntry := take (Z.to_nat (mCommitIndex raft)) (entries_of (core_mLog raft)).

Lemma history_total s0 h s1 s2 : run_history s0 h → s1 ∈ h → s2 ∈ h → later s1 s2 ∨ later s2 s1.
Proof.
  intros [_ _ Hs]. induction Hs as [|s h Hs IH Hall]; intros H1 H2; [by apply elem_of_nil in H1|].
  rewrite Forall_forall in Hall. apply elem_of_cons in H1 as [->|H1], H2 as [->|H2]; [by left|left; auto|right; auto|auto].
Qed.

(** What the relation to the specification says of a node. *)
Lemma observed_node s0 h raft : run_history s0 h → observed h raft →
  whole (core_mLog raft) ∧ 0 ≤ mCommitIndex raft ≤ Z.of_nat (length (entries_of (core_mLog raft))).
Proof.
  intros Hh (s & n & Hs & Hn).
  destruct (durable_run_spec conf addresses s0 s s (rh_start _ _ Hh) (rh_run _ _ Hh s Hs) (rtc_refl _ _)) as (σ & _ & g & Hsafe & HR & _).
  destruct (re_node _ _ HR _ _ Hn) as (a & Ha & Hr). destruct (sf_node _ _ _ Hsafe _ _ Ha) as (_ & _ & _ & Hlen).
  rewrite (nr_entries _ _ _ _ Hr) in Hlen. assert (Hc := nr_commit _ _ _ _ Hr). split; [apply Hr|lia].
Qed.

(** Two nodes agree on what both have committed. *)
Lemma observed_agree_later s0 s1 s2 n1 n2 c1 c2 (k : nat) :
  durable_initial conf addresses s0 → later s0 s1 → later s1 s2 → cl_nodes s1 !! n1 = Some c1 → cl_nodes s2 !! n2 = Some c2 →
  Z.of_nat k < mCommitIndex c1 → Z.of_nat k < mCommitIndex c2 → entries_of (core_mLog c1) !! k = entries_of (core_mLog c2) !! k.
Proof.
  intros Hi H01 H12 Hn1 Hn2 Hk1 Hk2.
  destruct (durable_run_spec conf addresses s0 s1 s2 Hi H01 H12) as (σ1 & σ2 & g1 & Hs1 & HR1 & Hst & HR2).
  destruct (re_node _ _ HR1 _ _ Hn1) as (a1 & Ha1 & Hr1). destruct (re_node _ _ HR2 _ _ Hn2) as (a2 & Ha2 & Hr2).
  assert (K1 := nr_commit _ _ _ _ Hr1). assert (K2 := nr_commit _ _ _ _ Hr2).
  rewrite <- (nr_entries _ _ _ _ Hr1), <- (nr_entries _ _ _ _ Hr2). apply (commits_agree _ _ _ _ _ _ _ _ k Hs1 Hst Ha1 Ha2); lia.
Qed.

Lemma observed_agree s0 h c1 c2 (k : nat) :
  run_history s0 h → observed h c1 → observed h c2 → Z.of_nat k < mCommitIndex c1 → Z.of_nat k < mCommitIndex c2 →
  entries_of (core_mLog c1) !! k = entries_of (core_mLog c2) !! k.
Proof.
  intros Hh (s1 & n1 & Hs1 & Hn1) (s2 & n2 & Hs2 & Hn2) Hk1 Hk2.
  assert (Hi := rh_start _ _ Hh). assert (H1 := rh_run _ _ Hh s1 Hs1). assert (H2 := rh_run _ _ Hh s2 Hs2).
  destruct (history_total s0 h s1 s2 Hh Hs1 Hs2) as [Hl|Hl];
    [exact (observed_agree_later s0 s1 s2 n1 n2 c1 c2 k Hi H1 Hl Hn1 Hn2 Hk1 Hk2)
    |symmetry; exact (observed_agree_later s0 s2 s1 n2 n1 c2 c1 k Hi H2 Hl Hn2 Hn1 Hk2 Hk1)].
Qed.

(** Entries of one term and index are one entry, at any two points of the run. *)
Lemma entry_unique_later s0 s1 s2 n1 n2 c1 c2 k e1 e2 :
  durable_initial conf addresses s0 → later s0 s1 → later s1 s2 → cl_nodes s1 !! n1 = Some c1 → cl_nodes s2 !! n2 = Some c2 →
  entries_of (core_mLog c1) !! k = Some e1 → entries_of (core_mLog c2) !! k = Some e2 → le_term e1 = le_term e2 → e1 = e2.
Proof.
  intros Hi H01 H12 Hn1 Hn2 He1 He2 Ht.
  destruct (durable_run_spec conf addresses s0 s1 s2 Hi H01 H12) as (σ1 & σ2 & g1 & Hs1 & HR1 & Hst & HR2).
  destruct (steps_safe _ _ _ _ Hs1 Hst) as (g2 & Hs2 & Hg).
  destruct (re_node _ _ HR1 _ _ Hn1) as (a1 & Ha1 & Hr1). destruct (re_node _ _ HR2 _ _ Hn2) as (a2 & Ha2 & Hr2).
  destruct (sf_node _ _ _ Hs1 _ _ Ha1) as (_ & R1 & _). destruct (sf_node _ _ _ Hs2 _ _ Ha2) as (_ & R2 & _).
  rewrite (nr_entries _ _ _ _ Hr1) in R1. rewrite (nr_entries _ _ _ _ Hr2) in R2.
  apply (rooted_mono _ (g_log g2)) in R1; [|intros t ll Hl; by apply (gr_log _ _ _ _ Hg)].
  assert (Heq := rooted_match _ _ _ _ _ _ R1 R2 He1 He2 Ht). apply (f_equal (lookup k)) in Heq.
  rewrite !lookup_take_lt in Heq by lia. congruence.
Qed.

Lemma entry_unique s0 h c1 c2 k e1 e2 :
  run_history s0 h → observed h c1 → observed h c2 →
  entries_of (core_mLog c1) !! k = Some e1 → entries_of (core_mLog c2) !! k = Some e2 → le_term e1 = le_term e2 → e1 = e2.
Proof.
  intros Hh (s1 & n1 & Hs1 & Hn1) (s2 & n2 & Hs2 & Hn2) He1 He2 Ht.
  assert (Hi := rh_start _ _ Hh). assert (H1 := rh_run _ _ Hh s1 Hs1). assert (H2 := rh_run _ _ Hh s2 Hs2).
  destruct (history_total s0 h s1 s2 Hh Hs1 Hs2) as [Hl|Hl];
    [exact (entry_unique_later s0 s1 s2 n1 n2 c1 c2 k e1 e2 Hi H1 Hl Hn1 Hn2 He1 He2 Ht)
    |symmetry; exact (entry_unique_later s0 s2 s1 n2 n1 c2 c1 k e2 e1 Hi H2 Hl Hn2 Hn1 He2 He1 (eq_sym Ht))].
Qed.

(** *** The committed sequence *)
Definition all_nodes h : list (RaftCore L) := concat ((λ s, (map_to_list (cl_nodes s)).*2) <$> h).

Lemma observed_elem h raft : observed h raft ↔ raft ∈ all_nodes h.
Proof.
  unfold all_nodes. rewrite list_elem_of_In, in_concat. setoid_rewrite <- list_elem_of_In. split.
  - intros (s & n & Hs & Hn). exists (map_to_list (cl_nodes s)).*2. split; [apply list_elem_of_fmap; by exists s|].
    apply list_elem_of_fmap. exists (n, raft). split; [done|]. by apply elem_of_map_to_list.
  - intros (l & (s & -> & Hs)%list_elem_of_fmap & ([n c] & -> & Hn)%list_elem_of_fmap). exists s, n.
    split; [done|]. by apply elem_of_map_to_list in Hn.
Qed.

Lemma longest_commit (cores : list (RaftCore L)) :
  cores = [] ∨ ∃ top, top ∈ cores ∧ ∀ c, c ∈ cores → mCommitIndex c ≤ mCommitIndex top.
Proof.
  induction cores as [|c cores [->|(top & Htop & Hmax)]]; [by left|right; exists c|right].
  - split; [constructor|]. by intros c' ->%list_elem_of_singleton.
  - destruct (decide (mCommitIndex c ≤ mCommitIndex top)).
    + exists top. split; [by constructor|]. intros c' [->|?]%elem_of_cons; auto.
    + exists c. split; [constructor|]. intros c' [->|Hin]%elem_of_cons; [lia|]. specialize (Hmax c' Hin). lia.
Qed.

(** There is one sequence of which every observed node has committed a prefix; it
    is itself what one of them has committed. *)
Lemma committed_sequence s0 h : run_history s0 h →
  ∃ E, (E = [] ∨ ∃ raft, observed h raft ∧ E = committed_log raft) ∧
    ∀ raft, observed h raft → serves E 0 raft ∧ committed_log raft `prefix_of` E.
Proof.
  intros Hh. destruct (longest_commit (all_nodes h)) as [Hnone|(top & Htop & Hmax)].
  { exists []. split; [by left|]. intros raft Ho%observed_elem. rewrite Hnone in Ho. by apply elem_of_nil in Ho. }
  apply observed_elem in Htop. destruct (observed_node s0 h top Hh Htop) as [_ Hct].
  exists (committed_log top). split; [right; by exists top|]. intros raft Ho.
  destruct (observed_node s0 h raft Hh Ho) as [Hw Hc]. assert (Hle := Hmax raft (proj1 (observed_elem h raft) Ho)).
  assert (Hlook : ∀ k : nat, Z.of_nat k < mCommitIndex raft → entries_of (core_mLog raft) !! k = committed_log top !! k).
  { intros k Hk. unfold committed_log. rewrite lookup_take_lt by lia. apply (observed_agree s0 h); [done..|lia]. }
  assert (Hlen : length (committed_log top) = Z.to_nat (mCommitIndex top)) by (unfold committed_log; rewrite length_take; lia).
  split.
  - split; [|destruct Hw as [_ ->]; lia]. split; [apply Hw|]. split.
    { destruct Hw as [Hi Hf]. rewrite <- spec_last by done. rewrite whole_last by done. lia. }
    split; [lia|]. intros i Hi. destruct Hw as [Hinv Hf] eqn:Ew. rewrite Hf in Hi.
    replace i with (Z.of_nat (S (Z.to_nat (i - 1)))) at 1 by lia. rewrite whole_lookup by done. apply Hlook. lia.
  - assert (Hpre : committed_log raft = take (Z.to_nat (mCommitIndex raft)) (committed_log top)); [|rewrite Hpre; apply prefix_take].
    apply list_eq. intros k. destruct (decide (k < Z.to_nat (mCommitIndex raft))%nat) as [Hk|Hk].
    + unfold committed_log at 1. rewrite !lookup_take_lt by lia. apply Hlook. lia.
    + rewrite !lookup_ge_None_2; [done|rewrite length_take; lia|unfold committed_log; rewrite length_take; lia].
Qed.
End history.

(** ** Apply loops on the nodes of a run *)
Section replicas.
Context `{LedgerProtos} `{PA : Proto protos_Account} `{PM : Proto protos_AccountMetadata} `{RocksDB D B}.
Context `{Proto RaftPayload} `{OpenSSL} `{LogMeta L} `{!LogSpec L} (conf : RaftConf) (addresses : gmap Z string).
Context (junk : MetaData) (ejunk : EventMetaData) (crypto : CryptoUtil) (groupId : Z) (st0 : AppStateMachine) (empty : B).
Abbreviation Loop := (EventApplyLoop (RocksDBBackedAppStateMachine D B)).
Abbreviation Step := (EalStep (T := MemoryBackedAppStateMachine D) L).
Abbreviation decode := (decryptEntries junk ejunk crypto).
Implicit Types (e : Loop) (h : list (Cluster (L:=L))).

(** The loop loads from nodes of the run only. *)
Definition step_observed h (step : Step) : Prop :=
  match step with EalThread (ThLoad raft) => observed h raft | _ => True end.

(** A replica: an apply loop started on the database of a node that has never run,
    after some steps, and running. *)
Record replica h (db : D) (steps : list Step) e : Prop := {
  rp_wf : tables_wf (tables st0);
  rp_fresh : mirrors (db_view db) (tables st0) ∧ stored_index (db_view db) = Ret 0;
  rp_run : ∃ e0, EAL_new (T := MemoryBackedAppStateMachine D) (mk_Rocks st0 db empty 0) = Ret e0 ∧
    foldM (eal_exec (L := L) groupId junk ejunk crypto (rocks_survives st0 empty)) e0 steps = Ret e;
  rp_observed : Forall (step_observed h) steps;
  rp_running : eal_locked e = false ∧ mShouldRecover e = false }.

(** What every node has committed are entries such as leaders make them. *)
Definition logs_ok h : Prop := ∀ raft, observed h raft → log_ok junk ejunk crypto (committed_log raft).

Lemma log_ok_nil : log_ok junk ejunk crypto [].
Proof. split; [done|by exists []|]. intros k x b Hk. done. Qed.

(** A prefix of such a log is one too. *)
Lemma log_ok_take E n : log_ok junk ejunk crypto E → log_ok junk ejunk crypto (take n E).
Proof.
  intros [Hlen (bs & Hbs) Hentry]. split; [rewrite length_take; lia| |].
  - destruct (decode_take _ _ _ n _ _ Hbs) as (b1 & Hb1 & _). by exists b1.
  - intros k x b Hk Hb. destruct (decide (k < n)%nat) as [Hlt|Hge]; [|by rewrite lookup_take_ge in Hk by lia].
    rewrite lookup_take_lt in Hk by done. by apply (Hentry k x b).
Qed.

(** The committed sequence of the run, and every replica at a point of it. *)
Lemma replicas_follow s0 h : run_history conf addresses s0 h → logs_ok h → batch_view empty = [] →
  ∃ E, log_ok junk ejunk crypto E ∧
    (∀ raft, observed h raft → committed_log raft `prefix_of` E) ∧
    ∀ db steps e, replica h db steps e →
      ∃ (A : nat) bs, EAL_lastApplied e = Z.of_nat A ∧ (A ≤ length E)%nat ∧ decode (take A E) = Ret bs ∧
        bundles_tables (tables st0) bs = Ret (tables (rsm_state (eal_machine e))).
Proof.
  intros Hh Hlogs Hempty. destruct (committed_sequence conf addresses s0 h Hh) as (E & HE & Hobs). exists E.
  assert (Hlog : log_ok junk ejunk crypto E).
  { destruct HE as [->|(raft & Ho & ->)]; [apply log_ok_nil|by apply Hlogs]. }
  split; [done|]. split; [intros raft Ho; by apply Hobs|].
  intros db steps e [Hwf [Hm Hi] (e0 & Hnew & Hrun) Hsteps [Hl Hr]].
  assert (He0 : eal_inv junk ejunk crypto E st0 e0).
  { eapply (new_inv _ _ _ _ _ _ Hempty (mk_Rocks st0 db empty 0)); [by apply first_disk|exact Hnew]. }
  assert (Hserve : Forall (step_serves E) steps).
  { eapply Forall_impl; [exact Hsteps|]. intros [|[]| | |]; simpl; try done. intros Ho. by apply Hobs. }
  assert (Hst := schedule_reaches _ _ _ _ _ _ _ Hlog Hempty _ _ _ He0 Hserve Hrun).
  assert (He := eal_steps_inv _ _ _ _ _ _ _ Hlog Hempty _ _ He0 Hst). unfold eal_inv in He. rewrite Hl, Hr in He.
  destruct He as [A [I1 I2 _ _ _ _ (bs & Hbs & Ha)]]. by exists A, bs.
Qed.

End replicas.

(** ** The reply loop

    What a sample says: the commit index of a node at a point of the run and, when
    it has reached [index], the entry there, read from the same node later. *)
Section replies.
Context `{LogMeta L} `{!LogSpec L} (conf : RaftConf) (addresses : gmap Z string).
Implicit Types (h : list (Cluster (L:=L))) (sample : CommitSample).
Abbreviation later := (rtc (durable_step (L := L) conf addresses)).

Definition sampled h (index : Z) sample : Prop :=
  ∃ n s1 s2 raft raft', s1 ∈ h ∧ s2 ∈ h ∧ later s1 s2 ∧ cl_nodes s1 !! n = Some raft ∧ cl_nodes s2 !! n = Some raft' ∧
    cs_commit sample = mCommitIndex raft ∧
    (index ≤ cs_commit sample → cs_entry sample = lv_lookup (log_view (core_mLog raft')) index).

(** The entry at a committed index is still there later. *)
Lemma committed_stays s0 s1 s2 n c1 c2 (k : nat) :
  durable_initial conf addresses s0 → later s0 s1 → later s1 s2 → cl_nodes s1 !! n = Some c1 → cl_nodes s2 !! n = Some c2 →
  Z.of_nat k < mCommitIndex c1 → entries_of (core_mLog c2) !! k = entries_of (core_mLog c1) !! k.
Proof.
  intros Hi H01 H12 Hn1 Hn2 Hk.
  destruct (durable_run_spec conf addresses s0 s1 s2 Hi H01 H12) as (σ1 & σ2 & g1 & Hs1 & HR1 & Hst & HR2).
  destruct (re_node _ _ HR1 _ _ Hn1) as (a1 & Ha1 & Hr1). destruct (re_node _ _ HR2 _ _ Hn2) as (a2 & Ha2 & Hr2).
  assert (K1 := nr_commit _ _ _ _ Hr1). destruct (sf_node _ _ _ Hs1 _ _ Ha1) as (_ & _ & _ & Hlen).
  rewrite <- (nr_entries _ _ _ _ Hr1), <- (nr_entries _ _ _ _ Hr2).
  destruct (lookup_lt_is_Some_2 (sn_log a1) k) as [x Hx]; [lia|]. rewrite Hx.
  apply (prefix_lookup_Some (take (sn_commit a1) (sn_log a1))); [by rewrite lookup_take_lt by lia|by eapply committed_kept].
Qed.

(** A success of the wait for an entry of term [term] at [index], which some node
    had in its log: the entry is in the committed sequence. *)
Lemma acknowledged_committed s0 h E lead entry index term samples :
  run_history conf addresses s0 h → (∀ raft, observed h raft → committed_log raft `prefix_of` E) →
  observed h lead → 1 ≤ index → lv_lookup (log_view (core_mLog lead)) index = Some entry → le_term entry = term →
  Forall (sampled h index) samples → waitTillCommittedOrQuit index term samples = Ret (Some true) →
  E !! Z.to_nat (index - 1) = Some entry.
Proof.
  intros Hh Hprefix Hlead Hindex Hentry Hterm Hsamples Hwait.
  destruct (wait_committed _ _ _ _ Hwait) as (sample & Hin & _ & _ & Hcommit & e' & He' & Ht').
  rewrite Forall_forall in Hsamples. destruct (Hsamples sample Hin) as (n & s1 & s2 & raft & raft' & Hs1 & Hs2 & Hl & Hn1 & Hn2 & Hc & Hread).
  specialize (Hread Hcommit). rewrite He' in Hread. symmetry in Hread.
  assert (Ho1 : observed h raft) by (by exists s1, n). assert (Ho2 : observed h raft') by (by exists s2, n).
  destruct (observed_node _ _ _ _ _ Hh Ho1) as [Hw1 Hc1]. destruct (observed_node _ _ _ _ _ Hh Ho2) as [Hw2 _].
  destruct (observed_node _ _ _ _ _ Hh Hlead) as [Hwl _].
  set (k := Z.to_nat (index - 1)). assert (Ei : index = Z.of_nat (S k)) by lia. rewrite Ei, whole_lookup in Hentry, Hread by done.
  assert (e' = entry) as -> by (apply (entry_unique _ _ _ _ _ _ k _ _ Hh Ho2 Hlead Hread Hentry); congruence).
  rewrite (committed_stays s0 s1 s2 n raft raft' k (rh_start _ _ _ _ Hh) (rh_run _ _ _ _ Hh s1 Hs1) Hl Hn1 Hn2) in Hread by lia.
  apply (prefix_lookup_Some (committed_log raft)); [|by apply Hprefix].
  unfold committed_log. by rewrite lookup_take_lt by lia.
Qed.
End replies.
