(* ===== verification/SystemTheorems.v ===== *)
(** * The system: the theorems

    Replicas of one cluster never diverge, and what a client is told has succeeded
    is part of every replica's state; with a run of three nodes in which two
    commands are processed, replicated, committed and applied on two of them. *)
From S2P Require Import Prelude Protobuf Crypto Domain Es Control Ledger LedgerSM LedgerProps LedgerTheorems.
From S2P Require Import RaftLog RaftCore RaftHandlers RaftCluster RaftRefine RaftTheorems RaftDurable RaftDurableTheorems.
From S2P Require Import Pipeline CommandLoop CommandProps CommandTheorems AsyncLoad AsyncTheorems RocksSM RocksProps RocksTheorems.
From S2P Require Import ApplyLoop ApplyProps ApplyInv ApplyTheorems System.
Open Scope Z_scope.

(** ** A run of three nodes

    After the run of RaftDurableTheorems.v node 1 leads and has committed its first
    entry.  Two commands are processed (Pipeline.v), their entries appended by node
    1, sent to node 2, acknowledged and committed; node 2 learns of it from the
    next request. *)
Import Wire.
Import (hints) SampleRaft XorSSL SamplePipe MapDB.
Module SampleSystem.
Import SampleRaft.
Definition t2 : RaftEnv := mk_RaftEnv 90000000 0.
Definition t3 : RaftEnv := mk_RaftEnv 120000000 0.
Definition go (s : Cluster) (l : list (Z * RaftEnv * Input)) : Cluster :=
  match run_schedule SampleRun.nodes s l with Ret s => s | Fail _ => start end.
Definition proposing : list (Z * RaftEnv * Input) :=
  [(1, t2, RunEvent (ClientRequestsEvent SamplePipe.requests));
   (1, t2, RunEvent (AppendEntriesResponseEvent 2 StatusOK (mk_AE_Response 1 true 2 1 1 1 1))); (1, t2, RunAppendEntries)].
Definition proposed : Cluster := go SampleRun.learned proposing.
Definition data : AE_Request := mk_AE_Request 1 1 1 1 (map cr_mEntry SamplePipe.requests) 1.
Definition committing : list (Z * RaftEnv * Input) :=
  [(2, t2, RunEvent (AppendEntriesRequestEvent 1 data));
   (1, t2, RunEvent (AppendEntriesResponseEvent 2 StatusOK (mk_AE_Response 1 true 2 1 1 3 3)));
   (1, t2, RunAdvanceCommitIndex); (1, t3, RunAppendEntries)].
Definition agreed : Cluster := go proposed committing.
Definition telling : list (Z * RaftEnv * Input) :=
  [(2, t3, RunEvent (AppendEntriesRequestEvent 1 (mk_AE_Request 1 1 3 1 [] 3)))].
Definition told : Cluster := go agreed telling.
Definition history : list Cluster := [proposed; agreed; told].

Example history_indices : map (λ s, (mCommitIndex (at_node s 1), mCommitIndex (at_node s 2))) history = [(1, 1); (3, 1); (3, 3)].
Proof. vm_compute. reflexivity. Qed.

Lemma go_run s l : forallb (λ x, negb (truncates x)) l = true → ok (run_schedule SampleRun.nodes s l) = true →
  rtc (durable_step conf SampleRun.nodes) s (go s l).
Proof.
  intros Ht Hok. apply (run_schedule_durable conf SampleRun.nodes s l); [done|]. unfold go. by destruct (run_schedule _ _ _).
Qed.

Lemma proposed_run : rtc (durable_step conf SampleRun.nodes) SampleRun.learned proposed.
Proof. apply go_run; [reflexivity|vm_compute; reflexivity]. Qed.
Lemma agreed_run : rtc (durable_step conf SampleRun.nodes) proposed agreed.
Proof. apply go_run; [reflexivity|vm_compute; reflexivity]. Qed.
Lemma told_run : rtc (durable_step conf SampleRun.nodes) agreed told.
Proof. apply go_run; [reflexivity|vm_compute; reflexivity]. Qed.

Lemma sorted_3 {A} (R : relation A) `{!Transitive R} s1 s2 s3 : R s1 s2 → R s2 s3 → StronglySorted R [s1; s2; s3].
Proof. intros H12 H23. assert (R s1 s3) by (by trans s2). by repeat constructor. Qed.

Lemma is_history : run_history conf SampleRun.nodes start history.
Proof.
  assert (Hp : rtc (durable_step conf SampleRun.nodes) start proposed) by (etrans; [exact SampleRun.to_learned|exact proposed_run]).
  assert (Ha : rtc (durable_step conf SampleRun.nodes) start agreed) by (etrans; [exact Hp|exact agreed_run]).
  split; [exact SampleRun.start_durable| |].
  - intros s [->|[->|[->|[]%elem_of_nil]%elem_of_cons]%elem_of_cons]%elem_of_cons; [exact Hp|exact Ha|].
    etrans; [exact Ha|exact told_run].
  - apply sorted_3; [apply _|exact agreed_run|exact told_run].
Qed.

Definition prefix_of_load (raft : RaftCore InMemoryLog) : bool :=
  bool_decide (committed_log raft = take (Z.to_nat (mCommitIndex raft)) SampleLoad.entries).

Lemma committed_logs : forallb prefix_of_load (all_nodes history) = true.
Proof. vm_compute. reflexivity. Qed.

Lemma history_logs_ok : logs_ok Sample.junk Sample.ejunk SamplePipe.crypto history.
Proof.
  intros raft Ho%observed_elem. assert (Hl := committed_logs). rewrite forallb_forall in Hl.
  apply list_elem_of_In in Ho. apply Hl in Ho. unfold prefix_of_load in Ho. apply bool_decide_eq_true in Ho. rewrite Ho.
  apply log_ok_take. exact SampleApply.sample_log_ok.
Qed.

(** Two replicas: one loads from node 1 and applies some of what it loads, the other
    from node 2 and applies it all. *)
Definition threads (raft : RaftCore InMemoryLog) : list SampleApply.Step :=
  map EalThread [ThLoadEnter; ThDecryptEnter; ThLoad raft; ThPush; ThClaim; ThFinish 0].
Definition steps1 : list SampleApply.Step := threads (at_node agreed 1) ++ [EalTurn].
Definition steps2 : list SampleApply.Step := threads (at_node told 2) ++ [EalTurn; EalTurn; EalTurn].
Definition replica1 := SampleApply.run SampleApply.start steps1.
Definition replica2 := SampleApply.run SampleApply.start steps2.

Lemma at_node_eq s n : bool_decide (is_Some (cl_nodes s !! n)) = true → cl_nodes s !! n = Some (at_node s n).
Proof. intros [c Hc]%bool_decide_eq_true. unfold at_node. by rewrite Hc. Qed.

Lemma node_1 : cl_nodes agreed !! 1 = Some (at_node agreed 1).
Proof. apply at_node_eq. vm_compute. reflexivity. Qed.
Lemma node_2 : cl_nodes told !! 2 = Some (at_node told 2).
Proof. apply at_node_eq. vm_compute. reflexivity. Qed.

Lemma observed_1 : observed history (at_node agreed 1).
Proof. exists agreed, 1. split; [apply list_elem_of_further, list_elem_of_here|exact node_1]. Qed.
Lemma observed_2 : observed history (at_node told 2).
Proof. exists told, 2. split; [do 2 apply list_elem_of_further; apply list_elem_of_here|exact node_2]. Qed.

Lemma run1_eq : foldM SampleApply.exec SampleApply.start steps1 = Ret replica1.
Proof. apply SampleApply.run_ok. vm_compute. reflexivity. Qed.
Lemma run2_eq : foldM SampleApply.exec SampleApply.start steps2 = Ret replica2.
Proof. apply SampleApply.run_ok. vm_compute. reflexivity. Qed.
Lemma replica_indices : EAL_lastApplied replica1 = 2 ∧ EAL_lastApplied replica2 = 3.
Proof. split; vm_compute; reflexivity. Qed.
Lemma replicas_running : (eal_locked replica1 = false ∧ mShouldRecover replica1 = false) ∧
  (eal_locked replica2 = false ∧ mShouldRecover replica2 = false).
Proof. split; split; vm_compute; reflexivity. Qed.

Abbreviation sample_replica := (replica Sample.junk Sample.ejunk SamplePipe.crypto 0 SampleApply.st0 ([] : list PutOp) history (∅ : KV)).

Lemma threads_observed raft steps : observed history raft → Forall (step_observed history) steps →
  Forall (step_observed history) (threads raft ++ steps).
Proof. intros Ho Hs. unfold threads. simpl. repeat (constructor; [done|]). done. Qed.

Lemma replica1_ok : sample_replica steps1 replica1.
Proof.
  destruct SampleApply.db_disk as (Hwf & Hm & Hi). split; [exact Hwf|exact (conj Hm Hi)| | |exact (proj1 replicas_running)].
  - exists SampleApply.start. exact (conj SampleApply.start_eq run1_eq).
  - apply threads_observed; [exact observed_1|by repeat constructor].
Qed.

Lemma replica2_ok : sample_replica steps2 replica2.
Proof.
  destruct SampleApply.db_disk as (Hwf & Hm & Hi). split; [exact Hwf|exact (conj Hm Hi)| | |exact (proj2 replicas_running)].
  - exists SampleApply.start. exact (conj SampleApply.start_eq run2_eq).
  - apply threads_observed; [exact observed_2|by repeat constructor].
Qed.

(** The first command: the request made of it, its entry in the log of node 1, and
    what the reply loop reads of node 1 before and after the commit. *)
Definition first : PersistEntry := default SamplePipe.entry (queued SamplePipe.after !! 0%nat).
Definition first_events : list Event := Eval vm_compute in pe_events first.
Definition request : ClientRequest := SamplePipe.made first.
Definition task : Task := mk_Task 2 1 (Some 7) 200 "Success" 1.
Definition samples : list CommitSample :=
  [mk_CommitSample 1 3 1 1 None; mk_CommitSample 1 3 1 3 (lv_lookup (log_view (core_mLog (at_node agreed 1))) 2)].

Lemma request_made : make_request SamplePipe.size SamplePipe.crypto first = Ret request.
Proof. apply SamplePipe.made_eq. vm_compute. reflexivity. Qed.

Lemma first_command_wf : Command_wf (pe_command first).
Proof. Sample.wf_command. Qed.

Lemma first_events_eq : pe_events first = first_events.
Proof. vm_compute. reflexivity. Qed.

Lemma first_events_wf : Forall Event_wf (pe_events first) ∧ pe_events first ≠ [].
Proof.
  rewrite first_events_eq. split; [|done]. constructor; [|constructor].
  split; [reflexivity|]. split; [reflexivity|]. vm_compute. split_and!; congruence.
Qed.

Lemma observed_0 : observed history (at_node proposed 1).
Proof. exists proposed, 1. split; [apply list_elem_of_here|apply at_node_eq; vm_compute; reflexivity]. Qed.

Lemma entry_in_log : lv_lookup (log_view (core_mLog (at_node proposed 1))) 2 = Some (cr_mEntry request).
Proof. apply (bool_decide_unpack _). vm_compute. exact I. Qed.

Lemma samples_read : Forall (sampled conf SampleRun.nodes history 2) samples.
Proof.
  assert (Hp : cl_nodes proposed !! 1 = Some (at_node proposed 1)) by (apply at_node_eq; vm_compute; reflexivity).
  repeat constructor.
  - exists 1, proposed, proposed, (at_node proposed 1), (at_node proposed 1). split_and!; [apply list_elem_of_here..|done|exact Hp|exact Hp| |].
    + vm_compute. reflexivity.
    + intros Hc. simpl in Hc. lia.
  - exists 1, agreed, agreed, (at_node agreed 1), (at_node agreed 1).
    split_and!; [apply list_elem_of_further, list_elem_of_here..|done|exact node_1|exact node_1| |].
    + vm_compute. reflexivity.
    + intros _. reflexivity.
Qed.
End SampleSystem.

(** ** The theorems *)
Section theorems.
Context `{LedgerProtos} `{PA : Proto protos_Account} `{PM : Proto protos_AccountMetadata} `{RocksDB D B}.
Context `{Proto RaftPayload} `{OpenSSL} `{LogMeta L} `{!LogSpec L} (conf : RaftConf) (addresses : gmap Z string).
Context (junk : MetaData) (ejunk : EventMetaData) (crypto : CryptoUtil) (groupId : Z) (st0 : AppStateMachine) (empty : B).
Abbreviation replica := (replica (L := L) (D := D) junk ejunk crypto groupId st0 empty).
Abbreviation logs_ok := (logs_ok (L := L) junk ejunk crypto).
Abbreviation tables_after := (bundles_tables (tables st0)).

(** C4. Replicas never diverge.  Take any run of the cluster, with its lost and
    delayed messages, elections and crashes, in which what nodes have committed are
    entries such as leaders make them (the keys decrypt them, ids are indices, events
    are well formed), and two apply loops that started on databases of nodes that had
    never run and load from whatever nodes and points of the run, through turns,
    hand-overs and restarts of their own that did not fail.  When both are running,
    the accounts and metadata of the one whose applied index is smaller are those of
    an earlier point of one sequence of events that leads to those of the other;
    with the same applied index they are equal. *)
Theorem replicas_never_diverge s0 h db1 db2 steps1 steps2 e1 e2 :
  run_history conf addresses s0 h → logs_ok h → batch_view empty = [] →
  replica h db1 steps1 e1 → replica h db2 steps2 e2 → EAL_lastApplied e1 ≤ EAL_lastApplied e2 →
  (∃ bs more, tables_after bs = Ret (tables (rsm_state (eal_machine e1))) ∧
     tables_after (bs ++ more) = Ret (tables (rsm_state (eal_machine e2)))) ∧
  (EAL_lastApplied e1 = EAL_lastApplied e2 → tables (rsm_state (eal_machine e1)) = tables (rsm_state (eal_machine e2))).
Proof.
  intros Hh Hlogs Hempty Hr1 Hr2 Hle.
  destruct (replicas_follow conf addresses junk ejunk crypto groupId st0 empty s0 h Hh Hlogs Hempty) as (E & _ & _ & Hfollow).
  destruct (Hfollow _ _ _ Hr1) as (A1 & bs1 & HA1 & _ & Hbs1 & Ht1).
  destruct (Hfollow _ _ _ Hr2) as (A2 & bs2 & HA2 & _ & Hbs2 & Ht2).
  destruct (decode_take junk ejunk crypto A1 (take A2 E) bs2 Hbs2) as (bs & Hbs & more & ->).
  rewrite take_take, Nat.min_l in Hbs by lia. assert (bs = bs1) as -> by congruence.
  split; [by exists bs1, more|]. intros Heq. assert (A1 = A2) as -> by lia.
  assert (bs1 = bs1 ++ more) as Hm by congruence. rewrite <- Hm in Ht2. congruence.
Qed.

(** C5. Success means applied.  In a run as in C4, let a leader have made an entry of
    a command and its events (well formed, with a key version when it encrypts), let
    that entry have been at the index and term of the reply task in the log of some
    node of the run, and let the reply loop answer the client with another code than
    301 from readings of nodes of the run.  Then the entry is in the sequence every
    node commits: on each replica of the run whose applied index has reached it, the
    accounts and metadata are those after some bundles, then exactly this command's
    events, then more; under whatever keys are added to the replica's in the
    meantime. *)
Theorem success_means_applied s0 h ByteSizeLong writer p request lead task samples b hint reply db steps e :
  run_history conf addresses s0 h → logs_ok h → batch_view empty = [] →
  make_request ByteSizeLong writer p = Ret request → extends_keys writer crypto →
  (mEnabled writer = true → le_secret_key_version (cr_mEntry (pe_request p)) ≠ kInvalidSecKeyVersion) →
  le_noop (cr_mEntry (pe_request p)) = false → Command_wf (pe_command p) → Forall Event_wf (pe_events p) → pe_events p ≠ [] →
  observed h lead → 1 ≤ task_index task → lv_lookup (log_view (core_mLog lead)) (task_index task) = Some (cr_mEntry request) →
  le_term (cr_mEntry request) = task_term task →
  Forall (sampled conf addresses h (task_index task)) samples →
  waitTillCommittedOrQuit (task_index task) (task_term task) samples = Ret (Some b) →
  replyTask task b hint = Some reply → reply_code reply ≠ 301 →
  replica h db steps e → task_index task ≤ EAL_lastApplied e →
  ∃ before after,
    tables_after (before ++ (Some (Command_persisted (pe_command p)), map (λ ev, Some (Event_persisted ev)) (pe_events p)) :: after) =
      Ret (tables (rsm_state (eal_machine e))).
Proof.
  intros Hh Hlogs Hempty Hmade Hkeys Hversion Hnoop Hcw Hew Hne Hlead Hindex Hentry Hterm Hsamples Hwait Hreply Hcode Hrep Happlied.
  assert (b = true) as ->.
  { destruct b; [done|]. unfold replyTask in Hreply. destruct (task_handle task); [|done]. injection Hreply as <-. by destruct Hcode. }
  destruct (replicas_follow conf addresses junk ejunk crypto groupId st0 empty s0 h Hh Hlogs Hempty) as (E & _ & Hprefix & Hfollow).
  assert (HE := acknowledged_committed conf addresses s0 h E lead _ _ _ _ Hh Hprefix Hlead Hindex Hentry Hterm Hsamples Hwait).
  destruct (Hfollow _ _ _ Hrep) as (A & bs & HA & HAlen & Hbs & Ht). set (k := Z.to_nat (task_index task - 1)) in *.
  assert (HkA : take A E !! k = Some (cr_mEntry request)) by (rewrite lookup_take_lt by lia; done).
  rewrite <- (take_drop_middle _ _ _ HkA) in Hbs.
  apply decode_app_inv in Hbs as (before & rest & _ & Hrest & ->). rewrite decode_cons in Hrest.
  rewrite (decryptEntry_make_request ByteSizeLong junk ejunk writer crypto p request) in Hrest by done. simpl in Hrest.
  apply bind_Ret in Hrest as (after & _ & [= <-]). by exists before, after.
Qed.
End theorems.

(** ** The run satisfies them *)
Lemma replicas_never_diverge_witness :
  EAL_lastApplied SampleSystem.replica1 = 2 ∧ EAL_lastApplied SampleSystem.replica2 = 3 ∧
  ∃ bs more, bundles_tables (tables SampleApply.st0) bs = Ret (tables (rsm_state (eal_machine SampleSystem.replica1))) ∧
    bundles_tables (tables SampleApply.st0) (bs ++ more) = Ret (tables (rsm_state (eal_machine SampleSystem.replica2))).
Proof.
  split; [exact (proj1 SampleSystem.replica_indices)|]. split; [exact (proj2 SampleSystem.replica_indices)|].
  destruct (replicas_never_diverge SampleRaft.conf SampleRun.nodes Sample.junk Sample.ejunk SamplePipe.crypto 0 SampleApply.st0
    ([] : list PutOp) SampleRaft.start SampleSystem.history (∅ : KV) (∅ : KV) SampleSystem.steps1 SampleSystem.steps2
    SampleSystem.replica1 SampleSystem.replica2) as [Hp _].
  - exact SampleSystem.is_history.
  - exact SampleSystem.history_logs_ok.
  - exact SampleApply.no_puts.
  - exact SampleSystem.replica1_ok.
  - exact SampleSystem.replica2_ok.
  - rewrite (proj1 SampleSystem.replica_indices), (proj2 SampleSystem.replica_indices). lia.
  - exact Hp.
Defined.

Lemma success_means_applied_witness :
  ∃ before after,
    bundles_tables (tables SampleApply.st0) (before ++ (Some (Command_persisted (pe_command SampleSystem.first)),
      map (λ ev, Some (Event_persisted ev)) (pe_events SampleSystem.first)) :: after) =
      Ret (tables (rsm_state (eal_machine SampleSystem.replica2))).
Proof.
  apply (success_means_applied SampleRaft.conf SampleRun.nodes Sample.junk Sample.ejunk SamplePipe.crypto 0 SampleApply.st0
    ([] : list PutOp) SampleRaft.start SampleSystem.history SamplePipe.size SamplePipe.crypto SampleSystem.first SampleSystem.request
    (SampleRaft.at_node SampleSystem.proposed 1) SampleSystem.task SampleSystem.samples true None (mk_Reply 7 200 "Success" None)
    (∅ : KV) SampleSystem.steps2 SampleSystem.replica2).
  - exact SampleSystem.is_history.
  - exact SampleSystem.history_logs_ok.
  - exact SampleApply.no_puts.
  - exact SampleSystem.request_made.
  - apply extends_keys_refl.
  - vm_compute. congruence.
  - vm_compute. reflexivity.
  - exact SampleSystem.first_command_wf.
  - exact (proj1 SampleSystem.first_events_wf).
  - exact (proj2 SampleSystem.first_events_wf).
  - exact SampleSystem.observed_0.
  - vm_compute. congruence.
  - exact SampleSystem.entry_in_log.
  - vm_compute. reflexivity.
  - exact SampleSystem.samples_read.
  - vm_compute. reflexivity.
  - reflexivity.
  - vm_compute. congruence.
  - exact SampleSystem.replica2_ok.
  - rewrite (proj2 SampleSystem.replica_indices). vm_compute. congruence.
Defined.
